(* ===== verification/_CoqProject ===== *)
-Q . S2P
Prelude.v
Slices.v
BTree.v
Text.v
Float64.v
Float32.v
Decimal.v
Wire.v
WireSchema.v
WireValue.v
Store.v
MockStore.v
Robust.v
Capture.v
Mapper.v
Tcp.v
Typed.v
Source.v
Reopen.v
ViewPanels.v
ViewCamera.v
ViewGroups.v
ViewMarkers.v
Layout.v
LayoutApply.v
LayoutV4.v
LogView.v
Colours.v
Lanes.v
Interact.v
Plots.v
Drawn.v
Screen.v
AppText.v
AppTree.v
AppState.v
AppTabs.v
AppFrame.v
AppInv.v
App.v
System.v
Xtask.v
CTypes.v
CRing.v
CRace.v
CSchema.v
CServe.v
CFormat.v
CUdp.v
