(* ===== verification/Prelude.v ===== *)
(** * btelem: verification of the telemetry library and its viewer

    btelem is a telemetry system: an embedded C library (include, src) logs
    timestamped records into a ring and streams them in packets, described by a
    binary schema; a Rust viewer (viewer/crates) receives, stores, records and
    plots them.  This library models both ends and proves what makes them correct,
    each alone and joined by the link.

    ** The program

    - btelem-wire decodes schema blobs, packets and field values.
    - btelem-store holds channels and answers time-window queries; the viewer
      sees it only through the [Store] trait.
    - btelem-capture keeps the raw packets of a session in a bounded ring and
      writes and reads .btlm files.
    - btelem-ingest turns a schema into channels, dispatches decoded packets to
      the store, and runs the TCP session with reconnection.
    - btelem-viewer holds the view state (plots, camera, groups, markers), saves
      and restores layouts and captures, draws, and reacts to the user, one frame
      at a time.

    - xtask is a headless soak harness: it drives the ingest and the store for a
      while and prints a report.
    - The C library: any number of producers log into a lock-free ring; each client
      has a cursor into it and drains entries one by one or in packets; the schema
      is written to a buffer or streamed; a TCP server gives every connection a
      client and a thread; a UDP server sends each entry as a line of JSON.

    Data flows producers -> ring -> packets -> TCP stream -> packet decoder -> channel map -> store, with every
    packet teed to the capture ring; the viewer queries the store.  A receiver
    thread fills the store while the window's thread runs frames.

    ** The files

    - Prelude: outcomes of Rust code (value, error, panic) and their monad,
      fixed-width arithmetic in both build profiles, bytes, byte slices, hash
      maps; the tactics [inv_bind], [seg_split], [blen_lia] and the rewrite
      database [blen].
    - Slices, BTree, Text, Float64, Float32, Decimal: what the code uses of the
      standard library (binary search, step_by, stable sort; ordered maps; UTF-8
      strings; IEEE 754 numbers and how they are printed).
    - Wire (btelem-wire/src/lib.rs, packet.rs), WireSchema (schema.rs),
      WireValue (value.rs): the decoders, one definition per Rust function.
    - Store (btelem-store/src/lib.rs): the trait as the class [Store], its
      documented contract as the class [StoreLaws].  MockStore (mock.rs): the
      in-memory store as a state machine on [Inner]; it is an instance of both.
      Robust: in a release build its queries return whatever was pushed, time
      stamps out of order included.
    - Capture (btelem-capture/src/lib.rs): ring, statistics, .btlm codec,
      calendar.
    - Mapper (btelem-ingest/src/mapper.rs), Tcp (tcp.rs, lib.rs): channel
      registration and dispatch; the session over a scripted environment of
      chunks, faults, refusals and stop-flag observations.  Typed: ingest keeps
      every channel to its kind, whatever is received; what registration needs.
      Source (tcp.rs): the receiver thread as a machine that moves from one load of
      the stop flag to the next, and the handle that owns it; proved equal to the
      loops of Tcp.
    - ViewPanels, ViewCamera, ViewGroups, ViewMarkers (btelem-viewer/src/
      view_state.rs): plots and registry, time axis, grouping and connection
      strings, the marker graph.
    - Layout (btelem-viewer/src/layout.rs): capture, apply, migration of old
      files, layout files; LayoutApply: applying any layout gives a well-formed
      workspace; LayoutV4: the migration of version 4 marker chains.
    - LogView, Colours, Lanes, Interact, Plots (btelem-viewer/src/
      plot_renderers.rs): the log table and its filters, colours, logic-analyser
      lanes, gestures of the mouse, scalar and XY plots; Drawn: drawing returns;
      Screen: the log table, titles, labels and legends as they are displayed.
      What the toolkit reports (pointer, clicks, sizes, plot transform) is an
      input; what is put on the screen is the result.
    - Reopen (app.rs, replaying a capture file into the store and the ring),
      AppText (formatting, paths), AppTree (the channel tree), AppState (the
      application's state, captures, layouts, dialogs), AppTabs (tabs, drops, what
      the renderers change), AppFrame (keys, top bar, cursor panel, [update],
      start), AppInv (what every frame preserves), App (whole frames and whole
      sessions).
    - System: the viewer and its receiver thread interleaved; the thread lives in
      the handle the application owns, and a run is any sequence of receiver turns
      and frames.
    - Xtask (viewer/xtask/src/main.rs): the soak harness.
    - CTypes (include/btelem/btelem_types.h, btelem.h): the structs and the ring's
      arithmetic.  CRing (src/btelem.c, the macro [BTELEM_LOG_ID]): registration,
      clients and the two drains, against the promise [Faithful] of what a reader
      of the ring sees.  CRace: producers and a reader interleaved byte by byte;
      the ring keeps the promise.  CSchema (src/btelem.c): the two schema writers.
      CServe (src/btelem_serve.c): sending, the client thread, the server's tables,
      and the composition with the viewer's receiver (Tcp).  CFormat: the [%.8g] of
      [snprintf].  CUdp (src/btelem_serve_udp.c): the JSON text in its buffer, the
      drain callback, thread, start and stop.

    Definitions keep the names of the code; a method that two types share is
    prefixed with its type ([scalar_add], [logic_add]).  A [&mut self] method
    returns the new state, a mutable reference becomes an update function, a
    lock becomes the sequence of calls it serialises.

    ** The theorems

    - The running program: in a release build the viewer starts and every schedule
      of receiver turns and frames completes (C1); what producers log while the
      server keeps up reaches the viewer's store, in order and once, through ring,
      packets, short writes and any chunking of the stream (C2); whatever the
      interleaving, each packet on the link reaches the store and the ring (C3);
      every channel holds only samples of its kind from the start of the viewer on
      (C5); a repaint is asked for exactly when there is something new (C19).
    - Whole sessions: a recorded session saved with its layout comes back whole in
      another viewer (C4); the viewer completes every frame, drawing, opening and
      connecting included, and stays consistent (C6); the end of a frame loses no
      plot (C34); clearing a live session ends its recording (C35).
    - Wire formats (C7, C8, C23-C26): decoders never panic on any input and report
      only the documented errors; what they accept lies inside the buffer; encoding
      and decoding round-trip; numeric fields are read exactly.
    - Store (C9, C10, C27, C28): a representation invariant over all histories; the
      in-memory store implements the trait's contract; down-sampling is a min/max
      envelope; run-length storage of states refines the log of observations.
    - Capture (C14, C18): the ring refines "the longest suffix that fits"; a
      reopened session has the data of the live one.
    - Ingest (C11-C13, C16, C29, C30): the receiver machine is the code's loops;
      ingest is well typed; every framed packet is delivered once and in order
      whatever the chunking; dispatch is safe; bitfield lanes are exact; the source
      thread ends once stopped.
    - View state, layouts, drawing and gestures (C15, C17, C31-C33): workspaces
      survive saving; a log view shows exactly the rows that match, within its
      budget; the marker graph stays consistent under every gesture; the channel
      tree selects what it promises.
    - The soak harness (C36) runs to its report.
    - The C library: under every interleaving without a lapped producer a reader
      sees committed entries whole (C20); a packed drain is decoded by the viewer to
      the accepted entries, oldest first, with the losses counted (C21), up to the
      entry a full packet takes from the ring without sending or counting it
      (C40); the streamed schema decodes to the registered one (C22); the server's
      two tables stay matched (C37); the UDP server sends the texts of the logged
      entries and stays inside its buffers (C38), with the numbers the viewer plots
      (C39).

    Further theorems of the files, not numbered: the limits of decoded schemas,
    legacy schema blobs, the metadata scanner of capture files, the channels a
    schema registers, raw and interpolated queries, the two value readers, the
    end of the thread when its handle is dropped, the tiling of numeric lanes, the
    row budget of the log, the truth of its status line, the lanes of a panel, moving
    and selecting channels, the names of layout files, the round trip of markers and
    the chains of old ones, the harness's counts and percentiles, the calendar of
    file names, connection strings, the grouping of channels, the view window, the
    hit test, the agreement of the two drains and of the two schema writers; and the
    limits of the code, as characterisations of the inputs that panic or go wrong
    ([field_as_f64_panics_iff], [read_btlm_panics], [dispatch_bitfield_overflow],
    [wide_window_limits], [body_timeout_drops_session]) or as examples
    ([empty_lane_overflows], [lane_not_held], [save_as_overwrites], [lapped_torn],
    [long_name_refused], [null_label_serialize], [send_timeout_retries],
    [long_array_cut], [timestamp_precision], [wide_bit_undefined]).

    ** Conventions, bounds and fuel

    Machine integers are [Z] with their range as a hypothesis or an invariant;
    [arith], [shl] and [shr] panic in [Debug] and wrap in [Release] as rustc's
    profiles do, and theorems quantify over the profile.  [usize] is 64 bits;
    lengths and indices that cannot overflow are [nat].  Recursion is structural
    on the data, or on a count the code computes; where a loop has no such
    measure the fuel is stated with the definition (the length of the input for
    UTF-8 chunks and binary search, the logarithm for digits, a bound on the
    years for the calendar, the length of a path for its components, the stop-flag
    observations for the reconnect loop)
    and lemmas show that it suffices.  The iteration order of a [HashMap] is the
    parameter [HashOrder], of which only that it is a permutation is known.

    Plots, markers and links are numbered by 64-bit counters that only grow:
    [work_ok n] leaves room for [n] more, and the theorems about frames ask for the
    room their frames can use.

    On the C side a read or write outside an object and a null pointer are [Panic];
    [size_t] is 64 bits and the host little-endian.  The ring's counters are 64 bits
    and are assumed not to wrap ([log_ok]).  Memory is sequentially consistent.  The
    drain buffer holds at least one entry and fewer than 2^16 ([buffer_ok]).

    Third-party code is a parameter: the dock tree of egui_dock ([DockLib],
    [DockLaws]), the JSON codec of layout files, the exponential of the zoom.

    ** Not modelled

    The egui and egui_plot calls that paint and lay out widgets, the texts of the
    viewer's status line (kept as data), the native file dialog, command-line
    parsing, name resolution (its result is a parameter), the server process the
    harness can start, the operating-system side of sockets, threads and files
    beyond the failures named above, the counters the C servers only print, and
    the Python tools, a second reader of the same formats.  Steps of the viewer's
    two threads are atomic: a frame sees one state of the store, and the poison a
    panic leaves in a lock is not modelled.  Frames are proved to complete in release builds only,
    because [compute_view] and the lanes can overflow in debug builds. *)

From Stdlib Require Export ZArith Lia Strings.Byte.
From stdpp Require Export base option numbers strings gmap list.

#[global] Open Scope Z_scope.
#[global] Set Default Proof Using "Type".

(** ** Outcomes of Rust code

    [Ok] and [Err] are the two constructors of [std::result::Result]; [Panic]
    is a Rust panic (an index out of bounds, an arithmetic overflow in a build
    with overflow checks, [debug_assert!]). *)
Inductive res (E A : Type) : Type :=
| Ok (a : A)
| Err (e : E)
| Panic.
Arguments Ok {E A} a.
Arguments Err {E A} e.
Arguments Panic {E A}.

(** Code that returns no error: it yields a value or panics. *)
Abbreviation total := (res Empty_set).

#[global] Instance res_ret E : MRet (res E) := fun A a => Ok a.
#[global] Instance res_bind E : MBind (res E) := fun A B f m =>
  match m with Ok a => f a | Err e => Err e | Panic => Panic end.

(** The [?] operator when the error type changes ([From] conversion). *)
Definition map_err {E F A} (f : E -> F) (m : res E A) : res F A :=
  match m with Ok a => Ok a | Err e => Err (f e) | Panic => Panic end.

Lemma bind_Ok {E A B} (m : res E A) (f : A -> res E B) b :
  (m ≫= f) = Ok b <-> exists a, m = Ok a /\ f a = Ok b.
Proof.
  destruct m; simpl; split; try (intros [a0 [H1 H2]]; congruence); eauto; congruence.
Qed.

Lemma bind_ret_l {E A B} (a : A) (f : A -> res E B) : (Ok a ≫= f) = f a.
Proof. reflexivity. Qed.

(** Split every monadic bind in the hypotheses into its successful steps. *)
Ltac inv_bind :=
  repeat match goal with
  | H : (?m ≫= ?f) = Ok ?b |- _ =>
      apply bind_Ok in H; destruct H as (? & ? & ?)
  | H : Ok _ = Ok _ |- _ => injection H as H; try subst
  | H : Err _ = Ok _ |- _ => discriminate H
  | H : Panic = Ok _ |- _ => discriminate H
  | H : mret _ = Ok _ |- _ => injection H as H; try subst
  end.

(** ** Build profiles and machine integers

    A w-bit unsigned value is a [Z] in [0, 2^w).  Checked arithmetic panics in
    a debug build and wraps in a release build (no [overflow-checks] override
    in viewer/Cargo.toml).  [usize] is 64 bits wide. *)
Inductive profile := Debug | Release.

Definition wrap (w z : Z) : Z := z mod 2 ^ w.
Definition in_u (w z : Z) : Prop := 0 <= z < 2 ^ w.
Definition in_ub (w z : Z) : bool := (0 <=? z) && (z <? 2 ^ w).
Definition u64_max : Z := 2 ^ 64 - 1.

(** [as iN] of an N-bit unsigned pattern: two's complement. *)
Definition to_signed (w z : Z) : Z := if z <? 2 ^ (w - 1) then z else z - 2 ^ w.

(** The result of an overflow-checked operation whose exact value is [z]. *)
Definition arith {E} (p : profile) (w z : Z) : res E Z :=
  if in_ub w z then Ok z
  else match p with Debug => Panic | Release => Ok (wrap w z) end.

(** The same on signed integers. *)
Definition in_ib (w z : Z) : bool := (- 2 ^ (w - 1) <=? z) && (z <? 2 ^ (w - 1)).
Definition arith_i {E} (p : profile) (w z : Z) : res E Z :=
  if in_ib w z then Ok z
  else match p with Debug => Panic | Release => Ok (to_signed w (wrap w z)) end.

(** [x << k] on w bits: an out-of-range shift amount is an overflow. *)
Definition shl {E} (p : profile) (w x k : Z) : res E Z :=
  if k <? w then Ok (wrap w (Z.shiftl x k))
  else match p with Debug => Panic | Release => Ok (wrap w (Z.shiftl x (k mod w))) end.

(** [x >> k] on w bits. *)
Definition shr {E} (p : profile) (w x k : Z) : res E Z :=
  if k <? w then Ok (Z.shiftr x k)
  else match p with Debug => Panic | Release => Ok (Z.shiftr x (k mod w)) end.

Lemma in_ub_spec w z : in_ub w z = true <-> in_u w z.
Proof. unfold in_ub, in_u. rewrite andb_true_iff, Z.leb_le, Z.ltb_lt. lia. Qed.

Lemma wrap_small w z : in_u w z -> wrap w z = z.
Proof. unfold in_u, wrap. intros. apply Z.mod_small. lia. Qed.

Lemma wrap_range w z : 0 <= w -> in_u w (wrap w z).
Proof. intros. unfold in_u, wrap. apply Z.mod_pos_bound. apply Z.pow_pos_nonneg; lia. Qed.

Lemma arith_ok {E} p w z : in_u w z -> @arith E p w z = Ok z.
Proof. intros H. unfold arith. apply in_ub_spec in H. by rewrite H. Qed.

Lemma arith_i_ok {E} p w z : - 2 ^ (w - 1) <= z < 2 ^ (w - 1) -> @arith_i E p w z = Ok z.
Proof. intros H. unfold arith_i, in_ib. by rewrite (proj2 (Z.leb_le _ _)), (proj2 (Z.ltb_lt _ _)) by lia. Qed.

Lemma shl_ok {E} p w x k : k < w -> @shl E p w x k = Ok (wrap w (Z.shiftl x k)).
Proof. intros H. unfold shl. apply Z.ltb_lt in H. by rewrite H. Qed.

Lemma shr_ok {E} p w x k : k < w -> @shr E p w x k = Ok (Z.shiftr x k).
Proof. intros H. unfold shr. apply Z.ltb_lt in H. by rewrite H. Qed.

(** ** Bytes and little-endian integers *)
#[global] Instance byte_eq_dec : EqDecision byte := Byte.byte_eq_dec.

Definition byte_z (b : byte) : Z := Z.of_N (Byte.to_N b).
Definition z_byte (z : Z) : byte :=
  match Byte.of_N (Z.to_N (z mod 256)) with Some b => b | None => x00 end.

Lemma byte_z_range b : 0 <= byte_z b < 256.
Proof. unfold byte_z. pose proof (Byte.to_N_bounded b). lia. Qed.

Lemma z_byte_z b : z_byte (byte_z b) = b.
Proof.
  unfold z_byte. pose proof (byte_z_range b). rewrite Z.mod_small by lia.
  unfold byte_z. by rewrite N2Z.id, Byte.of_to_N.
Qed.

Lemma byte_z_byte z : byte_z (z_byte z) = z mod 256.
Proof.
  unfold z_byte. pose proof (Z.mod_pos_bound z 256 ltac:(lia)).
  destruct (Byte.of_N (Z.to_N (z mod 256))) eqn:E.
  - apply Byte.to_of_N in E. unfold byte_z. rewrite E. lia.
  - apply Byte.of_N_None_iff in E. lia.
Qed.

#[global] Instance byte_z_inj : Inj (=) (=) byte_z.
Proof. intros a b H. by rewrite <-(z_byte_z a), <-(z_byte_z b), H. Qed.

(** [uN::from_le_bytes] of any number of bytes. *)
Fixpoint le_u (bs : list byte) : Z :=
  match bs with [] => 0 | b :: bs => byte_z b + 256 * le_u bs end.

(** [uN::to_le_bytes] for an N of [n] bytes. *)
Fixpoint le_bytes (n : nat) (z : Z) : list byte :=
  match n with O => [] | S n => z_byte z :: le_bytes n (z / 256) end.

Lemma length_le_bytes n z : length (le_bytes n z) = n.
Proof. revert z. induction n; intros; simpl; auto. Qed.

Lemma pow256_succ n : 2 ^ (8 * Z.of_nat (S n)) = 256 * 2 ^ (8 * Z.of_nat n).
Proof.
  replace (8 * Z.of_nat (S n)) with (8 + 8 * Z.of_nat n) by lia.
  rewrite Z.pow_add_r by lia. reflexivity.
Qed.

Lemma le_u_range bs : 0 <= le_u bs < 2 ^ (8 * Z.of_nat (length bs)).
Proof.
  induction bs as [|b bs IH]; simpl length; [simpl; lia|].
  rewrite pow256_succ. cbn [le_u]. pose proof (byte_z_range b). lia.
Qed.

Lemma le_u_le_bytes n z : in_u (8 * Z.of_nat n) z -> le_u (le_bytes n z) = z.
Proof.
  unfold in_u. revert z. induction n as [|n IH]; intros z Hz.
  - simpl in *. lia.
  - rewrite pow256_succ in Hz. cbn [le_bytes le_u].
    rewrite IH by (split; [apply Z.div_pos|apply Z.div_lt_upper_bound]; lia).
    rewrite byte_z_byte. pose proof (Z.div_mod z 256). lia.
Qed.

Lemma le_bytes_le_u bs : le_bytes (length bs) (le_u bs) = bs.
Proof.
  induction bs as [|b bs IH]; [done|]. cbn [length le_u le_bytes].
  pose proof (byte_z_range b). f_equal.
  - rewrite <-(z_byte_z b) at 2. apply (inj byte_z). rewrite !byte_z_byte.
    rewrite (Z.mul_comm 256), Z.mod_add by lia. done.
  - rewrite (Z.mul_comm 256), Z.div_add, Z.div_small by lia. apply IH.
Qed.

(** ** Byte slices addressed by [usize] offsets *)
Definition blen {A} (l : list A) : Z := Z.of_nat (length l).

(** [&buf[off..off + n]], for an [off + n] already checked against the length. *)
Definition slice {A} (buf : list A) (off n : Z) : list A :=
  take (Z.to_nat n) (drop (Z.to_nat off) buf).

(** [buf[i]]: an out-of-bounds index panics. *)
Definition index {E A} (buf : list A) (i : Z) : res E A :=
  match buf !! Z.to_nat i with Some a => Ok a | None => Panic end.

(** [&buf[off..off + n]]: an out-of-bounds range panics. *)
Definition subslice {E A} (buf : list A) (off n : Z) : res E (list A) :=
  if off + n <=? blen buf then Ok (slice buf off n) else Panic.

Lemma blen_nonneg {A} (l : list A) : 0 <= blen l.
Proof. unfold blen. lia. Qed.
#[export] Hint Resolve blen_nonneg : core.

Lemma blen_app {A} (l k : list A) : blen (l ++ k) = blen l + blen k.
Proof. unfold blen. rewrite length_app. lia. Qed.

Lemma blen_nil {A} : blen (@nil A) = 0.
Proof. reflexivity. Qed.

Lemma blen_cons {A} (a : A) l : blen (a :: l) = 1 + blen l.
Proof. unfold blen. cbn [length]. lia. Qed.

Lemma blen_le_bytes n z : blen (le_bytes n z) = Z.of_nat n.
Proof. unfold blen. by rewrite length_le_bytes. Qed.

Lemma length_slice {A} (buf : list A) off n :
  0 <= off -> 0 <= n -> off + n <= blen buf -> blen (slice buf off n) = n.
Proof. unfold blen, slice. intros. rewrite length_take, length_drop. lia. Qed.

(** Reading back a segment of a concatenation. *)
Lemma slice_app {A} (p x r : list A) off n :
  off = blen p -> n = blen x -> slice (p ++ x ++ r) off n = x.
Proof.
  unfold slice, blen. intros -> ->. rewrite !Nat2Z.id.
  rewrite drop_app_length, take_app_length. done.
Qed.

Lemma slice_all {A} (l : list A) n : n = blen l -> slice l 0 n = l.
Proof. intros ->. unfold slice, blen. rewrite Nat2Z.id. simpl. rewrite drop_0. by rewrite take_ge. Qed.

Lemma slice_prefix {A} (buf r : list A) off n :
  0 <= off -> 0 <= n -> off + n <= blen buf -> slice (buf ++ r) off n = slice buf off n.
Proof.
  unfold slice, blen. intros. rewrite drop_app_le by lia.
  rewrite take_app_le; [done|]. rewrite length_drop. lia.
Qed.

Lemma slice_sublist {A} (buf : list A) off n : slice buf off n `sublist_of` buf.
Proof.
  unfold slice. etrans; [apply sublist_take|]. apply sublist_drop.
Qed.

(** [buf] holds the segment [x] at offset [off]. *)
Definition seg {A} (buf : list A) (off : Z) (x : list A) : Prop :=
  exists p r, buf = p ++ x ++ r /\ blen p = off.

Lemma seg_self {A} (x : list A) : seg x 0 x.
Proof. exists [], []. by rewrite app_nil_r. Qed.

Lemma seg_app {A} (buf : list A) off x y :
  seg buf off (x ++ y) <-> seg buf off x /\ seg buf (off + blen x) y.
Proof.
  split.
  - intros (p & r & -> & <-). split.
    + exists p, (y ++ r). by rewrite <-!app_assoc.
    + exists (p ++ x), r. rewrite <-!app_assoc, blen_app. done.
  - intros [(p & r & -> & <-) (p' & r' & E & E')]. exists p, r'. split; [|done].
    assert (p' = p ++ x) as ->.
    { rewrite app_assoc in E. apply app_inj_1 in E as [? _]; [done|].
      unfold blen in *. rewrite length_app. lia. }
    by rewrite E, <-!app_assoc.
Qed.

Lemma seg_bounds {A} (buf : list A) off x :
  seg buf off x -> 0 <= off /\ off + blen x <= blen buf.
Proof. intros (p & r & -> & <-). rewrite !blen_app. pose proof (blen_nonneg p). pose proof (blen_nonneg r). lia. Qed.

Lemma seg_slice {A} (buf : list A) off x n : seg buf off x -> n = blen x -> slice buf off n = x.
Proof. intros (p & r & -> & <-) ->. by apply slice_app. Qed.

(** The i-th block of a table of equally sized blocks. *)
Lemma seg_concat {A B} (buf : list A) off (enc : B -> list A) k l i b :
  (forall b, b ∈ l -> blen (enc b) = k) -> seg buf off (concat (map enc l)) ->
  l !! i = Some b -> seg buf (off + Z.of_nat i * k) (enc b).
Proof.
  revert off i. induction l as [|a l IH]; intros off i Hk Hs Hi; [by rewrite lookup_nil in Hi|].
  cbn [map concat] in Hs. apply seg_app in Hs as [H1 H2].
  destruct i as [|i]; simpl in Hi.
  - simplify_eq. by replace (off + Z.of_nat 0 * k) with off by lia.
  - rewrite (Hk a) in H2 by (apply elem_of_cons; by left).
    replace (off + Z.of_nat (S i) * k) with (off + k + Z.of_nat i * k) by lia.
    apply IH; [|done|done]. intros c Hc. apply Hk, elem_of_cons. by right.
Qed.

Lemma blen_concat {A B} (enc : B -> list A) k l :
  (forall b, b ∈ l -> blen (enc b) = k) -> blen (concat (map enc l)) = blen l * k.
Proof.
  induction l as [|a l IH]; intros Hk; [done|]. cbn [map concat].
  rewrite blen_app, blen_cons, IH, (Hk a) by (try (intros; apply Hk); apply elem_of_cons; auto). lia.
Qed.

Create Rewrite HintDb blen.
#[export] Hint Rewrite @blen_app @blen_nil @blen_cons @blen_le_bytes : blen.
(** Split a segment of concatenated fields into one segment per field. *)
Ltac seg_split H :=
  rewrite !seg_app in H; autorewrite with blen in H;
  repeat match type of H with
  | context [Z.of_nat (S ?n)] =>
      let z := eval vm_compute in (Z.of_nat (S n)) in change (Z.of_nat (S n)) with z in H
  | context [Z.add ?a ?b] =>
      lazymatch isZcst a with true =>
        lazymatch isZcst b with true =>
          let z := eval vm_compute in (Z.add a b) in change (Z.add a b) with z in H end end
  end.
Ltac blen_lia := autorewrite with blen in *; lia.

(** ** Lists *)
Lemma filter_none {A} (P : A -> Prop) `{forall x, Decision (P x)} l :
  Forall (fun x => ~ P x) l -> filter P l = [].
Proof. induction 1; [done|]. by rewrite filter_cons_False. Qed.

Lemma filter_all {A} (P : A -> Prop) `{forall x, Decision (P x)} l :
  Forall P l -> filter P l = l.
Proof. induction 1; [done|]. rewrite filter_cons_True by done. by f_equal. Qed.

(** ** Counted loops

    [for i in lo..lo + n { out.push(f(i)?) }]. *)
Fixpoint collect {E A} (n : nat) (lo : Z) (f : Z -> res E A) : res E (list A) :=
  match n with
  | O => mret []
  | S n => a ← f lo; l ← collect n (lo + 1) f; mret (a :: l)
  end.

Lemma collect_Ok {E A} n lo (f : Z -> res E A) l :
  collect n lo f = Ok l <->
  length l = n /\ forall i a, l !! i = Some a -> f (lo + Z.of_nat i) = Ok a.
Proof.
  revert lo l. induction n as [|n IH]; intros lo l; cbn [collect].
  - split.
    + intros [= <-]. split; [done|]. intros i a H. by rewrite lookup_nil in H.
    + intros [Hl _]. by destruct l.
  - rewrite bind_Ok. setoid_rewrite bind_Ok. split.
    + intros (a & Ha & k & Hk & [= <-]). apply IH in Hk as [Hl Hf].
      split; [simpl; lia|]. intros [|i] b Hb; simpl in Hb; simplify_eq.
      * by rewrite Z.add_0_r.
      * rewrite <-(Hf _ _ Hb). f_equal. lia.
    + intros [Hl Hf]. destruct l as [|a k]; [done|]. exists a.
      split; [rewrite <-(Hf 0%nat a eq_refl); f_equal; lia|].
      exists k. split; [|done]. apply IH. split; [simpl in Hl; lia|].
      intros i b Hb. rewrite <-(Hf (S i) b Hb). f_equal. lia.
Qed.

Lemma collect_Err {E A} n lo (f : Z -> res E A) e :
  collect n lo f = Err e ->
  exists i, 0 <= i < Z.of_nat n /\ f (lo + i) = Err e.
Proof.
  revert lo. induction n as [|n IH]; intros lo; cbn [collect]; [done|].
  destruct (f lo) eqn:Ef; simpl; [|intros [= ->]; exists 0; rewrite Z.add_0_r; split; [lia|done]|done].
  destruct (collect n (lo + 1) f) eqn:Ec; simpl; [done| |done]. intros [= ->].
  destruct (IH _ Ec) as (i & Hi & Hf). exists (i + 1). split; [lia|].
  by replace (lo + (i + 1)) with (lo + 1 + i) by lia.
Qed.

Lemma collect_no_panic {E A} n lo (f : Z -> res E A) :
  (forall i, 0 <= i < Z.of_nat n -> f (lo + i) <> Panic) -> collect n lo f <> Panic.
Proof.
  revert lo. induction n as [|n IH]; intros lo Hf; cbn [collect]; [done|].
  assert (H0 : f lo <> Panic) by (rewrite <-(Z.add_0_r lo); apply Hf; lia).
  destruct (f lo); simpl; [|done|done].
  assert (H1 : collect n (lo + 1) f <> Panic).
  { apply IH. intros i Hi. replace (lo + 1 + i) with (lo + (1 + i)) by lia. apply Hf. lia. }
  by destruct (collect n (lo + 1) f).
Qed.

(** A bind panics only if one of its steps does. *)
Lemma bind_no_panic {E A B} (m : res E A) (f : A -> res E B) :
  m <> Panic -> (forall a, m = Ok a -> f a <> Panic) -> (m ≫= f) <> Panic.
Proof. destruct m; simpl; auto. Qed.

Lemma sublist_Forall {A} (P : A -> Prop) k l : k `sublist_of` l -> Forall P l -> Forall P k.
Proof. intros Hk Hl. rewrite Forall_forall in *. intros x Hx. apply Hl. by eapply elem_of_sublist. Qed.

(** ** Filters *)
Lemma filter_or_perm {A} (P Q : A -> Prop) `{forall x, Decision (P x)} `{forall x, Decision (Q x)} (l : list A) :
  (forall x, P x -> Q x -> False) -> filter (fun x => P x \/ Q x) l ≡ₚ filter P l ++ filter Q l.
Proof.
  intros Hd. induction l as [|x l IH]; [done|]. rewrite !filter_cons.
  destruct (decide (P x)) as [HP|HP], (decide (Q x)) as [HQ|HQ].
  - by destruct (Hd x).
  - rewrite decide_True by tauto. cbn. by constructor.
  - rewrite decide_True by tauto. rewrite IH. apply Permutation_middle.
  - by rewrite decide_False by tauto.
Qed.

Lemma filter_ext_elem {A} (P Q : A -> Prop) `{forall x, Decision (P x)} `{forall x, Decision (Q x)} (l : list A) :
  (forall x, x ∈ l -> P x <-> Q x) -> filter P l = filter Q l.
Proof.
  induction l as [|x l IH]; intros HPQ; [done|]. rewrite !filter_cons.
  rewrite IH by (intros y Hy; apply HPQ, elem_of_cons; by right).
  destruct (HPQ x) as [H1 H2]; [apply elem_of_cons; by left|]. repeat case_decide; tauto || done.
Qed.

(** ** Hash maps

    A [HashMap] is a [gmap]; its iteration order is unspecified, so code that
    iterates one takes the order as a parameter of which only this is known. *)
Class HashOrder := {
  hash_iter : forall {K} `{Countable K} {V}, gmap K V -> list (K * V);
  hash_iter_perm : forall {K} `{Countable K} {V} (m : gmap K V), hash_iter m ≡ₚ map_to_list m;
}.

(** Any fixed order will do; the witnesses use that of [gmap]. *)
Definition gmap_order : HashOrder := {| hash_iter _ _ _ _ m := map_to_list m; hash_iter_perm _ _ _ _ _ := Permutation_refl _ |}.

(** [collect] into a map: a later entry replaces an earlier one. *)
Definition collect_map `{Countable K} {V} (l : list (K * V)) : gmap K V :=
  foldl (fun m kv => <[kv.1 := kv.2]> m) ∅ l.

Lemma foldl_insert_lookup `{Countable K} {V} (l : list (K * V)) (m : gmap K V) k :
  NoDup (map fst l) ->
  foldl (fun m kv => <[kv.1 := kv.2]> m) m l !! k = (list_to_map l : gmap K V) !! k ∪ m !! k.
Proof.
  revert m. induction l as [|[i v] l IH]; intros m Hn; cbn [foldl map fst snd list_to_map foldr] in *.
  - rewrite lookup_empty. by destruct (m !! k).
  - apply NoDup_cons in Hn as [Hi Hn]. rewrite IH by done. cbn. destruct (decide (i = k)) as [->|Hk].
    + rewrite !lookup_insert_eq, not_elem_of_list_to_map_1 by done. by destruct (m !! k).
    + by rewrite !lookup_insert_ne by done.
Qed.

Lemma collect_map_list_to_map `{Countable K} {V} (l : list (K * V)) :
  NoDup (map fst l) -> collect_map l = list_to_map l.
Proof.
  intros Hn. apply map_eq. intros k. unfold collect_map. rewrite foldl_insert_lookup by done.
  rewrite lookup_empty. by destruct (_ !! k).
Qed.

(** Iterating a map and collecting the pairs again gives the map back. *)
Lemma hash_iter_nodup `{HashOrder} `{Countable K} {V} (m : gmap K V) : NoDup (map fst (hash_iter m)).
Proof. change (NoDup (fst <$> hash_iter m)). rewrite hash_iter_perm. apply NoDup_fst_map_to_list. Qed.

Lemma elem_of_hash_iter `{HashOrder} `{Countable K} {V} (m : gmap K V) k v :
  (k, v) ∈ hash_iter m <-> m !! k = Some v.
Proof. rewrite hash_iter_perm. apply elem_of_map_to_list. Qed.

(** ** Postconditions

    [returns m Q]: the computation returns, neither failing nor panicking, and
    its result satisfies [Q]. *)
Definition returns {E A} (m : res E A) (Q : A -> Prop) : Prop := exists a, m = Ok a /\ Q a.

Lemma returns_ret {E A} (a : A) (Q : A -> Prop) : Q a -> returns (mret a : res E A) Q.
Proof. intros H. by exists a. Qed.

Lemma returns_bind {E A B} (m : res E A) (f : A -> res E B) (P : A -> Prop) (Q : B -> Prop) :
  returns m P -> (forall a, P a -> returns (f a) Q) -> returns (m ≫= f) Q.
Proof. intros (a & -> & Ha) Hf. exact (Hf a Ha). Qed.

Lemma returns_impl {E A} (m : res E A) (P Q : A -> Prop) :
  returns m P -> (forall a, P a -> Q a) -> returns m Q.
Proof. intros (a & -> & Ha) H. exists a. auto. Qed.

(** [outcome safe m Q]: a value of [m] satisfies [Q], and if [safe] holds there is
    one.  One proof serves a build that may panic and one that may not. *)
Definition outcome {A} (safe : Prop) (m : total A) (Q : A -> Prop) : Prop :=
  match m with Ok a => Q a | Err e => match e with end | Panic => ~ safe end.

Lemma outcome_ret {A} safe (a : A) (Q : A -> Prop) : Q a -> outcome safe (mret a) Q.
Proof. done. Qed.

Lemma outcome_bind {A B} safe (m : total A) (f : A -> total B) (P : A -> Prop) (Q : B -> Prop) :
  outcome safe m P -> (forall a, m = Ok a -> P a -> outcome safe (f a) Q) -> outcome safe (m ≫= f) Q.
Proof. destruct m as [a|[]|]; cbn; auto. Qed.

Lemma outcome_impl {A} safe (m : total A) (P Q : A -> Prop) :
  outcome safe m P -> (forall a, P a -> Q a) -> outcome safe m Q.
Proof. destruct m as [a|[]|]; cbn; auto. Qed.

Lemma outcome_any {A} (m : total A) : outcome False m (fun _ => True).
Proof. destruct m as [a|[]|]; cbn; [done|by intros []]. Qed.

Lemma outcome_partial {A} (safe : Prop) (m : total A) Q : outcome safe m Q -> outcome False m Q.
Proof. destruct m as [a|[]|]; cbn; [done|by intros _ []]. Qed.

Lemma outcome_Ok {A} safe (m : total A) Q a : outcome safe m Q -> m = Ok a -> Q a.
Proof. by intros H ->. Qed.

Lemma outcome_returns {A} (safe : Prop) (m : total A) Q : outcome safe m Q -> safe -> returns m Q.
Proof. destruct m as [a|[]|]; cbn; [|by intros ?]. intros H _. by exists a. Qed.

Lemma returns_mapM {E A B} (f : A -> res E B) (P : A -> B -> Prop) l :
  (forall x, x ∈ l -> returns (f x) (P x)) -> returns (mapM f l) (Forall2 P l).
Proof.
  induction l as [|x l IH]; intros Hf; cbn [mapM]; [by apply returns_ret|].
  eapply returns_bind; [apply Hf; apply elem_of_cons; by left|]. intros y Hy.
  eapply returns_bind; [apply IH; intros z Hz; apply Hf; apply elem_of_cons; by right|].
  intros ys Hys. apply returns_ret. by constructor.
Qed.
