(* ===== verification/Slices.v ===== *)
(** * Slice algorithms of the Rust standard library

    The components search their sorted vectors with [partition_point] and
    [binary_search_by_key], and decimate them with [step_by].  The definitions
    follow the library's loops; the lemmas state what the callers rely on. *)

From Stdlib Require Import Sorted.
From S2P Require Import Prelude.

(** ** Binary search *)
Section binary_search.
Context {A : Type} (cmp : A -> comparison).

(** The loop of [slice::binary_search_by]: [base] moves to the middle unless
    the middle element is greater than the target. *)
Fixpoint bs_loop (fuel : nat) (l : list A) (base size : nat) : nat :=
  match fuel with
  | O => base
  | S fuel =>
      if (1 <? size)%nat then
        let half := (size / 2)%nat in
        let mid := (base + half)%nat in
        let base' := match l !! mid with
                     | Some x => match cmp x with Gt => base | _ => mid end
                     | None => base
                     end in
        bs_loop fuel l base' (size - half)
      else base
  end.

(** [inl i] is [Ok(i)] (a match), [inr i] is [Err(i)] (an insertion point). *)
Definition binary_search_by (l : list A) : nat + nat :=
  match l with
  | [] => inr 0%nat
  | _ =>
      let base := bs_loop (length l) l 0 (length l) in
      match cmp <$> l !! base with
      | Some Eq => inl base
      | Some Lt => inr (S base)
      | _ => inr base
      end
  end.
End binary_search.

(** [slice::partition_point]. *)
Definition partition_point {A} (p : A -> bool) (l : list A) : nat :=
  match binary_search_by (fun x => if p x then Lt else Gt) l with
  | inl i | inr i => i
  end.

(** The contract's side condition: a prefix [a] satisfies the predicate and
    nothing after it does. *)
Definition split_at {A} (p : A -> bool) (l a b : list A) : Prop :=
  l = a ++ b /\ Forall (fun x => p x = true) a /\ Forall (fun x => p x = false) b.

Section search_facts.
Context {A : Type}.

Lemma split_at_lookup (p : A -> bool) l a b i x :
  split_at p l a b -> l !! i = Some x -> p x = true <-> (i < length a)%nat.
Proof.
  intros (-> & Ha & Hb) Hi. split.
  - intros Hp. destruct (decide (i < length a)%nat) as [|Hge]; [done|].
    rewrite lookup_app_r in Hi by lia.
    apply (Forall_lookup_1 _ _ _ _ Hb) in Hi. congruence.
  - intros Hlt. rewrite lookup_app_l in Hi by lia.
    by apply (Forall_lookup_1 _ _ _ _ Ha) in Hi.
Qed.

Definition not_gt (cmp : A -> comparison) (x : A) : bool :=
  match cmp x with Gt => false | _ => true end.

(** The loop ends on the last element that is not greater than the target,
    or on index 0 when every element is greater. *)
Lemma bs_loop_spec (cmp : A -> comparison) l a b fuel base size :
  split_at (not_gt cmp) l a b ->
  (1 <= size <= fuel)%nat -> (base + size <= length l)%nat ->
  (length a <= base + size)%nat -> (base < length a \/ base = 0)%nat ->
  bs_loop cmp fuel l base size = pred (length a).
Proof.
  intros Hs. revert base size.
  induction fuel as [|fuel IH]; intros base size Hf Hb Hk Hba; [lia|].
  cbn [bs_loop]. cbv zeta. destruct (1 <? size)%nat eqn:Esz.
  - apply Nat.ltb_lt in Esz.
    assert (size / 2 < size)%nat by (apply Nat.div_lt; lia).
    assert (1 <= size / 2)%nat by (apply Nat.div_le_lower_bound; lia).
    assert (2 * (size / 2) <= size)%nat by (apply Nat.Div0.mul_div_le).
    destruct (lookup_lt_is_Some_2 l (base + size / 2)) as [x Hx]; [lia|].
    rewrite Hx. pose proof (split_at_lookup _ _ _ _ _ _ Hs Hx) as Hp.
    unfold not_gt in Hp. destruct (cmp x); apply IH;
      try lia; destruct Hp; try (left; intuition lia).
  - apply Nat.ltb_ge in Esz. lia.
Qed.

Lemma partition_point_split (p : A -> bool) l a b :
  split_at p l a b -> partition_point p l = length a.
Proof.
  intros Hs. set (cmp := fun x => if p x then Lt else Gt).
  assert (Hs' : split_at (not_gt cmp) l a b).
  { destruct Hs as (? & Ha & Hb). split_and!; [done| |];
      apply Forall_lookup_2; intros i x Hx; unfold not_gt, cmp;
      [apply (Forall_lookup_1 _ _ _ _ Ha) in Hx|apply (Forall_lookup_1 _ _ _ _ Hb) in Hx];
      by rewrite Hx. }
  unfold partition_point, binary_search_by.
  destruct l as [|x0 l0]; [destruct Hs as (He & _); by destruct a|].
  set (l := x0 :: l0) in *.
  assert (Hll : (length l = length a + length b)%nat).
  { destruct Hs as (-> & _). by rewrite length_app. }
  assert (1 <= length l)%nat by (simpl; lia).
  rewrite (bs_loop_spec _ l a b) by first [done|lia]. fold cmp.
  destruct (lookup_lt_is_Some_2 l (pred (length a))) as [x Hx]; [lia|].
  rewrite Hx. simpl. pose proof (split_at_lookup _ _ _ _ _ _ Hs Hx) as Hp.
  unfold cmp. destruct (p x); [|destruct (length a); [done|]];
    destruct Hp as [H1 H2]; [specialize (H1 eq_refl); lia|].
  assert (false = true) by (apply H2; lia). done.
Qed.
End search_facts.

(** ** Sorted keys *)
Section sorted.
Context {A : Type} (key : A -> Z).

(** Non-decreasing keys. *)
Definition sorted_by (l : list A) : Prop :=
  forall i j x y, (i <= j)%nat -> l !! i = Some x -> l !! j = Some y -> key x <= key y.

Lemma sorted_by_nil : sorted_by [].
Proof. intros i j x y _ H. by rewrite lookup_nil in H. Qed.

Lemma sorted_by_sublist l k :
  (forall i j x y, (i <= j)%nat -> k !! i = Some x -> k !! j = Some y ->
     exists i' j', (i' <= j')%nat /\ l !! i' = Some x /\ l !! j' = Some y) ->
  sorted_by l -> sorted_by k.
Proof.
  intros Hk Hl i j x y Hij Hx Hy.
  destruct (Hk i j x y Hij Hx Hy) as (i' & j' & ? & ? & ?). eauto.
Qed.

Lemma sorted_by_cons_inv x l :
  sorted_by (x :: l) -> Forall (fun y => key x <= key y) l /\ sorted_by l.
Proof.
  intros H. split.
  - apply Forall_lookup_2. intros i y Hy. apply (H 0%nat (S i)); [lia|done|done].
  - intros i j u v Hij Hu Hv. apply (H (S i) (S j)); [lia|done|done].
Qed.

Lemma sorted_by_cons x l :
  Forall (fun y => key x <= key y) l -> sorted_by l -> sorted_by (x :: l).
Proof.
  intros Hx Hl [|i] [|j] u v Hij Hu Hv; simpl in *; simplify_eq; try lia.
  - by apply (Forall_lookup_1 _ _ _ _ Hx Hv).
  - apply (Hl i j); [lia|done|done].
Qed.

Lemma sorted_by_app l k :
  sorted_by (l ++ k) <->
  sorted_by l /\ sorted_by k /\ (forall x y, x ∈ l -> y ∈ k -> key x <= key y).
Proof.
  induction l as [|a l IH]; simpl.
  - split; [|by intros (_ & ? & _)]. intros. split_and!; [apply sorted_by_nil|done|].
    intros x y Hx. by apply elem_of_nil in Hx.
  - split.
    + intros [Ha Hlk]%sorted_by_cons_inv. apply IH in Hlk as (Hl & Hk & Hx).
      apply Forall_app in Ha as [Ha1 Ha2]. split_and!; [by apply sorted_by_cons|done|].
      intros x y [->|?]%elem_of_cons Hy; [|eauto].
      by apply (proj1 (Forall_forall _ _) Ha2).
    + intros (Hal & Hk & Hx). apply sorted_by_cons_inv in Hal as [Ha Hl].
      apply sorted_by_cons.
      * apply Forall_app. split; [done|]. apply Forall_forall. intros y Hy.
        apply Hx; [apply elem_of_cons; by left|done].
      * apply IH. split_and!; [done|done|]. intros. apply Hx; [apply elem_of_cons; by right|done].
Qed.

(** On sorted keys, "key below a bound" is a prefix: the filtered list. *)
Lemma sorted_split_lt l t : sorted_by l ->
  split_at (fun x => key x <? t) l
    (filter (fun x => key x < t) l) (filter (fun x => t <= key x) l).
Proof.
  induction l as [|a l IH]; intros H.
  - split_and!; constructor.
  - apply sorted_by_cons_inv in H as [Ha Hl]. destruct (IH Hl) as (E & F1 & F2).
    destruct (decide (key a < t)).
    + rewrite filter_cons_True, filter_cons_False by lia.
      split_and!; [simpl; by f_equal| |done]. constructor; [lia|done].
    + rewrite filter_cons_False, filter_cons_True by lia.
      assert (Hn : filter (fun x => key x < t) l = []).
      { apply filter_none. eapply Forall_impl; [exact Ha|]. simpl. lia. }
      rewrite Hn in *. simpl in E. split_and!; [simpl; by f_equal|constructor|].
      constructor; [lia|done].
Qed.
End sorted.

Lemma sorted_by_sublist_of {A} (key : A -> Z) k l :
  k `sublist_of` l -> sorted_by key l -> sorted_by key k.
Proof.
  induction 1 as [|x k l Hk IH|x k l Hk IH]; [done| |]; intros [Hx Hl]%sorted_by_cons_inv.
  - apply sorted_by_cons; [|auto]. apply Forall_forall. intros y Hy.
    apply (proj1 (Forall_forall _ _) Hx). by apply (elem_of_sublist k).
  - auto.
Qed.

Lemma sorted_by_map {A B} (key : B -> Z) (f : A -> B) l :
  sorted_by key (map f l) <-> sorted_by (fun x => key (f x)) l.
Proof.
  induction l as [|x l IH]; cbn [map].
  - split; intros; apply sorted_by_nil.
  - split; intros [Hx Hl]%sorted_by_cons_inv; apply sorted_by_cons; try (by apply IH);
      [by rewrite Forall_map in Hx|by rewrite Forall_map].
Qed.

Lemma sorted_by_snoc {A} (key : A -> Z) l x :
  sorted_by key l -> (forall y, last l = Some y -> key y <= key x) -> sorted_by key (l ++ [x]).
Proof.
  intros Hl Hx. apply sorted_by_app. split_and!; [done| |].
  - apply sorted_by_cons; [constructor|apply sorted_by_nil].
  - intros y z Hy ->%list_elem_of_singleton. destruct (last l) as [w|] eqn:E.
    + specialize (Hx w eq_refl). apply list_elem_of_lookup in Hy as [i Hi].
      rewrite last_lookup in E. pose proof (lookup_lt_Some _ _ _ Hi).
      enough (key y <= key w) by lia. apply (Hl i (pred (length l))); [lia|done|done].
    + apply last_None in E as ->. by apply elem_of_nil in Hy.
Qed.

(** [Iterator::take_while]. *)
Fixpoint take_while {A} (p : A -> bool) (l : list A) : list A :=
  match l with [] => [] | x :: l => if p x then x :: take_while p l else [] end.

Lemma take_while_lookup {A} (q : A -> bool) l (i : nat) x :
  take_while q l !! i = Some x -> l !! i = Some x /\ q x = true.
Proof.
  revert i. induction l as [|y l IH]; intros i; cbn [take_while]; [done|].
  destruct (q y) eqn:E; [|done]. destruct i as [|i]; [by intros [= ->]|]. apply IH.
Qed.

Lemma take_while_stop {A} (q : A -> bool) l x : l !! length (take_while q l) = Some x -> q x = false.
Proof.
  induction l as [|y l IH]; cbn [take_while]; [done|]. destruct (q y) eqn:E; cbn; [apply IH|by intros [= ->]].
Qed.

Lemma take_while_sorted {A} (key : A -> Z) l t : sorted_by key l ->
  take_while (fun x => key x <? t) l = filter (fun x => key x < t) l.
Proof.
  induction l as [|x l IH]; [done|]. intros [Hx Hl]%sorted_by_cons_inv.
  cbn [take_while]. rewrite filter_cons. case_decide.
  - replace (key x <? t) with true by lia. by rewrite IH.
  - replace (key x <? t) with false by lia. symmetry. apply filter_none.
    eapply Forall_impl; [exact Hx|]. simpl. lia.
Qed.

(** ** The window [&v[lo..hi]] between two partition points *)
Section window.
Context {A : Type} (key : A -> Z).

Definition window (l : list A) (t0 t1 : Z) : list A :=
  let lo := partition_point (fun x => key x <? t0) l in
  let hi := partition_point (fun x => key x <? t1) l in
  take (hi - lo) (drop lo l).

Lemma bs_loop_mono (p q : A -> bool) l fuel b1 b2 size :
  (forall x, p x = true -> q x = true) ->
  (1 <= size)%nat -> (b2 + size <= length l)%nat ->
  (b1 = b2 \/ b1 + size <= b2 + 1)%nat ->
  let r1 := bs_loop (fun x => if p x then Lt else Gt) fuel l b1 size in
  let r2 := bs_loop (fun x => if q x then Lt else Gt) fuel l b2 size in
  (r1 = r2 \/ r1 < r2)%nat /\ (r2 < length l)%nat.
Proof.
  intros Hpq. revert b1 b2 size.
  induction fuel as [|fuel IH]; intros b1 b2 size Hsz Hlen Hb; cbn [bs_loop]; [lia|].
  cbv zeta. destruct (1 <? size)%nat eqn:E; [|apply Nat.ltb_ge in E; lia].
  apply Nat.ltb_lt in E.
  assert (1 <= size / 2)%nat by (apply Nat.div_le_lower_bound; lia).
  assert (2 * (size / 2) <= size)%nat by (apply Nat.Div0.mul_div_le).
  assert (size <= 2 * (size / 2) + 1)%nat.
  { pose proof (Nat.div_mod_eq size 2). pose proof (Nat.mod_upper_bound size 2). lia. }
  destruct (lookup_lt_is_Some_2 l (b2 + size / 2)) as [y Hy]; [lia|].
  destruct (lookup_lt_is_Some_2 l (b1 + size / 2)) as [x Hx]; [lia|].
  rewrite Hx, Hy. specialize (Hpq x) as Hx'.
  destruct (p x) eqn:Ep, (q y) eqn:Eq; apply IH; try lia.
  destruct Hb as [->|Hb]; [|lia]. rewrite Hx in Hy. simplify_eq.
  rewrite Hx' in Eq; done.
Qed.

(** Slicing between the two partition points of nested predicates is in
    bounds for every vector, whether or not it is sorted. *)
Lemma partition_point_mono (p q : A -> bool) l :
  (forall x, p x = true -> q x = true) ->
  (partition_point p l <= partition_point q l <= length l)%nat.
Proof.
  intros Hpq. destruct l as [|x0 l0]; [cbv; lia|].
  unfold partition_point, binary_search_by. set (l := x0 :: l0).
  destruct (bs_loop_mono p q l (length l) 0 0 (length l) Hpq) as [Hr Hl];
    [simpl; lia|lia|lia|].
  set (r1 := bs_loop _ _ _ _ _) in *. set (r2 := bs_loop (fun x => if q x then _ else _) _ _ _ _) in *.
  destruct (lookup_lt_is_Some_2 l r1) as [x Hx]; [lia|].
  destruct (lookup_lt_is_Some_2 l r2) as [y Hy]; [lia|].
  rewrite Hx, Hy. cbn [fmap option_fmap option_map]. specialize (Hpq x).
  destruct (p x) eqn:Ep, (q y) eqn:Eq; try lia.
  destruct Hr as [He|]; [|lia]. rewrite He in Hx. rewrite Hx in Hy. simplify_eq.
  rewrite Hpq in Eq; done.
Qed.

Lemma window_spec l t0 t1 : sorted_by key l -> t0 <= t1 ->
  window l t0 t1 = filter (fun x => t0 <= key x < t1) l.
Proof.
  intros Hs Ht. unfold window.
  rewrite (partition_point_split _ l _ _ (sorted_split_lt key l t0 Hs)).
  rewrite (partition_point_split _ l _ _ (sorted_split_lt key l t1 Hs)).
  induction l as [|a l IH]; [done|].
  apply sorted_by_cons_inv in Hs as [Ha Hl]. specialize (IH Hl).
  rewrite !filter_cons. destruct (decide (key a < t0)).
  - repeat (case_decide; try lia). apply IH.
  - assert (Hn : filter (fun x => key x < t0) l = []).
    { apply filter_none. eapply Forall_impl; [exact Ha|]. simpl. lia. }
    rewrite Hn in *. simpl in *. rewrite drop_0 in *. rewrite Nat.sub_0_r in *.
    repeat (case_decide; try lia); simpl.
    + by rewrite IH.
    + rewrite !filter_none; [done| |]; (eapply Forall_impl; [exact Ha|]); simpl; lia.
Qed.

Lemma window_sublist l t0 t1 : window l t0 t1 `sublist_of` l.
Proof. unfold window. etrans; [apply sublist_take|apply sublist_drop]. Qed.
End window.

(** [&v[lo..hi]]: a reversed or out-of-bounds range panics. *)
Definition range {E A} (l : list A) (lo hi : nat) : res E (list A) :=
  if ((lo <=? hi) && (hi <=? length l))%nat then Ok (take (hi - lo) (drop lo l)) else Panic.

(** The half-open time range between the two partition points of a vector. *)
Definition time_window {E A} (key : A -> Z) (l : list A) (t0 t1 : Z) : res E (list A) :=
  range l (partition_point (fun x => key x <? t0) l) (partition_point (fun x => key x <? t1) l).

Lemma time_window_ok {E A} (key : A -> Z) l t0 t1 : t0 <= t1 ->
  time_window (E := E) key l t0 t1 = Ok (window key l t0 t1).
Proof.
  intros Ht. unfold time_window, range.
  destruct (partition_point_mono (fun x => key x <? t0) (fun x => key x <? t1) l) as [H1 H2].
  { intros x Hx. lia. }
  apply Nat.leb_le in H1, H2. by rewrite H1, H2.
Qed.

(** ** [binary_search_by_key] on sorted keys *)
Section search_key.
Context {A : Type} (key : A -> Z).

Definition search_key (t : Z) (l : list A) : nat + nat :=
  binary_search_by (fun x => Z.compare (key x) t) l.

Lemma search_key_spec t l : sorted_by key l ->
  match search_key t l with
  | inl i => exists x, l !! i = Some x /\ key x = t
  | inr i => (i <= length l)%nat /\
      (forall j x, l !! j = Some x -> key x <> t /\ (key x < t <-> (j < i)%nat))
  end.
Proof.
  intros Hs. unfold search_key, binary_search_by.
  destruct l as [|x0 l0].
  { split; [done|]. intros j x H. by rewrite lookup_nil in H. }
  set (l := x0 :: l0) in *. set (cmp := fun x => key x ?= t).
  assert (Hsp : split_at (not_gt cmp) l
    (filter (fun x => key x < t + 1) l) (filter (fun x => t + 1 <= key x) l)).
  { destruct (sorted_split_lt key l (t + 1) Hs) as (E & F1 & F2).
    split_and!; [done| |]; (eapply Forall_impl; [eassumption|]);
      simpl; intros x Hx; unfold not_gt, cmp; destruct (Z.compare_spec (key x) t); lia. }
  set (a := filter (fun x => key x < t + 1) l) in *.
  set (b := filter (fun x => t + 1 <= key x) l) in *.
  assert (Hl : (length l = length a + length b)%nat).
  { destruct Hsp as (E & _). rewrite E at 1. by rewrite length_app. }
  assert (1 <= length l)%nat by (simpl; lia).
  rewrite (bs_loop_spec cmp l _ _ _ _ _ Hsp) by lia.
  destruct (lookup_lt_is_Some_2 l (pred (length a))) as [x Hx]; [lia|].
  rewrite Hx. cbn [fmap option_fmap option_map].
  pose proof (fun j y => split_at_lookup _ l _ _ j y Hsp) as Hk.
  pose proof (Hk _ _ Hx) as Hkx. unfold not_gt, cmp in *.
  assert (Hlow : forall j y, l !! j = Some y -> (j <= pred (length a))%nat -> key y <= key x)
    by (intros j y Hy Hj; eapply Hs; eauto).
  destruct (Z.compare_spec (key x) t).
  - eauto.
  - assert (0 < length a)%nat by (destruct Hkx as [H1 _]; specialize (H1 eq_refl); lia).
    split; [lia|]. intros j y Hy. specialize (Hk j y Hy). specialize (Hlow j y Hy).
    destruct (Z.compare_spec (key y) t); destruct Hk as [K1 K2];
      try specialize (K1 eq_refl); lia.
  - assert (length a = 0)%nat.
    { destruct (length a); [done|]. destruct Hkx as [_ H2].
      assert (false = true) by (apply H2; lia). done. }
    split; [lia|]. intros j y Hy. specialize (Hk j y Hy).
    destruct (Z.compare_spec (key y) t); destruct Hk as [K1 K2];
      try specialize (K1 eq_refl); lia.
Qed.
End search_key.

(** ** [Iterator::step_by] and [usize::div_ceil] *)
Fixpoint step_by_aux {A} (skip stride : nat) (l : list A) : list A :=
  match l with
  | [] => []
  | x :: l => match skip with
              | O => x :: step_by_aux (pred stride) stride l
              | S k => step_by_aux k stride l
              end
  end.
Definition step_by {A} (stride : nat) (l : list A) : list A := step_by_aux 0 stride l.

Definition div_ceil (a b : nat) : nat := ((a + (b - 1)) / b)%nat.

Lemma step_by_aux_length {A} skip stride (l : list A) : (1 <= stride)%nat ->
  (stride * length (step_by_aux skip stride l) <= (length l - skip) + (stride - 1))%nat.
Proof.
  intros Hs. revert skip. induction l as [|x l IH]; intros skip; [simpl; lia|].
  destruct skip as [|k]; cbn [step_by_aux length].
  - specialize (IH (pred stride)).
    destruct (decide (pred stride <= length l)%nat); [lia|].
    destruct (length (step_by_aux (pred stride) stride l)); nia.
  - specialize (IH k). lia.
Qed.

Lemma step_by_sublist {A} stride (l : list A) : step_by stride l `sublist_of` l.
Proof.
  unfold step_by. generalize 0%nat.
  induction l as [|x l IH]; intros [|k]; cbn [step_by_aux]; try constructor; apply IH.
Qed.

(** Decimating with stride [ceil(len/n)] keeps at most [n] elements. *)
Lemma step_by_budget {A} (l : list A) n : (1 <= n)%nat ->
  (length (step_by (Nat.max (div_ceil (length l) n) 1) l) <= n)%nat.
Proof.
  intros Hn. set (s := Nat.max _ _). assert (1 <= s)%nat by lia.
  pose proof (step_by_aux_length 0 s l ltac:(lia)) as H1. fold (step_by s l) in H1.
  assert (length l <= n * s)%nat.
  { assert (length l <= n * div_ceil (length l) n)%nat; [|nia]. unfold div_ceil.
    pose proof (Nat.div_mod_eq (length l + (n - 1)) n).
    pose proof (Nat.mod_upper_bound (length l + (n - 1)) n). lia. }
  rewrite Nat.sub_0_r in H1.
  destruct (decide (length (step_by s l) <= n)%nat); [done|]. nia.
Qed.

(** ** Prefixes of a sorted list *)
Lemma partition_point_filter {A} (key : A -> Z) l t : sorted_by key l ->
  partition_point (fun x => key x <=? t) l = length (filter (fun x => key x <= t) l).
Proof.
  intros Hs. destruct (sorted_split_lt key l (t + 1) Hs) as (E & F1 & F2).
  rewrite (partition_point_split _ l (filter (fun x => key x < t + 1) l)
            (filter (fun x => t + 1 <= key x) l)).
  - f_equal. apply list_filter_iff. intros x. lia.
  - split_and!; [done| |]; (eapply Forall_impl; [eassumption|]); simpl; lia.
Qed.

Lemma filter_prefix_lookup {A} (key : A -> Z) l (t : Z) (i : nat) : sorted_by key l ->
  Nat.lt i (length (filter (fun x => key x <= t) l)) ->
  filter (fun x => key x <= t) l !! i = l !! i.
Proof.
  intros Hs Hi. destruct (sorted_split_lt key l (t + 1) Hs) as (E & _).
  assert (Hf : filter (fun x => key x <= t) l = filter (fun x => key x < t + 1) l)
    by (apply list_filter_iff; lia).
  rewrite Hf in *. rewrite E at 2. by rewrite lookup_app_l.
Qed.

(** ** Stable sort ([slice::sort_by])

    [leb x y] is "[x] does not compare greater than [y]".  A stable sorted
    permutation is unique, so insertion sort determines the library's result. *)
Section sort_by.
Context {A : Type} (leb : A -> A -> bool).

Fixpoint insert_by (x : A) (l : list A) : list A :=
  match l with
  | [] => [x]
  | y :: k => if leb x y then x :: l else y :: insert_by x k
  end.
Definition sort_by (l : list A) : list A := foldr insert_by [] l.

Lemma insert_by_perm x l : insert_by x l ≡ₚ x :: l.
Proof.
  induction l as [|y l IH]; cbn [insert_by]; [done|].
  destruct (leb x y); [done|]. rewrite IH. constructor.
Qed.

Lemma sort_by_perm l : sort_by l ≡ₚ l.
Proof.
  induction l as [|x l IH]; [done|]. cbn [sort_by foldr].
  rewrite insert_by_perm. by rewrite IH.
Qed.

Lemma insert_by_sorted x l :
  (forall a b, leb a b = true \/ leb b a = true) ->
  (forall a b c, leb a b = true -> leb b c = true -> leb a c = true) ->
  StronglySorted (fun a b => leb a b = true) l ->
  StronglySorted (fun a b => leb a b = true) (insert_by x l).
Proof.
  intros Htot Htr. induction 1 as [|y l Hl IH Hy]; cbn [insert_by].
  - repeat constructor.
  - destruct (leb x y) eqn:E.
    + repeat constructor; try done.
      eapply Forall_impl; [exact Hy|]. simpl. eauto.
    + constructor; [done|]. rewrite insert_by_perm. constructor; [|done].
      destruct (Htot x y); congruence.
Qed.

Lemma sort_by_sorted l :
  (forall a b, leb a b = true \/ leb b a = true) ->
  (forall a b c, leb a b = true -> leb b c = true -> leb a c = true) ->
  StronglySorted (fun a b => leb a b = true) (sort_by l).
Proof.
  intros. induction l as [|x l IH]; [constructor|]. by apply insert_by_sorted.
Qed.

(** Elements of one class of pairwise equivalent elements keep their order. *)
Lemma sort_by_stable (P : A -> Prop) `{forall x, Decision (P x)} l :
  (forall a b, P a -> P b -> leb a b = true) ->
  filter P (sort_by l) = filter P l.
Proof.
  intros HP. induction l as [|x l IH]; [done|]. cbn [sort_by foldr].
  rewrite filter_cons, <-IH. fold (sort_by l). generalize (sort_by l) as k.
  intros k. clear IH. induction k as [|y k IH]; cbn [insert_by].
  - rewrite filter_cons. by case_decide.
  - destruct (leb x y) eqn:E.
    + rewrite (filter_cons _ x). by case_decide.
    + rewrite !(filter_cons _ y), IH. repeat case_decide; try done.
      rewrite HP in E; done.
Qed.
End sort_by.
