(* ===== verification/BTree.v ===== *)
(** * Ordered maps of the Rust standard library

    A [BTreeMap] with integer keys is an association list with strictly
    ascending keys.  The file holds what the viewer uses of it: [insert],
    [entry(..).or_default().push(..)], in-order iteration (the list itself) and
    [range(..=t).next_back()]. *)

From Stdlib Require Import Sorted.
From S2P Require Import Prelude Slices.

Section btree.
Context {V : Type}.
Implicit Types (m l : list (Z * V)).

Fixpoint bt_insert (k : Z) (v : V) m : list (Z * V) :=
  match m with
  | [] => [(k, v)]
  | (k', v') :: m' =>
    if k <? k' then (k, v) :: m
    else if k =? k' then (k, v) :: m'
    else (k', v') :: bt_insert k v m'
  end.

Fixpoint bt_get (k : Z) m : option V :=
  match m with [] => None | (k', v) :: m => if k =? k' then Some v else bt_get k m end.

(** [range(..=t).next_back()]. *)
Definition bt_last_le (t : Z) m : option (Z * V) := last (filter (fun kv => kv.1 <= t) m).

(** Inserting pairs one after the other. *)
Definition bt_collect l : list (Z * V) := foldl (fun m kv => bt_insert kv.1 kv.2 m) [] l.

(** Strictly ascending keys. *)
Definition bt_ok m : Prop := StronglySorted (fun a b => a.1 < b.1) m.

Lemma bt_insert_elem k v m kv : kv ∈ bt_insert k v m -> kv = (k, v) \/ kv ∈ m.
Proof.
  induction m as [|[k' v'] m IH]; cbn [bt_insert].
  - intros ->%list_elem_of_singleton. by left.
  - destruct (k <? k'); [|destruct (k =? k')]; rewrite ?elem_of_cons; intuition.
Qed.

Lemma bt_insert_ok k v m : bt_ok m -> bt_ok (bt_insert k v m).
Proof.
  induction 1 as [|[k' v'] m Hm IH Hk]; cbn [bt_insert]; [repeat constructor|].
  destruct (k <? k') eqn:E1; [|destruct (k =? k') eqn:E2].
  - repeat constructor; [done|done|cbn; lia|]. eapply Forall_impl; [exact Hk|]. cbn. lia.
  - constructor; [done|]. eapply Forall_impl; [exact Hk|]. cbn. lia.
  - constructor; [done|]. apply Forall_forall. intros kv [->|Hkv]%bt_insert_elem; [cbn; lia|].
    by apply (proj1 (Forall_forall _ _) Hk).
Qed.

Lemma bt_get_insert k v m j : bt_ok m -> bt_get j (bt_insert k v m) = if j =? k then Some v else bt_get j m.
Proof.
  induction 1 as [|[k' v'] m Hm IH Hk]; cbn [bt_insert bt_get]; [done|].
  destruct (k <? k') eqn:E1; [done|]. destruct (k =? k') eqn:E2; cbn [bt_get].
  - destruct (j =? k) eqn:E3; [done|]. by replace (j =? k') with false by lia.
  - destruct (j =? k') eqn:E3; [|done]. by replace (j =? k) with false by lia.
Qed.

Lemma bt_get_elem k v m : bt_ok m -> bt_get k m = Some v <-> (k, v) ∈ m.
Proof.
  induction 1 as [|[k' v'] m Hm IH Hk]; cbn [bt_get].
  - split; [done|]. by intros ?%elem_of_nil.
  - rewrite elem_of_cons. destruct (k =? k') eqn:E.
    + split; [intros [= ->]; left; f_equal; lia|]. intros [[= _ ->]|Hin]; [done|].
      apply (proj1 (Forall_forall _ _) Hk) in Hin. cbn in Hin. lia.
    + rewrite IH. split; [by right|]. intros [[= -> _]|Hin]; [lia|done].
Qed.

(** Inserting at or after the last key. *)
Lemma bt_insert_last k v m :
  bt_ok m -> Forall (fun kv => kv.1 <= k) m -> bt_insert k v m = filter (fun kv => kv.1 < k) m ++ [(k, v)].
Proof.
  induction 1 as [|[k' v'] m Hm IH Hk]; intros Hle; [done|]. apply Forall_cons in Hle as [Hk' Hle]. cbn in Hk'.
  cbn [bt_insert]. replace (k <? k') with false by lia. rewrite filter_cons. cbn [fst].
  destruct (k =? k') eqn:E.
  - rewrite decide_False by lia. destruct m as [|kv m]; [done|].
    apply Forall_cons in Hk as [Hkv _], Hle as [Hle _]. cbn in Hkv. lia.
  - rewrite decide_True by lia. cbn. by rewrite IH.
Qed.

Lemma bt_collect_snoc l kv : bt_collect (l ++ [kv]) = bt_insert kv.1 kv.2 (bt_collect l).
Proof. unfold bt_collect. by rewrite foldl_app. Qed.

Lemma bt_collect_ok l : bt_ok (bt_collect l).
Proof. induction l as [|kv l IH] using rev_ind; [constructor|]. rewrite bt_collect_snoc. by apply bt_insert_ok. Qed.

Lemma bt_collect_elem l kv : kv ∈ bt_collect l -> kv ∈ l.
Proof.
  induction l as [|x l IH] using rev_ind; [done|]. rewrite bt_collect_snoc, elem_of_app, list_elem_of_singleton.
  intros [->|?]%bt_insert_elem; [right; by destruct x|auto].
Qed.

Lemma bt_collect_keys l k : k ∈ map fst (bt_collect l) <-> k ∈ map fst l.
Proof.
  induction l as [|x l IH] using rev_ind; [done|]. rewrite bt_collect_snoc, map_app, elem_of_app, <-IH.
  cbn [map]. rewrite list_elem_of_singleton. pose proof (bt_collect_ok l) as Hok. revert Hok.
  generalize (bt_collect l). intros m Hok.
  assert (Hget : forall m, bt_ok m -> k ∈ map fst m <-> is_Some (bt_get k m)).
  { intros m' Hm'. split.
    - intros ([k0 v] & -> & Hin)%list_elem_of_fmap_1. exists v. by apply bt_get_elem.
    - intros [v Hv]. apply bt_get_elem in Hv; [|done]. apply list_elem_of_fmap. by exists (k, v). }
  rewrite !Hget, bt_get_insert by (done || by apply bt_insert_ok). destruct (k =? x.1) eqn:E.
  - split; [intros _; right; lia|by intros _; eexists].
  - split; [by left|]. intros [?|?]; [done|lia].
Qed.

(** For pairs in order of time, the map answers "the latest at or before [t]"
    as the list of pairs does. *)
Lemma bt_collect_last_le l t :
  sorted_by fst l -> bt_last_le t (bt_collect l) = last (filter (fun kv => kv.1 <= t) l).
Proof.
  induction l as [|[k v] l IH] using rev_ind; [done|]. intros (Hl & _ & Hle)%sorted_by_app.
  rewrite bt_collect_snoc. cbn [fst snd]. rewrite bt_insert_last.
  - unfold bt_last_le in *. rewrite !filter_app, filter_cons, filter_nil. cbn [fst].
    destruct (decide (k <= t)).
    + by rewrite !last_snoc.
    + rewrite !app_nil_r, <-(IH Hl). f_equal. rewrite list_filter_filter. apply list_filter_iff.
      intros kv. lia.
  - apply bt_collect_ok.
  - apply Forall_forall. intros kv Hkv%bt_collect_elem. apply (Hle kv (k, v)); [done|]. by apply list_elem_of_singleton.
Qed.
End btree.

(** [entry(k).or_default().push(x)]. *)
Definition bt_push {X} (k : Z) (x : X) (m : list (Z * list X)) : list (Z * list X) :=
  bt_insert k (default [] (bt_get k m) ++ [x]) m.

(** Grouping a list by a key. *)
Definition bt_group {X} (key : X -> Z) (l : list X) : list (Z * list X) :=
  foldl (fun m x => bt_push (key x) x m) [] l.

Lemma bt_group_spec {X} (key : X -> Z) l :
  bt_ok (bt_group key l) /\
  forall k, bt_get k (bt_group key l) =
    match filter (fun x => key x = k) l with [] => None | g => Some g end.
Proof.
  unfold bt_group. induction l as [|x l IH] using rev_ind; [split; [constructor|done]|].
  rewrite foldl_app. cbn [foldl]. destruct IH as [Hok Hget]. unfold bt_push at 1 3.
  split; [by apply bt_insert_ok|]. intros k. rewrite bt_get_insert by done.
  rewrite filter_app, filter_cons, filter_nil. destruct (k =? key x) eqn:E.
  - assert (key x = k) as <- by lia. rewrite decide_True by done. rewrite Hget.
    destruct (filter _ l) as [|y g]; done.
  - rewrite decide_False by lia. by rewrite app_nil_r.
Qed.
