(* ===== verification/Text.v ===== *)
(** * Rust strings

    A [String]/[&str] is its UTF-8 byte sequence.  This file models what the
    sources use of [std::str]: UTF-8 validation (strict and lossy), character
    iteration, ASCII case folding, substring search, white-space trimming,
    number formatting and [u16] parsing. *)

From Stdlib Require Import String Ascii.
From S2P Require Import Prelude.

Abbreviation text := (list byte).

(** A string literal of the source. *)
Definition str (s : string) : text := list_byte_of_string s.

#[global] Program Instance byte_countable : Countable byte :=
  inj_countable byte_z (fun z => Some (z_byte z)) _.
Next Obligation. intros b. simpl. by rewrite z_byte_z. Qed.

(** ** UTF-8 *)
Definition between (lo hi z : Z) : bool := (lo <=? z) && (z <=? hi).
Definition is_cont (z : Z) : bool := between 128 191 z.

(** The byte at position [i], or 0 past the end. *)
Definition safe_get (bs : text) (i : nat) : Z :=
  match bs !! i with Some b => byte_z b | None => 0 end.

(** The next chunk: its length and whether it is a well-formed character or
    the maximal prefix of an ill-formed one ([core::str] validation loop). *)
Definition utf8_next (bs : text) : option (nat * bool) :=
  match bs with
  | [] => None
  | b0 :: _ =>
      let b := byte_z b0 in
      let g := safe_get bs in
      Some
        (if b <? 128 then (1%nat, true)
         else if between 194 223 b then
           if is_cont (g 1%nat) then (2%nat, true) else (1%nat, false)
         else if between 224 239 b then
           if (if b =? 224 then between 160 191 (g 1%nat)
               else if b =? 237 then between 128 159 (g 1%nat)
               else is_cont (g 1%nat))
           then if is_cont (g 2%nat) then (3%nat, true) else (2%nat, false)
           else (1%nat, false)
         else if between 240 244 b then
           if (if b =? 240 then between 144 191 (g 1%nat)
               else if b =? 244 then between 128 143 (g 1%nat)
               else is_cont (g 1%nat))
           then if is_cont (g 2%nat)
                then if is_cont (g 3%nat) then (4%nat, true) else (3%nat, false)
                else (2%nat, false)
           else (1%nat, false)
         else (1%nat, false))
  end.

(** Each step consumes a byte, so the length of the input is enough fuel. *)
Fixpoint utf8_chunks_fuel (fuel : nat) (bs : text) : list (bool * text) :=
  match fuel with
  | O => []
  | S fuel =>
      match utf8_next bs with
      | None => []
      | Some (n, ok) => (ok, take n bs) :: utf8_chunks_fuel fuel (drop n bs)
      end
  end.
Definition utf8_chunks (bs : text) : list (bool * text) := utf8_chunks_fuel (List.length bs) bs.

(** [std::str::from_utf8]. *)
Definition utf8_valid (bs : text) : bool := forallb fst (utf8_chunks bs).
Definition from_utf8 (bs : text) : option text := if utf8_valid bs then Some bs else None.

(** [String::from_utf8_lossy]: ill-formed chunks become U+FFFD. *)
Definition replacement : text := [xef; xbf; xbd].
Definition from_utf8_lossy (bs : text) : text :=
  concat (map (fun '(ok, c) => if (ok : bool) then c else replacement) (utf8_chunks bs)).

(** [str::chars]: the encodings of the characters, in order. *)
Definition chars (s : text) : list text := map snd (utf8_chunks s).

Lemma utf8_next_len bs n ok : utf8_next bs = Some (n, ok) -> (1 <= n)%nat.
Proof.
  unfold utf8_next. destruct bs as [|b0 bs]; [done|].
  intros H. injection H as H. repeat case_match; simplify_eq; lia.
Qed.

Lemma utf8_chunks_concat bs : concat (map snd (utf8_chunks bs)) = bs.
Proof.
  unfold utf8_chunks. remember (List.length bs) as fuel eqn:E.
  assert (Hf : (List.length bs <= fuel)%nat) by lia. clear E.
  revert bs Hf. induction fuel as [|fuel IH]; intros bs Hf.
  - destruct bs; [done|simpl in Hf; lia].
  - cbn [utf8_chunks_fuel]. destruct (utf8_next bs) as [[n ok]|] eqn:E.
    + cbn [map concat snd]. rewrite IH.
      * apply take_drop.
      * apply utf8_next_len in E. rewrite length_drop. lia.
    + by destruct bs.
Qed.

(** Lossy decoding changes nothing in a well-formed string. *)
Lemma from_utf8_lossy_valid bs : utf8_valid bs = true -> from_utf8_lossy bs = bs.
Proof.
  unfold utf8_valid, from_utf8_lossy. intros H. rewrite <-(utf8_chunks_concat bs) at 2.
  f_equal. apply map_ext_in. intros [ok c] Hin.
  rewrite forallb_forall in H. specialize (H _ Hin). simpl in H. by subst.
Qed.

(** ASCII strings are well-formed, one character per byte. *)
Definition is_ascii (s : text) : bool := forallb (fun b => byte_z b <? 128) s.

Lemma ascii_chunks s : is_ascii s = true -> utf8_chunks s = map (fun b => (true, [b])) s.
Proof.
  unfold utf8_chunks. induction s as [|b s IH]; [done|].
  cbn [is_ascii forallb]. intros [Hb Hs]%andb_true_iff. fold (is_ascii s) in Hs.
  cbn [List.length utf8_chunks_fuel]. unfold utf8_next at 1. rewrite Hb.
  cbn [take drop map]. rewrite drop_0. by rewrite IH.
Qed.

Lemma ascii_valid s : is_ascii s = true -> utf8_valid s = true.
Proof.
  intros H. unfold utf8_valid. rewrite ascii_chunks by done. clear H.
  induction s; [done|]. simpl. done.
Qed.

(** ** Characters *)
Definition code_point (c : text) : Z :=
  match map byte_z c with
  | [a] => a
  | [a; b] => Z.lor (Z.shiftl (Z.land a 31) 6) (Z.land b 63)
  | [a; b; d] => Z.lor (Z.shiftl (Z.land a 15) 12) (Z.lor (Z.shiftl (Z.land b 63) 6) (Z.land d 63))
  | [a; b; d; e] =>
      Z.lor (Z.shiftl (Z.land a 7) 18)
        (Z.lor (Z.shiftl (Z.land b 63) 12) (Z.lor (Z.shiftl (Z.land d 63) 6) (Z.land e 63)))
  | _ => 65533
  end.

(** [char::is_whitespace]: the Unicode White_Space property. *)
Definition is_whitespace (c : text) : bool :=
  let z := code_point c in
  between 9 13 z || (z =? 32) || (z =? 133) || (z =? 160) || (z =? 5760)
  || between 8192 8202 z || (z =? 8232) || (z =? 8233) || (z =? 8239)
  || (z =? 8287) || (z =? 12288).

(** [s.trim().is_empty()]. *)
Definition trim_is_empty (s : text) : bool := forallb is_whitespace (chars s).

Definition is_digit (z : Z) : bool := between 48 57 z.
Definition is_upper (z : Z) : bool := between 65 90 z.
Definition is_lower (z : Z) : bool := between 97 122 z.

Definition lower_byte (b : byte) : byte :=
  if is_upper (byte_z b) then z_byte (byte_z b + 32) else b.
(** [str::to_ascii_lowercase]. *)
Definition to_ascii_lowercase (s : text) : text := map lower_byte s.

Lemma lower_byte_idem b : lower_byte (lower_byte b) = lower_byte b.
Proof.
  unfold lower_byte at 2 3. destruct (is_upper (byte_z b)) eqn:E; [|unfold lower_byte; by rewrite E].
  unfold lower_byte. rewrite byte_z_byte. unfold is_upper, between in *.
  rewrite Z.mod_small by lia. by replace (_ && _) with false by lia.
Qed.

(** ** Searching *)
Fixpoint is_prefix (p s : text) : bool :=
  match p, s with
  | [], _ => true
  | a :: p, b :: s => bool_decide (a = b) && is_prefix p s
  | _ :: _, [] => false
  end.

(** [str::contains] of a string pattern. *)
Fixpoint contains (s needle : text) : bool :=
  is_prefix needle s || match s with [] => false | _ :: s => contains s needle end.

(** [str::find] of an ASCII character. *)
Fixpoint find_byte (b : byte) (s : text) : option nat :=
  match s with
  | [] => None
  | a :: s => if bool_decide (a = b) then Some 0%nat else S <$> find_byte b s
  end.

(** [str::strip_prefix]. *)
Definition strip_prefix (s p : text) : option text :=
  if is_prefix p s then Some (drop (List.length p) s) else None.

Lemma is_prefix_spec p s : is_prefix p s = true <-> exists r, s = p ++ r.
Proof.
  revert s. induction p as [|a p IH]; intros s; simpl.
  - split; eauto.
  - destruct s as [|b s]; simpl.
    + split; [done|]. by intros [r ?].
    + rewrite andb_true_iff, bool_decide_eq_true, IH. split.
      * intros [-> [r ->]]. eauto.
      * intros [r ?]. simplify_eq. eauto.
Qed.

Lemma contains_spec s n : contains s n = true <-> exists a b, s = a ++ n ++ b.
Proof.
  induction s as [|c s IH]; cbn [contains].
  - rewrite orb_false_r, is_prefix_spec. split.
    + intros [r H]. by exists [], r.
    + intros (a & b & H). apply eq_sym, app_eq_nil in H as [-> H]. eauto.
  - rewrite orb_true_iff, is_prefix_spec, IH. split.
    + intros [[r ->]|(a & b & ->)]; [by exists [], r|by exists (c :: a), b].
    + intros ([|d a] & b & H); simpl in H; simplify_eq; eauto.
Qed.

Lemma find_byte_spec b s :
  match find_byte b s with
  | Some i => exists p r, s = p ++ b :: r /\ List.length p = i /\ (b ∉ p)
  | None => b ∉ s
  end.
Proof.
  induction s as [|a s IH]; simpl; [by apply not_elem_of_nil|].
  case_bool_decide as E; [subst; exists [], s; split_and!; [done|done|by apply not_elem_of_nil]|].
  destruct (find_byte b s) as [i|]; simpl.
  - destruct IH as (p & r & -> & <- & Hp). exists (a :: p), r. split_and!; [done|done|].
    rewrite not_elem_of_cons. done.
  - rewrite not_elem_of_cons. done.
Qed.

(** ** Numbers *)
Definition digit_byte (d : Z) : byte := if d <? 10 then z_byte (48 + d) else z_byte (55 + d).

Fixpoint radix_fuel (fuel : nat) (base n : Z) (acc : text) : text :=
  match fuel with
  | O => acc
  | S fuel =>
      let acc := digit_byte (n mod base) :: acc in
      if n / base =? 0 then acc else radix_fuel fuel base (n / base) acc
  end.

(** Digits of a non-negative number: [{}] (base 10), [{:X}] (16), [{:b}] (2).
    The bit length of [n] is enough fuel for any base of at least 2. *)
Definition fmt_radix (base n : Z) : text := radix_fuel (S (Z.to_nat (Z.log2 n))) base n [].
Definition fmt_dec (n : Z) : text := if n <? 0 then x2d :: fmt_radix 10 (- n) else fmt_radix 10 n.

(** [{n:0w}]. *)
Definition fmt_pad (w : nat) (n : Z) : text :=
  let d := fmt_dec n in replicate (w - List.length d) x30 ++ d.

Definition dec_step (acc : Z) (b : byte) : Z := 10 * acc + (byte_z b - 48).
Definition dec_value (ds : text) : Z := foldl dec_step 0 ds.

(** [str::parse::<u16>]: an optional leading [+], then digits, in range. *)
Definition parse_u16 (s : text) : option Z :=
  let ds := match s with
            | b :: (_ :: _) as r => if bool_decide (b = x2b) then tail s else s
            | _ => s
            end in
  match ds with
  | [] => None
  | _ => if forallb (fun b => is_digit (byte_z b)) ds
         then (let v := dec_value ds in if v <? 2 ^ 16 then Some v else None)
         else None
  end.

Lemma digit_byte_dec d : 0 <= d < 10 -> byte_z (digit_byte d) = 48 + d.
Proof.
  intros. unfold digit_byte. replace (d <? 10) with true by lia.
  rewrite byte_z_byte, Z.mod_small; lia.
Qed.

Lemma dec_value_app acc a b : foldl dec_step acc (a ++ b) = foldl dec_step (foldl dec_step acc a) b.
Proof. apply foldl_app. Qed.

(** What the digit loop produces: a non-empty block of digits whose value is
    [n], in front of the accumulator. *)
Lemma radix_fuel_dec fuel n acc : 0 <= n < 2 ^ Z.of_nat fuel -> (1 <= fuel)%nat ->
  exists ds, radix_fuel fuel 10 n acc = ds ++ acc /\ ds <> [] /\
    Forall (fun b => is_digit (byte_z b) = true) ds /\ dec_value ds = n /\
    (0 < n -> head ds <> Some x30).
Proof.
  revert n acc. induction fuel as [|fuel IH]; intros n acc Hn Hf; [lia|].
  cbn [radix_fuel]. cbv zeta.
  assert (Hm : 0 <= n mod 10 < 10) by (apply Z.mod_pos_bound; lia).
  assert (Hd : is_digit (byte_z (digit_byte (n mod 10))) = true).
  { rewrite digit_byte_dec by done. unfold is_digit, between. lia. }
  destruct (n / 10 =? 0) eqn:E.
  - exists [digit_byte (n mod 10)]. split_and!; [done|done|by repeat constructor| |].
    + unfold dec_value, dec_step. simpl. rewrite digit_byte_dec by done.
      pose proof (Z.div_mod n 10). lia.
    + intros Hpos [= Hz]. assert (byte_z (digit_byte (n mod 10)) = 48) by (rewrite Hz; reflexivity).
      rewrite digit_byte_dec in H by done. pose proof (Z.div_mod n 10). lia.
  - assert (Hq : 0 <= n / 10 < 2 ^ Z.of_nat fuel).
    { split; [apply Z.div_pos; lia|]. apply Z.div_lt_upper_bound; [lia|].
      rewrite Nat2Z.inj_succ, Z.pow_succ_r in Hn by lia. lia. }
    destruct fuel as [|fuel']; [simpl in Hq; lia|].
    destruct (IH (n / 10) (digit_byte (n mod 10) :: acc) Hq ltac:(lia))
      as (ds & -> & Hne & Hall & Hv & Hh).
    exists (ds ++ [digit_byte (n mod 10)]). split_and!.
    + by rewrite <-app_assoc.
    + by destruct ds.
    + apply Forall_app. split; [done|by repeat constructor].
    + unfold dec_value. rewrite dec_value_app. fold (dec_value ds). rewrite Hv.
      unfold dec_step. simpl. rewrite digit_byte_dec by done. pose proof (Z.div_mod n 10). lia.
    + intros. destruct ds; [done|]. simpl in *. apply Hh. pose proof (Z.div_mod n 10). lia.
Qed.

Lemma fmt_radix_dec n : 0 <= n ->
  exists ds, fmt_radix 10 n = ds /\ ds <> [] /\
    Forall (fun b => is_digit (byte_z b) = true) ds /\ dec_value ds = n /\
    (0 < n -> head ds <> Some x30).
Proof.
  intros Hn. unfold fmt_radix.
  destruct (radix_fuel_dec (S (Z.to_nat (Z.log2 n))) n []) as (ds & H & ?); [|lia|].
  - split; [done|]. rewrite Nat2Z.inj_succ, Z2Nat.id by apply Z.log2_nonneg.
    destruct (decide (n = 0)) as [->|]; [done|]. apply Z.log2_spec. lia.
  - rewrite app_nil_r in H. eauto.
Qed.

(** Printing a port and parsing it back. *)
Lemma parse_fmt_u16 n : 0 <= n < 2 ^ 16 -> parse_u16 (fmt_dec n) = Some n.
Proof.
  intros Hn. unfold fmt_dec. replace (n <? 0) with false by lia.
  destruct (fmt_radix_dec n) as (ds & -> & Hne & Hall & Hv & _); [lia|].
  assert (Hplus : forall b r, ds = b :: r -> b <> x2b).
  { intros b r -> ->. inversion Hall. done. }
  unfold parse_u16. destruct ds as [|b r]; [done|].
  assert (Hds : (match b :: r with
                 | b0 :: _ :: _ => if bool_decide (b0 = x2b) then tail (b :: r) else b :: r
                 | _ => b :: r end) = b :: r).
  { destruct r; [done|]. rewrite bool_decide_eq_false_2; [done|]. by eapply Hplus. }
  rewrite Hds. rewrite Hv.
  replace (forallb _ (b :: r)) with true.
  - by replace (n <? 2 ^ 16) with true by lia.
  - symmetry. apply forallb_forall. intros x Hx. rewrite Forall_forall in Hall.
    apply Hall. by apply list_elem_of_In.
Qed.
