(* ===== verification/Float64.v ===== *)
(** * IEEE 754 binary64 as Rust's [f64]

    Numeric telemetry collapses to [f64].  Values are the Standard Library's
    executable [spec_float] (no NaN payloads) at precision 53 and maximal
    exponent 1024, so arithmetic rounds as the hardware does.  The file adds
    the conversions the sources use (integer to float, [from_le_bytes], the
    saturating [as] casts) and the order lemmas the components need. *)

From Stdlib Require Import SpecFloat.
From S2P Require Import Prelude.

Abbreviation f64 := spec_float.
Abbreviation f32 := spec_float.

#[global] Instance spec_float_eq_dec : EqDecision spec_float.
Proof. solve_decision. Defined.

(** ** Operations *)
Definition f64_add : f64 -> f64 -> f64 := SFadd 53 1024.
Definition f64_sub : f64 -> f64 -> f64 := SFsub 53 1024.
Definition f64_mul : f64 -> f64 -> f64 := SFmul 53 1024.
Definition f64_div : f64 -> f64 -> f64 := SFdiv 53 1024.
Definition f64_lt : f64 -> f64 -> bool := SFltb.
Definition f64_le : f64 -> f64 -> bool := SFleb.
Definition f64_eq : f64 -> f64 -> bool := SFeqb.

Definition is_nan (x : f64) : bool := match x with S754_nan => true | _ => false end.

(** [f64::min] and [f64::max] ignore a NaN operand. *)
Definition f64_min (a b : f64) : f64 :=
  if is_nan a then b else if is_nan b then a else if f64_lt b a then b else a.
Definition f64_max (a b : f64) : f64 :=
  if is_nan a then b else if is_nan b then a else if f64_lt a b then b else a.

(** [f64::clamp]. *)
Definition f64_clamp (x lo hi : f64) : f64 :=
  let x := if f64_lt x lo then lo else x in
  if f64_lt hi x then hi else x.

(** [n as f64] for an integer [n]; [m * 2^e] rounded to nearest even. *)
Definition f64_of_Z (n : Z) : f64 := binary_normalize 53 1024 n 0 false.
Definition f64_scaled (m e : Z) : f64 := binary_normalize 53 1024 m e false.

(** The IEEE interchange format: sign, [ew] exponent bits, [mw] fraction bits. *)
Definition float_of_bits (ew mw bits : Z) : spec_float :=
  let s := Z.testbit bits (ew + mw) in
  let e := Z.land (Z.shiftr bits mw) (2 ^ ew - 1) in
  let f := Z.land bits (2 ^ mw - 1) in
  let bias := 2 ^ (ew - 1) - 1 in
  if e =? 2 ^ ew - 1 then (if f =? 0 then S754_infinity s else S754_nan)
  else if e =? 0 then
    match f with Zpos p => S754_finite s p (1 - bias - mw) | _ => S754_zero s end
  else match f + 2 ^ mw with
       | Zpos p => S754_finite s p (e - bias - mw)
       | _ => S754_zero s
       end.
Definition f64_of_bits : Z -> f64 := float_of_bits 11 52.
Definition f32_of_bits : Z -> f32 := float_of_bits 8 23.

(** [x as f64] for an [f32] value: every binary32 value is representable. *)
Definition f64_of_f32 (x : f32) : f64 :=
  match x with
  | S754_finite s m e => binary_normalize 53 1024 (if s then Zneg m else Zpos m) e s
  | _ => x
  end.

(** Truncation toward zero and floor of a finite value. *)
Definition trunc_abs (m : positive) (e : Z) : Z :=
  if 0 <=? e then Zpos m * 2 ^ e else Zpos m / 2 ^ (- e).
Definition f64_trunc (x : f64) : Z :=
  match x with S754_finite s m e => if s then - trunc_abs m e else trunc_abs m e | _ => 0 end.
Definition f64_floor_Z (x : f64) : Z :=
  match x with
  | S754_finite false m e => trunc_abs m e
  | S754_finite true m e => if 0 <=? e then - trunc_abs m e else - (Zpos m / 2 ^ (- e)) -
      (if Zpos m mod 2 ^ (- e) =? 0 then 0 else 1)
  | _ => 0
  end.

(** [f64::floor]: integers up to 2^53 are exact and larger values are already
    integral. *)
Definition f64_floor (x : f64) : f64 :=
  match x with
  | S754_finite s m e => if 0 <=? e then x else
      (match f64_floor_Z x with 0 => S754_zero s | n => f64_of_Z n end)
  | _ => x
  end.

(** The saturating [x as iN]/[x as uN] casts into [lo, hi]. *)
Definition f64_cast (lo hi : Z) (x : f64) : Z :=
  match x with
  | S754_nan => 0
  | S754_infinity s => if s then lo else hi
  | _ => Z.max lo (Z.min hi (f64_trunc x))
  end.
Definition f64_to_u32 : f64 -> Z := f64_cast 0 (2 ^ 32 - 1).
Definition f64_to_u64 : f64 -> Z := f64_cast 0 (2 ^ 64 - 1).
Definition f64_to_i64 : f64 -> Z := f64_cast (- 2 ^ 63) (2 ^ 63 - 1).

(** ** Order

    Comparison of non-NaN floats is a lexicographic comparison of a key. *)
Definition fkey (x : f64) : Z * Z * Z :=
  match x with
  | S754_infinity s => (if s then -2 else 2, 0, 0)
  | S754_zero _ | S754_nan => (0, 0, 0)
  | S754_finite s m e => if s then (-1, - e, Zneg m) else (1, e, Zpos m)
  end.
Definition lex (a b : Z * Z * Z) : comparison :=
  let '(a1, a2, a3) := a in
  let '(b1, b2, b3) := b in
  match Z.compare a1 b1 with
  | Eq => match Z.compare a2 b2 with Eq => Z.compare a3 b3 | c => c end
  | c => c
  end.

Lemma SFcompare_key a b : is_nan a = false -> is_nan b = false ->
  SFcompare a b = Some (lex (fkey a) (fkey b)).
Proof.
  destruct a as [sa|sa| |sa ma ea], b as [sb|sb| |sb mb eb]; try discriminate;
    intros _ _; cbn [SFcompare fkey]; try (destruct sa); try (destruct sb); try reflexivity.
  - unfold lex. rewrite Z.compare_refl.
    replace (- ea ?= - eb) with (CompOpp (ea ?= eb)) by (by rewrite Z.compare_opp, <-Z.compare_antisym).
    by destruct (ea ?= eb).
Qed.

Definition lex_le (a b : Z * Z * Z) : Prop := lex a b <> Gt.

Lemma lex_le_trans a b c : lex_le a b -> lex_le b c -> lex_le a c.
Proof.
  destruct a as [[a1 a2] a3], b as [[b1 b2] b3], c as [[c1 c2] c3]. unfold lex_le, lex.
  repeat match goal with |- context [?x ?= ?y] => destruct (Z.compare_spec x y) end;
    intros; try done; try lia.
Qed.

Lemma lex_total a b : lex_le a b \/ lex b a = Lt.
Proof.
  destruct a as [[a1 a2] a3], b as [[b1 b2] b3]. unfold lex_le, lex.
  repeat match goal with |- context [?x ?= ?y] => destruct (Z.compare_spec x y) end;
    intros; try lia; try (left; done); try (right; done).
Qed.

Lemma f64_le_key a b : is_nan a = false -> is_nan b = false ->
  f64_le a b = true <-> lex_le (fkey a) (fkey b).
Proof.
  intros Ha Hb. unfold f64_le, SFleb, lex_le. rewrite SFcompare_key by done.
  destruct (lex _ _); split; done.
Qed.

Lemma f64_lt_key a b : is_nan a = false -> is_nan b = false ->
  f64_lt a b = true <-> lex (fkey a) (fkey b) = Lt.
Proof.
  intros Ha Hb. unfold f64_lt, SFltb. rewrite SFcompare_key by done.
  destruct (lex _ _); split; done.
Qed.

Lemma f64_le_nan a b : f64_le a b = true -> is_nan a = false /\ is_nan b = false.
Proof. destruct a, b; unfold f64_le, SFleb; simpl; done. Qed.

Lemma f64_le_refl a : is_nan a = false -> f64_le a a = true.
Proof.
  intros H. apply f64_le_key; [done..|]. destruct (fkey a) as [[x y] z].
  unfold lex_le, lex. by rewrite !Z.compare_refl.
Qed.

Lemma f64_le_trans a b c : f64_le a b = true -> f64_le b c = true -> f64_le a c = true.
Proof.
  intros H1 H2. destruct (f64_le_nan _ _ H1), (f64_le_nan _ _ H2).
  rewrite f64_le_key in * by done. by eapply lex_le_trans.
Qed.

Lemma f64_lt_le a b : f64_lt a b = true -> f64_le a b = true.
Proof. unfold f64_lt, f64_le, SFltb, SFleb. by destruct (SFcompare a b) as [[]|]. Qed.

Lemma f64_nlt_le a b : is_nan a = false -> is_nan b = false ->
  f64_lt b a = false -> f64_le a b = true.
Proof.
  intros Ha Hb H. apply f64_le_key; [done..|].
  destruct (lex_total (fkey a) (fkey b)) as [|Hl]; [done|].
  apply f64_lt_key in Hl; [congruence|done..].
Qed.

Lemma f64_min_spec a b :
  (f64_min a b = a \/ f64_min a b = b) /\
  (is_nan a = false -> f64_le (f64_min a b) a = true) /\
  (is_nan b = false -> f64_le (f64_min a b) b = true).
Proof.
  unfold f64_min. destruct (is_nan a) eqn:Ea, (is_nan b) eqn:Eb; split_and!;
    try done; try (intros; by apply f64_le_refl); auto.
  - destruct (f64_lt b a); auto.
  - destruct (f64_lt b a) eqn:E; intros; [by apply f64_lt_le|by apply f64_le_refl].
  - destruct (f64_lt b a) eqn:E; intros; [by apply f64_le_refl|by apply f64_nlt_le].
Qed.

Lemma f64_max_spec a b :
  (f64_max a b = a \/ f64_max a b = b) /\
  (is_nan a = false -> f64_le a (f64_max a b) = true) /\
  (is_nan b = false -> f64_le b (f64_max a b) = true).
Proof.
  unfold f64_max. destruct (is_nan a) eqn:Ea, (is_nan b) eqn:Eb; split_and!;
    try done; try (intros; by apply f64_le_refl); auto.
  - destruct (f64_lt a b); auto.
  - destruct (f64_lt a b) eqn:E; intros; [by apply f64_lt_le|by apply f64_le_refl].
  - destruct (f64_lt a b) eqn:E; intros; [by apply f64_le_refl|by apply f64_nlt_le].
Qed.

(** ** Signs: conversions and quotients of numbers without a minus sign *)
Definition nonneg (x : f64) : bool :=
  match x with
  | S754_zero s | S754_finite s _ _ | S754_infinity s => negb s
  | S754_nan => true
  end.

Lemma shr_1_nonneg r : 0 <= shr_m r -> 0 <= shr_m (shr_1 r).
Proof. destruct r as [[|[p|p|]|p] r' s']; simpl; lia. Qed.

Lemma iter_pos_nonneg n r : 0 <= shr_m r -> 0 <= shr_m (SpecFloat.iter_pos shr_1 n r).
Proof.
  revert r. induction n as [n IH|n IH|]; intros r H; cbn [SpecFloat.iter_pos]; auto using shr_1_nonneg.
Qed.

Lemma shr_fexp_nonneg p x m e l : 0 <= m -> 0 <= shr_m (fst (shr_fexp p x m e l)).
Proof.
  intros Hm. unfold shr_fexp, shr.
  assert (0 <= shr_m (shr_record_of_loc m l)) by (destruct l as [|[]]; done).
  destruct (_ - e); simpl; auto using iter_pos_nonneg.
Qed.

(** Rounding keeps the sign and never yields NaN. *)
Lemma round_aux_sign p x s m e l : 0 <= m ->
  match binary_round_aux p x s m e l with
  | S754_zero s' | S754_infinity s' | S754_finite s' _ _ => s' = s
  | S754_nan => False
  end.
Proof.
  intros Hm. unfold binary_round_aux.
  pose proof (shr_fexp_nonneg p x m e l Hm) as H1.
  destruct (shr_fexp p x m e l) as [r1 e1]. cbn [fst] in H1.
  assert (H2 : 0 <= round_nearest_even (shr_m r1) (loc_of_shr_record r1)).
  { unfold round_nearest_even. destruct (loc_of_shr_record r1) as [|[]]; try destruct (Z.even _); lia. }
  pose proof (shr_fexp_nonneg p x _ e1 loc_Exact H2) as H3.
  destruct (shr_fexp p x _ e1 loc_Exact) as [r2 e2]. cbn [fst] in H3.
  destruct (shr_m r2); [done| |lia]. by destruct (e2 <=? x - p).
Qed.

Lemma binary_round_sign p x s m e :
  match binary_round p x s m e with
  | S754_zero s' | S754_infinity s' | S754_finite s' _ _ => s' = s
  | S754_nan => False
  end.
Proof. unfold binary_round. destruct (shl_align _ _ _). by apply round_aux_sign. Qed.

Lemma nonneg_of_Z n : 0 <= n -> nonneg (f64_of_Z n) = true.
Proof.
  intros Hn. unfold f64_of_Z, binary_normalize. destruct n; [done| |lia].
  pose proof (binary_round_sign 53 1024 false p 0) as H.
  destruct (binary_round _ _ _ _ _); simpl in *; by subst.
Qed.

Lemma f64_of_Z_not_nan n : is_nan (f64_of_Z n) = false.
Proof.
  unfold f64_of_Z, binary_normalize. destruct n as [|m|m]; [done| |].
  - pose proof (binary_round_sign 53 1024 false m 0). by destruct (binary_round _ _ _ _ _).
  - pose proof (binary_round_sign 53 1024 true m 0). by destruct (binary_round _ _ _ _ _).
Qed.

Lemma div_core_nonneg ma ea mb eb q e l : SFdiv_core_binary 53 1024 (Z.pos ma) ea (Z.pos mb) eb = (q, e, l) -> 0 <= q.
Proof.
  intros E. unfold SFdiv_core_binary in E.
  match type of E with context [Z.div_eucl ?x ?y] =>
    assert (Hx : 0 <= x); [|pose proof (Z_div_mod x y ltac:(lia)) as Hd;
      destruct (Z.div_eucl x y) as [q' r']; simplify_eq] end.
  - destruct (_ - _); try lia. apply Z.shiftl_nonneg. lia.
  - nia.
Qed.

Lemma nonneg_div a b : nonneg a = true -> nonneg b = true -> nonneg (f64_div a b) = true.
Proof.
  unfold f64_div. destruct a as [sa|sa| |sa ma ea], b as [sb|sb| |sb mb eb];
    try destruct sa; try destruct sb; try done; intros _ _; cbn [SFdiv xorb]; try done.
  destruct (SFdiv_core_binary 53 1024 (Z.pos ma) ea (Z.pos mb) eb) as [[q e] l] eqn:E.
  pose proof (round_aux_sign 53 1024 false q e l (div_core_nonneg _ _ _ _ _ _ _ E)) as Hs.
  destruct (binary_round_aux _ _ _ _ _ _); simpl in *; by subst.
Qed.

Lemma floor_nonneg x : nonneg x = true -> 0 <= f64_to_i64 (f64_floor x).
Proof.
  destruct x as [s|s| |s m e]; intros H; try (by destruct s); [done|].
  destruct s; [done|]. clear H. unfold f64_to_i64.
    assert (Hn : forall y, nonneg y = true -> 0 <= f64_cast (- 2 ^ 63) (2 ^ 63 - 1) y).
    { intros [s|s| |s m' e'] Hy; try destruct s; try done; cbn [f64_cast f64_trunc].
      unfold trunc_abs. destruct (0 <=? e') eqn:E.
      - assert (0 <= Z.pos m' * 2 ^ e') by (apply Z.mul_nonneg_nonneg; [lia|apply Z.pow_nonneg; lia]). lia.
      - assert (0 <= Z.pos m' / 2 ^ (- e')) by (apply Z.div_pos; [lia|apply Z.pow_pos_nonneg; lia]). lia. }
    cbn [f64_floor]. destruct (0 <=? e) eqn:E; [by apply Hn|].
    cbn [f64_floor_Z]. unfold trunc_abs. rewrite E.
    assert (0 <= Z.pos m / 2 ^ (- e)) by (apply Z.div_pos; [lia|apply Z.pow_pos_nonneg; lia]).
    destruct (Z.pos m / 2 ^ (- e)) eqn:Eq; [by apply Hn| |lia].
    apply Hn, nonneg_of_Z. lia.
Qed.

(** ** Integers below 2^53 are exact *)
Lemma digits2_pos_bound m : 2 ^ (Z.pos (digits2_pos m) - 1) <= Z.pos m < 2 ^ Z.pos (digits2_pos m).
Proof.
  induction m as [m IH|m IH|]; cbn [digits2_pos]; [| |done];
    rewrite Pos2Z.inj_succ; unfold Z.succ;
    replace (Z.pos (digits2_pos m) + 1 - 1) with (Z.pos (digits2_pos m) - 1 + 1) by lia;
    rewrite !Z.pow_add_r by lia; lia.
Qed.

Lemma digits2_pos_iter m k :
  Z.pos (digits2_pos (Pos.iter xO m k)) = Z.pos (digits2_pos m) + Z.pos k /\
  Z.pos (Pos.iter xO m k) = Z.pos m * 2 ^ Z.pos k.
Proof.
  induction k as [|k [IH1 IH2]] using Pos.peano_ind.
  - simpl. lia.
  - rewrite Pos.iter_succ. cbn [digits2_pos]. rewrite !Pos2Z.inj_succ, IH1. split; [lia|].
    rewrite Pos2Z.inj_xO, IH2, Z.pow_succ_r by lia. lia.
Qed.

(** A canonical mantissa of 53 digits is left alone by rounding. *)
Lemma round_aux_exact s m e :
  Z.pos (digits2_pos m) = 53 -> -1074 <= e <= 971 ->
  binary_round_aux 53 1024 s (Z.pos m) e loc_Exact = S754_finite s m e.
Proof.
  intros Hd He. unfold binary_round_aux, shr_fexp.
  assert (Hf : fexp 53 1024 (Zdigits2 (Z.pos m) + e) - e = 0).
  { unfold fexp, emin, Zdigits2. rewrite Hd. lia. }
  change IntDef.Z.sub with Z.sub. change IntDef.Z.add with Z.add. change IntDef.Z.leb with Z.leb.
  rewrite Hf. cbn [SpecFloat.shr shr_record_of_loc loc_of_shr_record shr_m round_nearest_even].
  rewrite Hf. cbn [SpecFloat.shr shr_m]. by replace (e <=? 1024 - 53) with true by lia.
Qed.

Lemma f64_of_Z_pos m : Z.pos m < 2 ^ 53 ->
  exists m' e', f64_of_Z (Z.pos m) = S754_finite false m' e' /\ trunc_abs m' e' = Z.pos m.
Proof.
  intros Hm. unfold f64_of_Z, binary_normalize, binary_round.
  pose proof (digits2_pos_bound m) as Hb. set (d := Z.pos (digits2_pos m)) in *.
  assert (Hd : d <= 53).
  { destruct (Z_le_gt_dec d 53); [done|]. assert (2 ^ 53 <= 2 ^ (d - 1)); [|lia].
    apply Z.pow_le_mono_r; lia. }
  assert (He : fexp 53 1024 (d + 0) = d - 53) by (unfold fexp, emin; lia).
  change IntDef.Z.add with Z.add. rewrite He. unfold shl_align.
  change IntDef.Z.sub with Z.sub. rewrite Z.sub_0_r. destruct (d - 53) as [|k|k] eqn:Ek.
  - exists m, 0. rewrite round_aux_exact by lia. split; [done|]. unfold trunc_abs. simpl. lia.
  - lia.
  - destruct (digits2_pos_iter m k) as [D1 D2].
    exists (Pos.iter xO m k), (Z.neg k). rewrite round_aux_exact by lia.
    split; [done|]. unfold trunc_abs. simpl Z.leb. cbn [Z.opp]. rewrite D2.
    apply Z.div_mul. apply Z.pow_nonzero; lia.
Qed.

Lemma f64_trunc_of_Z n : 0 <= n < 2 ^ 53 -> f64_trunc (f64_of_Z n) = n.
Proof.
  intros Hn. destruct n as [|m|m]; [done| |lia].
  destruct (f64_of_Z_pos m) as (m' & e' & -> & H); [lia|]. done.
Qed.

Lemma f64_cast_of_Z lo hi n : lo <= 0 -> n <= hi -> 0 <= n < 2 ^ 53 ->
  f64_cast lo hi (f64_of_Z n) = n.
Proof.
  intros Hlo Hhi Hn. pose proof (f64_trunc_of_Z n Hn) as H.
  destruct n as [|m|m]; [unfold f64_of_Z; simpl; lia| |lia].
  destruct (f64_of_Z_pos m) as (m' & e' & E & _); [lia|].
  rewrite E in *. cbn [f64_cast]. lia.
Qed.

(** Distinct integers below 2^53 stay distinct as [f64]. *)
Lemma f64_of_Z_inj a b : 0 <= a < 2 ^ 53 -> 0 <= b < 2 ^ 53 ->
  f64_of_Z a = f64_of_Z b -> a = b.
Proof.
  intros Ha Hb H. rewrite <-(f64_trunc_of_Z a Ha), <-(f64_trunc_of_Z b Hb). by rewrite H.
Qed.

(** ** Small integers: subtraction and casts *)

(** The mantissas of a format of 53 digits. *)
Definition mantissa_ok (x : f64) : Prop := match x with S754_finite _ m _ => Z.pos m < 2 ^ 53 | _ => True end.

Lemma shr_1_half r : 0 <= shr_m r -> shr_m (shr_1 r) = shr_m r / 2.
Proof.
  destruct r as [[|[p|p|]|p] r' s']; cbn [shr_m shr_1]; intros H; [done| | |done|lia].
  - rewrite Pos2Z.inj_xI. rewrite Z.mul_comm, Z.div_add_l by lia. by rewrite Z.add_0_r.
  - rewrite Pos2Z.inj_xO, Z.mul_comm. by rewrite Z.div_mul by lia.
Qed.

Lemma iter_pos_Nat {A} (f : A -> A) n x : SpecFloat.iter_pos f n x = Nat.iter (Pos.to_nat n) f x.
Proof.
  revert x. induction n as [n IH|n IH|]; intros x; cbn [SpecFloat.iter_pos]; [..|done].
  - rewrite !IH, <-Nat.iter_add, Pos2Nat.inj_xI, <-Nat.iter_succ_r. f_equal. lia.
  - rewrite !IH, <-Nat.iter_add, Pos2Nat.inj_xO. f_equal. lia.
Qed.

Lemma iter_shr n r : 0 <= shr_m r -> shr_m (SpecFloat.iter_pos shr_1 n r) = shr_m r / 2 ^ Z.pos n.
Proof.
  intros H. rewrite iter_pos_Nat, <-(positive_nat_Z n). induction (Pos.to_nat n) as [|k IH].
  { change (2 ^ Z.of_nat 0) with 1. by rewrite Z.div_1_r. }
  rewrite Nat.iter_succ, shr_1_half, IH.
  - rewrite Nat2Z.inj_succ, Z.pow_succ_r, (Z.mul_comm 2), Z.div_div by lia. done.
  - rewrite IH. apply Z.div_pos; lia.
Qed.

Lemma shr_fexp_digits m e l : 0 <= m -> 0 <= shr_m (fst (shr_fexp 53 1024 m e l)) < 2 ^ 53.
Proof.
  intros Hm. pose proof (shr_fexp_nonneg 53 1024 m e l Hm) as H0. split; [done|]. unfold shr_fexp in *.
  assert (Hr : shr_m (shr_record_of_loc m l) = m) by (by destruct l as [|[]]).
  assert (Hd : m < 2 ^ Zdigits2 m) by (destruct m as [|q|q]; [done|apply digits2_pos_bound|lia]).
  assert (Hf : Zdigits2 m - 53 <= fexp 53 1024 (Zdigits2 m + e) - e) by (unfold fexp, emin; lia).
  change IntDef.Z.sub with Z.sub. change IntDef.Z.add with Z.add.
  assert (Hp : forall a, Zdigits2 m - 53 <= a -> 0 <= a -> m < 2 ^ 53 * 2 ^ a).
  { intros a Ha Ha0. rewrite <-Z.pow_add_r by lia. eapply Z.lt_le_trans; [exact Hd|].
    destruct (Z_le_gt_dec 0 (Zdigits2 m)); [apply Z.pow_le_mono_r; lia|]. rewrite Z.pow_neg_r by lia.
    apply Z.pow_nonneg. lia. }
  destruct (fexp 53 1024 (Zdigits2 m + e) - e) as [|n|n] eqn:En; cbn [SpecFloat.shr fst]; rewrite ?iter_shr, ?Hr by lia.
  - specialize (Hp 0 Hf ltac:(lia)). by rewrite Z.pow_0_r, Z.mul_1_r in Hp.
  - apply Z.div_lt_upper_bound; [apply Z.pow_pos_nonneg; lia|]. specialize (Hp (Z.pos n) Hf ltac:(lia)). lia.
  - specialize (Hp 0 ltac:(lia) ltac:(lia)). by rewrite Z.pow_0_r, Z.mul_1_r in Hp.
Qed.

Lemma round_aux_mantissa s m e l : 0 <= m -> mantissa_ok (binary_round_aux 53 1024 s m e l).
Proof.
  intros Hm. unfold binary_round_aux. pose proof (shr_fexp_nonneg 53 1024 m e l Hm) as H1.
  destruct (shr_fexp 53 1024 m e l) as [r1 e1]. cbn [fst] in H1.
  assert (H2 : 0 <= round_nearest_even (shr_m r1) (loc_of_shr_record r1)).
  { unfold round_nearest_even. destruct (loc_of_shr_record r1) as [|[]]; try destruct (Z.even _); lia. }
  pose proof (shr_fexp_digits _ e1 loc_Exact H2) as H3.
  destruct (shr_fexp 53 1024 _ e1 loc_Exact) as [r2 e2]. cbn [fst] in H3.
  destruct (shr_m r2); [done| |done]. destruct (_ <=? _); [|done]. cbn. lia.
Qed.

Lemma f64_mul_mantissa a b : mantissa_ok (f64_mul a b).
Proof. destruct a, b; try done. by apply round_aux_mantissa. Qed.

Lemma digits2_unique m d : 1 <= d -> 2 ^ (d - 1) <= Z.pos m < 2 ^ d -> Z.pos (digits2_pos m) = d.
Proof.
  intros Hd Hm. pose proof (digits2_pos_bound m). set (c := Z.pos (digits2_pos m)) in *.
  destruct (Z_lt_le_dec c d); [|destruct (Z_lt_le_dec d c); [|lia]].
  - assert (2 ^ c <= 2 ^ (d - 1)) by (apply Z.pow_le_mono_r; lia). lia.
  - assert (2 ^ d <= 2 ^ (c - 1)) by (apply Z.pow_le_mono_r; lia). lia.
Qed.

Lemma digits2_scale m z k : 0 <= k -> Z.pos m = Z.pos z * 2 ^ k -> Z.pos (digits2_pos m) = Z.pos (digits2_pos z) + k.
Proof.
  intros Hk Hm. pose proof (digits2_pos_bound z) as Hz. apply digits2_unique; [lia|]. rewrite Hm.
  replace (Z.pos (digits2_pos z) + k - 1) with (Z.pos (digits2_pos z) - 1 + k) by lia. rewrite !Z.pow_add_r by lia.
  assert (0 < 2 ^ k) by (apply Z.pow_pos_nonneg; lia). nia.
Qed.

Lemma shr_exact n m q : Z.pos m = Z.pos q * 2 ^ Z.pos n ->
  SpecFloat.iter_pos shr_1 n (Build_shr_record (Z.pos m) false false) = Build_shr_record (Z.pos q) false false.
Proof.
  rewrite iter_pos_Nat, <-(positive_nat_Z n). revert m. induction (Pos.to_nat n) as [|k IH]; intros m Hm.
  { change (2 ^ Z.of_nat 0) with 1 in Hm. cbn. f_equal. lia. }
  rewrite Nat2Z.inj_succ, Z.pow_succ_r in Hm by lia. rewrite Nat.iter_succ_r.
  destruct m as [m|m|]; [lia| |lia]. cbn [shr_1 orb]. apply IH. lia.
Qed.

(** The 53-digit form of a small integer. *)
Lemma f64_of_Z_form z : Z.pos z < 2 ^ 53 ->
  exists m, f64_of_Z (Z.pos z) = S754_finite false m (Z.pos (digits2_pos z) - 53) /\
    Z.pos m = Z.pos z * 2 ^ (53 - Z.pos (digits2_pos z)) /\ Z.pos (digits2_pos z) <= 53.
Proof.
  intros Hz. unfold f64_of_Z, binary_normalize, binary_round.
  pose proof (digits2_pos_bound z) as Hb. set (d := Z.pos (digits2_pos z)) in *.
  assert (Hd : d <= 53).
  { destruct (Z_le_gt_dec d 53); [done|]. assert (2 ^ 53 <= 2 ^ (d - 1)); [|lia]. apply Z.pow_le_mono_r; lia. }
  assert (He : fexp 53 1024 (d + 0) = d - 53) by (unfold fexp, emin; lia).
  change IntDef.Z.add with Z.add. rewrite He. unfold shl_align.
  change IntDef.Z.sub with Z.sub. rewrite Z.sub_0_r. destruct (d - 53) as [|k|k] eqn:Ek; [|lia|].
  - exists z. rewrite round_aux_exact by lia. split_and!; [done| |done]. replace (53 - d) with 0 by lia. lia.
  - destruct (digits2_pos_iter z k) as [D1 D2]. exists (Pos.iter xO z k). rewrite round_aux_exact by lia.
    split_and!; [done| |done]. rewrite D2. f_equal. f_equal. lia.
Qed.

Lemma normalize_scaled z : Z.pos z < 2 ^ 53 -> binary_normalize 53 1024 (Z.pos z * 2 ^ 52) (-52) false = f64_of_Z (Z.pos z).
Proof.
  intros Hz. destruct (f64_of_Z_form z Hz) as (q & -> & Hq & Hd). set (d := Z.pos (digits2_pos z)) in *.
  destruct (Z.pos z * 2 ^ 52) as [|m|m] eqn:Em; [lia| |lia]. cbn [binary_normalize]. unfold binary_round.
  assert (Hdm : Z.pos (digits2_pos m) = d + 52) by (apply digits2_scale; [lia|by rewrite <-Em]).
  change IntDef.Z.add with Z.add. rewrite Hdm.
  assert (He : fexp 53 1024 (d + 52 + -52) = d - 53) by (unfold fexp, emin; lia). rewrite He. unfold shl_align.
  change IntDef.Z.sub with Z.sub.
  assert (Hal : match d - 53 - -52 with Zneg k => (Pos.iter xO m k, d - 53) | _ => (m, -52) end = (m, -52))
    by (destruct (d - 53 - -52) eqn:E; [done|done|lia]).
  rewrite Hal. clear Hal. unfold binary_round_aux, shr_fexp. change IntDef.Z.sub with Z.sub. change IntDef.Z.add with Z.add.
  change (Zdigits2 (Z.pos m)) with (Z.pos (digits2_pos m)). rewrite Hdm, He.
  assert (Hdq : Z.pos (digits2_pos q) = 53) by (rewrite (digits2_scale q z (53 - d)); [lia|lia|done]).
  assert (Hmq : Z.pos m = Z.pos q * 2 ^ (d - 1)).
  { rewrite Hq, <-Em, <-Z.mul_assoc, <-Z.pow_add_r by lia. f_equal. f_equal. lia. }
  replace (d - 53 - -52) with (d - 1) by lia.
  assert (Hsh : SpecFloat.shr (shr_record_of_loc (Z.pos m) loc_Exact) (-52) (d - 1) = (Build_shr_record (Z.pos q) false false, d - 53)).
  { destruct (d - 1) as [|k|k] eqn:Ek; cbn [SpecFloat.shr shr_record_of_loc].
    - rewrite Z.mul_1_r in Hmq. injection Hmq as ->. f_equal. lia.
    - rewrite (shr_exact k m q Hmq). f_equal. change IntDef.Z.add with Z.add. lia.
    - lia. }
  rewrite Hsh. cbn [shr_m loc_of_shr_record round_nearest_even]. change (Zdigits2 (Z.pos q)) with (Z.pos (digits2_pos q)). rewrite Hdq.
  replace (fexp 53 1024 (53 + (d - 53)) - (d - 53)) with 0 by (unfold fexp, emin; lia).
  cbn [SpecFloat.shr shr_record_of_loc shr_m]. by replace (d - 53 <=? 1024 - 53) with true by lia.
Qed.

(** Subtracting one from a small integer is exact. *)
Lemma f64_sub_one n : 1 <= n < 2 ^ 53 -> f64_sub (f64_of_Z n) (f64_of_Z 1) = f64_of_Z (n - 1).
Proof.
  intros Hn. destruct n as [|z|]; [lia| |lia]. destruct (f64_of_Z_form z) as (q & -> & Hq & Hd); [lia|].
  change (f64_of_Z 1) with (S754_finite false 4503599627370496 (-52)). set (d := Z.pos (digits2_pos z)) in *.
  unfold f64_sub, SFsub. change IntDef.Z.min with Z.min. replace (Z.min (d - 53) (-52)) with (-52) by lia.
  assert (Ha : Z.pos (fst (shl_align q (d - 53) (-52))) = Z.pos z * 2 ^ 52).
  { unfold shl_align. change IntDef.Z.sub with Z.sub. destruct (-52 - (d - 53)) as [|k|k] eqn:Ek; cbn [fst]; [|lia|].
    - rewrite Hq. f_equal. f_equal. lia.
    - destruct (digits2_pos_iter q k) as [_ ->]. rewrite Hq, <-Z.mul_assoc, <-Z.pow_add_r by lia. f_equal. f_equal. lia. }
  change (Z.pos (fst (shl_align 4503599627370496 (-52) (-52)))) with (2 ^ 52). cbn [cond_Zopp]. rewrite Ha.
  change IntDef.Z.sub with Z.sub. replace (Z.pos z * 2 ^ 52 - 2 ^ 52) with ((Z.pos z - 1) * 2 ^ 52) by lia.
  destruct (Z.pos z - 1) as [|y|y] eqn:Ey; [done| |lia]. apply normalize_scaled. lia.
Qed.

Lemma trunc_abs_nonneg m e : 0 <= trunc_abs m e.
Proof.
  unfold trunc_abs. destruct (0 <=? e) eqn:E; [apply Z.mul_nonneg_nonneg; [lia|apply Z.pow_nonneg; lia]|].
  apply Z.div_pos; [lia|apply Z.pow_pos_nonneg; lia].
Qed.

Lemma trunc_abs_le m e z : e <= 0 -> Z.pos m <= z * 2 ^ (- e) -> trunc_abs m e <= z.
Proof.
  intros He Hm. unfold trunc_abs. destruct (0 <=? e) eqn:E.
  - replace e with 0 in * by lia. change (2 ^ (- 0)) with 1 in Hm. change (2 ^ 0) with 1. lia.
  - apply Z.div_le_upper_bound; [apply Z.pow_pos_nonneg; lia|lia].
Qed.

(** A float not above a small integer casts to at most that integer. *)
Lemma cast_le_small a n : mantissa_ok a -> 0 <= n < 2 ^ 53 -> f64_le a (f64_of_Z n) = true -> f64_to_u64 a <= n.
Proof.
  intros Ha Hn Hle. destruct (f64_le_nan _ _ Hle) as [Hna Hnb]. rewrite f64_le_key in Hle by done.
  unfold f64_to_u64, f64_cast. destruct n as [|z|]; [|destruct (f64_of_Z_form z) as (q & E & Hq & Hd); [lia|]; rewrite E in Hle|lia].
  - destruct a as [s|[]| |[] m e]; cbn [f64_trunc is_nan] in *; try done; pose proof (trunc_abs_nonneg m e); lia.
  - destruct a as [s|[]| |[] m e]; cbn [f64_trunc is_nan] in *; try done; pose proof (trunc_abs_nonneg m e); [lia|].
    set (d := Z.pos (digits2_pos z)) in *. unfold lex_le, lex in Hle. cbn [fkey] in Hle. rewrite Z.compare_refl in Hle. cbn in Ha.
    pose proof (digits2_pos_bound z) as Hb. fold d in Hb. assert (1 <= d) by (unfold d; lia).
    assert (He : e <= d - 53) by (destruct (Z.compare_spec e (d - 53)); [lia|lia|done]).
    enough (trunc_abs m e <= Z.pos z) by lia. apply trunc_abs_le; [lia|]. destruct (Z.compare_spec e (d - 53)) as [->|Hlt|]; [| |done].
    + replace (- (d - 53)) with (53 - d) by lia. rewrite <-Hq. destruct (Z.compare_spec (Z.pos m) (Z.pos q)); [lia|lia|done].
    + assert (2 ^ 53 <= 2 ^ (d - 1) * 2 ^ (- e)).
      { rewrite <-Z.pow_add_r by lia. apply Z.pow_le_mono_r; lia. }
      assert (0 < 2 ^ (- e)) by (apply Z.pow_pos_nonneg; lia). nia.
Qed.
