(* ===== verification/Float32.v ===== *)
(** * IEEE 754 binary32 as Rust's [f32]

    Screen coordinates and colours are computed in [f32]: [spec_float] at
    precision 24 and maximal exponent 128.  Comparisons, [min], [max], [clamp]
    and the saturating casts do not depend on the precision and are those of
    Float64.v. *)

From Stdlib Require Import SpecFloat.
From S2P Require Import Prelude Float64.

Definition f32_add : f32 -> f32 -> f32 := SFadd 24 128.
Definition f32_sub : f32 -> f32 -> f32 := SFsub 24 128.
Definition f32_mul : f32 -> f32 -> f32 := SFmul 24 128.
Definition f32_div : f32 -> f32 -> f32 := SFdiv 24 128.

(** [n as f32] for an integer [n]. *)
Definition f32_of_Z (n : Z) : f32 := binary_normalize 24 128 n 0 false.

(** A decimal literal [a / b] with exactly representable [a] and [b]. *)
Definition lit32 (a b : Z) : f32 := f32_div (f32_of_Z a) (f32_of_Z b).

(** [x as f32] for an [f64] value, rounded to nearest even. *)
Definition f32_of_f64 (x : f64) : f32 :=
  match x with
  | S754_finite s m e => binary_normalize 24 128 (if s then Zneg m else Zpos m) e s
  | _ => x
  end.

(** An integral result keeps the sign of a zero. *)
Definition f32_integral (s : bool) (n : Z) : f32 := match n with 0 => S754_zero s | _ => f32_of_Z n end.

Definition f32_floor (x : f32) : f32 :=
  match x with
  | S754_finite s m e => if 0 <=? e then x else f32_integral s (f64_floor_Z x)
  | _ => x
  end.

(** [f32::round]: halfway cases away from zero. *)
Definition f32_round (x : f32) : f32 :=
  match x with
  | S754_finite s m e =>
    if 0 <=? e then x
    else let n := (2 * Zpos m + 2 ^ (- e)) / (2 * 2 ^ (- e)) in f32_integral s (if s then - n else n)
  | _ => x
  end.

Definition fabs (x : spec_float) : spec_float := SFabs x.

(** The cast to [u8] and [usize]. *)
Definition f32_to_u8 : f32 -> Z := f64_cast 0 255.
Definition f32_to_usize : f32 -> Z := f64_cast 0 (2 ^ 64 - 1).

Lemma f64_cast_range lo hi x : lo <= 0 <= hi -> lo <= f64_cast lo hi x <= hi.
Proof. intros H. unfold f64_cast. destruct x as [| [] | |]; lia. Qed.

(** Rounding to an integer and casting: [0], the halves and beyond. *)
Example f32_round_half : f32_round (lit32 5 2) = f32_of_Z 3 /\ f32_round (lit32 (-5) 2) = f32_of_Z (-3) /\
  f32_floor (lit32 (-5) 2) = f32_of_Z (-3) /\ f32_round (lit32 9 4) = f32_of_Z 2.
Proof. vm_compute. done. Qed.
