(* ===== verification/Decimal.v ===== *)
(** * Decimal formatting of floats

    [format!("{:.N}", x)] prints the exact binary value rounded to [N] decimals,
    ties to even; [{:+.N}] prints a plus sign too. *)

From Stdlib Require Import SpecFloat.
From S2P Require Import Prelude Text Float64.

(** [n * 2^e] rounded to an integer, ties to even. *)
Definition round_half_even (n e : Z) : Z :=
  if 0 <=? e then n * 2 ^ e
  else
    let d := 2 ^ (- e) in
    let q := n / d in
    match Z.compare (2 * (n mod d)) d with
    | Lt => q
    | Gt => q + 1
    | Eq => if Z.even q then q else q + 1
    end.

(** A count of [10^-prec] units in decimal. *)
Definition fmt_units (prec : nat) (n : Z) : text :=
  let unit := 10 ^ Z.of_nat prec in
  fmt_dec (n / unit) ++ match prec with O => [] | _ => str "." ++ fmt_pad prec (n mod unit) end.

(** The rounded magnitude of a finite value, in units of [10^-prec]. *)
Definition units_of (prec : nat) (x : f64) : Z :=
  match x with S754_finite _ m e => round_half_even (Zpos m * 10 ^ Z.of_nat prec) e | _ => 0 end.

Definition sign_of (x : f64) : bool :=
  match x with S754_zero s | S754_infinity s | S754_finite s _ _ => s | S754_nan => false end.

Definition fmt_abs (prec : nat) (x : f64) : text :=
  match x with
  | S754_nan => str "NaN"
  | S754_infinity _ => str "inf"
  | _ => fmt_units prec (units_of prec x)
  end.

Definition fmt_fixed (prec : nat) (x : f64) : text := (if sign_of x then str "-" else []) ++ fmt_abs prec x.
Definition fmt_fixed_plus (prec : nat) (x : f64) : text :=
  if is_nan x then fmt_abs prec x else (if sign_of x then str "-" else str "+") ++ fmt_abs prec x.

Example fmt_half : fmt_fixed 1 (f64_div (f64_of_Z 1) (f64_of_Z 4)) = str "0.2".
Proof. reflexivity. Qed.
Example fmt_tenth : fmt_fixed 6 (f64_div (f64_of_Z (-1)) (f64_of_Z 10)) = str "-0.100000".
Proof. reflexivity. Qed.

Lemma round_half_even_nonneg n e : 0 <= n -> 0 <= round_half_even n e.
Proof.
  intros Hn. unfold round_half_even. destruct (0 <=? e) eqn:E.
  - apply Z.mul_nonneg_nonneg; [done|]. apply Z.pow_nonneg. lia.
  - assert (0 < 2 ^ (- e)) by (apply Z.pow_pos_nonneg; lia).
    pose proof (Z.div_pos n (2 ^ (- e)) Hn ltac:(done)). repeat case_match; lia.
Qed.

(** The result is within half a unit of the value. *)
Lemma round_half_even_error n e : e < 0 ->
  2 * Z.abs (round_half_even n e * 2 ^ (- e) - n) <= 2 ^ (- e).
Proof.
  intros He. unfold round_half_even. replace (0 <=? e) with false by lia.
  set (d := 2 ^ (- e)). assert (0 < d) by (apply Z.pow_pos_nonneg; lia).
  pose proof (Z.div_mod n d ltac:(lia)). pose proof (Z.mod_pos_bound n d ltac:(lia)).
  set (q := n / d) in *. set (r := n mod d) in *. cbv zeta.
  destruct (Z.compare_spec (2 * r) d); [destruct (Z.even q)| |]; nia.
Qed.

Lemma units_of_nonneg prec x : 0 <= units_of prec x.
Proof.
  destruct x; cbn [units_of]; try lia. apply round_half_even_nonneg.
  apply Z.mul_nonneg_nonneg; [lia|]. apply Z.pow_nonneg. lia.
Qed.
