(* ===== verification/Wire.v ===== *)
(** * btelem-wire: the packet decoder

    Models viewer/crates/btelem-wire/src/lib.rs (error type, layout constants,
    little-endian readers) and packet.rs ([decode_packet]).  The reference
    encoder [encode_packet] is the layout of the module documentation
    (PacketHeader, EntryHeader table, payload buffer). *)

From S2P Require Import Prelude Text.

(** ** Errors and layout constants (lib.rs) *)
Inductive WireError :=
| Short (need got : Z)
| BadEndian (b : Z)
| BadName
| TooManyEntries (n : Z)
| TooManyFields (n : Z)
| PayloadOob (offset size buf : Z)
| UnknownType (b : Z).

#[global] Instance WireError_eq_dec : EqDecision WireError.
Proof. solve_decision. Defined.

Abbreviation wire := (res WireError).

Definition NAME_MAX : Z := 64.
Definition DESC_MAX : Z := 128.
Definition MAX_FIELDS : Z := 16.
Definition MAX_SCHEMA_ENTRIES : Z := 512.
Definition ENUM_LABEL_MAX : Z := 32.
Definition ENUM_MAX_VALUES : Z := 64.
Definition BITFIELD_MAX_BITS : Z := 32.
Definition BIT_NAME_MAX : Z := 32.

Definition SCHEMA_HEADER_SIZE : Z := 3.
Definition FIELD_WIRE_SIZE : Z := NAME_MAX + 2 + 2 + 1 + 1.
Definition SCHEMA_WIRE_HEADER_SIZE : Z := 2 + 2 + 2 + NAME_MAX + DESC_MAX.
Definition SCHEMA_WIRE_SIZE : Z := SCHEMA_WIRE_HEADER_SIZE + MAX_FIELDS * FIELD_WIRE_SIZE.
Definition ENUM_WIRE_SIZE : Z := 2 + 2 + 1 + ENUM_MAX_VALUES * ENUM_LABEL_MAX.
Definition BITFIELD_WIRE_SIZE : Z :=
  2 + 2 + 1 + BITFIELD_MAX_BITS * BIT_NAME_MAX + BITFIELD_MAX_BITS + BITFIELD_MAX_BITS.

Definition PACKET_HEADER_SIZE : Z := 16.
Definition ENTRY_HEADER_SIZE : Z := 16.

(** ** Low-level little-endian readers *)
Definition need (buf : list byte) (n : Z) : wire unit :=
  if blen buf <? n then Err (Short n (blen buf)) else Ok tt.

Definition read_u8 (buf : list byte) (off : Z) : wire Z :=
  _ ← need buf (off + 1);
  b ← index buf off;
  mret (byte_z b).

Definition read_u16 (buf : list byte) (off : Z) : wire Z :=
  _ ← need buf (off + 2);
  b0 ← index buf off;
  b1 ← index buf (off + 1);
  mret (le_u [b0; b1]).

Definition read_u32 (buf : list byte) (off : Z) : wire Z :=
  _ ← need buf (off + 4);
  b0 ← index buf off;
  b1 ← index buf (off + 1);
  b2 ← index buf (off + 2);
  b3 ← index buf (off + 3);
  mret (le_u [b0; b1; b2; b3]).

Definition read_u64 (buf : list byte) (off : Z) : wire Z :=
  _ ← need buf (off + 8);
  a ← subslice buf off 8;
  mret (le_u a).

(** [slice.iter().position(|&b| b == 0).unwrap_or(slice.len())]. *)
Definition cstr_end (s : list byte) : nat :=
  match find_byte x00 s with Some i => i | None => length s end.

Definition read_cstr (buf : list byte) (off max : Z) : wire text :=
  _ ← need buf (off + max);
  s ← subslice buf off max;
  match from_utf8 (take (cstr_end s) s) with
  | Some name => Ok name
  | None => Err BadName
  end.

(** ** Packets (packet.rs) *)
Record PacketHeader := mkPacketHeader {
  ph_entry_count : Z;
  ph_flags : Z;
  ph_payload_size : Z;
  ph_dropped : Z;
}.

Record DecodedEntry := mkDecodedEntry {
  de_id : Z;
  de_timestamp : Z;
  de_payload : list byte;
}.

Record Packet := mkPacket {
  pk_header : PacketHeader;
  pk_entries : list DecodedEntry;
}.

(** The body of the entry loop for table row [i]. *)
Definition decode_packet_entry (buf : list byte) (payload_base payload_size i : Z)
    : wire DecodedEntry :=
  let off := PACKET_HEADER_SIZE + i * ENTRY_HEADER_SIZE in
  id ← read_u16 buf off;
  psize ← read_u16 buf (off + 2);
  poff ← read_u32 buf (off + 4);
  ts ← read_u64 buf (off + 8);
  if payload_size <? poff + psize then Err (PayloadOob poff psize payload_size)
  else
    let p_start := payload_base + poff in
    payload ← subslice buf p_start psize;
    mret (mkDecodedEntry id ts payload).

Definition decode_packet (buf : list byte) : wire Packet :=
  _ ← need buf PACKET_HEADER_SIZE;
  entry_count ← read_u16 buf 0;
  flags ← read_u16 buf 2;
  payload_size ← read_u32 buf 4;
  dropped ← read_u32 buf 8;
  let header := mkPacketHeader entry_count flags payload_size dropped in
  let table_off := PACKET_HEADER_SIZE in
  let payload_base := table_off + entry_count * ENTRY_HEADER_SIZE in
  _ ← need buf payload_base;
  _ ← need buf (payload_base + payload_size);
  entries ← collect (Z.to_nat entry_count) 0
              (decode_packet_entry buf payload_base payload_size);
  mret (mkPacket header entries).

(** ** Reader lemmas *)
Lemma need_ok buf n : need buf n = Ok tt <-> n <= blen buf.
Proof. unfold need. destruct (blen buf <? n) eqn:E; split; intros; try done; lia. Qed.

Lemma need_cases buf n :
  (n <= blen buf /\ need buf n = Ok tt) \/
  (blen buf < n /\ need buf n = Err (Short n (blen buf))).
Proof. unfold need. destruct (blen buf <? n) eqn:E; [right|left]; (split; [lia|done]). Qed.

Lemma index_slice {E} (buf : list byte) off :
  0 <= off < blen buf -> exists b, @index E _ buf off = Ok b /\ slice buf off 1 = [b].
Proof.
  intros H. unfold index. destruct (lookup_lt_is_Some_2 buf (Z.to_nat off)) as [b Hb].
  { unfold blen in H. lia. }
  exists b. rewrite Hb. split; [done|]. unfold slice.
  rewrite (drop_S _ _ _ Hb). done.
Qed.

Lemma slice_succ {A} (buf : list A) off n : 0 <= off -> 0 <= n ->
  slice buf off (1 + n) = slice buf off 1 ++ slice buf (off + 1) n.
Proof.
  intros. unfold slice. rewrite Z2Nat.inj_add by lia.
  change (Z.to_nat 1) with 1%nat. rewrite Z2Nat.inj_add by lia. change (Z.to_nat 1) with 1%nat.
  rewrite <-drop_drop. generalize (drop (Z.to_nat off) buf) as k. intros [|a k]; simpl.
  - by rewrite take_nil.
  - by rewrite ?take_0, ?drop_0.
Qed.

(** Each reader is a bounds check followed by the value of a slice: the
    indexing inside never panics. *)
Ltac reader_cases buf off n :=
  destruct (need_cases buf (off + n)) as [[Hn ->]|[Hn ->]];
  [|by replace (off + n <=? blen buf) with false by lia];
  replace (off + n <=? blen buf) with true by lia; cbn [mbind res_bind].

Lemma read_u8_eq buf off : 0 <= off ->
  read_u8 buf off =
  (if off + 1 <=? blen buf then Ok (le_u (slice buf off 1)) else Err (Short (off + 1) (blen buf))).
Proof.
  intros Hoff. unfold read_u8. reader_cases buf off 1.
  destruct (@index_slice WireError buf off) as (b & -> & ->); [lia|]. simpl.
  rewrite Z.add_0_r. done.
Qed.

Lemma read_u16_eq buf off : 0 <= off ->
  read_u16 buf off =
  (if off + 2 <=? blen buf then Ok (le_u (slice buf off 2)) else Err (Short (off + 2) (blen buf))).
Proof.
  intros Hoff. unfold read_u16. reader_cases buf off 2.
  destruct (@index_slice WireError buf off) as (b & -> & E0); [lia|].
  destruct (@index_slice WireError buf (off + 1)) as (b' & -> & E1); [lia|].
  change (slice buf off 2) with (slice buf off (1 + 1)).
  rewrite (slice_succ buf off 1), E0, E1 by lia. done.
Qed.

Lemma read_u32_eq buf off : 0 <= off ->
  read_u32 buf off =
  (if off + 4 <=? blen buf then Ok (le_u (slice buf off 4)) else Err (Short (off + 4) (blen buf))).
Proof.
  intros Hoff. unfold read_u32. reader_cases buf off 4.
  destruct (@index_slice WireError buf off) as (b0 & -> & E0); [lia|].
  destruct (@index_slice WireError buf (off + 1)) as (b1 & -> & E1); [lia|].
  destruct (@index_slice WireError buf (off + 2)) as (b2 & -> & E2); [lia|].
  destruct (@index_slice WireError buf (off + 3)) as (b3 & -> & E3); [lia|].
  change (slice buf off 4) with (slice buf off (1 + (1 + (1 + 1)))).
  rewrite (slice_succ buf off), (slice_succ buf (off + 1)), (slice_succ buf (off + 1 + 1)) by lia.
  replace (off + 1 + 1) with (off + 2) by lia. replace (off + 2 + 1) with (off + 3) by lia.
  by rewrite E0, E1, E2, E3.
Qed.

Lemma read_u64_eq buf off : 0 <= off ->
  read_u64 buf off =
  (if off + 8 <=? blen buf then Ok (le_u (slice buf off 8)) else Err (Short (off + 8) (blen buf))).
Proof.
  intros Hoff. unfold read_u64. reader_cases buf off 8.
  unfold subslice. by replace (off + 8 <=? blen buf) with true by lia.
Qed.

(** Reading a little-endian field laid out at a known offset. *)
Lemma read_u8_seg buf off v : seg buf off (le_bytes 1 v) -> in_u 8 v -> read_u8 buf off = Ok v.
Proof.
  intros Hs Hv. pose proof (seg_bounds _ _ _ Hs). autorewrite with blen in *.
  rewrite read_u8_eq by lia. replace (off + 1 <=? blen buf) with true by lia.
  by rewrite (seg_slice _ _ _ _ Hs), le_u_le_bytes by done.
Qed.

Lemma read_u16_seg buf off v : seg buf off (le_bytes 2 v) -> in_u 16 v -> read_u16 buf off = Ok v.
Proof.
  intros Hs Hv. pose proof (seg_bounds _ _ _ Hs). autorewrite with blen in *.
  rewrite read_u16_eq by lia. replace (off + 2 <=? blen buf) with true by lia.
  by rewrite (seg_slice _ _ _ _ Hs), le_u_le_bytes by done.
Qed.

Lemma read_u32_seg buf off v : seg buf off (le_bytes 4 v) -> in_u 32 v -> read_u32 buf off = Ok v.
Proof.
  intros Hs Hv. pose proof (seg_bounds _ _ _ Hs). autorewrite with blen in *.
  rewrite read_u32_eq by lia. replace (off + 4 <=? blen buf) with true by lia.
  by rewrite (seg_slice _ _ _ _ Hs), le_u_le_bytes by done.
Qed.

Lemma read_u64_seg buf off v : seg buf off (le_bytes 8 v) -> in_u 64 v -> read_u64 buf off = Ok v.
Proof.
  intros Hs Hv. pose proof (seg_bounds _ _ _ Hs). autorewrite with blen in *.
  rewrite read_u64_eq by lia. replace (off + 8 <=? blen buf) with true by lia.
  by rewrite (seg_slice _ _ _ _ Hs), le_u_le_bytes by done.
Qed.

(** What a successful or failing read says about the buffer. *)
Lemma le_u_slice_range (buf : list byte) off n : 0 <= off -> 0 <= n -> off + n <= blen buf ->
  in_u (8 * n) (le_u (slice buf off n)).
Proof.
  intros. pose proof (le_u_range (slice buf off n)) as Hr.
  pose proof (length_slice buf off n) as Hl. unfold blen in Hl.
  rewrite Hl in Hr by (unfold blen in *; lia). done.
Qed.

Definition reads (n : Z) (buf : list byte) (off v : Z) : Prop :=
  off + n <= blen buf /\ v = le_u (slice buf off n) /\ in_u (8 * n) v.

Lemma read_u8_Ok buf off v : 0 <= off -> read_u8 buf off = Ok v -> reads 1 buf off v.
Proof.
  intros Hoff. rewrite read_u8_eq by done. destruct (off + 1 <=? blen buf) eqn:E; [|done].
  intros [= <-]. split_and!; [lia|done|apply le_u_slice_range; lia].
Qed.
Lemma read_u16_Ok buf off v : 0 <= off -> read_u16 buf off = Ok v -> reads 2 buf off v.
Proof.
  intros Hoff. rewrite read_u16_eq by done. destruct (off + 2 <=? blen buf) eqn:E; [|done].
  intros [= <-]. split_and!; [lia|done|apply le_u_slice_range; lia].
Qed.
Lemma read_u32_Ok buf off v : 0 <= off -> read_u32 buf off = Ok v -> reads 4 buf off v.
Proof.
  intros Hoff. rewrite read_u32_eq by done. destruct (off + 4 <=? blen buf) eqn:E; [|done].
  intros [= <-]. split_and!; [lia|done|apply le_u_slice_range; lia].
Qed.
Lemma read_u64_Ok buf off v : 0 <= off -> read_u64 buf off = Ok v -> reads 8 buf off v.
Proof.
  intros Hoff. rewrite read_u64_eq by done. destruct (off + 8 <=? blen buf) eqn:E; [|done].
  intros [= <-]. split_and!; [lia|done|apply le_u_slice_range; lia].
Qed.

(** Readers never panic, and fail only on a short buffer. *)
Definition short_only {A} (buf : list byte) (m : wire A) : Prop :=
  match m with
  | Ok _ => True
  | Err e => exists n, e = Short n (blen buf) /\ blen buf < n
  | Panic => False
  end.

Lemma read_u8_short buf off : 0 <= off -> short_only buf (read_u8 buf off).
Proof. intros. rewrite read_u8_eq by done. destruct (_ <=? _) eqn:?; [done|]. eexists; split; [done|lia]. Qed.
Lemma read_u16_short buf off : 0 <= off -> short_only buf (read_u16 buf off).
Proof. intros. rewrite read_u16_eq by done. destruct (_ <=? _) eqn:?; [done|]. eexists; split; [done|lia]. Qed.
Lemma read_u32_short buf off : 0 <= off -> short_only buf (read_u32 buf off).
Proof. intros. rewrite read_u32_eq by done. destruct (_ <=? _) eqn:?; [done|]. eexists; split; [done|lia]. Qed.
Lemma read_u64_short buf off : 0 <= off -> short_only buf (read_u64 buf off).
Proof. intros. rewrite read_u64_eq by done. destruct (_ <=? _) eqn:?; [done|]. eexists; split; [done|lia]. Qed.
Lemma need_short buf n : short_only buf (need buf n).
Proof. destruct (need_cases buf n) as [[? ->]|[? ->]]; [done|]. eexists; split; [done|lia]. Qed.

(** An error condition that composes over [?]: panic-free, and every error
    satisfies [P]. *)
Definition fails_with {A} (P : WireError -> Prop) (m : wire A) : Prop :=
  match m with Ok _ => True | Err e => P e | Panic => False end.

Lemma fails_bind {A B} P (m : wire A) (f : A -> wire B) :
  fails_with P m -> (forall a, m = Ok a -> fails_with P (f a)) -> fails_with P (m ≫= f).
Proof. destruct m; simpl; auto. Qed.

Lemma fails_mono {A} (P Q : WireError -> Prop) (m : wire A) :
  (forall e, P e -> Q e) -> fails_with P m -> fails_with Q m.
Proof. destruct m; simpl; auto. Qed.

Lemma fails_collect {A} P n lo (f : Z -> wire A) :
  (forall i, 0 <= i < Z.of_nat n -> fails_with P (f (lo + i))) -> fails_with P (collect n lo f).
Proof.
  intros H. destruct (collect n lo f) eqn:E; simpl; [done| |].
  - apply collect_Err in E as (i & Hi & Hf). specialize (H i Hi). by rewrite Hf in H.
  - eapply collect_no_panic in E; [done|]. intros i Hi Hf. specialize (H i Hi). by rewrite Hf in H.
Qed.

Lemma short_only_fails {A} buf (P : WireError -> Prop) (m : wire A) :
  short_only buf m -> (forall n, blen buf < n -> P (Short n (blen buf))) -> fails_with P m.
Proof. destruct m; simpl; auto. intros (n & -> & ?) HP. auto. Qed.

(** ** Packet decoding: safety, soundness, errors *)

(** The two ways a packet is rejected. *)
Definition packet_error (buf : list byte) (e : WireError) : Prop :=
  match e with
  | Short n got => got = blen buf /\ blen buf < n
  | PayloadOob off size psz =>
      psz < off + size /\ psz = le_u (slice buf 4 4) /\ in_u 32 off /\ in_u 16 size
  | _ => False
  end.

Lemma decode_packet_fails buf : fails_with (packet_error buf) (decode_packet buf).
Proof.
  assert (HS : forall A (m : wire A), short_only buf m -> fails_with (packet_error buf) m).
  { intros A m H. eapply short_only_fails; [done|]. simpl. auto. }
  unfold decode_packet.
  apply fails_bind; [apply HS, need_short|intros [] Hh%need_ok].
  apply fails_bind; [apply HS, read_u16_short; lia|intros ec (_ & _ & Hec)%read_u16_Ok; [|lia]].
  apply fails_bind; [apply HS, read_u16_short; lia|intros fl _].
  apply fails_bind; [apply HS, read_u32_short; lia|intros ps (_ & Eps & Hps)%read_u32_Ok; [|lia]].
  apply fails_bind; [apply HS, read_u32_short; lia|intros dr _].
  apply fails_bind; [apply HS, need_short|intros _ _].
  apply fails_bind; [apply HS, need_short|intros [] Hb%need_ok].
  apply fails_bind; [|done]. apply fails_collect. intros i Hi. rewrite Z.add_0_l.
  unfold decode_packet_entry, PACKET_HEADER_SIZE, ENTRY_HEADER_SIZE in *. unfold in_u in Hec.
  apply fails_bind; [apply HS, read_u16_short; lia|intros id _].
  apply fails_bind; [apply HS, read_u16_short; lia|intros sz (_ & _ & Hsz)%read_u16_Ok; [|lia]].
  apply fails_bind; [apply HS, read_u32_short; lia|intros po (_ & _ & Hpo)%read_u32_Ok; [|lia]].
  apply fails_bind; [apply HS, read_u64_short; lia|intros ts _].
  destruct (ps <? po + sz) eqn:E.
  - simpl. split_and!; try done. lia.
  - unfold subslice. unfold in_u in *. by replace (_ <=? _) with true by lia.
Qed.

(** What a decoded packet says about its bytes: the header fields, and for
    each table row the identifier, the timestamp and a payload borrowed from
    inside the declared payload region. *)
Definition packet_sound (buf : list byte) (p : Packet) : Prop :=
  let h := pk_header p in
  let base := 16 + 16 * ph_entry_count h in
  reads 2 buf 0 (ph_entry_count h) /\ reads 2 buf 2 (ph_flags h) /\
  reads 4 buf 4 (ph_payload_size h) /\ reads 4 buf 8 (ph_dropped h) /\
  base + ph_payload_size h <= blen buf /\
  blen (pk_entries p) = ph_entry_count h /\
  (forall i e, pk_entries p !! i = Some e ->
     reads 2 buf (16 + 16 * Z.of_nat i) (de_id e) /\
     reads 8 buf (16 + 16 * Z.of_nat i + 8) (de_timestamp e) /\
     reads 2 buf (16 + 16 * Z.of_nat i + 2) (blen (de_payload e)) /\
     exists poff, reads 4 buf (16 + 16 * Z.of_nat i + 4) poff /\
       poff + blen (de_payload e) <= ph_payload_size h /\
       seg buf (base + poff) (de_payload e)).

Lemma slice_seg {A} (buf : list A) off n : 0 <= off -> 0 <= n -> off + n <= blen buf ->
  seg buf off (slice buf off n).
Proof.
  intros. unfold slice. exists (take (Z.to_nat off) buf), (drop (Z.to_nat n) (drop (Z.to_nat off) buf)).
  rewrite take_drop, take_drop. split; [done|]. unfold blen in *. rewrite length_take. lia.
Qed.

Lemma decode_packet_entry_Ok buf base psz i e :
  0 <= i -> 0 <= base -> base + psz <= blen buf ->
  decode_packet_entry buf base psz i = Ok e ->
  reads 2 buf (16 + 16 * i) (de_id e) /\
  reads 8 buf (16 + 16 * i + 8) (de_timestamp e) /\
  reads 2 buf (16 + 16 * i + 2) (blen (de_payload e)) /\
  exists poff, reads 4 buf (16 + 16 * i + 4) poff /\
    poff + blen (de_payload e) <= psz /\ seg buf (base + poff) (de_payload e).
Proof.
  unfold decode_packet_entry, PACKET_HEADER_SIZE, ENTRY_HEADER_SIZE. intros Hi Hb Hbuf H.
  replace (i * 16) with (16 * i) in H by lia.
  apply bind_Ok in H as (id & Hid%read_u16_Ok & H); [|lia].
  apply bind_Ok in H as (sz & Hsz%read_u16_Ok & H); [|lia].
  apply bind_Ok in H as (po & Hpo%read_u32_Ok & H); [|lia].
  apply bind_Ok in H as (ts & Hts%read_u64_Ok & H); [|lia].
  destruct (psz <? po + sz) eqn:E; [done|].
  apply bind_Ok in H as (pl & Hpl & [= <-]). cbn [de_id de_timestamp de_payload].
  unfold subslice in Hpl. destruct (_ <=? _) eqn:E2; [|done]. injection Hpl as <-.
  pose proof Hsz as (_ & _ & Hs1). pose proof Hpo as (_ & _ & Hp1). unfold in_u in *.
  assert (Hl : blen (slice buf (base + po) sz) = sz) by (apply length_slice; lia).
  rewrite Hl. split_and!; [done..|]. exists po. split_and!; [done|lia|apply slice_seg; lia].
Qed.

(** Inversion of a successful decode, shared by the theorems on packets. *)
Lemma decode_packet_Ok buf p : decode_packet buf = Ok p -> packet_sound buf p.
Proof.
  unfold decode_packet. intros H.
  apply bind_Ok in H as ([] & _ & H).
  apply bind_Ok in H as (ec & Hec%read_u16_Ok & H); [|lia].
  apply bind_Ok in H as (fl & Hfl%read_u16_Ok & H); [|lia].
  apply bind_Ok in H as (ps & Hps%read_u32_Ok & H); [|lia].
  apply bind_Ok in H as (dr & Hdr%read_u32_Ok & H); [|lia].
  apply bind_Ok in H as ([] & _ & H). apply bind_Ok in H as ([] & Hb%need_ok & H).
  apply bind_Ok in H as (es & Hes & [= <-]). apply collect_Ok in Hes as [Hl Hes].
  unfold PACKET_HEADER_SIZE, ENTRY_HEADER_SIZE in *.
  pose proof Hec as (_ & _ & Hec'). pose proof Hps as (_ & _ & Hps'). unfold in_u in *.
  unfold packet_sound. cbn [pk_header pk_entries ph_entry_count ph_flags ph_payload_size ph_dropped].
  split_and!; [done..|lia|unfold blen; lia|].
  intros i e Hi. specialize (Hes i e Hi). rewrite Z.add_0_l in Hes.
  replace (16 + 16 * ec) with (16 + ec * 16) by lia.
  eapply decode_packet_entry_Ok; [| | |exact Hes]; lia.
Qed.

(** ** Reference encoder *)
Fixpoint payload_offsets (off : Z) (es : list DecodedEntry) : list (Z * DecodedEntry) :=
  match es with
  | [] => []
  | e :: es => (off, e) :: payload_offsets (off + blen (de_payload e)) es
  end.

Definition payload_total (es : list DecodedEntry) : Z := blen (concat (map de_payload es)).

Definition encode_entry_header (oe : Z * DecodedEntry) : list byte :=
  let '(off, e) := oe in
  le_bytes 2 (de_id e) ++ le_bytes 2 (blen (de_payload e)) ++ le_bytes 4 off
  ++ le_bytes 8 (de_timestamp e).

Definition encode_packet (flags dropped : Z) (es : list DecodedEntry) : list byte :=
  le_bytes 2 (blen es) ++ le_bytes 2 flags ++ le_bytes 4 (payload_total es)
  ++ le_bytes 4 dropped ++ le_bytes 4 0
  ++ concat (map encode_entry_header (payload_offsets 0 es))
  ++ concat (map de_payload es).

(** Entries whose fields fit their wire widths. *)
Definition entry_fits (e : DecodedEntry) : Prop :=
  in_u 16 (de_id e) /\ in_u 64 (de_timestamp e) /\ in_u 16 (blen (de_payload e)).
Definition entries_fit (es : list DecodedEntry) : Prop :=
  in_u 16 (blen es) /\ in_u 32 (payload_total es) /\ Forall entry_fits es.

Lemma payload_offsets_lookup off es i o e :
  payload_offsets off es !! i = Some (o, e) ->
  es !! i = Some e /\ o = off + payload_total (take i es) /\
  payload_total (take i es) + blen (de_payload e) <= payload_total es.
Proof.
  revert off i. induction es as [|a es IH]; intros off i H; [by destruct i|].
  destruct i as [|i]; cbn [payload_offsets] in H; simpl in H.
  - simplify_eq. unfold payload_total. simpl. split_and!; [done|unfold blen; simpl; lia|].
    rewrite blen_app, blen_nil. pose proof (blen_nonneg (concat (map de_payload es))). lia.
  - apply IH in H as (H1 & -> & H2). unfold payload_total in *. simpl.
    rewrite !blen_app in *. split_and!; [done|lia|lia].
Qed.

Lemma length_payload_offsets off es : length (payload_offsets off es) = length es.
Proof. revert off. induction es; intros; simpl; auto. Qed.

Lemma blen_payload_offsets off es : blen (payload_offsets off es) = blen es.
Proof. unfold blen. by rewrite length_payload_offsets. Qed.

Lemma seg_payload buf base es i e :
  seg buf base (concat (map de_payload es)) -> es !! i = Some e ->
  seg buf (base + payload_total (take i es)) (de_payload e).
Proof.
  revert base i. induction es as [|a es IH]; intros base i Hs Hi; [by rewrite lookup_nil in Hi|].
  cbn [map concat] in Hs. apply seg_app in Hs as [H1 H2].
  destruct i as [|i]; simpl in Hi.
  - simplify_eq. unfold payload_total. simpl. rewrite blen_nil. by rewrite Z.add_0_r.
  - unfold payload_total. simpl. rewrite blen_app, Z.add_assoc. by apply IH.
Qed.

Lemma encode_entry_header_len oe : blen (encode_entry_header oe) = 16.
Proof. destruct oe. unfold encode_entry_header. by autorewrite with blen. Qed.

Lemma decode_packet_entry_seg buf base psz i o e :
  seg buf (16 + i * 16) (encode_entry_header (o, e)) -> entry_fits e ->
  in_u 32 o -> 0 <= base -> o + blen (de_payload e) <= psz ->
  seg buf (base + o) (de_payload e) ->
  decode_packet_entry buf base psz i = Ok e.
Proof.
  intros Hs (H1 & H2 & H3) Ho Hb Hsz Hp. unfold encode_entry_header in Hs.
  seg_split Hs. destruct Hs as (S1 & S2 & S3 & S4).
  unfold decode_packet_entry, PACKET_HEADER_SIZE, ENTRY_HEADER_SIZE.
  rewrite (read_u16_seg _ _ _ S1) by done. cbn [mbind res_bind].
  rewrite (read_u16_seg _ _ _ S2) by done. cbn [mbind res_bind].
  replace (16 + i * 16 + 4) with (16 + i * 16 + 2 + 2) by lia.
  rewrite (read_u32_seg _ _ _ S3) by done. cbn [mbind res_bind].
  replace (16 + i * 16 + 8) with (16 + i * 16 + 2 + 2 + 4) by lia.
  rewrite (read_u64_seg _ _ _ S4) by done. cbn [mbind res_bind]. replace (psz <? o + blen (de_payload e)) with false by lia.
  unfold subslice. pose proof (seg_bounds _ _ _ Hp).
  replace (_ <=? _) with true by lia. cbn [mbind res_bind].
  rewrite (seg_slice _ _ _ _ Hp) by done. by destruct e.
Qed.

Lemma payload_total_take es i : 0 <= payload_total (take i es) <= payload_total es.
Proof.
  split; [apply blen_nonneg|]. revert i. induction es as [|a es IH]; intros [|i]; simpl;
    unfold payload_total in *; simpl; rewrite ?blen_app, ?blen_nil; try lia.
  - pose proof (blen_nonneg (de_payload a)). pose proof (blen_nonneg (concat (map de_payload es))). lia.
  - specialize (IH i). lia.
Qed.

(** Decoding what the reference encoder wrote, whatever follows it. *)
Lemma decode_packet_encoded flags dropped es rest :
  in_u 16 flags -> in_u 32 dropped -> entries_fit es ->
  decode_packet (encode_packet flags dropped es ++ rest) =
  Ok (mkPacket (mkPacketHeader (blen es) flags (payload_total es) dropped) es).
Proof.
  intros Hfl Hdr (Hn & Ht & Hes). set (buf := encode_packet flags dropped es ++ rest).
  assert (Hs : seg buf 0 (encode_packet flags dropped es)) by (by exists [], rest).
  unfold encode_packet in Hs. seg_split Hs.
  rewrite (blen_concat encode_entry_header 16) in Hs by (intros; apply encode_entry_header_len).
  rewrite blen_payload_offsets in Hs.
  destruct Hs as (S1 & S2 & S3 & S4 & S5 & S6 & S7).
  pose proof (seg_bounds _ _ _ S7) as [_ Hb]. fold (payload_total es) in Hb.
  pose proof (blen_nonneg es). unfold in_u in Hn, Ht.
  unfold decode_packet, PACKET_HEADER_SIZE, ENTRY_HEADER_SIZE.
  rewrite (proj2 (need_ok buf 16)) by lia. cbn [mbind res_bind].
  rewrite (read_u16_seg _ _ _ S1) by (split; lia). cbn [mbind res_bind].
  rewrite (read_u16_seg _ _ _ S2) by done. cbn [mbind res_bind].
  rewrite (read_u32_seg _ _ _ S3) by (split; lia). cbn [mbind res_bind].
  rewrite (read_u32_seg _ _ _ S4) by done. cbn [mbind res_bind].
  rewrite (proj2 (need_ok buf (16 + blen es * 16))) by lia. cbn [mbind res_bind].
  rewrite (proj2 (need_ok buf (16 + blen es * 16 + payload_total es))) by lia. cbn [mbind res_bind].
  rewrite (proj2 (collect_Ok _ _ _ es)); [done|]. split; [unfold blen; lia|].
  intros i e Hi. rewrite Z.add_0_l.
  destruct (lookup_lt_is_Some_2 (payload_offsets 0 es) i) as [[o e'] Ho].
  { rewrite length_payload_offsets. by eapply lookup_lt_Some. }
  pose proof (seg_concat _ _ _ 16 _ _ _ (fun b _ => encode_entry_header_len b) S6 Ho) as Hrow.
  apply payload_offsets_lookup in Ho as (He & -> & Hle). rewrite Hi in He. injection He as <-.
  rewrite Z.add_0_l in *. pose proof (payload_total_take es i).
  apply (decode_packet_entry_seg _ _ _ _ (payload_total (take i es))).
  - exact Hrow.
  - by apply (Forall_lookup_1 _ _ _ _ Hes Hi).
  - split; lia.
  - lia.
  - done.
  - eapply seg_payload in S7; [exact S7|done].
Qed.

(** ** Properties *)


(** C24: A decoded packet is faithful to its bytes: header fields are the
    little-endian words at their offsets, there are exactly [entry_count]
    entries, and every payload is the in-bounds segment of the payload buffer
    its table row names. *)
Theorem decode_packet_sound buf p :
  decode_packet buf = Ok p -> packet_sound buf p.
Proof. apply decode_packet_Ok. Qed.

(** C7: Decoding inverts the documented packet layout: any entries that fit
    their wire widths are recovered exactly, in order, with the header's
    counts, flags and drop counter, whatever bytes follow the packet. *)
Theorem decode_encode_packet flags dropped es rest :
  in_u 16 flags -> in_u 32 dropped -> entries_fit es ->
  decode_packet (encode_packet flags dropped es ++ rest) =
  Ok (mkPacket (mkPacketHeader (blen es) flags (payload_total es) dropped) es).
Proof. apply decode_packet_encoded. Qed.

Definition demo_entries : list DecodedEntry :=
  [mkDecodedEntry 1 100 [xaa; xbb]; mkDecodedEntry 7 250 []; mkDecodedEntry 2 300 [x01; x02; x03]].

Lemma demo_entries_fit : entries_fit demo_entries.
Proof.
  split_and!; [by apply in_ub_spec|by apply in_ub_spec|].
  unfold demo_entries. rewrite !Forall_cons. unfold entry_fits.
  split_and!; try (apply in_ub_spec; reflexivity). constructor.
Qed.

Lemma decode_packet_sound_witness :
  decode_packet (encode_packet 0 3 demo_entries) =
    Ok (mkPacket (mkPacketHeader 3 0 5 3) demo_entries) /\
  packet_sound (encode_packet 0 3 demo_entries) (mkPacket (mkPacketHeader 3 0 5 3) demo_entries).
Proof.
  split; [vm_compute; reflexivity|].
  apply decode_packet_sound. vm_compute. reflexivity.
Defined.

Lemma decode_encode_packet_witness :
  decode_packet (encode_packet 0 3 demo_entries ++ [xff]) =
    Ok (mkPacket (mkPacketHeader 3 0 5 3) demo_entries).
Proof.
  apply (decode_encode_packet 0 3 demo_entries [xff]).
  - apply in_ub_spec; reflexivity.
  - apply in_ub_spec; reflexivity.
  - exact demo_entries_fit.
Defined.
