(* ===== verification/WireSchema.v ===== *)
(** * btelem-wire: the schema decoder

    Models viewer/crates/btelem-wire/src/schema.rs: the schema data types,
    [Schema::decode] with its per-section decoders, and the lookups.  The
    reference encoder [encode_schema] is the blob layout of the lib.rs module
    documentation (SchemaWire, EnumWire and BitfieldWire records). *)

From S2P Require Import Prelude Text Wire.

(** ** Data types *)
Inductive FieldType :=
| U8 | U16 | U32 | U64 | I8 | I16 | I32 | I64 | F32 | F64
| Bool | Bytes | Enum | Bitfield | String_.

#[global] Instance FieldType_eq_dec : EqDecision FieldType.
Proof. solve_decision. Defined.

Definition FieldType_from_u8 (b : Z) : wire FieldType :=
  match b with
  | 0 => Ok U8 | 1 => Ok U16 | 2 => Ok U32 | 3 => Ok U64
  | 4 => Ok I8 | 5 => Ok I16 | 6 => Ok I32 | 7 => Ok I64
  | 8 => Ok F32 | 9 => Ok F64 | 10 => Ok Bool | 11 => Ok Bytes
  | 12 => Ok Enum | 13 => Ok Bitfield | 14 => Ok String_
  | other => Err (UnknownType other)
  end.

Record FieldDef := mkFieldDef {
  fd_name : text;
  fd_offset : Z;
  fd_size : Z;
  fd_ty : FieldType;
  fd_count : Z;
}.

Record SchemaEntry := mkSchemaEntry {
  se_id : Z;
  se_name : text;
  se_description : text;
  se_payload_size : Z;
  se_fields : list FieldDef;
}.

Record EnumDef := mkEnumDef {
  en_schema_id : Z;
  en_field_index : Z;
  en_labels : list text;
}.

Record BitDef := mkBitDef {
  bd_name : text;
  bd_start : Z;
  bd_width : Z;
}.

Record BitfieldDef := mkBitfieldDef {
  bf_schema_id : Z;
  bf_field_index : Z;
  bf_bits : list BitDef;
}.

Record Schema := mkSchema {
  sc_entries : list SchemaEntry;
  sc_enums : list EnumDef;
  sc_bitfields : list BitfieldDef;
}.

(** ** Decoders *)
(** The body of the field loop of [decode_schema_entry]. *)
Definition decode_field (buf : list byte) (fpos i : Z) : wire FieldDef :=
  let off := fpos + i * FIELD_WIRE_SIZE in
  fname ← read_cstr buf off NAME_MAX;
  foff ← read_u16 buf (off + NAME_MAX);
  fsize ← read_u16 buf (off + NAME_MAX + 2);
  tb ← read_u8 buf (off + NAME_MAX + 4);
  fty ← FieldType_from_u8 tb;
  fcount ← read_u8 buf (off + NAME_MAX + 5);
  mret (mkFieldDef fname foff fsize fty fcount).

Definition decode_schema_entry (buf : list byte) (pos : Z) : wire SchemaEntry :=
  id ← read_u16 buf pos;
  payload_size ← read_u16 buf (pos + 2);
  field_count ← read_u16 buf (pos + 4);
  if MAX_FIELDS <? field_count then Err (TooManyFields field_count)
  else
    name ← read_cstr buf (pos + 6) NAME_MAX;
    description ← read_cstr buf (pos + 6 + NAME_MAX) DESC_MAX;
    let fpos := pos + SCHEMA_WIRE_HEADER_SIZE in
    fields ← collect (Z.to_nat field_count) 0 (decode_field buf fpos);
    mret (mkSchemaEntry id name description payload_size fields).

Definition decode_enum (buf : list byte) (pos : Z) : wire EnumDef :=
  schema_id ← read_u16 buf pos;
  field_index ← read_u16 buf (pos + 2);
  label_count ← read_u8 buf (pos + 4);
  let labels_pos := pos + 5 in
  _ ← need buf (labels_pos + ENUM_MAX_VALUES * ENUM_LABEL_MAX);
  labels ← collect (Z.to_nat (Z.min label_count ENUM_MAX_VALUES)) 0
    (fun i => read_cstr buf (labels_pos + i * ENUM_LABEL_MAX) ENUM_LABEL_MAX);
  mret (mkEnumDef schema_id field_index labels).

Definition decode_bitfield (buf : list byte) (pos : Z) : wire BitfieldDef :=
  schema_id ← read_u16 buf pos;
  field_index ← read_u16 buf (pos + 2);
  bit_count ← read_u8 buf (pos + 4);
  let names_pos := pos + 5 in
  let starts_pos := names_pos + BITFIELD_MAX_BITS * BIT_NAME_MAX in
  let widths_pos := starts_pos + BITFIELD_MAX_BITS in
  _ ← need buf (widths_pos + BITFIELD_MAX_BITS);
  bits ← collect (Z.to_nat (Z.min bit_count BITFIELD_MAX_BITS)) 0
    (fun i =>
       name ← read_cstr buf (names_pos + i * BIT_NAME_MAX) BIT_NAME_MAX;
       start ← index buf (starts_pos + i);
       width ← index buf (widths_pos + i);
       mret (mkBitDef name (byte_z start) (byte_z width)));
  mret (mkBitfieldDef schema_id field_index bits).

(** [for _ in 0..n { out.push(dec(buf, pos)?); pos += size }]. *)
Fixpoint decode_seq {A} (dec : Z -> wire A) (size : Z) (n : nat) (pos : Z) : wire (list A * Z) :=
  match n with
  | O => mret ([], pos)
  | S n => a ← dec pos; '(l, p) ← decode_seq dec size n (pos + size); mret (a :: l, p)
  end.

(** An optional trailing section: a u16 count and that many records. *)
Definition decode_section {A} (buf : list byte) (dec : Z -> wire A) (size pos : Z)
    : wire (list A * Z) :=
  if pos + 2 <=? blen buf then
    n ← read_u16 buf pos;
    decode_seq dec size (Z.to_nat n) (pos + 2)
  else mret ([], pos).

Definition Schema_decode (buf : list byte) : wire Schema :=
  endian ← read_u8 buf 0;
  if negb (endian =? 0) then Err (BadEndian endian)
  else
    entry_count ← read_u16 buf 1;
    if MAX_SCHEMA_ENTRIES <? entry_count then Err (TooManyEntries entry_count)
    else
      let pos := SCHEMA_HEADER_SIZE in
      '(entries, pos) ← decode_seq (decode_schema_entry buf) SCHEMA_WIRE_SIZE
                          (Z.to_nat entry_count) pos;
      '(enums, pos) ← decode_section buf (decode_enum buf) ENUM_WIRE_SIZE pos;
      '(bitfields, pos) ← decode_section buf (decode_bitfield buf) BITFIELD_WIRE_SIZE pos;
      mret (mkSchema entries enums bitfields).

(** ** Lookups *)
Definition Schema_entry (s : Schema) (id : Z) : option SchemaEntry :=
  List.find (fun e => se_id e =? id) (sc_entries s).

Definition Schema_enum_labels (s : Schema) (schema_id field_index : Z) : option (list text) :=
  en_labels <$>
  List.find (fun e => (en_schema_id e =? schema_id) && (en_field_index e =? field_index))
    (sc_enums s).

Definition Schema_bitfield (s : Schema) (schema_id field_index : Z) : option BitfieldDef :=
  List.find (fun b => (bf_schema_id b =? schema_id) && (bf_field_index b =? field_index))
    (sc_bitfields s).

(** ** C strings *)
(** What a fixed-width name field can hold: UTF-8 without NUL, at most [max]
    bytes (a name of exactly [max] bytes has no terminator). *)
Definition cstr_ok (max : Z) (s : text) : Prop :=
  utf8_valid s = true /\ (x00 ∉ s) /\ blen s <= max.

Definition pad (n : Z) (s : text) : list byte := s ++ replicate (Z.to_nat n - length s) x00.

Lemma cstr_end_pad n s : x00 ∉ s -> take (cstr_end (pad n s)) (pad n s) = s.
Proof.
  intros Hs. unfold pad, cstr_end.
  pose proof (find_byte_spec x00 (s ++ replicate (Z.to_nat n - length s) x00)) as H.
  destruct (find_byte x00 _) as [i|].
  - destruct H as (p & r & E & <- & Hp). rewrite E.
    rewrite take_app_length. destruct (Z.to_nat n - length s)%nat as [|k] eqn:Ek.
    + simpl in E. rewrite app_nil_r in E. subst s. exfalso. apply Hs.
      apply elem_of_app. right. apply elem_of_cons. by left.
    + cbn [replicate] in E. apply eq_sym in E. revert Hs E. clear Ek. revert p Hp.
      induction s as [|c s IH]; intros [|d p] Hp Hs E; simpl in E; simplify_eq; try done.
      * exfalso. apply Hp. apply elem_of_cons. by left.
      * exfalso. apply Hs. apply elem_of_cons. by left.
      * apply not_elem_of_cons in Hp as [_ Hp]. apply not_elem_of_cons in Hs as [_ Hs].
        f_equal. by apply IH.
  - assert (Z.to_nat n - length s = 0)%nat as E.
    { destruct (Z.to_nat n - length s)%nat; [done|]. exfalso. apply H.
      apply elem_of_app. right. apply elem_of_cons. by left. }
    rewrite E. simpl. rewrite app_nil_r. by rewrite take_ge.
Qed.

Lemma blen_pad n s : blen s <= n -> blen (pad n s) = n.
Proof. unfold pad, blen. intros. rewrite length_app, length_replicate. lia. Qed.

Lemma read_cstr_seg buf off max s :
  seg buf off (pad max s) -> cstr_ok max s -> read_cstr buf off max = Ok s.
Proof.
  intros Hs (Hu & Hz & Hl). pose proof (seg_bounds _ _ _ Hs) as [H0 Hb].
  rewrite blen_pad in Hb by done. unfold read_cstr.
  rewrite (proj2 (need_ok buf (off + max))) by done. cbn [mbind res_bind].
  unfold subslice. replace (off + max <=? blen buf) with true by lia. cbn [mbind res_bind].
  rewrite (seg_slice _ _ _ _ Hs) by (by rewrite blen_pad).
  rewrite cstr_end_pad by done. unfold from_utf8. by rewrite Hu.
Qed.

Lemma cstr_end_prefix (s : list byte) : x00 ∉ take (cstr_end s) s.
Proof.
  unfold cstr_end. pose proof (find_byte_spec x00 s) as H.
  destruct (find_byte x00 s) as [i|].
  - destruct H as (p & r & -> & <- & Hp). by rewrite take_app_length.
  - rewrite take_ge by lia. done.
Qed.

Lemma read_cstr_Ok buf off max s : 0 <= off -> 0 <= max ->
  read_cstr buf off max = Ok s -> cstr_ok max s /\ off + max <= blen buf.
Proof.
  unfold read_cstr. intros Hoff Hmax H. apply bind_Ok in H as ([] & Hn%need_ok & H).
  apply bind_Ok in H as (sl & Hsl & H). unfold subslice in Hsl.
  destruct (_ <=? _); [|done]. injection Hsl as <-.
  unfold from_utf8 in H. destruct (utf8_valid _) eqn:E; [|done]. injection H as <-.
  split; [|done]. split_and!; [done|apply cstr_end_prefix|].
  pose proof (length_slice buf off max Hoff Hmax Hn) as Hl. unfold blen in *.
  rewrite length_take. lia.
Qed.

(** ** Safety and well-formedness of decoded schemas *)

(** The ways a schema blob is rejected. *)
Definition schema_error (buf : list byte) (e : WireError) : Prop :=
  match e with
  | Short n got => got = blen buf /\ blen buf < n
  | BadEndian b => b <> 0
  | BadName => True
  | TooManyEntries n => 512 < n
  | TooManyFields n => 16 < n
  | UnknownType b => 14 < b
  | PayloadOob _ _ _ => False
  end.

Lemma short_schema buf A (m : wire A) : short_only buf m -> fails_with (schema_error buf) m.
Proof. intros H. eapply short_only_fails; [done|]. simpl. auto. Qed.

Lemma read_cstr_fails buf off max : 0 <= off -> 0 <= max ->
  fails_with (schema_error buf) (read_cstr buf off max).
Proof.
  intros. unfold read_cstr. apply fails_bind; [apply short_schema, need_short|].
  intros [] Hn%need_ok. unfold subslice. replace (_ <=? _) with true by lia.
  cbn [mbind res_bind]. by destruct (from_utf8 _).
Qed.

Lemma FieldType_from_u8_fails buf b : 0 <= b ->
  fails_with (schema_error buf) (FieldType_from_u8 b).
Proof.
  intros Hb. destruct (FieldType_from_u8 b) as [t|e|] eqn:E; simpl; [done| |].
  - assert (Hlt : ~ b < 15 /\ e = UnknownType b).
    { destruct (decide (b < 15)).
      - assert (b = 0 \/ b = 1 \/ b = 2 \/ b = 3 \/ b = 4 \/ b = 5 \/ b = 6 \/ b = 7 \/ b = 8 \/
                b = 9 \/ b = 10 \/ b = 11 \/ b = 12 \/ b = 13 \/ b = 14) as Hc by lia.
        repeat destruct Hc as [->|Hc]; try (subst b); discriminate E.
      - split; [done|]. unfold FieldType_from_u8 in E.
        repeat case_match; simplify_eq; try lia; done. }
    destruct Hlt as [? ->]. simpl. lia.
  - unfold FieldType_from_u8 in E. by repeat case_match.
Qed.

Ltac fails_step :=
  first
    [ apply fails_bind; [first [ apply short_schema; first
          [ apply need_short | apply read_u8_short; lia | apply read_u16_short; lia ]
        | apply read_cstr_fails; lia ] |] ].

Lemma decode_field_fails buf fpos i : 0 <= fpos -> 0 <= i ->
  fails_with (schema_error buf) (decode_field buf fpos i).
Proof.
  intros. unfold decode_field, FIELD_WIRE_SIZE, NAME_MAX.
  fails_step. intros fn _. fails_step. intros fo _. fails_step. intros fs _.
  fails_step. intros tb (_ & _ & Htb)%read_u8_Ok; [|lia].
  apply fails_bind; [apply FieldType_from_u8_fails; unfold in_u in Htb; lia|]. intros ft _.
  fails_step. done.
Qed.

Lemma decode_schema_entry_fails buf pos : 0 <= pos ->
  fails_with (schema_error buf) (decode_schema_entry buf pos).
Proof.
  intros. unfold decode_schema_entry, NAME_MAX, DESC_MAX, SCHEMA_WIRE_HEADER_SIZE.
  fails_step. intros id _. fails_step. intros ps _. fails_step.
  intros fc (_ & _ & Hfc)%read_u16_Ok; [|lia]. unfold MAX_FIELDS.
  destruct (16 <? fc) eqn:E; [simpl; lia|].
  fails_step. intros nm _. fails_step. intros ds _.
  apply fails_bind; [|done]. apply fails_collect. intros i Hi.
  apply decode_field_fails; unfold NAME_MAX, DESC_MAX; lia.
Qed.

Lemma decode_enum_fails buf pos : 0 <= pos -> fails_with (schema_error buf) (decode_enum buf pos).
Proof.
  intros. unfold decode_enum, ENUM_MAX_VALUES, ENUM_LABEL_MAX.
  fails_step. intros si _. fails_step. intros fi _. fails_step. intros lc _. fails_step. intros [] _.
  apply fails_bind; [|done]. apply fails_collect. intros i Hi. apply read_cstr_fails; lia.
Qed.

Lemma index_ok {E} (buf : list byte) i : 0 <= i < blen buf -> exists b, @index E _ buf i = Ok b.
Proof. intros H. destruct (@index_slice E buf i H) as (b & ? & _). eauto. Qed.

Lemma decode_bitfield_fails buf pos : 0 <= pos ->
  fails_with (schema_error buf) (decode_bitfield buf pos).
Proof.
  intros. unfold decode_bitfield, BITFIELD_MAX_BITS, BIT_NAME_MAX.
  fails_step. intros si _. fails_step. intros fi _. fails_step. intros bc _. fails_step.
  intros [] Hn%need_ok. apply fails_bind; [|done]. apply fails_collect. intros i Hi.
  fails_step. intros nm _.
  destruct (@index_ok WireError buf (pos + 5 + 32 * 32 + (0 + i))) as [b1 ->]; [lia|].
  destruct (@index_ok WireError buf (pos + 5 + 32 * 32 + 32 + (0 + i))) as [b2 ->]; [lia|]. done.
Qed.

Lemma decode_seq_collect {A} (dec : Z -> wire A) size n pos :
  decode_seq dec size n pos =
  (l ← collect n 0 (fun i => dec (pos + i * size)); mret (l, pos + Z.of_nat n * size)).
Proof.
  assert (H : forall lo, decode_seq dec size n (pos + lo * size) =
    (l ← collect n lo (fun i => dec (pos + i * size)); mret (l, pos + (lo + Z.of_nat n) * size))).
  { induction n as [|n IH]; intros lo; cbn [decode_seq collect].
    - cbn. do 3 f_equal. lia.
    - destruct (dec (pos + lo * size)); [|done|done]. cbn [mbind res_bind].
      replace (pos + lo * size + size) with (pos + (lo + 1) * size) by lia.
      rewrite IH. destruct (collect n (lo + 1) _); [|done|done]. cbn. do 3 f_equal. lia. }
  specialize (H 0). by rewrite Z.mul_0_l, Z.add_0_r in H.
Qed.

Lemma decode_seq_fails {A} buf (dec : Z -> wire A) size n pos : 0 <= pos -> 0 <= size ->
  (forall p, 0 <= p -> fails_with (schema_error buf) (dec p)) ->
  fails_with (schema_error buf) (decode_seq dec size n pos).
Proof.
  intros Hp Hs Hd. rewrite decode_seq_collect. apply fails_bind; [|done].
  apply fails_collect. intros i Hi. apply Hd. nia.
Qed.

Lemma decode_seq_Ok {A} (dec : Z -> wire A) size n pos l p :
  decode_seq dec size n pos = Ok (l, p) ->
  length l = n /\ p = pos + Z.of_nat n * size /\
  (forall i a, l !! i = Some a -> dec (pos + Z.of_nat i * size) = Ok a).
Proof.
  rewrite decode_seq_collect. intros (l' & Hc & [= <- <-])%bind_Ok.
  apply collect_Ok in Hc as [Hl Hf]. split_and!; [done|done|].
  intros i a Hi. specialize (Hf i a Hi). by rewrite Z.add_0_l in Hf.
Qed.

Lemma decode_section_fails {A} buf (dec : Z -> wire A) size pos : 0 <= pos -> 0 <= size ->
  (forall p, 0 <= p -> fails_with (schema_error buf) (dec p)) ->
  fails_with (schema_error buf) (decode_section buf dec size pos).
Proof.
  intros. unfold decode_section. destruct (_ <=? _); [|done]. fails_step. intros n _.
  apply decode_seq_fails; [lia|done|done].
Qed.

Lemma decode_section_Ok {A} buf (dec : Z -> wire A) size pos l p : 0 <= pos -> 0 <= size ->
  decode_section buf dec size pos = Ok (l, p) ->
  pos <= p /\ Forall (fun a => exists q, 0 <= q /\ dec q = Ok a) l.
Proof.
  unfold decode_section. intros Hp Hs. destruct (_ <=? _).
  - intros (n & _ & H)%bind_Ok. apply decode_seq_Ok in H as (Hl & -> & Hf). split; [nia|].
    apply Forall_lookup_2. intros i a Hi. eexists. split; [|by apply Hf]. nia.
  - intros [= <- <-]. split; [lia|constructor].
Qed.

Lemma Schema_decode_fails buf : fails_with (schema_error buf) (Schema_decode buf).
Proof.
  unfold Schema_decode. fails_step. intros en _.
  destruct (en =? 0) eqn:E0; simpl; [|lia].
  fails_step. intros ec _. unfold MAX_SCHEMA_ENTRIES. destruct (512 <? ec) eqn:E1; [simpl; lia|].
  apply fails_bind.
  { apply decode_seq_fails; [done|done|]. intros; by apply decode_schema_entry_fails. }
  intros [es p1] (_ & -> & _)%decode_seq_Ok.
  change SCHEMA_HEADER_SIZE with 3. change SCHEMA_WIRE_SIZE with 1318.
  apply fails_bind.
  { apply decode_section_fails; [lia|done|]. intros; by apply decode_enum_fails. }
  intros [ns p2] H2%decode_section_Ok; [|lia|done].
  apply fails_bind; [|by intros [? ?]].
  apply decode_section_fails; [lia|done|]. intros; by apply decode_bitfield_fails.
Qed.

Definition field_wf (f : FieldDef) : Prop :=
  cstr_ok 64 (fd_name f) /\ in_u 16 (fd_offset f) /\ in_u 16 (fd_size f) /\ in_u 8 (fd_count f).
Definition entry_wf (e : SchemaEntry) : Prop :=
  in_u 16 (se_id e) /\ cstr_ok 64 (se_name e) /\ cstr_ok 128 (se_description e) /\
  in_u 16 (se_payload_size e) /\ blen (se_fields e) <= 16 /\ Forall field_wf (se_fields e).
Definition enum_wf (e : EnumDef) : Prop :=
  in_u 16 (en_schema_id e) /\ in_u 16 (en_field_index e) /\
  blen (en_labels e) <= 64 /\ Forall (cstr_ok 32) (en_labels e).
Definition bit_wf (b : BitDef) : Prop :=
  cstr_ok 32 (bd_name b) /\ in_u 8 (bd_start b) /\ in_u 8 (bd_width b).
Definition bitfield_wf (b : BitfieldDef) : Prop :=
  in_u 16 (bf_schema_id b) /\ in_u 16 (bf_field_index b) /\
  blen (bf_bits b) <= 32 /\ Forall bit_wf (bf_bits b).
Definition schema_wf (s : Schema) : Prop :=
  blen (sc_entries s) <= 512 /\ in_u 16 (blen (sc_enums s)) /\ in_u 16 (blen (sc_bitfields s)) /\
  Forall entry_wf (sc_entries s) /\ Forall enum_wf (sc_enums s) /\
  Forall bitfield_wf (sc_bitfields s).

Lemma decode_field_wf buf fpos i f : 0 <= fpos -> 0 <= i ->
  decode_field buf fpos i = Ok f -> field_wf f.
Proof.
  intros Hp Hi. unfold decode_field, FIELD_WIRE_SIZE, NAME_MAX.
  intros (nm & [Hn _]%read_cstr_Ok & H)%bind_Ok; [|lia|lia].
  apply bind_Ok in H as (fo & (_ & _ & Hfo)%read_u16_Ok & H); [|lia].
  apply bind_Ok in H as (fs & (_ & _ & Hfs)%read_u16_Ok & H); [|lia].
  apply bind_Ok in H as (tb & _ & H). apply bind_Ok in H as (ft & _ & H).
  apply bind_Ok in H as (fc & (_ & _ & Hfc)%read_u8_Ok & [= <-]); [|lia].
  by split_and!.
Qed.

Lemma decode_schema_entry_wf buf pos e : 0 <= pos ->
  decode_schema_entry buf pos = Ok e -> entry_wf e.
Proof.
  intros Hp. unfold decode_schema_entry, NAME_MAX, DESC_MAX, MAX_FIELDS.
  intros (id & (_ & _ & Hid)%read_u16_Ok & H)%bind_Ok; [|lia].
  apply bind_Ok in H as (ps & (_ & _ & Hps)%read_u16_Ok & H); [|lia].
  apply bind_Ok in H as (fc & (_ & _ & Hfc)%read_u16_Ok & H); [|lia].
  destruct (16 <? fc) eqn:E; [done|].
  apply bind_Ok in H as (nm & [Hn _]%read_cstr_Ok & H); [|lia|lia].
  apply bind_Ok in H as (ds & [Hd _]%read_cstr_Ok & H); [|lia|lia].
  apply bind_Ok in H as (fl & [Hl Hf]%collect_Ok & [= <-]). unfold in_u in Hfc.
  split_and!; cbn; [done|done|done|done|unfold blen; lia|].
  apply Forall_lookup_2. intros i f Hi. eapply decode_field_wf; [| |by apply Hf].
  - unfold SCHEMA_WIRE_HEADER_SIZE, NAME_MAX, DESC_MAX. lia.
  - lia.
Qed.

Lemma decode_enum_wf buf pos e : 0 <= pos -> decode_enum buf pos = Ok e -> enum_wf e.
Proof.
  intros Hp. unfold decode_enum, ENUM_MAX_VALUES, ENUM_LABEL_MAX.
  intros (si & (_ & _ & Hsi)%read_u16_Ok & H)%bind_Ok; [|lia].
  apply bind_Ok in H as (fi & (_ & _ & Hfi)%read_u16_Ok & H); [|lia].
  apply bind_Ok in H as (lc & (_ & _ & Hlc)%read_u8_Ok & H); [|lia].
  apply bind_Ok in H as ([] & _ & H). apply bind_Ok in H as (ls & [Hl Hf]%collect_Ok & [= <-]).
  split_and!; cbn; [done|done|unfold blen; lia|].
  apply Forall_lookup_2. intros i s Hi. specialize (Hf i s Hi). apply read_cstr_Ok in Hf; [|lia|lia].
  by destruct Hf.
Qed.

Lemma byte_z_in_u b : in_u 8 (byte_z b).
Proof. pose proof (byte_z_range b). unfold in_u. lia. Qed.

Lemma decode_bitfield_wf buf pos b : 0 <= pos -> decode_bitfield buf pos = Ok b -> bitfield_wf b.
Proof.
  intros Hp. unfold decode_bitfield, BITFIELD_MAX_BITS, BIT_NAME_MAX.
  intros (si & (_ & _ & Hsi)%read_u16_Ok & H)%bind_Ok; [|lia].
  apply bind_Ok in H as (fi & (_ & _ & Hfi)%read_u16_Ok & H); [|lia].
  apply bind_Ok in H as (bc & (_ & _ & Hbc)%read_u8_Ok & H); [|lia].
  apply bind_Ok in H as ([] & _ & H). apply bind_Ok in H as (bs & [Hl Hf]%collect_Ok & [= <-]).
  split_and!; cbn; [done|done|unfold blen; lia|].
  apply Forall_lookup_2. intros i x Hi. specialize (Hf i x Hi).
  apply bind_Ok in Hf as (nm & [Hn _]%read_cstr_Ok & Hf); [|lia|lia].
  apply bind_Ok in Hf as (b1 & _ & Hf). apply bind_Ok in Hf as (b2 & _ & [= <-]).
  split_and!; cbn; [done|apply byte_z_in_u|apply byte_z_in_u].
Qed.

Lemma decode_section_len {A} buf (dec : Z -> wire A) size pos l p : 0 <= pos ->
  decode_section buf dec size pos = Ok (l, p) -> in_u 16 (blen l).
Proof.
  unfold decode_section. intros Hp. destruct (_ <=? _).
  - intros (n & (_ & _ & Hn)%read_u16_Ok & (Hl & _ & _)%decode_seq_Ok)%bind_Ok; [|lia].
    unfold in_u, blen in *. lia.
  - intros [= <- _]. by apply in_ub_spec.
Qed.

Lemma Schema_decode_Ok_wf buf s : Schema_decode buf = Ok s -> schema_wf s.
Proof.
  unfold Schema_decode. intros (en & _ & H)%bind_Ok. destruct (negb (en =? 0)); [done|].
  apply bind_Ok in H as (ec & (_ & _ & Hec)%read_u16_Ok & H); [|lia].
  unfold MAX_SCHEMA_ENTRIES in H. destruct (512 <? ec) eqn:E; [done|].
  apply bind_Ok in H as ([es p1] & (He & -> & Hes)%decode_seq_Ok & H).
  change SCHEMA_HEADER_SIZE with 3 in *. change SCHEMA_WIRE_SIZE with 1318 in *.
  apply bind_Ok in H as ([ns p2] & H2 & H). pose proof H2 as L2.
  apply decode_section_len in L2; [|lia].
  apply decode_section_Ok in H2 as [Hp2 H2]; [|lia|done].
  apply bind_Ok in H as ([bs p3] & H3 & [= <-]). pose proof H3 as L3.
  apply decode_section_len in L3; [|lia].
  apply decode_section_Ok in H3 as [Hp3 H3]; [|lia|done]. unfold in_u in Hec.
  split_and!; cbn; [unfold blen; lia|done|done| | |].
  - apply Forall_lookup_2. intros i e Hi. eapply decode_schema_entry_wf; [|by apply Hes]. lia.
  - eapply Forall_impl; [exact H2|]. intros e (q & Hq & He'). by eapply decode_enum_wf.
  - eapply Forall_impl; [exact H3|]. intros e (q & Hq & He'). by eapply decode_bitfield_wf.
Qed.

(** ** Reference encoder *)
Definition FieldType_to_u8 (t : FieldType) : Z :=
  match t with
  | U8 => 0 | U16 => 1 | U32 => 2 | U64 => 3 | I8 => 4 | I16 => 5 | I32 => 6 | I64 => 7
  | F32 => 8 | F64 => 9 | Bool => 10 | Bytes => 11 | Enum => 12 | Bitfield => 13 | String_ => 14
  end.

Definition zeros (n : Z) : list byte := replicate (Z.to_nat n) x00.

Definition encode_field (f : FieldDef) : list byte :=
  pad 64 (fd_name f) ++ le_bytes 2 (fd_offset f) ++ le_bytes 2 (fd_size f)
  ++ le_bytes 1 (FieldType_to_u8 (fd_ty f)) ++ le_bytes 1 (fd_count f).

Definition encode_schema_entry (e : SchemaEntry) : list byte :=
  le_bytes 2 (se_id e) ++ le_bytes 2 (se_payload_size e) ++ le_bytes 2 (blen (se_fields e))
  ++ pad 64 (se_name e) ++ pad 128 (se_description e)
  ++ concat (map encode_field (se_fields e)) ++ zeros ((16 - blen (se_fields e)) * 70).

Definition encode_enum (e : EnumDef) : list byte :=
  le_bytes 2 (en_schema_id e) ++ le_bytes 2 (en_field_index e) ++ le_bytes 1 (blen (en_labels e))
  ++ concat (map (pad 32) (en_labels e)) ++ zeros ((64 - blen (en_labels e)) * 32).

Definition encode_bitfield (b : BitfieldDef) : list byte :=
  let unused := 32 - blen (bf_bits b) in
  le_bytes 2 (bf_schema_id b) ++ le_bytes 2 (bf_field_index b) ++ le_bytes 1 (blen (bf_bits b))
  ++ concat (map (fun x => pad 32 (bd_name x)) (bf_bits b)) ++ zeros (unused * 32)
  ++ concat (map (fun x => le_bytes 1 (bd_start x)) (bf_bits b)) ++ zeros unused
  ++ concat (map (fun x => le_bytes 1 (bd_width x)) (bf_bits b)) ++ zeros unused.

Definition encode_schema (s : Schema) : list byte :=
  le_bytes 1 0 ++ le_bytes 2 (blen (sc_entries s))
  ++ concat (map encode_schema_entry (sc_entries s))
  ++ le_bytes 2 (blen (sc_enums s)) ++ concat (map encode_enum (sc_enums s))
  ++ le_bytes 2 (blen (sc_bitfields s)) ++ concat (map encode_bitfield (sc_bitfields s)).

Lemma blen_zeros n : 0 <= n -> blen (zeros n) = n.
Proof. intros. unfold zeros, blen. rewrite length_replicate. lia. Qed.

Lemma encode_field_len f : field_wf f -> blen (encode_field f) = 70.
Proof.
  intros ((_ & _ & H) & _). unfold encode_field. autorewrite with blen.
  rewrite blen_pad by done. lia.
Qed.

Lemma concat_len {A B} (P : B -> Prop) (enc : B -> list A) k l :
  (forall b, P b -> blen (enc b) = k) -> Forall P l -> blen (concat (map enc l)) = blen l * k.
Proof. intros He Hl. apply blen_concat. intros b Hb. apply He. rewrite Forall_forall in Hl. auto. Qed.

Lemma encode_schema_entry_len e : entry_wf e -> blen (encode_schema_entry e) = 1318.
Proof.
  intros (_ & (_ & _ & H1) & (_ & _ & H2) & _ & Hf & Hfs). unfold encode_schema_entry.
  autorewrite with blen. rewrite !blen_pad by done.
  rewrite (concat_len field_wf _ 70) by (done || apply encode_field_len).
  pose proof (blen_nonneg (se_fields e)). rewrite blen_zeros by lia. lia.
Qed.

Lemma encode_enum_len e : enum_wf e -> blen (encode_enum e) = 2053.
Proof.
  intros (_ & _ & Hl & Hls). unfold encode_enum. autorewrite with blen.
  rewrite (concat_len (cstr_ok 32) _ 32); [|by intros b (_ & _ & ?); apply blen_pad|done].
  pose proof (blen_nonneg (en_labels e)). rewrite blen_zeros by lia. lia.
Qed.

Lemma encode_bitfield_len b : bitfield_wf b -> blen (encode_bitfield b) = 1093.
Proof.
  intros (_ & _ & Hl & Hls). unfold encode_bitfield. autorewrite with blen.
  rewrite (concat_len bit_wf _ 32); [|by intros x ((_ & _ & ?) & _); apply blen_pad|done].
  rewrite (concat_len bit_wf _ 1); [|by intros; rewrite blen_le_bytes|done].
  rewrite (concat_len bit_wf _ 1); [|by intros; rewrite blen_le_bytes|done].
  pose proof (blen_nonneg (bf_bits b)). rewrite !blen_zeros by lia. lia.
Qed.

(** ** Decoding an encoded record at its offset *)
Lemma FieldType_roundtrip t : FieldType_from_u8 (FieldType_to_u8 t) = Ok t.
Proof. by destruct t. Qed.

Lemma seg_at {A} (buf : list A) off off' x : seg buf off x -> off = off' -> seg buf off' x.
Proof. by intros H <-. Qed.

(** Rewrite the next reader with the segment that holds its field. *)
Ltac field_range := first [done | unfold in_u; lia | match goal with |- context [fd_ty ?f] => by destruct (fd_ty f) end].
Ltac read_u16_with S :=
  match goal with |- context [read_u16 ?b ?o] =>
    rewrite (read_u16_seg b o _ (seg_at _ _ o _ S ltac:(lia))) by field_range end;
  cbn [mbind res_bind].
Ltac read_u8_with S :=
  match goal with |- context [read_u8 ?b ?o] =>
    rewrite (read_u8_seg b o _ (seg_at _ _ o _ S ltac:(lia))) by field_range end;
  cbn [mbind res_bind].
Ltac read_cstr_with S :=
  match goal with |- context [read_cstr ?b ?o ?m] =>
    rewrite (read_cstr_seg b o m _ (seg_at _ _ o _ S ltac:(lia))) by done end;
  cbn [mbind res_bind].

Lemma decode_field_seg buf fpos i f :
  seg buf (fpos + i * 70) (encode_field f) -> field_wf f -> decode_field buf fpos i = Ok f.
Proof.
  intros Hs (Hn & Ho & Hsz & Hc). unfold encode_field in Hs. seg_split Hs.
  rewrite blen_pad in Hs by apply Hn. destruct Hs as (S1 & S2 & S3 & S4 & S5).
  unfold decode_field, FIELD_WIRE_SIZE, NAME_MAX. change (64 + 2 + 2 + 1 + 1) with 70.
  read_cstr_with S1. read_u16_with S2. read_u16_with S3.
  read_u8_with S4. rewrite FieldType_roundtrip. cbn [mbind res_bind].
  read_u8_with S5. by destruct f.
Qed.

Lemma decode_schema_entry_seg buf pos e :
  seg buf pos (encode_schema_entry e) -> entry_wf e -> decode_schema_entry buf pos = Ok e.
Proof.
  intros Hs (Hid & Hn & Hd & Hp & Hf & Hfs). unfold encode_schema_entry in Hs. seg_split Hs.
  rewrite !blen_pad in Hs by (apply Hn || apply Hd).
  destruct Hs as (S1 & S2 & S3 & S4 & S5 & S6 & _). pose proof (blen_nonneg (se_fields e)).
  unfold decode_schema_entry, NAME_MAX, DESC_MAX, MAX_FIELDS, SCHEMA_WIRE_HEADER_SIZE.
  read_u16_with S1. read_u16_with S2. read_u16_with S3.
  replace (16 <? blen (se_fields e)) with false by lia.
  read_cstr_with S4. read_cstr_with S5.
  rewrite (proj2 (collect_Ok _ _ _ (se_fields e))); [by destruct e|].
  split; [unfold blen; lia|]. intros i f Hi. rewrite Z.add_0_l.
  pose proof (Forall_lookup_1 _ _ _ _ Hfs Hi) as Hw.
  apply decode_field_seg; [|done].
  eapply seg_at; [eapply (seg_concat _ _ encode_field 70); [|exact S6|exact Hi]|].
  - intros g Hg. apply encode_field_len. rewrite Forall_forall in Hfs. auto.
  - unfold NAME_MAX, DESC_MAX. lia.
Qed.

Lemma decode_enum_seg buf pos e :
  seg buf pos (encode_enum e) -> enum_wf e -> decode_enum buf pos = Ok e.
Proof.
  intros Hs (Hsi & Hfi & Hl & Hls). pose proof (encode_enum_len e ltac:(by split_and!)) as Hlen.
  pose proof (seg_bounds _ _ _ Hs) as [_ Hb]. rewrite Hlen in Hb.
  unfold encode_enum in Hs. seg_split Hs. destruct Hs as (S1 & S2 & S3 & S4 & _).
  pose proof (blen_nonneg (en_labels e)).
  unfold decode_enum, ENUM_MAX_VALUES, ENUM_LABEL_MAX.
  read_u16_with S1. read_u16_with S2. read_u8_with S3.
  rewrite (proj2 (need_ok buf _)) by lia. cbn [mbind res_bind].
  rewrite (proj2 (collect_Ok _ _ _ (en_labels e))); [by destruct e|].
  split; [unfold blen in *; lia|]. intros i s Hi. rewrite Z.add_0_l.
  apply read_cstr_seg; [|by apply (Forall_lookup_1 _ _ _ _ Hls Hi)].
  eapply seg_at; [eapply (seg_concat _ _ (pad 32) 32); [|exact S4|exact Hi]|lia].
  intros g Hg. rewrite Forall_forall in Hls. apply blen_pad, (Hls g Hg).
Qed.

Lemma index_seg buf off v : seg buf off (le_bytes 1 v) -> in_u 8 v ->
  exists b, @index WireError _ buf off = Ok b /\ byte_z b = v.
Proof.
  intros Hs Hv. pose proof (seg_bounds _ _ _ Hs) as [H0 Hb]. autorewrite with blen in Hb.
  destruct (@index_slice WireError buf off) as (b & Hi & Hsl); [lia|].
  exists b. split; [done|]. rewrite (seg_slice _ _ _ 1 Hs) in Hsl by done.
  cbn [le_bytes] in Hsl. injection Hsl as <-. rewrite byte_z_byte. apply Z.mod_small, Hv.
Qed.

Lemma decode_bitfield_seg buf pos b :
  seg buf pos (encode_bitfield b) -> bitfield_wf b -> decode_bitfield buf pos = Ok b.
Proof.
  intros Hs (Hsi & Hfi & Hl & Hbs). pose proof (encode_bitfield_len b ltac:(by split_and!)) as Hlen.
  pose proof (seg_bounds _ _ _ Hs) as [_ Hb]. rewrite Hlen in Hb.
  pose proof (blen_nonneg (bf_bits b)).
  unfold encode_bitfield in Hs. seg_split Hs. rewrite !blen_zeros in Hs by lia.
  rewrite (concat_len bit_wf (fun x => pad 32 (bd_name x)) 32) in Hs
    by (done || (intros x ((_ & _ & ?) & _); by apply blen_pad)).
  rewrite (concat_len bit_wf (fun x => le_bytes 1 (bd_start x)) 1) in Hs
    by (done || (intros; by rewrite blen_le_bytes)).
  destruct Hs as (S1 & S2 & S3 & S4 & _ & S6 & _ & S8 & _).
  unfold decode_bitfield, BITFIELD_MAX_BITS, BIT_NAME_MAX.
  read_u16_with S1. read_u16_with S2. read_u8_with S3.
  rewrite (proj2 (need_ok buf _)) by lia. cbn [mbind res_bind].
  rewrite (proj2 (collect_Ok _ _ _ (bf_bits b))); [by destruct b|].
  split; [unfold blen in *; lia|]. intros i x Hi. rewrite Z.add_0_l.
  destruct (Forall_lookup_1 _ _ _ _ Hbs Hi) as (Hn & Hst & Hwd).
  rewrite (read_cstr_seg _ _ _ (bd_name x)); [|eapply seg_at;
    [eapply (seg_concat _ _ (fun x => pad 32 (bd_name x)) 32); [|exact S4|exact Hi]|lia]|done].
  2: { intros g Hg. rewrite Forall_forall in Hbs. apply blen_pad, (Hbs g Hg). }
  cbn [mbind res_bind].
  pose proof (seg_concat _ _ (fun x => le_bytes 1 (bd_start x)) 1 _ _ _
    (fun g _ => blen_le_bytes 1 _) S6 Hi) as T1.
  pose proof (seg_concat _ _ (fun x => le_bytes 1 (bd_width x)) 1 _ _ _
    (fun g _ => blen_le_bytes 1 _) S8 Hi) as T2.
  destruct (index_seg _ _ _ (seg_at _ _ (pos + 5 + 32 * 32 + Z.of_nat i) _ T1 ltac:(lia)) Hst)
    as (b1 & -> & E1).
  destruct (index_seg _ _ _ (seg_at _ _ (pos + 5 + 32 * 32 + 32 + Z.of_nat i) _ T2 ltac:(lia)) Hwd)
    as (b2 & -> & E2).
  cbn [mbind res_bind]. rewrite E1, E2. by destruct x.
Qed.

Lemma decode_seq_seg {A} buf (P : A -> Prop) (enc : A -> list byte) (dec : Z -> wire A) size l pos :
  (forall a, P a -> blen (enc a) = size) ->
  (forall p a, seg buf p (enc a) -> P a -> dec p = Ok a) ->
  Forall P l -> seg buf pos (concat (map enc l)) ->
  decode_seq dec size (length l) pos = Ok (l, pos + blen l * size).
Proof.
  intros Hsz Hdec Hl Hs. rewrite decode_seq_collect.
  rewrite (proj2 (collect_Ok _ _ _ l)); [done|]. split; [done|].
  intros i a Hi. rewrite Z.add_0_l. apply Hdec; [|by apply (Forall_lookup_1 _ _ _ _ Hl Hi)].
  eapply seg_concat; [|exact Hs|done]. intros b Hb. apply Hsz. rewrite Forall_forall in Hl. auto.
Qed.

Lemma decode_section_seg {A} buf (P : A -> Prop) (enc : A -> list byte) (dec : Z -> wire A) size l pos :
  (forall a, P a -> blen (enc a) = size) ->
  (forall p a, seg buf p (enc a) -> P a -> dec p = Ok a) ->
  Forall P l -> in_u 16 (blen l) ->
  seg buf pos (le_bytes 2 (blen l)) -> seg buf (pos + 2) (concat (map enc l)) ->
  decode_section buf dec size pos = Ok (l, pos + 2 + blen l * size).
Proof.
  intros Hsz Hdec Hl Hn S1 S2. pose proof (seg_bounds _ _ _ S1) as [_ Hb].
  autorewrite with blen in Hb. unfold decode_section.
  replace (pos + 2 <=? blen buf) with true by lia.
  rewrite (read_u16_seg _ _ _ S1) by done. cbn [mbind res_bind].
  replace (Z.to_nat (blen l)) with (length l) by (unfold blen; lia).
  by eapply decode_seq_seg.
Qed.

Lemma decode_section_absent {A} buf (dec : Z -> wire A) size pos :
  blen buf < pos + 2 -> decode_section buf dec size pos = Ok ([], pos).
Proof. intros. unfold decode_section. by replace (pos + 2 <=? blen buf) with false by lia. Qed.

(** ** Properties *)

(** Decoding an encoded schema, shared with the clients of the decoder. *)
Lemma Schema_decode_encode s : schema_wf s -> Schema_decode (encode_schema s) = Ok s.
Proof.
  intros (Hn & Hen & Hbn & Hes & Hens & Hbs). set (buf := encode_schema s).
  pose proof (seg_self buf) as Hs. unfold buf at 2 in Hs. unfold encode_schema in Hs. seg_split Hs.
  rewrite (concat_len entry_wf encode_schema_entry 1318) in Hs
    by (done || apply encode_schema_entry_len).
  rewrite (concat_len enum_wf encode_enum 2053) in Hs by (done || apply encode_enum_len).
  destruct Hs as (S1 & S2 & S3 & S4 & S5 & S6 & S7). pose proof (blen_nonneg (sc_entries s)).
  unfold Schema_decode, MAX_SCHEMA_ENTRIES. read_u8_with S1. cbn [negb Z.eqb].
  read_u16_with S2. replace (512 <? blen (sc_entries s)) with false by lia.
  replace (Z.to_nat (blen (sc_entries s))) with (length (sc_entries s)) by (unfold blen; lia).
  change SCHEMA_HEADER_SIZE with 3. change SCHEMA_WIRE_SIZE with 1318.
  change ENUM_WIRE_SIZE with 2053. change BITFIELD_WIRE_SIZE with 1093.
  rewrite (decode_seq_seg buf entry_wf encode_schema_entry)
    by (done || apply encode_schema_entry_len || apply decode_schema_entry_seg).
  cbn [mbind res_bind].
  rewrite (decode_section_seg buf enum_wf encode_enum _ _ (sc_enums s))
    by (done || apply encode_enum_len || apply decode_enum_seg).
  cbn [mbind res_bind].
  rewrite (decode_section_seg buf bitfield_wf encode_bitfield _ _ (sc_bitfields s))
    by (done || apply encode_bitfield_len || apply decode_bitfield_seg).
  by destruct s.
Qed.


(** Every schema the decoder accepts is well formed: at most 512 entries of
    at most 16 fields, at most 64 labels and 32 bits per definition, numbers in
    their wire ranges, and every name a NUL-free UTF-8 string within its field
    width. *)
Theorem Schema_decode_wf buf s : Schema_decode buf = Ok s -> schema_wf s.
Proof. apply Schema_decode_Ok_wf. Qed.

(** C8: Decoding inverts the documented blob layout: every well-formed schema,
    encoded as fixed-size zero-padded records, is recovered exactly. *)
Theorem decode_encode_schema s :
  schema_wf s -> Schema_decode (encode_schema s) = Ok s.
Proof. apply Schema_decode_encode. Qed.

(** Blobs without the optional trailing sections (older producers) decode
    to the same entries with no enum and no bitfield definitions. *)
Theorem decode_legacy_schema es :
  blen es <= 512 -> Forall entry_wf es ->
  Schema_decode (le_bytes 1 0 ++ le_bytes 2 (blen es) ++ concat (map encode_schema_entry es)) =
  Ok (mkSchema es [] []).
Proof.
  intros Hn Hes. set (buf := le_bytes 1 0 ++ _).
  assert (Hlen : blen buf = 3 + blen es * 1318).
  { unfold buf. autorewrite with blen.
    rewrite (concat_len entry_wf _ 1318) by (done || apply encode_schema_entry_len). lia. }
  pose proof (seg_self buf) as Hs. unfold buf at 2 in Hs. seg_split Hs.
  destruct Hs as (S1 & S2 & S3). pose proof (blen_nonneg es).
  unfold Schema_decode, MAX_SCHEMA_ENTRIES. read_u8_with S1. cbn [negb Z.eqb].
  read_u16_with S2. replace (512 <? blen es) with false by lia.
  replace (Z.to_nat (blen es)) with (length es) by (unfold blen; lia).
  change SCHEMA_HEADER_SIZE with 3. change SCHEMA_WIRE_SIZE with 1318.
  rewrite (decode_seq_seg buf entry_wf encode_schema_entry)
    by (done || apply encode_schema_entry_len || apply decode_schema_entry_seg).
  cbn [mbind res_bind]. rewrite decode_section_absent by lia. cbn [mbind res_bind].
  rewrite decode_section_absent by lia. done.
Qed.

Definition demo_schema : Schema :=
  mkSchema
    [mkSchemaEntry 1 (str "flags") (str "Status flags") 5
       [mkFieldDef (str "f") 0 4 Bitfield 1; mkFieldDef (str "mode") 4 1 Enum 1]]
    [mkEnumDef 1 1 [str "idle"; str "run"; str "fault"]]
    [mkBitfieldDef 1 0 [mkBitDef (str "a") 0 1; mkBitDef (str "b") 3 2]].

Definition cstr_okb (max : Z) (s : text) : bool :=
  utf8_valid s && negb (bool_decide (x00 ∈ s)) && (blen s <=? max).
Lemma cstr_okb_spec max s : cstr_okb max s = true -> cstr_ok max s.
Proof.
  unfold cstr_okb, cstr_ok. intros [[H1 H2]%andb_true_iff H3]%andb_true_iff.
  split_and!; [done| |lia]. intros H. by rewrite bool_decide_eq_true_2 in H2.
Qed.

Ltac wf_tac :=
  repeat first
    [ progress cbv beta iota delta
        [schema_wf entry_wf field_wf enum_wf bitfield_wf bit_wf sc_entries sc_enums sc_bitfields
         se_id se_name se_description se_payload_size se_fields fd_name fd_offset fd_size fd_count
         en_schema_id en_field_index en_labels bf_schema_id bf_field_index bf_bits
         bd_name bd_start bd_width]
    | match goal with
      | |- _ /\ _ => split
      | |- Forall _ (_ :: _) => apply Forall_cons
      | |- Forall _ [] => apply Forall_nil; exact I
      | |- cstr_ok _ _ => apply cstr_okb_spec; vm_compute; reflexivity
      | |- in_u _ _ => apply in_ub_spec; vm_compute; reflexivity
      | |- _ <= _ => vm_compute; discriminate
      end ].

Lemma demo_schema_wf : schema_wf demo_schema.
Proof. unfold demo_schema. wf_tac. Qed.

Lemma Schema_decode_wf_witness :
  Schema_decode (encode_schema demo_schema) = Ok demo_schema /\ schema_wf demo_schema.
Proof.
  split; [vm_compute; reflexivity|].
  apply (Schema_decode_wf (encode_schema demo_schema)). vm_compute. reflexivity.
Defined.

Lemma decode_encode_schema_witness :
  Schema_decode (encode_schema demo_schema) = Ok demo_schema.
Proof. apply decode_encode_schema. exact demo_schema_wf. Defined.

Lemma decode_legacy_schema_witness :
  Schema_decode (le_bytes 1 0 ++ le_bytes 2 1 ++
                 concat (map encode_schema_entry (sc_entries demo_schema))) =
  Ok (mkSchema (sc_entries demo_schema) [] []).
Proof.
  apply (decode_legacy_schema (sc_entries demo_schema)).
  - vm_compute. discriminate.
  - exact (proj1 (proj2 (proj2 (proj2 demo_schema_wf)))).
Defined.
