(* ===== verification/WireValue.v ===== *)
(** * btelem-wire: field-value extraction

    Models viewer/crates/btelem-wire/src/value.rs.  A field type, an offset and
    a size come from the schema the peer announced; the payload from a packet.
    Indexing an empty slice panics, a width mismatch yields [None]. *)

From Stdlib Require Import SpecFloat.
From S2P Require Import Prelude Text Float64 Wire WireSchema.

(** [uN::from_le_bytes(s.try_into().ok()?)]: [None] unless [s] has [n] bytes. *)
Definition le_exact (n : nat) (s : list byte) : option Z :=
  if decide (length s = n) then Some (le_u s) else None.

(** [s[0]]. *)
Definition first_byte (s : list byte) : total Z := b ← index s 0; mret (byte_z b).

Definition field_as_f64 (field : FieldDef) (payload : list byte) : total (option f64) :=
  if negb (fd_count field =? 1) then mret None
  else
    let off := fd_offset field in
    let size := fd_size field in
    if blen payload <? off + size then mret None
    else
      s ← subslice payload off size;
      match fd_ty field with
      | U8 => v ← first_byte s; mret (Some (f64_of_Z v))
      | U16 => mret (f64_of_Z <$> le_exact 2 s)
      | U32 => mret (f64_of_Z <$> le_exact 4 s)
      | U64 => mret (f64_of_Z <$> le_exact 8 s)
      | I8 => v ← first_byte s; mret (Some (f64_of_Z (to_signed 8 v)))
      | I16 => mret ((fun v => f64_of_Z (to_signed 16 v)) <$> le_exact 2 s)
      | I32 => mret ((fun v => f64_of_Z (to_signed 32 v)) <$> le_exact 4 s)
      | I64 => mret ((fun v => f64_of_Z (to_signed 64 v)) <$> le_exact 8 s)
      | F32 => mret ((fun v => f64_of_f32 (f32_of_bits v)) <$> le_exact 4 s)
      | F64 => mret (f64_of_bits <$> le_exact 8 s)
      | Bool => v ← first_byte s; mret (Some (f64_of_Z (if v =? 0 then 0 else 1)))
      | Enum => v ← first_byte s; mret (Some (f64_of_Z v))
      | Bytes | Bitfield | String_ => mret None
      end.

Definition field_as_string (field : FieldDef) (payload : list byte) : option text :=
  if bool_decide (fd_ty field <> String_) then None
  else
    let off := fd_offset field in
    let size := fd_size field in
    if blen payload <? off + size then None
    else
      let raw := slice payload off size in
      Some (from_utf8_lossy (take (cstr_end raw) raw)).

(** ** Facts *)
Definition one_byte_type (t : FieldType) : bool :=
  match t with U8 | I8 | Bool | Enum => true | _ => false end.

(** The number of payload bytes a scalar of the type occupies. *)
Definition scalar_width (t : FieldType) : option nat :=
  match t with
  | U8 | I8 | Bool | Enum => Some 1%nat
  | U16 | I16 => Some 2%nat
  | U32 | I32 | F32 => Some 4%nat
  | U64 | I64 | F64 => Some 8%nat
  | Bytes | Bitfield | String_ => None
  end.

(** The number a scalar's bytes denote. *)
Definition scalar_value (t : FieldType) (s : list byte) : option f64 :=
  let v := le_u s in
  match t with
  | U8 | U16 | U32 | U64 | Enum => Some (f64_of_Z v)
  | I8 => Some (f64_of_Z (to_signed 8 v))
  | I16 => Some (f64_of_Z (to_signed 16 v))
  | I32 => Some (f64_of_Z (to_signed 32 v))
  | I64 => Some (f64_of_Z (to_signed 64 v))
  | F32 => Some (f64_of_f32 (f32_of_bits v))
  | F64 => Some (f64_of_bits v)
  | Bool => Some (f64_of_Z (if v =? 0 then 0 else 1))
  | Bytes | Bitfield | String_ => None
  end.

Lemma first_byte_one s : length s = 1%nat -> first_byte s = Ok (le_u s).
Proof. destruct s as [|b [|? ?]]; try done. intros _. cbn. by rewrite Z.add_0_r. Qed.

Lemma first_byte_cons b s : first_byte (b :: s) = Ok (byte_z b).
Proof. done. Qed.

Lemma le_exact_some n s : length s = n -> le_exact n s = Some (le_u s).
Proof. intros H. unfold le_exact. by rewrite decide_True. Qed.

Lemma field_as_f64_scalar f payload w :
  scalar_width (fd_ty f) = Some w -> fd_size f = Z.of_nat w -> fd_count f = 1 ->
  in_u 16 (fd_offset f) -> fd_offset f + fd_size f <= blen payload ->
  field_as_f64 f payload =
  Ok (scalar_value (fd_ty f) (slice payload (fd_offset f) (fd_size f))).
Proof.
  intros Hw Hsz Hc Ho Hb. unfold in_u in Ho. unfold field_as_f64. rewrite Hc. cbn [negb Z.eqb Pos.eqb].
  replace (blen payload <? fd_offset f + fd_size f) with false by lia.
  unfold subslice. replace (_ <=? _) with true by lia. cbn [mbind res_bind].
  pose proof (length_slice payload (fd_offset f) (fd_size f) ltac:(lia) ltac:(lia) Hb) as Hl.
  set (s := slice _ _ _) in *. assert (Hls : length s = w) by (unfold blen in Hl; lia).
  destruct (fd_ty f); cbn in Hw; simplify_eq;
    rewrite ?first_byte_one, ?le_exact_some by done; reflexivity.
Qed.

(** ** Properties *)


(** [field_as_f64] panics in exactly one situation: a one-byte type
    (U8, I8, Bool, Enum) announced with size 0, read from a payload that
    reaches its offset.  Every other input yields a value or [None]. *)
Theorem field_as_f64_panics_iff f payload :
  in_u 16 (fd_offset f) -> in_u 16 (fd_size f) ->
  field_as_f64 f payload = Panic <->
  fd_count f = 1 /\ one_byte_type (fd_ty f) = true /\ fd_size f = 0 /\
  fd_offset f <= blen payload.
Proof.
  intros Ho Hs. unfold in_u in *. unfold field_as_f64.
  destruct (fd_count f =? 1) eqn:Ec; cbn [negb]; [|split; [done|lia]].
  destruct (blen payload <? fd_offset f + fd_size f) eqn:El; [split; [done|lia]|].
  unfold subslice. replace (_ <=? _) with true by lia. cbn [mbind res_bind].
  pose proof (length_slice payload (fd_offset f) (fd_size f) ltac:(lia) ltac:(lia) ltac:(lia)) as Hl.
  set (s := slice _ _ _) in *. destruct s as [|b s'].
  - change (blen []) with 0 in Hl. destruct (fd_ty f); cbn; split; try done; intros; lia.
  - rewrite blen_cons in Hl. pose proof (blen_nonneg s').
    destruct (fd_ty f); rewrite ?first_byte_cons; cbn [mbind res_bind];
      (split; [done|intros (_ & _ & ? & _); lia]).
Qed.

(** Text the producer wrote into a text field as a NUL-padded well-formed
    UTF-8 string (a NUL-free string of at most the field's size) is recovered
    exactly, wherever the field lies in the payload. *)
Theorem field_as_string_padded f payload s :
  fd_ty f = String_ -> cstr_ok (fd_size f) s ->
  seg payload (fd_offset f) (pad (fd_size f) s) ->
  field_as_string f payload = Some s.
Proof.
  intros Ht (Hu & Hz & Hl) Hs. unfold field_as_string. rewrite Ht.
  rewrite bool_decide_eq_false_2 by (intros H; by apply H).
  pose proof (seg_bounds _ _ _ Hs) as [H0 Hb]. rewrite blen_pad in Hb by done.
  replace (blen payload <? fd_offset f + fd_size f) with false by lia.
  rewrite (seg_slice _ _ _ _ Hs) by (by rewrite blen_pad).
  rewrite cstr_end_pad by done. by rewrite from_utf8_lossy_valid.
Qed.


(** A [u8] field of size 0 panics on any packet of the entry. *)
Lemma field_as_f64_panics_iff_witness :
  field_as_f64 (mkFieldDef (str "t") 0 0 U8 1) [x01] = Panic.
Proof.
  apply (field_as_f64_panics_iff (mkFieldDef (str "t") 0 0 U8 1) [x01]).
  - apply in_ub_spec; reflexivity.
  - apply in_ub_spec; reflexivity.
  - repeat split; vm_compute; discriminate.
Defined.

Lemma field_as_string_padded_witness :
  field_as_string (mkFieldDef (str "msg") 1 8 String_ 1) (x07 :: pad 8 (str "boot")) =
  Some (str "boot").
Proof.
  apply (field_as_string_padded (mkFieldDef (str "msg") 1 8 String_ 1)).
  - reflexivity.
  - apply cstr_okb_spec. vm_compute. reflexivity.
  - exists [x07], []. rewrite app_nil_r. split; reflexivity.
Defined.
