(* ===== verification/Store.v ===== *)
(** * btelem-store: the contract between viewer and data source

    Models viewer/crates/btelem-store/src/lib.rs: channel descriptions, query
    results and the [Store] trait.  The trait is the class [Store]; its provided
    methods are definitions over the class, which an implementation may take or
    override.  [StoreLaws] states what the documentation of the trait promises
    its callers; MockStore.v discharges it. *)

From S2P Require Import Prelude Slices Text Float64.

(** ** Data *)
Abbreviation ChannelId := Z.
Abbreviation Timestamp := Z.

Inductive ChannelKind :=
| Scalar
| State (labels : list text)
| Text.

Record ChannelInfo := mkChannelInfo {
  ci_id : ChannelId;
  ci_path : text;
  ci_kind : ChannelKind;
  ci_integer_storage : bool;
}.

Record Bucket := mkBucket { bk_t : Timestamp; bk_min : f64; bk_max : f64 }.

Record StateRun := mkStateRun { t_start : Timestamp; t_end : Timestamp; run_value : Z }.

#[global] Instance ChannelKind_eq_dec : EqDecision ChannelKind.
Proof. solve_decision. Defined.
#[global] Instance ChannelInfo_eq_dec : EqDecision ChannelInfo.
Proof. solve_decision. Defined.
#[global] Instance Bucket_eq_dec : EqDecision Bucket.
Proof. solve_decision. Defined.
#[global] Instance StateRun_eq_dec : EqDecision StateRun.
Proof. solve_decision. Defined.

(** ** The trait: its methods, over the state [S] behind the lock *)
Class Store (S : Type) := {
  channels : S -> list ChannelInfo;
  time_bounds : S -> option (Timestamp * Timestamp);
  revision : S -> Z;
  query_scalar : S -> ChannelId -> Timestamp -> Timestamp -> nat -> total (list Bucket);
  query_state : S -> ChannelId -> Timestamp -> Timestamp -> total (list StateRun);
  sample_at : S -> ChannelId -> Timestamp -> total (option f64);
  sample_count : S -> ChannelId -> Z;
  clear : S -> S;
  query_raw : S -> ChannelId -> Timestamp -> Timestamp -> nat -> total (list (Timestamp * f64));
  query_text : S -> ChannelId -> Timestamp -> Timestamp -> nat -> total (list (Timestamp * text));
}.

Definition sat_add (w a b : Z) : Z := Z.min (a + b) (2 ^ w - 1).
Definition sat_sub (a b : Z) : Z := Z.max (a - b) 0.

(** ** Provided methods *)
Section provided.
Context {S : Type} (scalar : S -> ChannelId -> Timestamp -> Timestamp -> nat -> total (list Bucket)).

(** The trait's own [query_raw], for a store that does not override it. *)
Definition default_query_raw (s : S) (ch t0 t1 : Z) (max_samples : nat)
  : total (list (Timestamp * f64)) :=
  bs ← scalar s ch t0 t1 max_samples;
  mret (map (fun b => (bk_t b, bk_max b)) bs).

Definition default_query_text (s : S) (ch t0 t1 : Z) (max_samples : nat)
  : total (list (Timestamp * text)) := mret [].
End provided.

Definition value_bounds {S} `{Store S} (s : S) (ch : ChannelId) : total (option (f64 * f64)) :=
  match time_bounds s with
  | None => mret None
  | Some (t0, t1) =>
    let t1 := sat_add 64 t1 1 in
    bs ← query_scalar s ch t0 t1 1;
    match bs with
    | b :: _ => mret (Some (bk_min b, bk_max b))
    | [] =>
      runs ← query_state s ch t0 t1;
      match runs with
      | [] => mret None
      | _ =>
        let '(lo, hi) := foldl (fun '(lo, hi) r => (Z.min lo (run_value r), Z.max hi (run_value r)))
                           (2 ^ 32 - 1, 0) runs in
        mret (Some (f64_of_Z lo, f64_of_Z hi))
      end
    end
  end.

(** Consecutive runs of a queried state channel: in order, each one ending where
    the next starts, all starting before [t1]. *)
Record runs_view (t1 : Z) (rs : list StateRun) : Prop := {
  rv_sorted : sorted_by t_start rs;
  rv_range : Forall (fun r => 0 <= t_start r < t1 /\ t_start r <= t_end r <= u64_max /\ in_u 32 (run_value r)) rs;
  rv_link : forall i r q, rs !! i = Some r -> rs !! S i = Some q -> t_end r = t_start q;
}.

Definition is_state {S} `{Store S} (s : S) (ch : ChannelId) : Prop :=
  exists labels info, channels s !! Z.to_nat ch = Some info /\ ci_kind info = State labels.

(** ** What the trait promises

    [wf] are the states the store's owner can bring about; the laws are the
    documented guarantees of the query methods. *)
Class StoreLaws (S : Type) `{Store S} (wf : S -> Prop) := {
  law_time_bounds : forall s t0 t1, wf s -> time_bounds s = Some (t0, t1) ->
    0 <= t0 <= t1 /\ t1 < 2 ^ 64;
  (** Queries on a well-formed store return. *)
  law_scalar_total : forall s ch t0 t1 n, wf s -> in_u 64 t0 -> in_u 64 t1 ->
    exists bs, query_scalar s ch t0 t1 n = Ok bs;
  (** Buckets lie in [t0, t1) in ascending order of time. *)
  law_scalar_window : forall s ch t0 t1 n bs, wf s -> in_u 64 t0 -> in_u 64 t1 -> query_scalar s ch t0 t1 n = Ok bs ->
    sorted_by bk_t bs /\ Forall (fun b => t0 <= bk_t b < t1) bs;
  law_state_total : forall s ch t0 t1, wf s -> exists rs, query_state s ch t0 t1 = Ok rs;
  (** Runs start before [t1], in ascending order, without gaps. *)
  law_state_window : forall s ch t0 t1 rs, wf s -> query_state s ch t0 t1 = Ok rs -> runs_view t1 rs;
  law_sample_total : forall s ch t, wf s -> exists v, sample_at s ch t = Ok v;
  (** A sample is defined wherever a queried run covers the time. *)
  law_state_sample : forall s ch t0 t1 rs r t, wf s -> query_state s ch t0 t1 = Ok rs ->
    r ∈ rs -> t0 <= t < t1 -> in_u 64 t1 -> t_start r <= t < t_end r -> is_state s ch ->
    sample_at s ch t = Ok (Some (f64_of_Z (run_value r)));
  (** And wherever a sample is defined in the window, a queried run covers it. *)
  law_state_covers : forall s ch t0 t1 rs t v, wf s -> query_state s ch t0 t1 = Ok rs ->
    t0 <= t < t1 -> in_u 64 t1 -> is_state s ch -> sample_at s ch t = Ok (Some v) ->
    exists r, r ∈ rs /\ t_start r <= t < t_end r;
  (** Raw and text queries return, stay in range, in order and within the budget. *)
  law_raw_total : forall s ch t0 t1 n, wf s -> exists l, query_raw s ch t0 t1 n = Ok l;
  law_text_total : forall s ch t0 t1 n, wf s -> exists l, query_text s ch t0 t1 n = Ok l;
  law_raw_window : forall s ch t0 t1 n l, wf s -> query_raw s ch t0 t1 n = Ok l ->
    (length l <= n)%nat /\ sorted_by fst l /\ Forall (fun x => t0 <= x.1 < t1) l;
  law_text_window : forall s ch t0 t1 n l, wf s -> query_text s ch t0 t1 n = Ok l ->
    (length l <= n)%nat /\ sorted_by fst l /\ Forall (fun x => t0 <= x.1 < t1) l;
  law_clear_wf : forall s, wf s -> wf (clear s);
  law_clear_empty : forall s, channels (clear s) = [] /\ time_bounds (clear s) = None;
}.

(** [value_bounds] never panics on a lawful store. *)
Lemma value_bounds_total {S} `{StoreLaws S wf} s ch :
  wf s -> exists v, value_bounds s ch = Ok v.
Proof.
  intros Hs. unfold value_bounds.
  destruct (time_bounds s) as [[t0 t1]|] eqn:E; [|by eexists].
  apply law_time_bounds in E as [[? ?] ?]; [|done]. cbv zeta.
  destruct (law_scalar_total s ch t0 (sat_add 64 t1 1) 1 Hs) as [bs ->];
    [unfold in_u; lia|unfold in_u, sat_add; lia|].
  cbn [mbind res_bind]. destruct bs as [|b bs]; [|by eexists].
  destruct (law_state_total s ch t0 (sat_add 64 t1 1) Hs) as [rs ->].
  cbn [mbind res_bind]. destruct rs; [by eexists|].
  destruct (foldl _ _ _). by eexists.
Qed.

(** The bounds of a state channel enclose every value held in the store's time
    range and are attained. *)
Lemma fold_bounds rs lo hi :
  let '(lo', hi') := foldl (fun '(lo, hi) r => (Z.min lo (run_value r), Z.max hi (run_value r)))
                       (lo, hi) rs in
  lo' <= lo /\ hi <= hi' /\ Forall (fun r => lo' <= run_value r <= hi') rs /\
  (lo' = lo \/ exists r, r ∈ rs /\ run_value r = lo') /\
  (hi' = hi \/ exists r, r ∈ rs /\ run_value r = hi').
Proof.
  revert lo hi. induction rs as [|r rs IH]; intros lo hi; cbn [foldl].
  - split_and!; try lia. constructor.
  - specialize (IH (Z.min lo (run_value r)) (Z.max hi (run_value r))).
    destruct (foldl _ _ _) as [lo' hi']. destruct IH as (H1 & H2 & H3 & H4 & H5).
    split_and!; try lia.
    + constructor; [lia|done].
    + destruct H4 as [E|(q & Hq & E)].
      * destruct (Z.min_spec lo (run_value r)) as [[_ F]|[_ F]]; rewrite F in E; [by left|].
        right. exists r. rewrite elem_of_cons. auto.
      * right. exists q. rewrite elem_of_cons. auto.
    + destruct H5 as [E|(q & Hq & E)].
      * destruct (Z.max_spec hi (run_value r)) as [[_ F]|[_ F]]; rewrite F in E; [|by left].
        right. exists r. rewrite elem_of_cons. auto.
      * right. exists q. rewrite elem_of_cons. auto.
Qed.
