(* ===== verification/MockStore.v ===== *)
(** * btelem-store: the in-memory store

    Models viewer/crates/btelem-store/src/mock.rs.  [Inner] is the state behind
    the [RwLock]; a method that takes the write lock is a function on [Inner],
    one that takes the read lock is a query.  The lock serialises the calls, so
    a history of the store is a sequence of operations ([reachable]).  [ch as
    usize] indexes the per-channel vectors; [usize] counts are [nat]. *)

From Stdlib Require Import SpecFloat.
From S2P Require Import Prelude Slices Text Float64 Store.

(** ** State *)
Record Inner := mkInner {
  in_channels : list ChannelInfo;
  in_scalars : list (list (Timestamp * f64));
  in_states : list (list StateRun);
  in_texts : list (list (Timestamp * text));
  in_revision : Z;
  word_to_bits : gmap Z (list ChannelId);
}.

Definition MockStore_new : Inner := mkInner [] [] [] [] 0 ∅.

(** ** Registration *)
Section mock.
Context (p : profile).

(** The shared tail of the registration methods: push the description and an
    empty buffer per kind, bump the revision. *)
Definition add_channel (s : Inner) (path : text) (kind : ChannelKind) (integer_storage : bool)
  : total (Inner * ChannelId) :=
  let id := wrap 32 (blen (in_channels s)) in
  rev ← arith p 64 (in_revision s + 1);
  mret (mkInner (in_channels s ++ [mkChannelInfo id path kind integer_storage])
          (in_scalars s ++ [[]]) (in_states s ++ [[]]) (in_texts s ++ [[]])
          rev (word_to_bits s), id).

Definition add_scalar_with s path integer_storage := add_channel s path Scalar integer_storage.
Definition add_scalar s path := add_scalar_with s path false.
Definition add_scalar_int s path := add_scalar_with s path true.
Definition add_state s path labels := add_channel s path (State labels) true.
Definition add_text s path := add_channel s path Text false.

Definition register_word_bits (s : Inner) (word : ChannelId) (bits : list ChannelId) : Inner :=
  mkInner (in_channels s) (in_scalars s) (in_states s) (in_texts s) (in_revision s)
    (<[word := bits]> (word_to_bits s)).

Definition bits_for_word (s : Inner) (word : ChannelId) : option (list ChannelId) :=
  word_to_bits s !! word.

(** ** Ingest *)
Definition push_scalar (s : Inner) (ch t : Z) (v : f64) : total Inner :=
  match in_scalars s !! Z.to_nat ch with
  | None => mret s
  | Some buf =>
    rev ← arith p 64 (in_revision s + 1);
    mret (mkInner (in_channels s) (<[Z.to_nat ch := buf ++ [(t, v)]]> (in_scalars s))
            (in_states s) (in_texts s) rev (word_to_bits s))
  end.

(** [last_mut] of the runs is extended or closed; a new value opens a run. *)
Definition push_run (runs : list StateRun) (t value : Z) : list StateRun :=
  match last runs with
  | Some r =>
    let closed := take (pred (length runs)) runs ++ [mkStateRun (t_start r) t (run_value r)] in
    if run_value r =? value then closed else closed ++ [mkStateRun t t value]
  | None => runs ++ [mkStateRun t t value]
  end.

Definition push_state (s : Inner) (ch t value : Z) : total Inner :=
  match in_states s !! Z.to_nat ch with
  | None => mret s
  | Some runs =>
    rev ← arith p 64 (in_revision s + 1);
    mret (mkInner (in_channels s) (in_scalars s)
            (<[Z.to_nat ch := push_run runs t value]> (in_states s))
            (in_texts s) rev (word_to_bits s))
  end.

Definition push_text (s : Inner) (ch t : Z) (value : text) : total Inner :=
  match in_texts s !! Z.to_nat ch with
  | None => mret s
  | Some buf =>
    rev ← arith p 64 (in_revision s + 1);
    mret (mkInner (in_channels s) (in_scalars s) (in_states s)
            (<[Z.to_nat ch := buf ++ [(t, value)]]> (in_texts s)) rev (word_to_bits s))
  end.

Definition mock_clear (s : Inner) : Inner :=
  mkInner [] [] [] [] (wrap 64 (in_revision s + 1)) ∅.

(** ** Queries *)

(** One vector's contribution to the running bounds: its first and last time. *)
Definition widen {A} (lo hi : A -> Z) (acc : option Z * option Z) (v : list A)
  : option Z * option Z :=
  match head v, last v with
  | Some a, Some b =>
    (Some (match acc.1 with None => lo a | Some m => Z.min m (lo a) end),
     Some (match acc.2 with None => hi b | Some m => Z.max m (hi b) end))
  | _, _ => acc
  end.

Definition mock_time_bounds (s : Inner) : option (Timestamp * Timestamp) :=
  let acc := foldl (widen fst fst) (None, None) (in_scalars s) in
  let acc := foldl (widen t_start t_end) acc (in_states s) in
  let acc := foldl (widen fst fst) acc (in_texts s) in
  match acc with (Some lo, Some hi) => Some (lo, hi) | _ => None end.

(** The down-sampling loop: a sample in the current bucket widens it, a sample
    of another bucket flushes it. *)
Fixpoint bucket_loop (t0 : Z) (bw : f64) (cur_idx : Z) (cur : Bucket) (out : list Bucket)
    (l : list (Timestamp * f64)) : total (list Bucket) :=
  match l with
  | [] => mret (if 0 <=? cur_idx then out ++ [cur] else out)
  | (t, v) :: l =>
    d ← arith p 64 (t - t0);
    let idx := f64_to_i64 (f64_floor (f64_div (f64_of_Z d) bw)) in
    if negb (idx =? cur_idx) then
      bucket_loop t0 bw idx (mkBucket t v v) (if 0 <=? cur_idx then out ++ [cur] else out) l
    else
      bucket_loop t0 bw cur_idx
        (mkBucket (bk_t cur) (f64_min (bk_min cur) v) (f64_max (bk_max cur) v)) out l
  end.

Definition mock_query_scalar (s : Inner) (ch t0 t1 : Z) (max_buckets : nat) : total (list Bucket) :=
  if (max_buckets =? 0)%nat || (t1 <=? t0) then mret []
  else match in_scalars s !! Z.to_nat ch with
  | None => mret []
  | Some samples =>
    in_range ← time_window fst samples t0 t1;
    if bool_decide (in_range = []) then mret []
    else if (length in_range <=? max_buckets)%nat then
      mret (map (fun '(t, v) => mkBucket t v v) in_range)
    else
      d ← arith p 64 (t1 - t0);
      let span := f64_of_Z d in
      let bw := f64_div span (f64_of_Z (Z.of_nat max_buckets)) in
      bucket_loop t0 bw (-1) (mkBucket 0 (S754_infinity false) (S754_infinity true)) [] in_range
  end.

(** The shared shape of [query_raw] and [query_text]: the samples of the time
    range, decimated with a constant stride when they exceed the budget. *)
Definition query_strided {A} (vecs : list (list (Timestamp * A))) (ch t0 t1 : Z) (max_samples : nat)
  : total (list (Timestamp * A)) :=
  if (max_samples =? 0)%nat || (t1 <=? t0) then mret []
  else match vecs !! Z.to_nat ch with
  | None => mret []
  | Some samples =>
    in_range ← time_window fst samples t0 t1;
    if (length in_range <=? max_samples)%nat then mret in_range
    else
      let stride := Nat.max (div_ceil (length in_range) max_samples) 1 in
      mret (step_by stride in_range)
  end.

Definition mock_query_raw (s : Inner) := query_strided (in_scalars s).
Definition mock_query_text (s : Inner) := query_strided (in_texts s).

Definition mock_query_state (s : Inner) (ch t0 t1 : Z) : total (list StateRun) :=
  match in_states s !! Z.to_nat ch with
  | None => mret []
  | Some runs =>
    if bool_decide (runs = []) then mret []
    else
      let last_idx := (length runs - 1)%nat in
      let start := if (last_idx =? 0)%nat then 0%nat
                   else partition_point (fun r => t_end r <=? t0) (take last_idx runs) in
      mret (imap (fun i r =>
              mkStateRun (t_start r)
                (if (start + i =? last_idx)%nat then u64_max else t_end r) (run_value r))
            (take_while (fun r => t_start r <? t1) (drop start runs)))
  end.

Definition mock_sample_at (s : Inner) (ch t : Z) : total (option f64) :=
  match in_channels s !! Z.to_nat ch with
  | None => mret None
  | Some info =>
    match ci_kind info with
    | Scalar =>
      samples ← index (in_scalars s) ch;
      if bool_decide (samples = []) then mret None
      else match search_key fst t samples with
      | inl i => x ← index samples (Z.of_nat i); mret (Some x.2)
      | inr i =>
        if (i =? 0)%nat || (i =? length samples)%nat then mret None
        else
          a ← index samples (Z.of_nat i - 1);
          b ← index samples (Z.of_nat i);
          num ← arith p 64 (t - a.1);
          den ← arith p 64 (b.1 - a.1);
          let frac := f64_div (f64_of_Z num) (f64_of_Z den) in
          mret (Some (f64_add a.2 (f64_mul frac (f64_sub b.2 a.2))))
      end
    | State _ =>
      runs ← index (in_states s) ch;
      if bool_decide (runs = []) then mret None
      else
        let last_idx := (length runs - 1)%nat in
        let idx := partition_point (fun r => t_start r <=? t) runs in
        if (idx =? 0)%nat then mret None
        else
          let i := (idx - 1)%nat in
          r ← index runs (Z.of_nat i);
          let effective_end := if (i =? last_idx)%nat then u64_max else t_end r in
          mret (if t <? effective_end then Some (f64_of_Z (run_value r)) else None)
    | Text => mret None
    end
  end.

Definition mock_sample_count (s : Inner) (ch : Z) : Z :=
  match in_channels s !! Z.to_nat ch with
  | None => 0
  | Some info =>
    match ci_kind info with
    | Scalar => default 0 (blen <$> in_scalars s !! Z.to_nat ch)
    | State _ => default 0 (blen <$> in_states s !! Z.to_nat ch)
    | Text => default 0 (blen <$> in_texts s !! Z.to_nat ch)
    end
  end.

#[global] Instance mock_store : Store Inner := {|
  channels := in_channels;
  time_bounds := mock_time_bounds;
  revision := in_revision;
  query_scalar := mock_query_scalar;
  query_state := mock_query_state;
  sample_at := mock_sample_at;
  sample_count := mock_sample_count;
  clear := mock_clear;
  query_raw := mock_query_raw;
  query_text := mock_query_text;
|}.

(** ** Histories *)

(** The operations of the store's owner (ingest and viewer). *)
Inductive op :=
| AddScalar (path : text)
| AddScalarInt (path : text)
| AddState (path : text) (labels : list text)
| AddText (path : text)
| RegisterWordBits (word : ChannelId) (bits : list ChannelId)
| PushScalar (ch t : Z) (v : f64)
| PushState (ch t value : Z)
| PushText (ch t : Z) (value : text)
| Clear.

Definition run_op (s : Inner) (o : op) : total Inner :=
  match o with
  | AddScalar path => r ← add_scalar s path; mret r.1
  | AddScalarInt path => r ← add_scalar_int s path; mret r.1
  | AddState path labels => r ← add_state s path labels; mret r.1
  | AddText path => r ← add_text s path; mret r.1
  | RegisterWordBits word bits => mret (register_word_bits s word bits)
  | PushScalar ch t v => push_scalar s ch t v
  | PushState ch t value => push_state s ch t value
  | PushText ch t value => push_text s ch t value
  | Clear => mret (mock_clear s)
  end.

(** The callers' side of the contract: "timestamps must be non-decreasing per
    channel", and arguments are machine integers. *)
Definition after {A} (time : A -> Z) (v : option (list A)) (t : Z) : Prop :=
  in_u 64 t /\ forall buf x, v = Some buf -> last buf = Some x -> time x <= t.

Definition admissible (s : Inner) (o : op) : Prop :=
  match o with
  | PushScalar ch t _ => after fst (in_scalars s !! Z.to_nat ch) t
  | PushState ch t value => after t_end (in_states s !! Z.to_nat ch) t /\ in_u 32 value
  | PushText ch t _ => after fst (in_texts s !! Z.to_nat ch) t
  | _ => True
  end.

Inductive reachable : Inner -> Prop :=
| reach_new : reachable MockStore_new
| reach_op s o s' : reachable s -> admissible s o -> run_op s o = Ok s' -> reachable s'.
End mock.

(** ** The representation invariant *)

(** Runs of one channel: each starts where its predecessor ends, no two
    neighbours hold the same value, and all numbers are in range. *)
Record runs_ok (runs : list StateRun) : Prop := {
  runs_range : Forall (fun r => 0 <= t_start r <= t_end r /\ t_end r < 2 ^ 64 /\
                                in_u 32 (run_value r)) runs;
  runs_link : forall i r q, runs !! i = Some r -> runs !! S i = Some q ->
    t_end r = t_start q /\ run_value r <> run_value q;
}.

(** Samples of one channel: non-decreasing machine timestamps. *)
Record samples_ok {A} (v : list (Timestamp * A)) : Prop := {
  samples_sorted : sorted_by fst v;
  samples_range : Forall (fun x => in_u 64 x.1) v;
}.

Record mock_wf (s : Inner) : Prop := {
  wf_scalars_len : length (in_scalars s) = length (in_channels s);
  wf_states_len : length (in_states s) = length (in_channels s);
  wf_texts_len : length (in_texts s) = length (in_channels s);
  wf_ids : forall i info, in_channels s !! i = Some info -> ci_id info = wrap 32 (Z.of_nat i);
  wf_revision : in_u 64 (in_revision s);
  wf_scalars : Forall samples_ok (in_scalars s);
  wf_states : Forall runs_ok (in_states s);
  wf_texts : Forall samples_ok (in_texts s);
}.

Lemma samples_ok_nil A : samples_ok (A := A) [].
Proof. split; [apply sorted_by_nil|constructor]. Qed.

Lemma runs_ok_nil : runs_ok [].
Proof. split; [constructor|]. intros i r q H. by rewrite lookup_nil in H. Qed.
#[export] Hint Resolve samples_ok_nil runs_ok_nil : core.

Lemma samples_ok_snoc {A} (v : list (Timestamp * A)) t x :
  samples_ok v -> in_u 64 t -> (forall y, last v = Some y -> y.1 <= t) ->
  samples_ok (v ++ [(t, x)]).
Proof.
  intros [Hs Hr] Ht Hl. split; [by apply sorted_by_snoc|].
  apply Forall_app. split; [done|]. by constructor.
Qed.

(** The two shapes of a coalescing push. *)
Lemma push_run_last k r t v :
  push_run (k ++ [r]) t v =
  if run_value r =? v then k ++ [mkStateRun (t_start r) t (run_value r)]
  else k ++ [mkStateRun (t_start r) t (run_value r); mkStateRun t t v].
Proof.
  unfold push_run. rewrite last_snoc, length_app. cbn [length].
  replace (pred (length k + 1)) with (length k) by lia. rewrite take_app_length.
  destruct (_ =? _); [done|]. by rewrite <-app_assoc.
Qed.

Lemma runs_ok_app k r :
  runs_ok (k ++ [r]) <->
  runs_ok k /\ 0 <= t_start r <= t_end r /\ t_end r < 2 ^ 64 /\ in_u 32 (run_value r) /\
  (forall q, last k = Some q -> t_end q = t_start r /\ run_value q <> run_value r).
Proof.
  split.
  - intros [Hr Hl]. apply Forall_app in Hr as [Hk Hr]. apply Forall_cons in Hr as [Hr _].
    split_and!; try apply Hr.
    + split; [done|]. intros i a b Ha Hb. apply (Hl i).
      * by apply lookup_app_l_Some.
      * by apply lookup_app_l_Some.
    + intros q Hq. rewrite last_lookup in Hq.
      assert (length k <> 0)%nat by (intros E; apply length_zero_iff_nil in E; by subst).
      apply (Hl (pred (length k))); [by apply lookup_app_l_Some|].
      replace (S (pred (length k))) with (length k) by lia.
      by rewrite lookup_app_r, Nat.sub_diag by lia.
  - intros ([Hr Hl] & H1 & H2 & H3 & H4). split.
    + apply Forall_app. split; [done|]. constructor; [done|constructor].
    + intros i a b Ha Hb.
      pose proof (lookup_lt_Some _ _ _ Hb) as Hlt. rewrite length_app in Hlt. simpl in Hlt.
      rewrite lookup_app_l in Ha by lia.
      destruct (decide (S i < length k)%nat).
      * rewrite lookup_app_l in Hb by done. eauto.
      * rewrite lookup_app_r in Hb by lia.
        replace (S i - length k)%nat with 0%nat in Hb by lia. simplify_eq/=.
        apply H4. rewrite last_lookup. by replace (pred (length k)) with i by lia.
Qed.

Lemma push_run_ok runs t v :
  runs_ok runs -> in_u 64 t -> in_u 32 v ->
  (forall r, last runs = Some r -> t_end r <= t) -> runs_ok (push_run runs t v).
Proof.
  unfold in_u. intros Hr Ht Hv Hl. destruct (last runs) as [r|] eqn:E.
  - specialize (Hl r eq_refl). apply last_Some in E as [k ->].
    apply runs_ok_app in Hr as (Hk & ? & ? & ? & Hq). rewrite push_run_last.
    assert (runs_ok (k ++ [mkStateRun (t_start r) t (run_value r)])).
    { apply runs_ok_app. cbn [t_start t_end run_value]. split_and!; try done; lia. }
    destruct (run_value r =? v) eqn:Ev; [done|].
    replace (k ++ _) with ((k ++ [mkStateRun (t_start r) t (run_value r)]) ++ [mkStateRun t t v])
      by (by rewrite <-app_assoc).
    apply runs_ok_app. cbn [t_start t_end run_value]. split_and!; try done; try lia.
    intros q. rewrite last_snoc. intros [= <-]. cbn. split; [done|lia].
  - apply last_None in E as ->. apply (runs_ok_app []). cbn [t_start t_end run_value].
    split_and!; try done; try lia; auto.
Qed.

Lemma arith_inv {E} p w z r : 0 <= w -> arith (E := E) p w z = Ok r -> in_u w r.
Proof.
  intros Hw. unfold arith. destruct (in_ub w z) eqn:B.
  - intros [= <-]. by apply in_ub_spec.
  - destruct p; [done|]. intros [= <-]. by apply wrap_range.
Qed.

Lemma add_channel_wf p s path kind ints s' id :
  mock_wf s -> add_channel p s path kind ints = Ok (s', id) -> mock_wf s'.
Proof.
  intros Hs H. destruct Hs. unfold add_channel in H. inv_bind. simplify_eq.
  split; cbn; rewrite ?length_app; cbn; try (f_equal; done).
  - intros i info Hi. apply lookup_app_Some in Hi as [Hi|[Hle Hi]]; [eauto|].
    destruct (i - length (in_channels s))%nat eqn:E; [|done]. simpl in Hi. simplify_eq. cbn.
    unfold blen. do 2 f_equal. lia.
  - eapply arith_inv; [|eassumption]. lia.
  - apply Forall_app. auto.
  - apply Forall_app. auto.
  - apply Forall_app. auto.
Qed.

Lemma run_op_wf p s o s' :
  mock_wf s -> admissible s o -> run_op p s o = Ok s' -> mock_wf s'.
Proof.
  intros Hs Ha H. destruct o; cbn [run_op admissible] in *;
    try (inv_bind; match goal with x : Inner * _ |- _ => destruct x end;
         eapply add_channel_wf; eassumption).
  - inv_bind. by destruct Hs; split.
  - unfold push_scalar in H. destruct (in_scalars s !! _) as [buf|] eqn:E; inv_bind; [|done].
    destruct Ha as [Ht Hl]. destruct Hs. split; cbn; rewrite ?length_insert; try done.
    + eapply arith_inv; [|eassumption]. lia.
    + apply Forall_insert; [done|]. apply samples_ok_snoc; [|done|eauto].
      by eapply (Forall_lookup_1 _ _ _ _ wf_scalars0).
  - unfold push_state in H. destruct (in_states s !! _) as [buf|] eqn:E; inv_bind; [|done].
    destruct Ha as [[Ht Hl] Hv]. destruct Hs. split; cbn; rewrite ?length_insert; try done.
    + eapply arith_inv; [|eassumption]. lia.
    + apply Forall_insert; [done|]. apply push_run_ok; [|done|done|eauto].
      by eapply (Forall_lookup_1 _ _ _ _ wf_states0).
  - unfold push_text in H. destruct (in_texts s !! _) as [buf|] eqn:E; inv_bind; [|done].
    destruct Ha as [Ht Hl]. destruct Hs. split; cbn; rewrite ?length_insert; try done.
    + eapply arith_inv; [|eassumption]. lia.
    + apply Forall_insert; [done|]. apply samples_ok_snoc; [|done|eauto].
      by eapply (Forall_lookup_1 _ _ _ _ wf_texts0).
  - inv_bind. split; cbn; try done; try (by constructor). by apply wrap_range.
Qed.

Lemma mock_new_wf : mock_wf MockStore_new.
Proof. split; cbn; try done; try (by constructor). Qed.

Lemma reachable_wf p s : reachable p s -> mock_wf s.
Proof. induction 1; [apply mock_new_wf|]. by eapply run_op_wf. Qed.

(** An admissible operation returns as long as the 64-bit revision counter is
    not exhausted; in a release build it always returns. *)
Lemma run_op_returns p s o :
  p = Release \/ in_revision s < u64_max -> mock_wf s -> exists s', run_op p s o = Ok s'.
Proof.
  intros Hp Hs.
  assert (exists r, arith (E := Empty_set) p 64 (in_revision s + 1) = Ok r) as [r Hr].
  { unfold arith. destruct (in_ub 64 (in_revision s + 1)) eqn:E; [by eexists|].
    destruct p; [|by eexists]. destruct Hp as [|Hp]; [done|].
    assert (in_ub 64 (in_revision s + 1) = true); [|congruence].
    apply in_ub_spec. destruct Hs as [_ _ _ _ [? ?] _ _ _]. unfold in_u, u64_max in *. lia. }
  destruct o; cbn [run_op]; unfold add_scalar, add_scalar_int, add_scalar_with, add_state, add_text,
    add_channel, push_scalar, push_state, push_text; try (by eexists);
    try (rewrite Hr; by eexists);
    match goal with |- context [?v !! ?i] => destruct (v !! i) end; try (by eexists);
    rewrite Hr; by eexists.
Qed.

(** ** Time bounds *)
Section time_bounds.
Context {A : Type} (lo hi : A -> Z).

(** The times [acc] has seen are exactly enclosed. *)
Definition encloses (acc : option Z * option Z) (ts : list Z) : Prop :=
  match acc with
  | (None, None) => ts = []
  | (Some a, Some b) => a ∈ ts /\ b ∈ ts /\ Forall (fun t => a <= t <= b) ts
  | _ => False
  end.

Lemma widen_encloses acc ts v :
  encloses acc ts -> sorted_by lo v -> sorted_by hi v -> Forall (fun x => lo x <= hi x) v ->
  encloses (widen lo hi acc v) (ts ++ map lo v ++ map hi v).
Proof.
  intros Ha Hlo Hhi Hle. unfold widen. destruct v as [|a v]; [by rewrite !app_nil_r|].
  cbn [head]. destruct (last (a :: v)) as [b|] eqn:Eb; [|by apply last_None in Eb].
  assert (Hfst : Forall (fun x => lo a <= lo x) (a :: v)).
  { apply sorted_by_cons_inv in Hlo as [H _]. constructor; [lia|done]. }
  assert (Hlast : Forall (fun x => hi x <= hi b) (a :: v)).
  { apply Forall_lookup_2. intros i x Hx. rewrite last_lookup in Eb.
    pose proof (lookup_lt_Some _ _ _ Hx). eapply (Hhi i); [|exact Hx|exact Eb]. lia. }
  assert (Hb : b ∈ a :: v) by (rewrite last_lookup in Eb; by eapply list_elem_of_lookup_2).
  assert (Hal : lo a ∈ map lo (a :: v)) by (apply elem_of_cons; by left).
  assert (Hbh : hi b ∈ map hi (a :: v)) by (apply list_elem_of_fmap; eauto).
  set (w := a :: v) in *. clearbody w.
  assert (Hin : Forall (fun t => lo a <= t <= hi b) (map lo w ++ map hi w)).
  { apply Forall_app. rewrite !Forall_map. split; apply Forall_forall; intros x Hx;
      pose proof (proj1 (Forall_forall _ _) Hfst x Hx);
      pose proof (proj1 (Forall_forall _ _) Hlast x Hx);
      pose proof (proj1 (Forall_forall _ _) Hle x Hx); simpl in *; lia. }
  destruct acc as [[x|] [y|]]; try done; cbn [fst snd encloses].
  - destruct Ha as (Hx & Hy & Hall). split_and!.
    + destruct (Z.min_spec x (lo a)) as [[_ ->]|[_ ->]]; rewrite !elem_of_app; auto.
    + destruct (Z.max_spec y (hi b)) as [[_ ->]|[_ ->]]; rewrite !elem_of_app; auto.
    + apply Forall_app. split; (eapply Forall_impl; [eassumption|]); simpl; lia.
  - cbn in Ha. subst. simpl. rewrite !elem_of_app. auto.
Qed.

Lemma fold_widen_encloses vs acc ts :
  encloses acc ts ->
  Forall (fun v => sorted_by lo v /\ sorted_by hi v /\ Forall (fun x => lo x <= hi x) v) vs ->
  encloses (foldl (widen lo hi) acc vs)
    (ts ++ concat (map (fun v => map lo v ++ map hi v) vs)).
Proof.
  intros Ha Hv. revert acc ts Ha. induction Hv as [|v vs (H1 & H2 & H3) Hv IH]; intros acc ts Ha.
  - by rewrite app_nil_r.
  - cbn [foldl map concat]. rewrite app_assoc. apply IH. by apply widen_encloses.
Qed.
End time_bounds.

(** Starts and ends of well-formed runs ascend. *)
Lemma runs_ok_sorted runs : runs_ok runs ->
  sorted_by t_start runs /\ sorted_by t_end runs /\ Forall (fun r => t_start r <= t_end r) runs.
Proof.
  induction runs as [|r k IH] using rev_ind; intros H.
  - split_and!; [apply sorted_by_nil..|constructor].
  - apply runs_ok_app in H as (Hk & ? & ? & ? & Hq). destruct (IH Hk) as (I1 & I2 & I3).
    split_and!.
    + apply sorted_by_snoc; [done|]. intros q E. destruct (Hq q E) as [<- _].
      rewrite last_lookup in E. by apply (Forall_lookup_1 _ _ _ _ I3 E).
    + apply sorted_by_snoc; [done|]. intros q E. destruct (Hq q E) as [-> _]. lia.
    + apply Forall_app. split; [done|]. constructor; [lia|constructor].
Qed.

(** Every time stamp the store holds. *)
Definition all_times (s : Inner) : list Z :=
  concat (map (fun v => map fst v ++ map fst v) (in_scalars s)) ++
  concat (map (fun v => map t_start v ++ map t_end v) (in_states s)) ++
  concat (map (fun v => map fst v ++ map fst v) (in_texts s)).

Lemma samples_widen {A} (vs : list (list (Timestamp * A))) :
  Forall samples_ok vs ->
  Forall (fun v => sorted_by fst v /\ sorted_by fst v /\ Forall (fun x : Timestamp * A => x.1 <= x.1) v) vs.
Proof.
  intros H. eapply Forall_impl; [exact H|]. intros v [Hs _]. split_and!; [done..|].
  apply Forall_forall. lia.
Qed.

Lemma time_bounds_encloses s : mock_wf s ->
  match mock_time_bounds s with
  | None => all_times s = []
  | Some (a, b) => a ∈ all_times s /\ b ∈ all_times s /\ Forall (fun t => a <= t <= b) (all_times s)
  end.
Proof.
  intros Hs. destruct Hs. unfold mock_time_bounds. cbv zeta.
  assert (H0 : encloses (None, None) []) by done.
  apply (fold_widen_encloses fst fst (in_scalars s)) in H0; [|by apply samples_widen].
  apply (fold_widen_encloses t_start t_end (in_states s)) in H0;
    [|eapply Forall_impl; [exact wf_states0|]; apply runs_ok_sorted].
  apply (fold_widen_encloses fst fst (in_texts s)) in H0; [|by apply samples_widen].
  cbn [app] in H0. rewrite <-app_assoc in H0. change (concat _ ++ _) with (all_times s) in H0.
  destruct (foldl _ _ _) as [[a|] [b|]]; try done.
Qed.

Lemma all_times_range s : mock_wf s -> Forall (in_u 64) (all_times s).
Proof.
  intros [_ _ _ _ _ H1 H2 H3]. unfold all_times. rewrite !Forall_app, !Forall_concat, !Forall_map.
  split_and!; (eapply Forall_impl; [eassumption|]); simpl.
  - intros v [_ Hr]. rewrite Forall_app, !Forall_map. done.
  - intros v [Hr _]. rewrite Forall_app, !Forall_map. unfold in_u.
    split; (eapply Forall_impl; [exact Hr|]); simpl; lia.
  - intros v [_ Hr]. rewrite Forall_app, !Forall_map. done.
Qed.

(** ** Windowed queries *)
Lemma filter_window_range {A} (v : list (Timestamp * A)) t0 t1 :
  Forall (fun x => t0 <= x.1 < t1) (filter (fun x => t0 <= x.1 < t1) v).
Proof. apply Forall_forall. intros x Hx. by apply list_elem_of_filter in Hx as [? _]. Qed.

(** The samples of a channel inside [t0, t1). *)
Definition in_range {A} (vecs : list (list (Timestamp * A))) (ch t0 t1 : Z) : list (Timestamp * A) :=
  filter (fun x => t0 <= x.1 < t1) (default [] (vecs !! Z.to_nat ch)).

Lemma in_range_empty {A} (vecs : list (list (Timestamp * A))) ch t0 t1 :
  t1 <= t0 -> in_range vecs ch t0 t1 = [].
Proof.
  intros H. unfold in_range. apply filter_none. apply Forall_forall. intros x _. lia.
Qed.

Lemma query_strided_spec {A} (vecs : list (list (Timestamp * A))) ch t0 t1 n :
  Forall samples_ok vecs ->
  let xs := in_range vecs ch t0 t1 in
  exists l, query_strided vecs ch t0 t1 n = Ok l /\
    (length l <= n)%nat /\ l `sublist_of` xs /\
    ((length xs <= n)%nat -> l = xs) /\ (xs <> [] -> n <> 0%nat -> head l = head xs).
Proof.
  intros Hv xs. unfold query_strided. destruct ((n =? 0)%nat || (t1 <=? t0)) eqn:Eg.
  { exists []. split_and!; [done|simpl; lia|apply sublist_nil_l| |].
    - intros Hl. apply orb_true_iff in Eg as [E|E].
      + apply Nat.eqb_eq in E. destruct xs; [done|simpl in Hl; lia].
      + symmetry. apply in_range_empty. lia.
    - intros Hx Hn. apply orb_true_iff in Eg as [E|E]; [apply Nat.eqb_eq in E; lia|].
      destruct Hx. apply in_range_empty. lia. }
  apply orb_false_iff in Eg as [En Et]. apply Nat.eqb_neq in En.
  unfold in_range in xs. destruct (vecs !! Z.to_nat ch) as [v|] eqn:E.
  2:{ exists []. split_and!; try done; simpl; lia. }
  rewrite time_window_ok by lia. cbn [mbind res_bind default].
  assert (Hs : samples_ok v) by (by eapply (Forall_lookup_1 _ _ _ _ Hv)).
  rewrite window_spec by (first [apply Hs|lia]).
  change (filter _ v) with xs. destruct (length xs <=? n)%nat eqn:El.
  - apply Nat.leb_le in El. by exists xs.
  - apply Nat.leb_gt in El. eexists. split; [done|]. split_and!.
    + apply step_by_budget. lia.
    + apply step_by_sublist.
    + lia.
    + intros _ _. by destruct xs.
Qed.

(** ** The min/max envelope *)

(** Bucket [b] accounts for the sample [x]. *)
Definition covers (b : Bucket) (x : Timestamp * f64) : Prop :=
  bk_t b <= x.1 /\
  (is_nan x.2 = false -> f64_le (bk_min b) x.2 = true /\ f64_le x.2 (bk_max b) = true).

(** Every number a bucket reports is a sample of [xs]. *)
Definition drawn_from (xs : list (Timestamp * f64)) (b : Bucket) : Prop :=
  (exists x, x ∈ xs /\ x.1 = bk_t b) /\
  (exists x, x ∈ xs /\ x.2 = bk_min b) /\ (exists x, x ∈ xs /\ x.2 = bk_max b).

Lemma drawn_from_mono xs ys b : xs ⊆ ys -> drawn_from xs b -> drawn_from ys b.
Proof. intros H ((a & ? & ?) & (c & ? & ?) & (d & ? & ?)). split_and!; eauto. Qed.

Lemma covers_widen b v x : covers b x ->
  covers (mkBucket (bk_t b) (f64_min (bk_min b) v) (f64_max (bk_max b) v)) x.
Proof.
  intros [Ht Hc]. split; [done|]. intros Hn. destruct (Hc Hn) as [H1 H2]. cbn.
  destruct (f64_le_nan _ _ H1) as [Hm _]. destruct (f64_le_nan _ _ H2) as [_ HM].
  pose proof (f64_min_spec (bk_min b) v) as (_ & M1 & _).
  pose proof (f64_max_spec (bk_max b) v) as (_ & M2 & _).
  split; [eapply f64_le_trans; [by apply M1|done]|eapply f64_le_trans; [done|by apply M2]].
Qed.

Lemma covers_new b t v : bk_t b <= t ->
  covers (mkBucket (bk_t b) (f64_min (bk_min b) v) (f64_max (bk_max b) v)) (t, v).
Proof.
  intros Ht. split; [done|]. cbn. intros Hn.
  by split; [apply f64_min_spec|apply f64_max_spec].
Qed.

Lemma covers_single t v : covers (mkBucket t v v) (t, v).
Proof. split; [done|]. cbn. intros Hn. by split; apply f64_le_refl. Qed.

Lemma drawn_widen xs b t v :
  drawn_from xs b -> (t, v) ∈ xs ->
  drawn_from xs (mkBucket (bk_t b) (f64_min (bk_min b) v) (f64_max (bk_max b) v)).
Proof.
  intros (Ht & (a & ? & Ha) & (c & ? & Hc)) Hx. split; [done|]. cbn.
  pose proof (f64_min_spec (bk_min b) v) as [Hm _].
  pose proof (f64_max_spec (bk_max b) v) as [HM _].
  split; [destruct Hm as [Hm|Hm]; rewrite Hm|destruct HM as [HM|HM]; rewrite HM];
    first [by exists a|by exists c|by exists (t, v)].
Qed.

(** What the flushed buckets guarantee: [done] samples are covered, everything
    reported is drawn from them, and the bucket times ascend. *)
Record envelope (xs : list (Timestamp * f64)) (bs : list Bucket) : Prop := {
  env_covers : forall x, x ∈ xs -> exists b, b ∈ bs /\ covers b x;
  env_drawn : Forall (drawn_from xs) bs;
  env_sorted : sorted_by bk_t bs;
}.

Lemma bucket_idx_nonneg bw d : nonneg bw = true -> 0 <= d ->
  0 <= f64_to_i64 (f64_floor (f64_div (f64_of_Z d) bw)).
Proof. intros. apply floor_nonneg, nonneg_div; [by apply nonneg_of_Z|done]. Qed.

Lemma envelope_grow xs out cur t v :
  envelope xs (out ++ [cur]) -> Forall (fun x => x.1 <= t) xs ->
  envelope (xs ++ [(t, v)]) (out ++ [mkBucket (bk_t cur) (f64_min (bk_min cur) v) (f64_max (bk_max cur) v)]).
Proof.
  intros [Hc Hd Hs] Ht. apply Forall_app in Hd as [Hd1 Hd2]. apply Forall_cons in Hd2 as [Hd2 _].
  assert (Hsub : xs ⊆ xs ++ [(t, v)]) by set_solver.
  assert (Hcur : bk_t cur <= t).
  { destruct Hd2 as ((x & Hx & <-) & _). by apply (proj1 (Forall_forall _ _) Ht). }
  split.
  - intros x [Hx|Hx]%elem_of_app; [|apply list_elem_of_singleton in Hx as ->].
    + destruct (Hc x Hx) as (b & Hb & Hbx).
      apply elem_of_app in Hb as [Hb|Hb]; [|apply list_elem_of_singleton in Hb as ->].
      * exists b. set_solver.
      * eexists. split; [apply elem_of_app; right; by apply list_elem_of_singleton|].
        by apply covers_widen.
    + eexists. split; [apply elem_of_app; right; by apply list_elem_of_singleton|].
      by apply covers_new.
  - apply Forall_app. split; [eapply Forall_impl; [exact Hd1|]; intros; by eapply drawn_from_mono|].
    constructor; [|done]. apply (drawn_widen _ _ t); [by eapply drawn_from_mono|set_solver].
  - apply sorted_by_app in Hs as (S1 & _ & S2). apply sorted_by_app. split_and!; [done| |].
    + apply sorted_by_cons; [constructor|apply sorted_by_nil].
    + intros x y Hx ->%list_elem_of_singleton. cbn. apply (S2 x cur Hx). set_solver.
Qed.

Lemma envelope_push xs out t v :
  envelope xs out -> Forall (fun x => x.1 <= t) xs ->
  envelope (xs ++ [(t, v)]) (out ++ [mkBucket t v v]).
Proof.
  intros [Hc Hd Hs] Ht. assert (Hsub : xs ⊆ xs ++ [(t, v)]) by set_solver. split.
  - intros x [Hx|Hx]%elem_of_app; [|apply list_elem_of_singleton in Hx as ->].
    + destruct (Hc x Hx) as (b & Hb & Hbx). exists b. set_solver.
    + eexists. split; [apply elem_of_app; right; by apply list_elem_of_singleton|].
      apply covers_single.
  - apply Forall_app. split; [eapply Forall_impl; [exact Hd|]; intros; by eapply drawn_from_mono|].
    constructor; [|done]. split_and!; exists (t, v); set_solver.
  - apply sorted_by_app. split_and!; [done| |].
    + apply sorted_by_cons; [constructor|apply sorted_by_nil].
    + intros b y Hb ->%list_elem_of_singleton. cbn.
      destruct (proj1 (Forall_forall _ _) Hd b Hb) as ((x & Hx & <-) & _).
      by apply (proj1 (Forall_forall _ _) Ht).
Qed.

(** The loop keeps the envelope of the samples it has consumed, where the
    current bucket is the last one. *)
Lemma bucket_loop_envelope p t0 bw l seen out cur_idx cur :
  nonneg bw = true -> 0 <= t0 ->
  samples_ok (seen ++ l) -> Forall (fun x => t0 <= x.1) l ->
  (cur_idx = -1 /\ seen = [] /\ out = []) \/ (0 <= cur_idx /\ envelope seen (out ++ [cur])) ->
  exists bs, bucket_loop p t0 bw cur_idx cur out l = Ok bs /\ envelope (seen ++ l) bs /\
    (length bs <= S (length out) + length l)%nat.
Proof.
  intros Hbw Ht0. revert seen out cur_idx cur. induction l as [|[t v] l IH]; intros seen out cur_idx cur Hs Hl Hi.
  { cbn [bucket_loop]. rewrite app_nil_r. destruct Hi as [(-> & -> & ->)|[Hi He]].
    - exists []. split_and!; [done| |simpl; lia]. split; [set_solver|done|apply sorted_by_nil].
    - replace (0 <=? cur_idx) with true by lia. exists (out ++ [cur]).
      split_and!; [done..|]. rewrite length_app. simpl. lia. }
  cbn [bucket_loop]. apply Forall_cons in Hl as [Ht Hl]. cbn [fst] in Ht.
  assert (Hseen : Forall (fun x => x.1 <= t) seen).
  { destruct Hs as [Hs _]. apply sorted_by_app in Hs as (_ & _ & Hx).
    apply Forall_forall. intros x Hin. apply (Hx x (t, v)); [done|apply elem_of_cons; by left]. }
  rewrite (arith_ok p 64 (t - t0)).
  2:{ destruct Hs as [_ Hr]. apply Forall_app in Hr as [_ Hr]. apply Forall_cons in Hr as [Hr _].
      unfold in_u in *. simpl in Hr. lia. }
  cbn [mbind res_bind]. cbv zeta. set (idx := f64_to_i64 _).
  assert (0 <= idx) by (apply bucket_idx_nonneg; [done|lia]).
  assert (Hs' : samples_ok ((seen ++ [(t, v)]) ++ l)) by (by rewrite <-app_assoc).
  replace (seen ++ (t, v) :: l) with ((seen ++ [(t, v)]) ++ l) by (by rewrite <-app_assoc).
  destruct (idx =? cur_idx) eqn:Ei; cbn [negb].
  - destruct Hi as [(? & _)|[Hi He]]; [lia|].
    edestruct (IH (seen ++ [(t, v)]) out cur_idx) as (bs & Hbs & Henv & Hlen);
      [done|done|right; split; [done|by apply envelope_grow]|].
    exists bs. split_and!; [exact Hbs|done|simpl; lia].
  - edestruct (IH (seen ++ [(t, v)]) (if 0 <=? cur_idx then out ++ [cur] else out) idx (mkBucket t v v))
      as (bs & Hbs & Henv & Hlen); [done|done| |].
    + right. split; [done|]. apply envelope_push; [|done].
      destruct Hi as [(-> & -> & ->)|[Hi He]]; [simpl; split; [set_solver|done|apply sorted_by_nil]|].
      by replace (0 <=? cur_idx) with true by lia.
    + exists bs. split_and!; [exact Hbs|done|]. simpl. destruct (0 <=? cur_idx); rewrite ?length_app in Hlen; simpl in Hlen; lia.
Qed.
Lemma map_single_envelope xs : samples_ok xs ->
  envelope xs (map (fun '(t, v) => mkBucket t v v) xs).
Proof.
  induction xs as [|[t v] xs IH] using rev_ind; intros Hs.
  - split; [set_solver|done|apply sorted_by_nil].
  - rewrite map_app. destruct Hs as [Hs Hr]. apply Forall_app in Hr as [Hr _].
    apply sorted_by_app in Hs as (Hs & _ & Hx). apply envelope_push; [by apply IH|].
    apply Forall_forall. intros x Hin. apply (Hx x (t, v)); [done|set_solver].
Qed.

Lemma samples_ok_filter {A} (P : Timestamp * A -> Prop) `{forall x, Decision (P x)} v :
  samples_ok v -> samples_ok (filter P v).
Proof.
  intros [Hs Hr]. pose proof (sublist_filter P v). split.
  - by eapply sorted_by_sublist_of.
  - by eapply sublist_Forall.
Qed.

Lemma query_scalar_envelope p s ch t0 t1 n :
  mock_wf s -> in_u 64 t0 -> in_u 64 t1 -> n <> 0%nat ->
  exists bs, mock_query_scalar p s ch t0 t1 n = Ok bs /\
    envelope (in_range (in_scalars s) ch t0 t1) bs.
Proof.
  intros Hs Ht0 Ht1 Hn. unfold mock_query_scalar.
  replace (n =? 0)%nat with false by (symmetry; by apply Nat.eqb_neq). cbn [orb].
  destruct (t1 <=? t0) eqn:Et.
  { exists []. rewrite in_range_empty by lia. split; [done|]. apply (map_single_envelope []), samples_ok_nil. }
  set (xs := in_range _ _ _ _). unfold in_range in xs.
  destruct (in_scalars s !! Z.to_nat ch) as [v|] eqn:E.
  2:{ exists []. split; [done|]. apply (map_single_envelope []), samples_ok_nil. }
  assert (Hv : samples_ok v) by (eapply (Forall_lookup_1 _ _ _ _ (wf_scalars _ Hs)); exact E).
  rewrite time_window_ok by lia. cbn [mbind res_bind].
  rewrite window_spec by (first [apply Hv|lia]). change (filter _ v) with xs.
  assert (Hxs : samples_ok xs) by (by apply samples_ok_filter).
  case_bool_decide as Ex.
  { rewrite Ex. exists []. split; [done|]. apply (map_single_envelope []), samples_ok_nil. }
  destruct (length xs <=? n)%nat; [eexists; split; [done|by apply map_single_envelope]|].
  assert (Hin : Forall (fun x => t0 <= x.1 < t1) xs) by apply filter_window_range.
  rewrite (arith_ok p 64 (t1 - t0)) by (unfold in_u in *; lia).
  cbn [mbind res_bind]. cbv zeta.
  edestruct (bucket_loop_envelope p t0 (f64_div (f64_of_Z (t1 - t0)) (f64_of_Z (Z.of_nat n))) xs [])
    as (bs & Hb & He & _); [..|exists bs; split; [exact Hb|exact He]].
  - apply nonneg_div; apply nonneg_of_Z; lia.
  - apply Ht0.
  - exact Hxs.
  - eapply Forall_impl; [exact Hin|]. simpl. lia.
  - by left.
Qed.

(** ** State channels hold their last observation *)

(** The abstract meaning of a log of observations: the value of the latest
    observation at or before [t]. *)
Definition held (obs : list (Timestamp * Z)) (t : Z) : option Z :=
  snd <$> last (filter (fun o => o.1 <= t) obs).

Definition push_runs (runs : list StateRun) (obs : list (Timestamp * Z)) : list StateRun :=
  foldl (fun rs '(t, v) => push_run rs t v) runs obs.

(** The run in force at [t]. *)
Definition run_at (runs : list StateRun) (t : Z) : option StateRun :=
  last (filter (fun r => t_start r <= t) runs).

Lemma last_filter_snoc {A} (P : A -> Prop) `{forall x, Decision (P x)} l x :
  last (filter P (l ++ [x])) = if decide (P x) then Some x else last (filter P l).
Proof.
  rewrite filter_app, filter_cons, filter_nil. case_decide; [by rewrite last_snoc|].
  by rewrite app_nil_r.
Qed.

Lemma push_runs_ok obs :
  samples_ok obs -> Forall (fun o => in_u 32 o.2) obs ->
  runs_ok (push_runs [] obs) /\
  (t_end <$> last (push_runs [] obs)) = fst <$> last obs /\
  forall t, run_value <$> run_at (push_runs [] obs) t = held obs t.
Proof.
  induction obs as [|[t' v] obs IH] using rev_ind; intros Hs Hv; [done|].
  destruct Hs as [Hs Hr]. apply Forall_app in Hr as [Hr Ht']. apply Forall_cons in Ht' as [Ht' _].
  apply Forall_app in Hv as [Hv Hv']. apply Forall_cons in Hv' as [Hv' _].
  apply sorted_by_app in Hs as (Hs & _ & Hle). cbn [fst snd] in *.
  destruct (IH (Build_samples_ok _ _ Hs Hr) Hv) as (Hok & Hend & Hheld). clear IH.
  unfold push_runs in *. rewrite foldl_app. cbn [foldl].
  set (runs := foldl _ _ obs) in *.
  assert (Hlast : forall r, last runs = Some r -> t_end r <= t').
  { intros r E. rewrite E in Hend. cbn in Hend. destruct (last obs) as [o|] eqn:Eo; [|done].
    injection Hend as ->. apply (Hle o (t', v)); [|by apply list_elem_of_singleton].
    rewrite last_lookup in Eo. by eapply list_elem_of_lookup_2. }
  split; [by apply push_run_ok|]. rewrite last_snoc. cbn [fmap option_fmap option_map fst].
  destruct (last runs) as [r|] eqn:E.
  - apply last_Some in E as [k E]. rewrite E in *. rewrite push_run_last.
    specialize (Hlast r eq_refl).
    apply runs_ok_app in Hok as (_ & Hr1 & _).
    split; [destruct (_ =? _); [by rewrite last_snoc|]; by rewrite last_app|].
    intros t. unfold held, run_at in *. rewrite last_filter_snoc. cbn [fst].
    specialize (Hheld t). rewrite last_filter_snoc in Hheld.
    destruct (run_value r =? v) eqn:Ev.
    + rewrite last_filter_snoc. cbn [t_start].
      destruct (decide (t' <= t)); [rewrite decide_True by lia; cbn; f_equal; lia|].
      rewrite <-Hheld. by case_decide.
    + replace (k ++ [_; _]) with ((k ++ [mkStateRun (t_start r) t' (run_value r)]) ++ [mkStateRun t' t' v])
        by (by rewrite <-app_assoc).
      rewrite last_filter_snoc. cbn [t_start].
      destruct (decide (t' <= t)); [reflexivity|].
      rewrite last_filter_snoc, <-Hheld by lia. cbn [t_start]. by case_decide.
  - apply last_None in E. rewrite E in *. split; [done|]. intros t. cbn.
    unfold held, run_at in *. rewrite last_filter_snoc, filter_cons. cbn [fst t_start].
    specialize (Hheld t). case_decide; [done|]. rewrite <-Hheld. done.
Qed.

(** The state branch of [sample_at] finds the run in force. *)
Lemma sample_at_runs p s ch t info labels runs :
  in_channels s !! Z.to_nat ch = Some info -> ci_kind info = State labels ->
  in_states s !! Z.to_nat ch = Some runs -> runs_ok runs -> t < u64_max ->
  mock_sample_at p s ch t = Ok ((fun r => f64_of_Z (run_value r)) <$> run_at runs t).
Proof.
  intros Hc Hk Hr Hok Ht. unfold mock_sample_at. rewrite Hc, Hk. unfold index. rewrite Hr.
  cbn [mbind res_bind]. case_bool_decide as E; [by subst|]. cbv zeta.
  destruct (runs_ok_sorted runs Hok) as (Hs & He & _).
  rewrite (partition_point_filter t_start) by done. unfold run_at. rewrite last_lookup.
  set (fl := filter (fun x => t_start x <= t) runs).
  pose proof (fun i => filter_prefix_lookup t_start runs t i Hs) as Hpre.
  change (filter (fun x => t_start x <= t) runs) with fl in Hpre.
  destruct (length fl =? 0)%nat eqn:El.
  { apply Nat.eqb_eq, length_zero_iff_nil in El. by rewrite El. }
  apply Nat.eqb_neq in El. rewrite Nat2Z.id.
  replace (length fl - 1)%nat with (pred (length fl)) by lia.
  rewrite <-Hpre by lia. destruct (lookup_lt_is_Some_2 fl (pred (length fl))) as [r Hrr]; [lia|].
  rewrite Hrr. cbn [mbind res_bind fmap option_fmap option_map].
  assert (t < (if (pred (length fl) =? length runs - 1)%nat then u64_max else t_end r)).
  { destruct (_ =? _)%nat eqn:Ei; [done|]. apply Nat.eqb_neq in Ei.
    pose proof (length_filter (fun x => t_start x <= t) runs) as Hll. fold fl in Hll.
    destruct (lookup_lt_is_Some_2 runs (length fl)) as [q Hq]; [lia|].
    assert (Hnext : t_end r = t_start q).
    { apply (runs_link _ Hok (pred (length fl))); [by rewrite <-Hpre by lia|].
      by replace (S (pred (length fl))) with (length fl) by lia. }
    rewrite Hnext. destruct (Z_lt_le_dec t (t_start q)) as [|Hle]; [done|]. exfalso.
    destruct (sorted_split_lt t_start runs (t + 1) Hs) as (Eq & _ & F2).
    assert (Hf : filter (fun x => t_start x < t + 1) runs = fl) by (apply list_filter_iff; lia).
    rewrite Eq, Hf, lookup_app_r in Hq by lia.
    apply (Forall_lookup_1 _ _ _ _ F2) in Hq. lia. }
  by replace (t <? _) with true by lia.
Qed.

(** ** Run queries *)

(** The runs as a reader sees them: the trailing one is held forever. *)
Definition effective (runs : list StateRun) : list StateRun :=
  imap (fun i r => mkStateRun (t_start r)
          (if (i =? length runs - 1)%nat then u64_max else t_end r) (run_value r)) runs.

Lemma effective_snoc k r :
  effective (k ++ [r]) = k ++ [mkStateRun (t_start r) u64_max (run_value r)].
Proof.
  unfold effective. rewrite imap_app, length_app. cbn [length imap]. f_equal.
  - enough (forall n, imap (fun i r0 => mkStateRun (t_start r0)
      (if (n + i =? n + length k)%nat then u64_max else t_end r0) (run_value r0)) k = k) as H.
    { etrans; [|apply (H 0%nat)]. apply imap_ext. intros i x _. cbn.
      by replace (length k + 1 - 1)%nat with (length k) by lia. }
    clear. induction k as [|x k IH]; intros n; [done|]. cbn [imap length]. f_equal.
    + replace (_ =? _)%nat with false by (symmetry; apply Nat.eqb_neq; lia). by destruct x.
    + etrans; [|apply (IH (S n))]. apply imap_ext. intros i y _. unfold compose.
      by replace (n + S i)%nat with (S n + i)%nat by lia; replace (n + S (length k))%nat with (S n + length k)%nat by lia.
  - unfold compose. replace (length k + 1 - 1)%nat with (length k + 0)%nat by lia.
    by rewrite Nat.eqb_refl.
Qed.

Lemma imap_take_while {A} (f : nat -> A -> A) (q : A -> bool) l :
  (forall i x, q (f i x) = q x) -> imap f (take_while q l) = take_while q (imap f l).
Proof.
  revert f. induction l as [|x l IH]; intros f Hf; [done|]. cbn [take_while imap].
  rewrite Hf. destruct (q x); [|done]. cbn [imap]. f_equal. apply IH. intros. apply Hf.
Qed.

Lemma drop_imap {A B} (f : nat -> A -> B) n l :
  drop n (imap f l) = imap (fun i => f (n + i)%nat) (drop n l).
Proof.
  revert f n. induction l as [|x l IH]; intros f [|n]; [done..|].
  cbn [drop imap]. rewrite IH. done.
Qed.

Lemma effective_sorted runs : runs_ok runs -> sorted_by t_start (effective runs).
Proof.
  intros H. destruct runs as [|r k _] using rev_ind; [apply sorted_by_nil|].
  rewrite effective_snoc. destruct (runs_ok_sorted _ H) as (Hs & _).
  apply sorted_by_app in Hs as (H1 & _ & H2). apply sorted_by_app. split_and!; [done| |].
  - apply sorted_by_cons; [constructor|apply sorted_by_nil].
  - intros x y Hx ->%list_elem_of_singleton. cbn. apply (H2 x r Hx). by apply list_elem_of_singleton.
Qed.

Lemma query_state_filter s ch t0 t1 runs :
  in_states s !! Z.to_nat ch = Some runs -> runs_ok runs -> t0 < u64_max ->
  mock_query_state s ch t0 t1 =
  Ok (filter (fun r => t_start r < t1) (filter (fun r => t0 < t_end r) (effective runs))).
Proof.
  intros Hr Hok Ht. unfold mock_query_state. rewrite Hr.
  destruct runs as [|r k _] using rev_ind; [done|].
  rewrite bool_decide_eq_false_2 by (by destruct k). cbv zeta. rewrite length_app. cbn [length].
  replace (length k + 1 - 1)%nat with (length k) by lia.
  rewrite take_app_length. set (start := if (length k =? 0)%nat then _ else _).
  pose proof (runs_ok_sorted _ Hok) as (Hs1 & Hs2 & _).
  apply sorted_by_app in Hs2 as (Hs2 & _).
  assert (Hst : start = length (filter (fun x => t_end x <= t0) k)).
  { unfold start. rewrite (partition_point_filter t_end) by done.
    destruct (length k =? 0)%nat eqn:E; [|done].
    apply Nat.eqb_eq, length_zero_iff_nil in E. by subst. }
  destruct (sorted_split_lt t_end k (t0 + 1) Hs2) as (E & _).
  assert (Ef : filter (fun x => t_end x < t0 + 1) k = filter (fun x => t_end x <= t0) k)
    by (apply list_filter_iff; lia).
  assert (Eg : filter (fun x => t0 + 1 <= t_end x) k = filter (fun x => t0 < t_end x) k)
    by (apply list_filter_iff; lia).
  rewrite Ef, Eg in E. f_equal.
  rewrite imap_take_while by done. rewrite effective_snoc.
  assert (Hdrop : imap (fun i r0 => mkStateRun (t_start r0)
      (if (start + i =? length k)%nat then u64_max else t_end r0) (run_value r0)) (drop start (k ++ [r]))
      = drop start (effective (k ++ [r]))).
  { unfold effective. rewrite drop_imap, length_app. apply imap_ext. intros i x _. unfold compose.
    cbn [length]. by replace (length k + 1 - 1)%nat with (length k) by lia. }
  rewrite Hdrop. rewrite take_while_sorted.
  2:{ eapply sorted_by_sublist_of; [apply sublist_drop|]. by apply effective_sorted. }
  f_equal. rewrite effective_snoc, filter_app, filter_cons_True by (cbn; lia). rewrite filter_nil.
  rewrite E at 1. rewrite <-app_assoc, Hst, drop_app_length. done.
Qed.

(** ** Interpolation *)

(** A scalar sample between two recorded ones. *)
Definition interpolate (a b : Timestamp * f64) (t : Z) : f64 :=
  f64_add a.2 (f64_mul (f64_div (f64_of_Z (t - a.1)) (f64_of_Z (b.1 - a.1))) (f64_sub b.2 a.2)).

(** What [sample_at] may answer for the samples [v] of a scalar channel. *)
Definition sample_spec (v : list (Timestamp * f64)) (t : Z) (r : option f64) : Prop :=
  match r with
  | None => Forall (fun x => t < x.1) v \/ Forall (fun x => x.1 < t) v
  | Some y =>
    (t, y) ∈ v \/
    exists i a b, v !! i = Some a /\ v !! S i = Some b /\ a.1 < t < b.1 /\ y = interpolate a b t
  end.

Lemma sample_at_scalar p s ch t info v :
  in_channels s !! Z.to_nat ch = Some info -> ci_kind info = Scalar ->
  in_scalars s !! Z.to_nat ch = Some v -> samples_ok v ->
  exists r, mock_sample_at p s ch t = Ok r /\ sample_spec v t r.
Proof.
  intros Hc Hk Hv [Hs Hr]. unfold mock_sample_at. rewrite Hc, Hk. unfold index. rewrite Hv.
  cbn [mbind res_bind]. case_bool_decide as E; [subst; exists None; split; [done|by left; constructor]|].
  pose proof (search_key_spec fst t v Hs) as H. destruct (search_key fst t v) as [i|i].
  - destruct H as (x & Hx & <-). rewrite Nat2Z.id, Hx. cbn [mbind res_bind].
    eexists. split; [done|]. left. destruct x. by eapply list_elem_of_lookup_2.
  - destruct H as [Hi Hj]. destruct (i =? 0)%nat eqn:E0; cbn [orb].
    { apply Nat.eqb_eq in E0. exists None. split; [done|]. left. apply Forall_lookup_2.
      intros j x Hx. destruct (Hj j x Hx). lia. }
    destruct (i =? length v)%nat eqn:E1.
    { apply Nat.eqb_eq in E1. exists None. split; [done|]. right. apply Forall_lookup_2.
      intros j x Hx. pose proof (lookup_lt_Some _ _ _ Hx). destruct (Hj j x Hx). lia. }
    apply Nat.eqb_neq in E0, E1.
    destruct (lookup_lt_is_Some_2 v (pred i)) as [a Ha]; [lia|].
    destruct (lookup_lt_is_Some_2 v i) as [b Hb]; [lia|].
    replace (Z.to_nat (Z.of_nat i - 1)) with (pred i) by lia. rewrite Nat2Z.id, Ha, Hb.
    cbn [mbind res_bind]. destruct (Hj _ _ Ha) as [_ Ja], (Hj _ _ Hb) as [Jn Jb].
    assert (a.1 < t) by (apply Ja; lia).
    assert (t < b.1) by (destruct (Z_lt_le_dec (b.1) t); [apply Jb in l; lia|lia]).
    pose proof (Forall_lookup_1 _ _ _ _ Hr Ha) as Ra. pose proof (Forall_lookup_1 _ _ _ _ Hr Hb) as Rb.
    unfold in_u in Ra, Rb. simpl in Ra, Rb.
    rewrite !arith_ok by (unfold in_u; lia). cbn [mbind res_bind].
    eexists. split; [done|]. right. exists (pred i), a, b.
    replace (S (pred i)) with i by lia. done.
Qed.

(** ** The store keeps the contract of the trait *)
Lemma query_state_ok s ch t0 t1 : exists rs, mock_query_state s ch t0 t1 = Ok rs.
Proof.
  unfold mock_query_state. destruct (in_states s !! _); [|by eexists].
  case_bool_decide; by eexists.
Qed.

Lemma query_state_shape s ch t0 t1 rs : mock_query_state s ch t0 t1 = Ok rs ->
  rs = [] \/ exists runs start, in_states s !! Z.to_nat ch = Some runs /\
    rs = take_while (fun r => t_start r <? t1) (drop start (effective runs)).
Proof.
  unfold mock_query_state. destruct (in_states s !! _) as [runs|]; [|intros [= <-]; by left].
  case_bool_decide; [intros [= <-]; by left|]. cbv zeta. set (start := if (_ =? 0)%nat then _ else _).
  intros [= <-]. right. exists runs, start. split; [done|]. rewrite imap_take_while by done.
  unfold effective. by rewrite drop_imap.
Qed.

Lemma effective_lookup runs i r : effective runs !! i = Some r -> exists x, runs !! i = Some x /\
  t_start r = t_start x /\ run_value r = run_value x /\
  t_end r = if (i =? length runs - 1)%nat then u64_max else t_end x.
Proof.
  unfold effective. rewrite list_lookup_imap. intros (x & Hx & ->)%fmap_Some. by exists x.
Qed.

Lemma query_state_window s ch t0 t1 rs : mock_wf s -> mock_query_state s ch t0 t1 = Ok rs -> runs_view t1 rs.
Proof.
  intros Hs [->|(runs & start & Hst & ->)]%query_state_shape.
  { split; [apply sorted_by_nil|constructor|]. intros i r q H. by rewrite lookup_nil in H. }
  assert (Hok : runs_ok runs) by (eapply (Forall_lookup_1 _ _ _ _ (wf_states _ Hs)); exact Hst).
  assert (Hl : forall i r, take_while (fun r => t_start r <? t1) (drop start (effective runs)) !! i = Some r ->
    effective runs !! (start + i)%nat = Some r /\ t_start r < t1).
  { intros i r (Hi & Ht)%take_while_lookup. rewrite lookup_drop in Hi. split; [done|lia]. }
  split.
  - rewrite take_while_sorted by (eapply sorted_by_sublist_of; [apply sublist_drop|by apply effective_sorted]).
    eapply sorted_by_sublist_of; [etrans; [apply sublist_filter|apply sublist_drop]|by apply effective_sorted].
  - apply Forall_lookup_2. intros i r (Hi & Ht)%Hl. apply effective_lookup in Hi as (x & Hx & Hx1 & Hx2 & Hx3).
    rewrite Hx1, Hx2, Hx3 in *.
    pose proof (Forall_lookup_1 _ _ _ _ (runs_range _ Hok) Hx) as (? & ? & ?). unfold u64_max.
    destruct (_ =? _)%nat; split_and!; try done; lia.
  - intros i r q (Hr & _)%Hl (Hq & _)%Hl. rewrite Nat.add_succ_r in Hq.
    apply effective_lookup in Hr as (x & Hx & _ & _ & ->), Hq as (y & Hy & -> & _ & _).
    destruct (runs_link _ Hok _ _ _ Hx Hy) as [<- _]. apply lookup_lt_Some in Hy.
    destruct (_ =? _)%nat eqn:E; [apply Nat.eqb_eq in E; lia|done].
Qed.

(** The last queried run reaches the end of the window: the next one starts
    after it, or the value is held. *)
Lemma query_state_held s ch t0 t1 rs r : mock_wf s -> mock_query_state s ch t0 t1 = Ok rs ->
  last rs = Some r -> t1 <= u64_max -> t1 <= t_end r.
Proof.
  intros Hs [->|(runs & start & Hst & Hrs)]%query_state_shape Hl Ht1; [done|].
  assert (Hok : runs_ok runs) by (eapply (Forall_lookup_1 _ _ _ _ (wf_states _ Hs)); exact Hst).
  rewrite last_lookup in Hl. assert (Hlen : length rs <> 0%nat) by (intros E; apply length_zero_iff_nil in E; by rewrite E in Hl).
  pose proof Hl as Hl'. rewrite Hrs in Hl'. apply take_while_lookup in Hl' as [Hi _]. rewrite <-Hrs, lookup_drop in Hi.
  apply effective_lookup in Hi as (x & Hx & _ & _ & ->). destruct (_ =? _)%nat eqn:E; [done|]. apply Nat.eqb_neq in E.
  destruct (lookup_lt_is_Some_2 runs (start + length rs)) as [y Hy]; [apply lookup_lt_Some in Hx; lia|].
  destruct (runs_link _ Hok (start + pred (length rs)) x y Hx) as [-> _].
  { by replace (S (start + pred (length rs))) with (start + length rs)%nat by lia. }
  destruct (effective runs !! (start + length rs)%nat) as [q|] eqn:Eq.
  - pose proof Eq as Eq'. rewrite <-lookup_drop, Hrs in Eq'. apply take_while_stop in Eq'.
    apply effective_lookup in Eq as (y' & Hy' & Hq & _). simplify_eq. lia.
  - unfold effective in Eq. rewrite list_lookup_imap, Hy in Eq. done.
Qed.

Lemma sample_at_ok p s ch t : mock_wf s -> exists v, mock_sample_at p s ch t = Ok v.
Proof.
  intros Hs. destruct (in_channels s !! Z.to_nat ch) as [info|] eqn:Ei.
  2:{ exists None. unfold mock_sample_at. by rewrite Ei. }
  pose proof (lookup_lt_Some _ _ _ Ei) as Hlt. destruct (ci_kind info) as [|labels|] eqn:Ek.
  - rewrite <-(wf_scalars_len _ Hs) in Hlt. apply lookup_lt_is_Some in Hlt as [v Hv].
    destruct (sample_at_scalar p s ch t info v Ei Ek Hv) as (r & Hr & _); [|by exists r].
    by apply (Forall_lookup_1 _ _ _ _ (wf_scalars _ Hs) Hv).
  - rewrite <-(wf_states_len _ Hs) in Hlt. apply lookup_lt_is_Some in Hlt as [v Hv].
    unfold mock_sample_at. rewrite Ei, Ek. unfold index. rewrite Hv. cbn [mbind res_bind].
    case_bool_decide as Ev; [by eexists|]. cbv zeta.
    destruct (_ =? 0)%nat eqn:E0; [by eexists|]. apply Nat.eqb_neq in E0.
    destruct (partition_point_mono (fun r => t_start r <=? t) (fun r => t_start r <=? t) v) as [_ Hp]; [done|].
    rewrite Nat2Z.id. edestruct (lookup_lt_is_Some_2 v) as [r ->]; [|by eexists].
    assert (length v <> 0)%nat by (intros H; by apply length_zero_iff_nil in H). lia.
  - exists None. unfold mock_sample_at. by rewrite Ei, Ek.
Qed.

(** The run in force is the one before the first run that starts after [t]. *)
Lemma run_at_lookup runs i r t :
  sorted_by t_start runs -> runs !! i = Some r -> t_start r <= t ->
  (forall q, runs !! S i = Some q -> t < t_start q) -> run_at runs t = Some r.
Proof.
  intros Hs Hi Hr Hq. unfold run_at. rewrite <-(take_drop (S i) runs), filter_app.
  rewrite filter_all, filter_none.
  - rewrite app_nil_r. by rewrite (take_S_r _ _ _ Hi), last_snoc.
  - apply Forall_lookup_2. intros j x Hx. rewrite lookup_drop in Hx.
    destruct (lookup_lt_is_Some_2 runs (S i)) as [q Hqq].
    { apply lookup_lt_Some in Hx. lia. }
    specialize (Hq q Hqq). assert (t_start q <= t_start x) by (apply (Hs (S i) (S i + j)%nat); [lia|done|done]). lia.
  - apply Forall_lookup_2. intros j x Hx. apply lookup_take_Some in Hx as [Hx Hj].
    assert (t_start x <= t_start r) by (apply (Hs j i); [lia|done|done]). lia.
Qed.

(** A queried run that covers [t] holds the value [sample_at] reports. *)
Lemma run_covers_sample runs r t :
  runs_ok runs -> r ∈ effective runs -> t_start r <= t < t_end r ->
  run_value <$> run_at runs t = Some (run_value r).
Proof.
  intros Hok Hr Ht. destruct (runs_ok_sorted _ Hok) as (Hs & _).
  apply list_elem_of_lookup in Hr as [i Hi]. unfold effective in Hi.
  rewrite list_lookup_imap in Hi. apply fmap_Some in Hi as (x & Hx & ->). cbn in *.
  rewrite (run_at_lookup runs i x t); [done|done|done|lia|].
  intros q Hq. destruct (runs_link _ Hok i x q Hx Hq) as [E _].
  destruct (i =? length runs - 1)%nat eqn:Ei; [|lia].
  apply Nat.eqb_eq in Ei. apply lookup_lt_Some in Hq. lia.
Qed.

(** The run in force at [t] covers it, as a reader sees the runs. *)
Lemma run_at_covers runs q t :
  runs_ok runs -> run_at runs t = Some q -> t < u64_max ->
  exists r, r ∈ effective runs /\ t_start r <= t < t_end r.
Proof.
  intros Hok Hq Hmax. destruct (runs_ok_sorted _ Hok) as (Hs & _ & _). unfold run_at in Hq.
  set (fl := filter (fun r => t_start r <= t) runs) in *.
  assert (Hlen : (length fl <> 0)%nat) by (intros H; apply length_zero_iff_nil in H; by rewrite H in Hq).
  assert (Hle : t_start q <= t).
  { rewrite last_lookup in Hq. apply list_elem_of_lookup_2, list_elem_of_filter in Hq. tauto. }
  rewrite last_lookup in Hq. pose proof Hq as Hi.
  unfold fl in Hi. rewrite filter_prefix_lookup in Hi by (done || (fold fl; lia)). fold fl in Hi.
  exists (mkStateRun (t_start q) (if (pred (length fl) =? length runs - 1)%nat then u64_max else t_end q) (run_value q)).
  split; [apply (list_elem_of_lookup_2 _ (pred (length fl))); unfold effective; by rewrite list_lookup_imap, Hi|].
  cbn. destruct (_ =? _)%nat eqn:E; [lia|]. apply Nat.eqb_neq in E. split; [done|].
  destruct (lookup_lt_is_Some_2 runs (S (pred (length fl)))) as [n Hn]; [apply lookup_lt_Some in Hi; lia|].
  destruct (runs_link _ Hok _ _ _ Hi Hn) as [-> _]. destruct (Z_lt_le_dec t (t_start n)) as [|Hnle]; [done|]. exfalso.
  destruct (sorted_split_lt t_start runs (t + 1) Hs) as (Eq & _ & F2).
  assert (Hf : filter (fun x => t_start x < t + 1) runs = fl) by (apply list_filter_iff; lia).
  rewrite Eq, Hf, lookup_app_r in Hn by lia. apply (Forall_lookup_1 _ _ _ _ F2) in Hn. lia.
Qed.

(** Raw queries stay within their budget and window, in order. *)
Lemma strided_window A (vecs : list (list (Timestamp * A))) ch t0 t1 n l : Forall samples_ok vecs ->
  query_strided vecs ch t0 t1 n = Ok l ->
  (length l <= n)%nat /\ sorted_by fst l /\ Forall (fun x => t0 <= x.1 < t1) l.
Proof.
  intros Hv H. destruct (query_strided_spec vecs ch t0 t1 n Hv) as (l' & Hl' & Hn & Hsub & _).
  rewrite H in Hl'. simplify_eq. split; [done|]. unfold in_range in Hsub.
  split; [|eapply sublist_Forall; [exact Hsub|apply filter_window_range]].
  eapply sorted_by_sublist_of; [exact Hsub|].
  destruct (vecs !! Z.to_nat ch) as [v|] eqn:E; [|apply sorted_by_nil].
  apply samples_ok_filter. by apply (Forall_lookup_1 _ _ _ _ Hv E).
Qed.

#[global] Instance mock_store_laws p : @StoreLaws Inner (mock_store p) mock_wf.
Proof.
  split; cbn -[Z.pow].
  - intros s t0 t1 Hs E. pose proof (time_bounds_encloses s Hs) as H. rewrite E in H.
    destruct H as (H0 & H1 & Hall). pose proof (all_times_range s Hs) as Hr. rewrite Forall_forall in Hr, Hall.
    pose proof (Hr _ H0) as R0. pose proof (Hr _ H1) as R1. specialize (Hall _ H1). unfold in_u in *. lia.
  - intros s ch t0 t1 n Hs H0 H1. destruct (decide (n = 0%nat)) as [->|Hn]; [by eexists|].
    destruct (query_scalar_envelope p s ch t0 t1 n Hs H0 H1 Hn) as (bs & -> & _). by eexists.
  - intros s ch t0 t1 n bs Hs H0 H1 H. destruct (decide (n = 0%nat)) as [->|Hn].
    { injection H as <-. split; [apply sorted_by_nil|constructor]. }
    destruct (query_scalar_envelope p s ch t0 t1 n Hs H0 H1 Hn) as (bs' & E & [_ Hd Hb]).
    rewrite H in E. simplify_eq. split; [done|]. eapply Forall_impl; [exact Hd|].
    intros b ((x & Hx & <-) & _). by apply list_elem_of_filter in Hx as [? _].
  - intros. apply query_state_ok.
  - intros. by eapply query_state_window.
  - intros. by apply sample_at_ok.
  - intros s ch t0 t1 rs r t Hs H Hr Ht Ht1 Hrt (labels & info & Hc & Hk).
    change (in_channels s !! Z.to_nat ch = Some info) in Hc.
    pose proof (lookup_lt_Some _ _ _ Hc) as Hlt. rewrite <-(wf_states_len _ Hs) in Hlt.
    apply lookup_lt_is_Some in Hlt as [runs Hruns].
    assert (Hok : runs_ok runs) by (by apply (Forall_lookup_1 _ _ _ _ (wf_states _ Hs) Hruns)).
    assert (Hmax : t < u64_max) by (unfold in_u, u64_max in *; lia).
    rewrite (query_state_filter s ch t0 t1 runs) in H by (done || lia). simplify_eq.
    apply list_elem_of_filter in Hr as [_ Hr]. apply list_elem_of_filter in Hr as [_ Hr].
    rewrite (sample_at_runs p s ch t info labels runs) by done.
    pose proof (run_covers_sample runs r t Hok Hr Hrt) as E.
    apply fmap_Some in E as (q & -> & ->). done.
  - intros s ch t0 t1 rs t v Hs H Ht Ht1 (labels & info & Hc & Hk) Hv.
    change (in_channels s !! Z.to_nat ch = Some info) in Hc.
    pose proof (lookup_lt_Some _ _ _ Hc) as Hlt. rewrite <-(wf_states_len _ Hs) in Hlt.
    apply lookup_lt_is_Some in Hlt as [runs Hruns].
    assert (Hok : runs_ok runs) by (by apply (Forall_lookup_1 _ _ _ _ (wf_states _ Hs) Hruns)).
    assert (Hmax : t < u64_max) by (unfold in_u, u64_max in *; lia).
    rewrite (sample_at_runs p s ch t info labels runs) in Hv by done. injection Hv as Hv.
    apply fmap_Some in Hv as (q & Hq & _). destruct (run_at_covers runs q t Hok Hq Hmax) as (r & Hr & Hrt).
    rewrite (query_state_filter s ch t0 t1 runs) in H by (done || lia). injection H as <-.
    exists r. split; [|done]. do 2 (apply list_elem_of_filter; split; [lia|]). done.
  - intros s ch t0 t1 n Hs. destruct (query_strided_spec (in_scalars s) ch t0 t1 n (wf_scalars _ Hs)) as (l & Hl & _).
    by exists l.
  - intros s ch t0 t1 n Hs. destruct (query_strided_spec (in_texts s) ch t0 t1 n (wf_texts _ Hs)) as (l & Hl & _).
    by exists l.
  - intros s ch t0 t1 n l Hs. apply strided_window, Hs.
  - intros s ch t0 t1 n l Hs. apply strided_window, Hs.
  - intros s Hs. split; cbn; try done; try (by constructor). by apply wrap_range.
  - done.
Qed.

(** Successive observations of one state channel. *)
Fixpoint push_states (p : profile) (s : Inner) (ch : Z) (obs : list (Timestamp * Z)) : total Inner :=
  match obs with
  | [] => mret s
  | (t, v) :: obs => s ← push_state p s ch t v; push_states p s ch obs
  end.

Lemma push_states_runs p s ch obs s' runs :
  in_states s !! Z.to_nat ch = Some runs -> push_states p s ch obs = Ok s' ->
  in_states s' !! Z.to_nat ch = Some (push_runs runs obs) /\ in_channels s' = in_channels s.
Proof.
  revert s runs. induction obs as [|[t v] obs IH]; intros s runs Hr H; cbn [push_states] in H.
  - inv_bind. done.
  - apply bind_Ok in H as (s1 & Hp & H). unfold push_state in Hp. rewrite Hr in Hp.
    apply bind_Ok in Hp as (rev & _ & [= <-]).
    apply (IH _ (push_run runs t v)) in H; [done|]. cbn. apply list_lookup_insert_eq.
    by eapply lookup_lt_Some.
Qed.

(** ** Properties *)

(** C10: Every state the store can reach through registrations, pushes whose
    timestamps do not go backwards in their channel, and clears satisfies the
    representation invariant: parallel vectors, channel ids equal to positions,
    sorted samples, gap-free run lists without equal neighbours.  From such a
    state every admissible operation returns (unless a debug build exhausts the
    64-bit revision counter) and re-establishes the invariant. *)
Theorem store_invariant p s :
  reachable p s ->
  mock_wf s /\
  forall o, p = Release \/ in_revision s < u64_max -> admissible s o ->
    exists s', run_op p s o = Ok s' /\ reachable p s' /\ mock_wf s'.
Proof.
  intros Hr. pose proof (reachable_wf p s Hr) as Hs. split; [done|]. intros o Hp Ha.
  destruct (run_op_returns p s o Hp Hs) as [s' Hs']. exists s'. split; [done|].
  split; [by eapply reach_op|by eapply run_op_wf].
Qed.



(** Raw queries return exactly the samples of [t0, t1) when they fit the
    budget, and otherwise an in-order selection of at most [n] of them that
    starts with the first. *)
Theorem query_raw_window p s ch t0 t1 n :
  mock_wf s ->
  let xs := in_range (in_scalars s) ch t0 t1 in
  exists l, query_raw (Store := mock_store p) s ch t0 t1 n = Ok l /\
    (length l <= n)%nat /\ l `sublist_of` xs /\
    ((length xs <= n)%nat -> l = xs) /\ (xs <> [] -> n <> 0%nat -> head l = head xs).
Proof. intros Hs. apply query_strided_spec, Hs. Qed.

(** C28: Run-length storage loses nothing: after any log of observations with
    non-decreasing timestamps is pushed into a fresh state channel, sampling at
    [t] yields the value of the latest observation at or before [t], and
    nothing before the first observation. *)
Theorem sample_at_latest p s ch obs s' info labels t :
  in_channels s !! Z.to_nat ch = Some info -> ci_kind info = State labels ->
  in_states s !! Z.to_nat ch = Some [] ->
  samples_ok obs -> Forall (fun o => in_u 32 o.2) obs ->
  push_states p s ch obs = Ok s' -> t < u64_max ->
  sample_at (Store := mock_store p) s' ch t = Ok (f64_of_Z <$> held obs t).
Proof.
  intros Hc Hk He Hs Hv Hp Ht. destruct (push_states_runs _ _ _ _ _ _ He Hp) as [Hr Hch].
  destruct (push_runs_ok obs Hs Hv) as (Hok & _ & Hheld). cbn.
  rewrite <-Hch in Hc. rewrite (sample_at_runs p s' ch t info labels _ Hc Hk Hr Hok Ht).
  by rewrite <-Hheld, <-option_fmap_compose.
Qed.

(** A run query returns exactly the runs of the channel that meet the
    window [t0, t1), in order, with the trailing run held to the end of time. *)
Theorem query_state_runs p s ch t0 t1 runs :
  mock_wf s -> in_states s !! Z.to_nat ch = Some runs -> t0 < u64_max ->
  query_state (Store := mock_store p) s ch t0 t1 =
  Ok (filter (fun r => t_start r < t1) (filter (fun r => t0 < t_end r) (effective runs))).
Proof.
  intros Hs Hr Ht. apply query_state_filter; [done| |done].
  by apply (Forall_lookup_1 _ _ _ _ (wf_states _ Hs) Hr).
Qed.

(** Sampling a scalar channel yields a recorded value at a recorded time,
    the linear interpolation of the two neighbouring samples strictly between
    them, and nothing outside the recorded span. *)
Theorem sample_at_interpolates p s ch t info v :
  mock_wf s -> in_channels s !! Z.to_nat ch = Some info -> ci_kind info = Scalar ->
  in_scalars s !! Z.to_nat ch = Some v ->
  exists r, sample_at (Store := mock_store p) s ch t = Ok r /\ sample_spec v t r.
Proof.
  intros Hs Hc Hk Hv. apply (sample_at_scalar p s ch t info v Hc Hk Hv).
  by apply (Forall_lookup_1 _ _ _ _ (wf_scalars _ Hs) Hv).
Qed.

(** ** Concrete stores *)
Definition after_ops (p : profile) (ops : list op) : Inner :=
  foldl (fun s o => match run_op p s o with Ok s => s | _ => s end) MockStore_new ops.

Definition demo_ops : list op :=
  [AddScalar (str "imu.x"); AddState (str "mode") [str "idle"; str "run"];
   PushScalar 0 10 (f64_of_Z 1); PushScalar 0 20 (f64_of_Z 5); PushScalar 0 30 (f64_of_Z (-2));
   PushState 1 10 0; PushState 1 15 0; PushState 1 25 1].
Definition demo_store : Inner := after_ops Debug demo_ops.

(** A checker for histories. *)
Definition afterb {A} (time : A -> Z) (v : option (list A)) (t : Z) : bool :=
  in_ub 64 t && match v with
                | Some buf => match last buf with Some x => time x <=? t | None => true end
                | None => true
                end.
Definition admissibleb (s : Inner) (o : op) : bool :=
  match o with
  | PushScalar ch t _ => afterb fst (in_scalars s !! Z.to_nat ch) t
  | PushState ch t value => afterb t_end (in_states s !! Z.to_nat ch) t && in_ub 32 value
  | PushText ch t _ => afterb fst (in_texts s !! Z.to_nat ch) t
  | _ => true
  end.

Lemma afterb_spec {A} (time : A -> Z) v t : afterb time v t = true -> after time v t.
Proof.
  unfold afterb, after. intros [H1 H2]%andb_true_iff. split; [by apply in_ub_spec|].
  intros buf x -> Hx. rewrite Hx in H2. lia.
Qed.

Lemma admissibleb_spec s o : admissibleb s o = true -> admissible s o.
Proof.
  destruct o; cbn; try done; try apply afterb_spec.
  intros [H1 H2]%andb_true_iff. split; [by apply afterb_spec|by apply in_ub_spec].
Qed.

Fixpoint replay (p : profile) (s : Inner) (ops : list op) : option Inner :=
  match ops with
  | [] => Some s
  | o :: ops => if admissibleb s o then
      match run_op p s o with Ok s' => replay p s' ops | _ => None end else None
  end.

Lemma replay_reachable p ops s s' : reachable p s -> replay p s ops = Some s' -> reachable p s'.
Proof.
  revert s. induction ops as [|o ops IH]; intros s Hr H; cbn [replay] in H; [by simplify_eq|].
  destruct (admissibleb s o) eqn:Ea; [|done]. destruct (run_op p s o) as [s1| |] eqn:E; [|done|done].
  apply (IH s1); [|done]. eapply reach_op; [done|by apply admissibleb_spec|done].
Qed.

Lemma demo_reachable : reachable Debug demo_store.
Proof. apply (replay_reachable Debug demo_ops MockStore_new); [constructor|]. vm_compute. reflexivity. Qed.

Lemma demo_wf : mock_wf demo_store.
Proof. apply (reachable_wf Debug), demo_reachable. Qed.

Lemma store_invariant_witness : mock_wf demo_store.
Proof. apply (store_invariant Debug demo_store demo_reachable). Defined.


Lemma query_raw_window_witness :
  exists l, query_raw (Store := mock_store Debug) demo_store 0 10 31 2 = Ok l /\ (length l <= 2)%nat.
Proof.
  destruct (query_raw_window Debug demo_store 0 10 31 2 demo_wf) as (l & Hl & Hn & _).
  exact (ex_intro _ l (conj Hl Hn)).
Defined.

Lemma sample_at_latest_witness :
  sample_at (Store := mock_store Debug)
    (after_ops Debug [AddState (str "mode") []; PushState 0 10 3; PushState 0 15 3; PushState 0 25 7])
    0 20 = Ok (Some (f64_of_Z 3)).
Proof.
  apply (sample_at_latest Debug (after_ops Debug [AddState (str "mode") []]) 0
           [(10, 3); (15, 3); (25, 7)] _ (mkChannelInfo 0 (str "mode") (State []) true) []).
  - reflexivity.
  - reflexivity.
  - reflexivity.
  - split.
    + repeat (apply sorted_by_cons; [repeat constructor; cbn; lia|]). apply sorted_by_nil.
    + repeat (constructor; [apply in_ub_spec; reflexivity|]). constructor.
  - repeat (constructor; [apply in_ub_spec; reflexivity|]). constructor.
  - vm_compute. reflexivity.
  - reflexivity.
Defined.

Lemma query_state_runs_witness :
  query_state (Store := mock_store Debug) demo_store 1 12 20 = Ok [mkStateRun 10 25 0].
Proof.
  rewrite (query_state_runs Debug demo_store 1 12 20 [mkStateRun 10 25 0; mkStateRun 25 25 1]).
  - vm_compute. reflexivity.
  - exact demo_wf.
  - vm_compute. reflexivity.
  - reflexivity.
Defined.

Lemma sample_at_interpolates_witness :
  exists r, sample_at (Store := mock_store Debug) demo_store 0 15 = Ok r.
Proof.
  destruct (sample_at_interpolates Debug demo_store 0 15
    (mkChannelInfo 0 (str "imu.x") Scalar false)
    [(10, f64_of_Z 1); (20, f64_of_Z 5); (30, f64_of_Z (-2))]) as (r & Hr & _).
  - exact demo_wf.
  - vm_compute. reflexivity.
  - reflexivity.
  - vm_compute. reflexivity.
  - by exists r.
Defined.

(** ** Limits of the bucket arithmetic

    Bucket indices are computed in [f64].  When the window is wider than 2^53
    nanoseconds (104 days) the last sample can round up to index [n], one past
    the last bucket: the query returns more than [max_buckets] buckets, and
    [value_bounds], which asks for one bucket and reads the first, misses the
    samples of the second. *)
Definition wide_ops : list op :=
  [AddScalar (str "imu.x"); PushScalar 0 0 (f64_of_Z 1); PushScalar 0 (2 ^ 60) (f64_of_Z 9)].

(** The bucket budget and the global bounds are not kept over windows wider
    than 2^53 ns: with one sample at 0 and one 2^60 ns later, a one-bucket query
    over both returns two buckets, and [value_bounds] reports the first sample
    as the maximum although a larger one is stored. *)
Lemma wide_window_limits :
  let s := after_ops Debug wide_ops in
  (exists b0 b1, query_scalar (Store := mock_store Debug) s 0 0 (2 ^ 60 + 1) 1 = Ok [b0; b1]) /\
  value_bounds (H := mock_store Debug) s 0 = Ok (Some (f64_of_Z 1, f64_of_Z 1)) /\
  in_scalars s !! 0%nat = Some [(0, f64_of_Z 1); (2 ^ 60, f64_of_Z 9)].
Proof. split; [do 2 eexists|split]; vm_compute; reflexivity. Qed.

(** ** Bounds of a state channel *)

(** A window that starts within the data shows no value outside the bounds the
    store reports for the channel. *)
Lemma value_bounds_runs p s ch t0 t1 a b rs :
  mock_wf s -> in_scalars s !! Z.to_nat ch = Some [] ->
  mock_time_bounds s = Some (a, b) -> a <= t0 < t1 -> in_u 64 t1 ->
  mock_query_state s ch t0 t1 = Ok rs -> rs <> [] ->
  exists lo hi, value_bounds (H := mock_store p) s ch = Ok (Some (f64_of_Z lo, f64_of_Z hi)) /\
    in_u 32 lo /\ in_u 32 hi /\ Forall (fun r => lo <= run_value r <= hi) rs.
Proof.
  intros Hs Hsc Htb Ht Ht1 Hq Hne. unfold value_bounds. cbn [time_bounds mock_store]. rewrite Htb.
  pose proof (time_bounds_encloses s Hs) as Henc. rewrite Htb in Henc. destruct Henc as (_ & _ & Henc).
  set (t1' := sat_add 64 b 1). cbn [query_scalar query_state mock_store].
  assert (Hqs : mock_query_scalar p s ch a t1' 1 = Ok []).
  { unfold mock_query_scalar. rewrite Hsc. by destruct (_ || _). }
  rewrite Hqs. cbn [mbind res_bind].
  destruct (in_states s !! Z.to_nat ch) as [runs|] eqn:Hst.
  2:{ unfold mock_query_state in Hq. rewrite Hst in Hq. by injection Hq as <-. }
  assert (Hok : runs_ok runs) by (eapply (Forall_lookup_1 _ _ _ _ (wf_states _ Hs)); exact Hst).
  unfold in_u in Ht1. rewrite (query_state_filter s ch t0 t1 runs) in Hq by (done || unfold u64_max; lia).
  rewrite (query_state_filter s ch a t1' runs) by (done || unfold u64_max; lia). cbn [mbind res_bind].
  injection Hq as <-. set (g := filter _ (filter _ (effective runs))).
  assert (Hsub : forall r, r ∈ filter (fun r => t_start r < t1) (filter (fun r => t0 < t_end r) (effective runs)) ->
    r ∈ g /\ in_u 32 (run_value r)).
  { intros r [Hr1 [Hr2 Hr]%list_elem_of_filter]%list_elem_of_filter. pose proof Hr as [i Hi]%list_elem_of_lookup.
    apply effective_lookup in Hi as (x & Hx & Ex1 & Ex2 & _).
    pose proof (Forall_lookup_1 _ _ _ _ (runs_range _ Hok) Hx) as (_ & _ & Hv).
    assert (Hin : t_start x ∈ all_times s).
    { unfold all_times. rewrite !elem_of_app. right. left. apply list_elem_of_In, in_concat.
      exists (map t_start runs ++ map t_end runs). split.
      - apply in_map_iff. exists runs. split; [done|]. apply list_elem_of_In. by eapply list_elem_of_lookup_2.
      - apply in_app_iff. left. apply in_map. apply list_elem_of_In. by eapply list_elem_of_lookup_2. }
    apply (proj1 (Forall_forall _ _) Henc) in Hin. rewrite Ex2. split; [|done].
    apply list_elem_of_filter. unfold t1', sat_add. split; [lia|]. apply list_elem_of_filter. split; [lia|done]. }
  set (rs := filter _ (filter _ (effective runs))) in Hne, Hsub |- *.
  pose proof (fold_bounds g (2 ^ 32 - 1) 0) as Hb. destruct (foldl _ (2 ^ 32 - 1, 0) g) as [lo hi] eqn:Ef.
  destruct Hb as (B1 & B2 & B3 & B4 & B5).
  destruct rs as [|r0 rs0] eqn:Ers; [done|]. destruct (Hsub r0) as [Hr0 Hv0]; [apply elem_of_cons; by left|].
  destruct g as [|g0 gs] eqn:Eg; [by apply elem_of_nil in Hr0|]. exists lo, hi.
  pose proof (proj1 (Forall_forall _ _) B3 r0 Hr0) as Hb0. rewrite <-Eg in *.
  assert (Hvals : forall r, r ∈ g -> in_u 32 (run_value r)).
  { intros r Hr. unfold g in Hr. apply list_elem_of_filter in Hr as [_ [_ Hr]%list_elem_of_filter].
    apply list_elem_of_lookup in Hr as [i Hi]. apply effective_lookup in Hi as (x & Hx & _ & -> & _).
    pose proof (Forall_lookup_1 _ _ _ _ (runs_range _ Hok) Hx) as (_ & _ & Hv). done. }
  unfold in_u in *. split_and!; [done|..].
  - destruct B4 as [->|(q & Hq & <-)]; [lia|]. apply Hvals in Hq. lia.
  - lia.
  - lia.
  - destruct B5 as [->|(q & Hq & <-)]; [lia|]. apply Hvals in Hq. lia.
  - rewrite Forall_forall in B3 |- *. intros r Hr. apply B3. by apply Hsub.
Qed.
