(* ===== verification/Robust.v ===== *)
(** * btelem-store: queries of an undisciplined store

    The store asks for time stamps in order and does not check it, and what a peer
    sends is not checked either.  Whatever was pushed, in a release build every
    query of MockStore.v returns: the window of a query is found by two binary
    searches whose results are ordered on any vector, and sampling stays within the
    vectors, of which every channel has one. *)

From S2P Require Import Prelude Slices Text Float64 Store MockStore.

(** Every channel has its three vectors; nothing is said of their contents. *)
Record aligned (s : Inner) : Prop := {
  al_scalars : length (in_scalars s) = length (in_channels s);
  al_states : length (in_states s) = length (in_channels s);
  al_texts : length (in_texts s) = length (in_channels s);
}.

Lemma wf_aligned s : mock_wf s -> aligned s.
Proof. intros []. by split. Qed.

(** ** Binary search on any vector *)
Lemma bs_loop_bound {A} (cmp : A -> comparison) fuel l base size : (1 <= size)%nat -> (base + size <= length l)%nat ->
  (bs_loop cmp fuel l base size < length l)%nat.
Proof.
  revert base size. induction fuel as [|fuel IH]; intros base size H1 H2; cbn [bs_loop]; [lia|]. cbv zeta.
  destruct (1 <? size)%nat eqn:E; [|lia]. apply Nat.ltb_lt in E.
  assert (size / 2 < size)%nat by (apply Nat.div_lt; lia).
  destruct (l !! _) as [x|]; [destruct (cmp x)|]; apply IH; lia.
Qed.

Lemma search_bound {A} (key : A -> Z) t l :
  match search_key key t l with inl i => (i < length l)%nat | inr i => (i <= length l)%nat end.
Proof.
  unfold search_key, binary_search_by. destruct l as [|x l]; [done|]. set (l' := x :: l). cbv zeta.
  assert (Hb : (bs_loop (fun y => Z.compare (key y) t) (length l') l' 0 (length l') < length l')%nat) by (apply bs_loop_bound; cbn; lia).
  destruct (_ <$> _) as [[]|]; lia.
Qed.

(** ** Queries, in a release build *)
Local Abbreviation st := (mock_store Release).

Lemma arith_returns w z : exists x, (arith Release w z : total Z) = Ok x.
Proof. unfold arith. destruct (in_ub w z); by eexists. Qed.

Lemma bucket_loop_returns t0 bw l : forall i cur out, exists bs, bucket_loop Release t0 bw i cur out l = Ok bs.
Proof.
  induction l as [|[t v] l IH]; intros i cur out; cbn [bucket_loop]; [by eexists|].
  destruct (arith_returns 64 (t - t0)) as [d ->]. cbn [mbind res_bind]. destruct (negb _); apply IH.
Qed.

Lemma scalar_returns s ch t0 t1 n : exists bs, query_scalar (Store := st) s ch t0 t1 n = Ok bs.
Proof.
  cbn. unfold mock_query_scalar. destruct (_ || _) eqn:E; [by eexists|]. apply orb_false_iff in E as [_ E].
  destruct (in_scalars s !! _) as [v|]; [|by eexists]. rewrite time_window_ok by lia. cbn [mbind res_bind].
  case_bool_decide; [by eexists|]. destruct (_ <=? _)%nat; [by eexists|].
  destruct (arith_returns 64 (t1 - t0)) as [d ->]. apply bucket_loop_returns.
Qed.

Lemma strided_returns {A} (vecs : list (list (Timestamp * A))) ch t0 t1 n : exists l, query_strided vecs ch t0 t1 n = Ok l.
Proof.
  unfold query_strided. destruct (_ || _) eqn:E; [by eexists|]. apply orb_false_iff in E as [_ E].
  destruct (vecs !! _) as [v|]; [|by eexists]. rewrite time_window_ok by lia. cbn [mbind res_bind].
  destruct (_ <=? _)%nat; by eexists.
Qed.

Lemma state_returns s ch t0 t1 : exists rs, query_state (Store := st) s ch t0 t1 = Ok rs.
Proof.
  cbn. unfold mock_query_state. destruct (in_states s !! _) as [v|]; [|by eexists]. case_bool_decide; by eexists.
Qed.

Lemma sample_returns s ch t : aligned s -> exists v, sample_at (Store := st) s ch t = Ok v.
Proof.
  intros [L1 L2 _]. cbn. unfold mock_sample_at. destruct (in_channels s !! Z.to_nat ch) as [info|] eqn:Ei; [|by eexists].
  apply lookup_lt_Some in Ei. unfold index. destruct (ci_kind info); [| |by eexists].
  - destruct (lookup_lt_is_Some_2 (in_scalars s) (Z.to_nat ch)) as [v ->]; [lia|]. cbn [mbind res_bind].
    case_bool_decide; [by eexists|]. pose proof (search_bound fst t v) as Hb.
    destruct (search_key fst t v) as [i|i].
    + rewrite Nat2Z.id. destruct (lookup_lt_is_Some_2 v i) as [x ->]; [lia|]. by eexists.
    + destruct (_ || _) eqn:E; [by eexists|]. apply orb_false_iff in E as [E1 E2]. apply Nat.eqb_neq in E1, E2.
      destruct (lookup_lt_is_Some_2 v (Z.to_nat (Z.of_nat i - 1))) as [a ->]; [lia|]. cbn [mbind res_bind].
      rewrite Nat2Z.id. destruct (lookup_lt_is_Some_2 v i) as [b ->]; [lia|]. cbn [mbind res_bind].
      destruct (arith_returns 64 (t - a.1)) as [x ->]. destruct (arith_returns 64 (b.1 - a.1)) as [y ->]. by eexists.
  - destruct (lookup_lt_is_Some_2 (in_states s) (Z.to_nat ch)) as [v ->]; [lia|]. cbn [mbind res_bind].
    case_bool_decide; [by eexists|]. cbv zeta. set (idx := partition_point _ v).
    assert (idx <= length v)%nat by (apply (partition_point_mono (fun r => t_start r <=? t) (fun r => t_start r <=? t) v); done).
    clearbody idx. destruct (idx =? 0)%nat eqn:E; [by eexists|]. apply Nat.eqb_neq in E.
    destruct (lookup_lt_is_Some_2 v (Z.to_nat (Z.of_nat (idx - 1)))) as [r ->]; [lia|]. by eexists.
Qed.

Lemma bounds_returns s ch : exists v, value_bounds (H := st) s ch = Ok v.
Proof.
  unfold value_bounds. destruct (time_bounds s) as [[t0 t1]|]; [|by eexists]. cbv zeta.
  destruct (scalar_returns s ch t0 (sat_add 64 t1 1) 1) as [bs ->]. cbn [mbind res_bind]. destruct bs; [|by eexists].
  destruct (state_returns s ch t0 (sat_add 64 t1 1)) as [rs ->]. cbn [mbind res_bind]. destruct rs; [by eexists|].
  destruct (foldl _ _ _). by eexists.
Qed.
