(* ===== verification/Capture.v ===== *)
(** * btelem-capture: the packet ring and the .btlm file format

    Models viewer/crates/btelem-capture/src/lib.rs.  [Inner] is the state behind
    the mutex.  Files are byte lists in a map from paths; the clock is an
    argument ([now], nanoseconds).  The only I/O failures modelled are those a
    file's contents can cause (missing file, end of file, an offset [lseek]
    refuses); an allocation of 2^63 bytes or more panics. *)

From S2P Require Import Prelude Text Float64.
From S2P Require Wire.

Definition MAGIC : list byte := str "BTLM".
Definition VERSION : Z := 1.
Definition INDEX_MAGIC : Z := 0x494C5442.
Definition DEFAULT_RING_BYTES : Z := 256 * 1024 * 1024.
Definition PACKET_HEADER_SIZE : Z := 16.
Definition ENTRY_HEADER_SIZE : Z := 16.

Inductive io_error := UnexpectedEof | InvalidInput | NotFound.

Inductive CaptureError :=
| Io (e : io_error)
| NoSchema
| BadPacket (n : Z)
| BadMagic
| UnsupportedVersion (v : Z)
| Truncated.
Abbreviation capture := (res CaptureError).

Record PacketMeta := mkPacketMeta { pm_ts_min : Z; pm_ts_max : Z; pm_entry_count : Z }.

Record CaptureStats := mkCaptureStats {
  cs_packets : Z;
  cs_bytes : Z;
  cs_packets_total : Z;
  cs_packets_dropped : Z;
  cs_ts_min : option Z;
  cs_ts_max : option Z;
  cs_age_secs : f64;
  cs_has_schema : bool;
}.

Record Inner := mkInner {
  schema : option (list byte);
  packets : list (list byte * PacketMeta);
  bytes : Z;
  cap_bytes : Z;
  packets_total : Z;
  packets_dropped : Z;
  epoch : option Z;
}.

(** ** The ring *)
Definition Inner_new (cap : Z) : Inner := mkInner None [] 0 cap 0 0 None.
Definition with_capacity (cap : Z) : Inner := Inner_new cap.
Definition default_capture : Inner := with_capacity DEFAULT_RING_BYTES.

Definition clear (g : Inner) : Inner := mkInner None [] 0 (cap_bytes g) 0 0 None.

(** The eviction loop: pop the oldest packet while over budget. *)
Fixpoint evict_to_fit (p : profile) (cap : Z) (pkts : list (list byte * PacketMeta)) (n dropped : Z)
  : capture (list (list byte * PacketMeta) * Z * Z) :=
  if cap <? n then
    match pkts with
    | [] => mret (pkts, n, dropped)
    | (pkt, _) :: pkts =>
      n ← arith p 64 (n - blen pkt);
      dropped ← arith p 64 (dropped + 1);
      evict_to_fit p cap pkts n dropped
    end
  else mret (pkts, n, dropped).

Definition set_schema (g : Inner) (blob : list byte) (now : Z) : Inner * bool :=
  let differs := match schema g with Some s => bool_decide (s <> blob) | None => false end in
  (mkInner (Some blob) (packets g) (bytes g) (cap_bytes g) (packets_total g) (packets_dropped g)
     (match epoch g with None => Some now | e => e end), differs).

Definition current_schema (g : Inner) : option (list byte) := schema g.

(** Timestamps and entry count of a packet, from its entry table. *)
Fixpoint meta_loop (buf : list byte) (n : nat) (i ts_min ts_max : Z) : capture (Z * Z) :=
  match n with
  | O => mret (ts_min, ts_max)
  | S n =>
    let off := PACKET_HEADER_SIZE + i * ENTRY_HEADER_SIZE + 8 in
    b ← subslice buf off 8;
    let ts := le_u b in
    meta_loop buf n (i + 1) (Z.min ts_min ts) (Z.max ts_max ts)
  end.

Definition extract_meta (buf : list byte) : capture PacketMeta :=
  if blen buf <? PACKET_HEADER_SIZE then Err (BadPacket (blen buf))
  else
    b0 ← index buf 0;
    b1 ← index buf 1;
    let entry_count := le_u [b0; b1] in
    let need := PACKET_HEADER_SIZE + entry_count * ENTRY_HEADER_SIZE in
    if blen buf <? need then Err (BadPacket (blen buf))
    else if entry_count =? 0 then mret (mkPacketMeta 0 0 0)
    else
      ts ← meta_loop buf (Z.to_nat entry_count) 0 u64_max 0;
      mret (mkPacketMeta ts.1 ts.2 entry_count).

Definition push_packet (p : profile) (g : Inner) (pkt : list byte) (now : Z) : capture Inner :=
  meta ← extract_meta pkt;
  n ← arith p 64 (bytes g + blen pkt);
  total ← arith p 64 (packets_total g + 1);
  let ep := match epoch g with None => Some now | e => e end in
  r ← evict_to_fit p (cap_bytes g) (packets g ++ [(pkt, meta)]) n (packets_dropped g);
  let '(pkts, n, dropped) := r in
  mret (mkInner (schema g) pkts n (cap_bytes g) total dropped ep).

(** [Iterator::min]/[max]. *)
Definition list_min (l : list Z) : option Z :=
  match l with [] => None | x :: l => Some (foldl Z.min x l) end.
Definition list_max (l : list Z) : option Z :=
  match l with [] => None | x :: l => Some (foldl Z.max x l) end.

(** [Duration::as_secs_f64] of a duration in nanoseconds. *)
Definition as_secs_f64 (ns : Z) : f64 :=
  f64_add (f64_of_Z (ns / 10 ^ 9)) (f64_div (f64_of_Z (ns mod 10 ^ 9)) (f64_of_Z (10 ^ 9))).

Definition stats (g : Inner) (now : Z) : CaptureStats :=
  let '(lo, hi) :=
    match packets g with
    | [] => (None, None)
    | _ => (list_min (map (fun x => pm_ts_min x.2) (packets g)),
            list_max (map (fun x => pm_ts_max x.2) (packets g)))
    end in
  let age := match epoch g with
             | Some t => as_secs_f64 (Z.max 0 (now - t))
             | None => f64_of_Z 0
             end in
  mkCaptureStats (blen (packets g)) (bytes g) (packets_total g) (packets_dropped g) lo hi age
    (match schema g with Some _ => true | None => false end).

Definition has_data (g : Inner) : bool := negb (bool_decide (packets g = [])).

(** ** Writing .btlm *)
Definition le2 := le_bytes 2.
Definition le4 := le_bytes 4.
Definition le8 := le_bytes 8.

(** The packet loop: each packet's position is the number of bytes written. *)
Fixpoint write_packets (w : list byte) (pkts : list (list byte * PacketMeta))
  : list byte * list (Z * PacketMeta) :=
  match pkts with
  | [] => (w, [])
  | (pkt, meta) :: pkts =>
    let off := blen w in
    let '(w, offsets) := write_packets (w ++ pkt) pkts in
    (w, (off, meta) :: offsets)
  end.

Definition index_entry (x : Z * PacketMeta) : list byte :=
  le8 x.1 ++ le8 (pm_ts_min x.2) ++ le8 (pm_ts_max x.2) ++ le4 (pm_entry_count x.2).

Definition write_btlm_inner (sch : list byte) (pkts : list (list byte * PacketMeta)) : list byte :=
  let w := MAGIC ++ le2 VERSION ++ le4 (wrap 32 (blen sch)) ++ sch in
  let '(w, offsets) := write_packets w pkts in
  let index_offset := blen w in
  w ++ concat (map index_entry offsets) ++
  le8 index_offset ++ le4 (wrap 32 (blen offsets)) ++ le4 INDEX_MAGIC.

(** Files by path. *)
Abbreviation files := (gmap text (list byte)).

Record SaveReport := mkSaveReport { sr_packets : Z; sr_bytes : Z; sr_schema_bytes : Z }.

Definition save_btlm (g : Inner) (fs : files) (path : text) : capture (files * SaveReport) :=
  match schema g with
  | None => Err NoSchema
  | Some sch =>
    let w := write_btlm_inner sch (packets g) in
    mret (<[path := w]> fs, mkSaveReport (blen (packets g)) (blen w) (blen sch))
  end.

(** ** Reading .btlm *)
Record LoadedCapture := mkLoadedCapture { lc_schema : list byte; lc_packets : list (list byte) }.

(** [read_exact] of [n] bytes at position [pos]. *)
Definition read_exact (file : list byte) (pos n : Z) : capture (list byte) :=
  if (n =? 0) || (pos + n <=? blen file) then Ok (slice file pos n) else Err (Io UnexpectedEof).

(** [seek(SeekFrom::Start(off))]: the system call takes a signed offset. *)
Definition seek_start (off : Z) : capture Z :=
  if off <? 2 ^ 63 then Ok off else Err (Io InvalidInput).

(** [vec![0u8; len]]: a length above [isize::MAX] panics. *)
Definition alloc (len : Z) : capture unit := if len <? 2 ^ 63 then Ok tt else Panic.

Fixpoint read_index (file : list byte) (n : nat) (pos : Z) : capture (list Z) :=
  match n with
  | O => mret []
  | S n =>
    buf ← read_exact file pos 28;
    l ← read_index file n (pos + 28);
    mret (le_u (slice buf 0 8) :: l)
  end.

(** Packet [i] extends to the next entry's offset, the last one to the index. *)
Fixpoint read_packets (file : list byte) (index_offset : Z) (entries : list Z)
  : capture (list (list byte)) :=
  match entries with
  | [] => mret []
  | start :: rest =>
    let end_ := match rest with next :: _ => next | [] => index_offset end in
    if end_ <? start then Err Truncated
    else
      let len := end_ - start in
      pos ← seek_start start;
      _ ← alloc len;
      buf ← read_exact file pos len;
      l ← read_packets file index_offset rest;
      mret (buf :: l)
  end.

Definition read_btlm (fs : files) (path : text) : capture LoadedCapture :=
  match fs !! path with
  | None => Err (Io NotFound)
  | Some file =>
    magic ← read_exact file 0 4;
    if bool_decide (magic <> MAGIC) then Err BadMagic
    else
      ver ← read_exact file 4 2;
      let version := le_u ver in
      if negb (version =? VERSION) then Err (UnsupportedVersion version)
      else
        slen ← read_exact file 6 4;
        let schema_len := le_u slen in
        sch ← read_exact file 10 schema_len;
        let total := blen file in
        if total <? 16 then Err Truncated
        else
          footer ← read_exact file (total - 16) 16;
          let index_offset := le_u (slice footer 0 8) in
          let count := le_u (slice footer 8 4) in
          let magic_le := le_u (slice footer 12 4) in
          if negb (magic_le =? INDEX_MAGIC) then Err BadMagic
          else
            pos ← seek_start index_offset;
            entries ← read_index file (Z.to_nat count) pos;
            pkts ← read_packets file index_offset entries;
            mret (mkLoadedCapture sch pkts)
  end.

(** ** Suggested file names *)
Definition is_leap (year : Z) : bool :=
  ((year mod 4 =? 0) && negb (year mod 100 =? 0)) || (year mod 400 =? 0).
Definition year_days (year : Z) : Z := if is_leap year then 366 else 365.
Definition month_days (year : Z) : list Z :=
  [31; if is_leap year then 29 else 28; 31; 30; 31; 30; 31; 31; 30; 31; 30; 31].

(** The year loop; [fuel] bounds its iterations. *)
Fixpoint year_loop (p : profile) (fuel : nat) (days year : Z) : total (Z * Z) :=
  if days <? year_days year then mret (days, year)
  else match fuel with
  | O => mret (days, year)
  | S fuel => year' ← arith p 32 (year + 1); year_loop p fuel (days - year_days year) year'
  end.

Fixpoint month_loop (mds : list Z) (days month : Z) : Z * Z :=
  match mds with
  | [] => (days, month)
  | md :: mds => if days <? md then (days, month) else month_loop mds (days - md) (month + 1)
  end.

Definition utc_components (p : profile) (unix_secs : Z) : total (Z * Z * Z * Z * Z * Z) :=
  let ss := unix_secs mod 60 in
  let mm := unix_secs / 60 mod 60 in
  let hh := unix_secs / 3600 mod 24 in
  let days := unix_secs / 86400 in
  r ← year_loop p (Z.to_nat (days / 365)) days 1970;
  let '(days, year) := r in
  let '(days, month) := month_loop (month_days year) days 1 in
  day ← arith p 32 (days + 1);
  mret (year, month, day, hh, mm, ss).

Definition suggested_filename_with (p : profile) (secs : Z) (prefix : text) (suffix : option text)
  : total text :=
  c ← utc_components p secs;
  let '(y, m, d, hh, mm, ss) := c in
  let sfx := match suffix with Some s => str "-" ++ s | None => [] end in
  mret (prefix ++ str "-" ++ fmt_pad 4 y ++ fmt_pad 2 m ++ fmt_pad 2 d ++ str "-" ++
        fmt_pad 2 hh ++ fmt_pad 2 mm ++ fmt_pad 2 ss ++ sfx ++ str ".btlm").

Definition suggested_filename (p : profile) (secs : Z) : total text :=
  suggested_filename_with p secs (str "btelem") None.

(** ** The ring as a bounded queue *)

(** Bytes held by a queue of packets. *)
Definition size (pkts : list (list byte)) : Z := blen (concat pkts).

(** [r] is the longest suffix of [h] that fits into [cap] bytes. *)
Definition longest_fit (cap : Z) (h r : list (list byte)) : Prop :=
  r `suffix_of` h /\ size r <= cap /\
  forall r', r' `suffix_of` h -> size r' <= cap -> r' `suffix_of` r.

Lemma size_app a b : size (a ++ b) = size a + size b.
Proof. unfold size. by rewrite concat_app, blen_app. Qed.

Lemma size_cons x l : size (x :: l) = blen x + size l.
Proof. unfold size. cbn [concat]. by rewrite blen_app. Qed.

Lemma size_nonneg l : 0 <= size l.
Proof. apply blen_nonneg. Qed.

Lemma size_suffix r h : r `suffix_of` h -> size r <= size h.
Proof. intros [k ->]. rewrite size_app. pose proof (size_nonneg k). lia. Qed.

Lemma suffix_cons_cases {A} (r l : list A) x :
  r `suffix_of` x :: l -> r = x :: l \/ r `suffix_of` l.
Proof.
  intros [[|y k] E]; simplify_eq/=; [by left|]. right. by exists k.
Qed.

(** A ring is consistent: its byte count is the size of its packets, within
    budget, and each packet carries its own metadata. *)
Definition bodies (pkts : list (list byte * PacketMeta)) : list (list byte) := map fst pkts.

Record ring_ok (g : Inner) : Prop := {
  ring_bytes : bytes g = size (bodies (packets g));
  ring_budget : bytes g <= cap_bytes g;
  ring_meta : Forall (fun x => extract_meta x.1 = Ok x.2) (packets g);
  ring_counts : packets_total g = packets_dropped g + blen (packets g);
  ring_dropped : 0 <= packets_dropped g;
}.

(** Eviction drops the fewest oldest packets and keeps the counters exact. *)
Lemma evict_spec p cap pkts dropped :
  0 <= cap -> size (bodies pkts) < 2 ^ 64 -> 0 <= dropped -> dropped + blen pkts < 2 ^ 64 ->
  exists k kept, pkts = k ++ kept /\
    evict_to_fit p cap pkts (size (bodies pkts)) dropped =
      Ok (kept, size (bodies kept), dropped + blen k) /\
    longest_fit cap (bodies pkts) (bodies kept).
Proof.
  intros Hc. revert dropped. induction pkts as [|[pkt m] pkts IH]; intros dropped Hs Hd Hl.
  - exists [], []. change (size (bodies [])) with 0. cbn [evict_to_fit].
    replace (cap <? 0) with false by lia.
    replace (dropped + blen []) with dropped by (unfold blen; simpl; lia).
    split; [done|]. split; [done|]. split; [done|]. split; [done|]. intros r' Hr _. exact Hr.
  - cbn [evict_to_fit]. cbn [bodies map fst] in *. fold (bodies pkts) in *.
    rewrite size_cons in *. pose proof (blen_nonneg pkt). pose proof (size_nonneg (bodies pkts)).
    rewrite blen_cons in Hl. pose proof (blen_nonneg pkts).
    destruct (cap <? blen pkt + size (bodies pkts)) eqn:E.
    + rewrite (arith_ok p 64 (_ - _)) by (unfold in_u; lia). cbn [mbind res_bind].
      rewrite arith_ok by (unfold in_u; lia). cbn [mbind res_bind].
      replace (blen pkt + size (bodies pkts) - blen pkt) with (size (bodies pkts)) by lia.
      destruct (IH (dropped + 1)) as (k & kept & -> & -> & (F1 & F2 & F3)); [lia..|].
      exists ((pkt, m) :: k), kept. split_and!; [done| |].
      * rewrite blen_cons. do 2 f_equal. lia.
      * split_and!; [by apply suffix_cons_r|done|]. intros r' Hr Hs'.
        apply suffix_cons_cases in Hr as [->|Hr]; [|by apply F3].
        rewrite size_cons in Hs'. lia.
    + exists [], ((pkt, m) :: pkts). cbn [app]. split_and!; [done| |].
      * cbn [bodies map fst]. fold (bodies pkts). rewrite size_cons.
        replace (dropped + blen []) with dropped by (rewrite blen_nil; lia). done.
      * cbn [bodies map fst]. fold (bodies pkts). split; [done|]. split; [rewrite size_cons; lia|].
        intros r' Hr _. exact Hr.
Qed.

(** Pushing onto a ring that holds the longest fitting suffix of a history
    leaves the longest fitting suffix of the extended history. *)
Lemma longest_fit_snoc cap h r x s :
  longest_fit cap h r -> longest_fit cap (r ++ [x]) s -> longest_fit cap (h ++ [x]) s.
Proof.
  intros (R1 & R2 & R3) (S1 & S2 & S3). split_and!; [|done|].
  - etrans; [exact S1|]. destruct R1 as [k ->]. exists k. by rewrite app_assoc.
  - intros q [k Hq] Hs. apply S3; [|done].
    destruct q as [|z q _] using rev_ind; [apply suffix_nil|].
    rewrite app_assoc in Hq. apply app_inj_tail in Hq as [-> <-].
    destruct (R3 q) as [k' Hk']; [by exists k|rewrite size_app in Hs; pose proof (size_nonneg [x]); lia|].
    exists k'. by rewrite Hk', app_assoc.
Qed.

(** A ring fed with [hist]: rejected packets leave it unchanged. *)
Fixpoint feed (p : profile) (g : Inner) (hist : list (list byte * Z)) : capture Inner :=
  match hist with
  | [] => mret g
  | (pkt, now) :: hist =>
    match push_packet p g pkt now with
    | Ok g' => feed p g' hist
    | Err _ => feed p g hist
    | Panic => Panic
    end
  end.

Definition acceptable (pkt : list byte) : bool :=
  match extract_meta pkt with Ok _ => true | _ => false end.
Definition accepted (hist : list (list byte * Z)) : list (list byte) :=
  filter (fun pkt => acceptable pkt = true) (map fst hist).

Lemma push_packet_ok p g pkt now m h :
  ring_ok g -> cap_bytes g < 2 ^ 63 -> extract_meta pkt = Ok m -> blen pkt < 2 ^ 63 ->
  packets_total g + 1 < 2 ^ 64 -> longest_fit (cap_bytes g) h (bodies (packets g)) ->
  exists g', push_packet p g pkt now = Ok g' /\ ring_ok g' /\
    cap_bytes g' = cap_bytes g /\ schema g' = schema g /\
    packets_total g' = packets_total g + 1 /\
    longest_fit (cap_bytes g) (h ++ [pkt]) (bodies (packets g')).
Proof.
  intros [Hb Hle Hm Hc Hd] Hcap He Hl Ht Hfit. unfold push_packet. rewrite He. cbn [mbind res_bind].
  pose proof (size_nonneg (bodies (packets g))). pose proof (blen_nonneg pkt).
  pose proof (blen_nonneg (packets g)).
  rewrite (arith_ok p 64 (bytes g + _)) by (unfold in_u; lia). cbn [mbind res_bind].
  rewrite arith_ok by (unfold in_u; lia). cbn [mbind res_bind]. cbv zeta.
  assert (Hsz : bytes g + blen pkt = size (bodies (packets g ++ [(pkt, m)]))).
  { unfold bodies. rewrite map_app, size_app, Hb. unfold size at 3. cbn. by rewrite app_nil_r. }
  destruct (evict_spec p (cap_bytes g) (packets g ++ [(pkt, m)]) (packets_dropped g))
    as (k & kept & Ek & Ev & Hk); [lia|lia|lia|rewrite blen_app; change (blen [(pkt, m)]) with 1; lia|].
  rewrite Hsz, Ev. cbn [mbind res_bind]. eexists. split; [done|].
  assert (Hlen : blen (packets g) + 1 = blen k + blen kept).
  { apply (f_equal blen) in Ek. rewrite !blen_app in Ek. exact Ek. }
  split; [|cbn; split_and!; [done..|]].
  - split; cbn [bytes packets cap_bytes packets_total packets_dropped].
    + done.
    + apply Hk.
    + assert (Hall : Forall (fun x => extract_meta x.1 = Ok x.2) (packets g ++ [(pkt, m)])).
      { apply Forall_app. split; [done|]. by constructor. }
      rewrite Ek in Hall. by apply Forall_app in Hall as [_ ?].
    + lia.
    + pose proof (blen_nonneg k). lia.
  - eapply longest_fit_snoc; [exact Hfit|]. unfold bodies in Hk. by rewrite map_app in Hk.
Qed.

Lemma feed_ok p g hist h :
  ring_ok g -> cap_bytes g < 2 ^ 63 -> longest_fit (cap_bytes g) h (bodies (packets g)) ->
  Forall (fun x => blen x.1 < 2 ^ 63 /\ extract_meta x.1 <> Panic) hist ->
  packets_total g + blen hist < 2 ^ 64 ->
  exists g', feed p g hist = Ok g' /\ ring_ok g' /\ cap_bytes g' = cap_bytes g /\
    packets_total g' = packets_total g + blen (accepted hist) /\
    longest_fit (cap_bytes g) (h ++ accepted hist) (bodies (packets g')).
Proof.
  revert g h. induction hist as [|[pkt now] hist IH]; intros g h Hr Hc Hf Hall Hn.
  - exists g. unfold accepted. cbn. rewrite app_nil_r. by rewrite Z.add_0_r.
  - apply Forall_cons in Hall as [[Hl Hp] Hall]. rewrite blen_cons in Hn. pose proof (blen_nonneg hist).
    cbn [feed fst] in *. unfold accepted. cbn [map fst]. rewrite filter_cons.
    destruct (extract_meta pkt) as [m|e|] eqn:Em; [| |done].
    + rewrite decide_True by (unfold acceptable; by rewrite Em). fold (accepted hist).
      destruct (push_packet_ok p g pkt now m h) as (g1 & -> & Hr1 & Hc1 & _ & Ht1 & Hf1); [done|done|done|done|lia|done|].
      rewrite <-Hc1 in Hf1.
      destruct (IH g1 (h ++ [pkt]) Hr1) as (g' & -> & Hr' & Hc' & Ht' & Hf'); [lia|done|done|lia|].
      exists g'. rewrite Hc1, <-app_assoc in Hf'. rewrite blen_cons. split_and!; [done|done|lia|lia|done].
    + rewrite decide_False by (unfold acceptable; by rewrite Em). fold (accepted hist). unfold push_packet. rewrite Em. cbn [mbind res_bind].
      apply IH; [done|done|done|done|lia].
Qed.

(** ** Packet metadata agrees with the packet decoder *)
Lemma meta_loop_spec buf ts lo hi i :
  (forall j t, ts !! j = Some t -> Wire.reads 8 buf (16 + 16 * (i + Z.of_nat j) + 8) t) ->
  meta_loop buf (length ts) i lo hi = Ok (foldl Z.min lo ts, foldl Z.max hi ts).
Proof.
  revert lo hi i. induction ts as [|t ts IH]; intros lo hi i H; cbn [meta_loop length foldl]; [done|].
  destruct (H 0%nat t eq_refl) as (Hb & Ht & _). rewrite Z.add_0_r in Hb, Ht.
  unfold PACKET_HEADER_SIZE, ENTRY_HEADER_SIZE, subslice.
  replace (16 + i * 16 + 8) with (16 + 16 * i + 8) by lia.
  replace (_ <=? _) with true by lia. cbn [mbind res_bind]. rewrite <-Ht. apply IH.
  intros j t' Hj. replace (i + 1 + Z.of_nat j) with (i + Z.of_nat (S j)) by lia. by apply H.
Qed.

Lemma extract_meta_safe buf : extract_meta buf <> Panic.
Proof.
  unfold extract_meta, PACKET_HEADER_SIZE, ENTRY_HEADER_SIZE.
  destruct (blen buf <? 16) eqn:E; [done|].
  destruct (@Wire.index_slice CaptureError buf 0) as (b0 & -> & _); [lia|].
  destruct (@Wire.index_slice CaptureError buf 1) as (b1 & -> & _); [lia|].
  cbn [mbind res_bind]. cbv zeta. set (ec := le_u [b0; b1]).
  destruct (blen buf <? 16 + ec * 16) eqn:E2; [done|]. destruct (ec =? 0); [discriminate|].
  assert (Hec : 0 <= ec) by apply le_u_range.
  assert (Hm : forall n i lo hi, 0 <= i -> i + Z.of_nat n <= ec -> meta_loop buf n i lo hi <> Panic).
  { induction n as [|n IH]; intros i lo hi Hi Hn; cbn [meta_loop]; [discriminate|].
    unfold PACKET_HEADER_SIZE, ENTRY_HEADER_SIZE, subslice.
    replace (_ <=? _) with true by lia. cbn [mbind res_bind]. apply IH; lia. }
  apply bind_no_panic; [apply Hm; lia|]. intros [? ?] _. discriminate.
Qed.

Lemma foldl_min_le l x : foldl Z.min x l <= x.
Proof. revert x. induction l as [|y l IH]; intros x; cbn; [lia|]. specialize (IH (Z.min x y)). lia. Qed.
Lemma foldl_max_le l x : x <= foldl Z.max x l.
Proof. revert x. induction l as [|y l IH]; intros x; cbn; [lia|]. specialize (IH (Z.max x y)). lia. Qed.

Lemma extract_meta_decoded buf p :
  Wire.decode_packet buf = Ok p ->
  let ts := map Wire.de_timestamp (Wire.pk_entries p) in
  extract_meta buf =
  Ok (mkPacketMeta (default 0 (list_min ts)) (default 0 (list_max ts)) (blen ts)).
Proof.
  intros H. cbv zeta. apply Wire.decode_packet_Ok in H as ((Hb0 & Hec & Hr) & _ & (_ & _ & Hps) & _ & Hb & Hn & Hes).
  set (ec := Wire.ph_entry_count (Wire.pk_header p)) in *. unfold in_u in *.
  set (ts := map _ _). assert (Hts : blen ts = ec) by (unfold blen, ts in *; by rewrite length_map).
  unfold extract_meta, PACKET_HEADER_SIZE, ENTRY_HEADER_SIZE. replace (_ <? 16) with false by lia.
  destruct (@Wire.index_slice CaptureError buf 0) as (b0 & -> & S0); [lia|].
  destruct (@Wire.index_slice CaptureError buf 1) as (b1 & -> & S1); [lia|].
  cbn [mbind res_bind]. cbv zeta.
  change (slice buf 0 2) with (slice buf 0 (1 + 1)) in Hec.
  rewrite (Wire.slice_succ buf 0 1), S0 in Hec by lia. change (0 + 1) with 1 in Hec. rewrite S1 in Hec.
  change ([b0] ++ [b1]) with [b0; b1] in Hec. rewrite <-Hec.
  replace (blen buf <? 16 + ec * 16) with false by lia.
  destruct (ec =? 0) eqn:E0.
  - assert (ts = []) as -> by (destruct ts; [done|rewrite blen_cons in Hts; pose proof (blen_nonneg ts); lia]). done.
  - replace (Z.to_nat ec) with (length ts) by (unfold blen in Hts; lia).
    rewrite (meta_loop_spec buf ts).
    2:{ intros j t Hj. unfold ts in Hj. apply list_lookup_fmap_Some in Hj as (e & -> & He).
        rewrite Z.add_0_l. by apply (Hes j e). }
    cbn [mbind res_bind fst snd]. rewrite Hts.
    assert (Hrange : Forall (in_u 64) ts).
    { apply Forall_map, Forall_lookup_2. intros j e He. destruct (Hes j e He) as (_ & (_ & _ & ?) & _). done. }
    destruct ts as [|t ts']; [by rewrite blen_nil in Hts; lia|]. cbn [foldl list_min list_max default].
    apply Forall_cons in Hrange as [Ht _]. unfold in_u, u64_max in *.
    by rewrite Z.min_r, Z.max_r by lia.
Qed.

(** ** The file format *)

(** Where successive packets start. *)
Fixpoint starts (pos : Z) (pkts : list (list byte)) : list Z :=
  match pkts with [] => [] | pkt :: pkts => pos :: starts (pos + blen pkt) pkts end.

Lemma write_packets_spec w pkts :
  write_packets w pkts =
  (w ++ concat (bodies pkts), zip (starts (blen w) (bodies pkts)) (map snd pkts)).
Proof.
  revert w. induction pkts as [|[pkt m] pkts IH]; intros w; cbn; [by rewrite app_nil_r|].
  rewrite IH, blen_app, <-app_assoc. done.
Qed.

Lemma length_starts pos pkts : length (starts pos pkts) = length pkts.
Proof. revert pos. induction pkts; intros; simpl; auto. Qed.

Lemma starts_range pos pkts : Forall (fun o => pos <= o <= pos + size pkts) (starts pos pkts).
Proof.
  revert pos. induction pkts as [|x l IH]; intros pos; cbn [starts]; constructor.
  - pose proof (size_nonneg (x :: l)). lia.
  - rewrite size_cons. pose proof (blen_nonneg x). eapply Forall_impl; [apply IH|]. simpl. lia.
Qed.

Lemma read_exact_seg file off x n : seg file off x -> n = blen x -> read_exact file off n = Ok x.
Proof.
  intros Hs ->. pose proof (seg_bounds _ _ _ Hs). unfold read_exact.
  replace (off + blen x <=? blen file) with true by lia. rewrite orb_true_r.
  by rewrite (seg_slice _ _ _ _ Hs).
Qed.

Lemma blen_index_entry x : blen (index_entry x) = 28.
Proof. unfold index_entry, le8, le4. autorewrite with blen. reflexivity. Qed.

Lemma slice_index_entry x : in_u 64 x.1 -> le_u (slice (index_entry x) 0 8) = x.1.
Proof.
  intros H. assert (Hs : seg (index_entry x) 0 (le8 x.1)) by (by eexists [], _).
  rewrite (seg_slice _ _ _ 8 Hs) by (unfold le8; by rewrite blen_le_bytes).
  by apply le_u_le_bytes.
Qed.

Lemma read_index_spec file pos l :
  seg file pos (concat (map index_entry l)) -> Forall (fun x => in_u 64 x.1) l ->
  read_index file (length l) pos = Ok (map fst l).
Proof.
  revert pos. induction l as [|x l IH]; intros pos Hs Hr; cbn [length read_index map]; [done|].
  cbn [map concat] in Hs. apply seg_app in Hs as [H1 H2]. rewrite blen_index_entry in H2.
  apply Forall_cons in Hr as [Hx Hr].
  rewrite (read_exact_seg _ _ _ _ H1) by (by rewrite blen_index_entry). cbn [mbind res_bind].
  rewrite IH by done. cbn [mbind res_bind]. by rewrite slice_index_entry.
Qed.

Lemma read_packets_spec file pos pkts :
  seg file pos (concat pkts) -> pos + size pkts < 2 ^ 63 ->
  read_packets file (pos + size pkts) (starts pos pkts) = Ok pkts.
Proof.
  revert pos. induction pkts as [|x l IH]; intros pos Hs Hr; cbn [starts read_packets]; [done|].
  cbn [concat] in Hs. apply seg_app in Hs as [H1 H2]. rewrite size_cons in *.
  pose proof (seg_bounds _ _ _ H1). pose proof (blen_nonneg x). pose proof (size_nonneg l).
  assert (Hend : match starts (pos + blen x) l with next :: _ => next | [] => pos + (blen x + size l) end
                 = pos + blen x).
  { destruct l; cbn [starts]; [|done]. change (size []) with 0. lia. }
  rewrite Hend. replace (pos + blen x <? pos) with false by lia.
  unfold seek_start. replace (pos <? 2 ^ 63) with true by lia. cbn [mbind res_bind].
  unfold alloc. replace (_ <? 2 ^ 63) with true by lia. cbn [mbind res_bind].
  rewrite (read_exact_seg _ _ _ _ H1) by lia. cbn [mbind res_bind].
  replace (pos + (blen x + size l)) with (pos + blen x + size l) by lia.
  rewrite IH by (done || lia). done.
Qed.

(** Any file laid out as the format says reads back. *)
Lemma read_btlm_layout fs path file sch pkts offs :
  let n := blen pkts in
  let io := 10 + blen sch + size pkts in
  fs !! path = Some file ->
  in_u 32 (blen sch) -> in_u 32 n -> blen file < 2 ^ 63 ->
  seg file 0 MAGIC -> seg file 4 (le2 VERSION) -> seg file 6 (le4 (blen sch)) -> seg file 10 sch ->
  seg file (10 + blen sch) (concat pkts) ->
  map fst offs = starts (10 + blen sch) pkts ->
  seg file io (concat (map index_entry offs)) ->
  seg file (blen file - 16) (le8 io ++ le4 n ++ le4 INDEX_MAGIC) ->
  read_btlm fs path = Ok (mkLoadedCapture sch pkts).
Proof.
  intros n io Hf Hsch Hn Hlen S0 S1 S2 S3 S4 Ho S5 S6. unfold read_btlm, le2, le4, le8 in *. rewrite Hf.
  pose proof (seg_bounds _ _ _ S6) as [Hb6 _]. pose proof (seg_bounds _ _ _ S4) as [_ Hb4].
  fold (size pkts) in Hb4. pose proof (size_nonneg pkts). pose proof (blen_nonneg sch).
  rewrite (read_exact_seg _ _ _ _ S0) by reflexivity. cbn [mbind res_bind].
  rewrite bool_decide_eq_false_2 by (intros Hx; by apply Hx).
  rewrite (read_exact_seg _ _ _ _ S1) by reflexivity. cbn [mbind res_bind].
  rewrite (le_u_le_bytes 2 VERSION) by done. cbn [negb Z.eqb VERSION Pos.eqb]. cbv zeta.
  rewrite (read_exact_seg _ _ _ _ S2) by reflexivity. cbn [mbind res_bind].
  rewrite (le_u_le_bytes 4 (blen sch)) by exact Hsch.
  rewrite (read_exact_seg _ _ _ _ S3) by reflexivity. cbn [mbind res_bind].
  replace (blen file <? 16) with false by lia.
  rewrite (read_exact_seg _ _ _ _ S6) by reflexivity. cbn [mbind res_bind].
  pose proof (seg_self (le_bytes 8 io ++ le_bytes 4 n ++ le_bytes 4 INDEX_MAGIC)) as Hs. rewrite !seg_app in Hs.
  destruct Hs as (F0 & F1 & F2).
  rewrite (seg_slice _ 0 _ 8 F0), (seg_slice _ 8 _ 4 F1), (seg_slice _ 12 _ 4 F2) by reflexivity.
  rewrite (le_u_le_bytes 8 io) by (unfold in_u; change (8 * Z.of_nat 8) with 64; lia).
  rewrite (le_u_le_bytes 4 n) by exact Hn. rewrite (le_u_le_bytes 4 INDEX_MAGIC) by done.
  rewrite Z.eqb_refl. cbn [negb]. unfold seek_start. replace (io <? 2 ^ 63) with true by lia.
  cbn [mbind res_bind].
  assert (Hlo : Z.to_nat n = length offs).
  { apply (f_equal length) in Ho. rewrite length_map, length_starts in Ho. unfold n, blen. lia. }
  assert (Hrange : Forall (fun x => in_u 64 x.1) offs).
  { apply (Forall_map fst (in_u 64)). rewrite Ho. eapply Forall_impl; [apply starts_range|].
    unfold in_u. simpl. lia. }
  rewrite Hlo, read_index_spec by done. cbn [mbind res_bind]. rewrite Ho.
  unfold io. rewrite read_packets_spec by (done || lia). done.
Qed.

Lemma read_write_btlm fs path sch pkts :
  in_u 32 (blen sch) -> in_u 32 (blen pkts) -> blen (write_btlm_inner sch pkts) < 2 ^ 63 ->
  read_btlm (<[path := write_btlm_inner sch pkts]> fs) path =
  Ok (mkLoadedCapture sch (bodies pkts)).
Proof.
  intros Hsch Hn Hlen.
  set (offs := zip (starts (10 + blen sch) (bodies pkts)) (map snd pkts)).
  set (io := 10 + blen sch + size (bodies pkts)).
  assert (Hb : blen (bodies pkts) = blen pkts) by (unfold blen, bodies; by rewrite length_map).
  assert (Ho : map fst offs = starts (10 + blen sch) (bodies pkts)).
  { apply fst_zip. rewrite length_starts. unfold bodies. by rewrite !length_map. }
  assert (Hlo : blen offs = blen pkts).
  { apply (f_equal length) in Ho. rewrite length_map, length_starts in Ho. unfold blen in *. lia. }
  assert (Hfile : write_btlm_inner sch pkts =
    MAGIC ++ le2 VERSION ++ le4 (blen sch) ++ sch ++ concat (bodies pkts) ++
    concat (map index_entry offs) ++ le8 io ++ le4 (blen pkts) ++ le4 INDEX_MAGIC).
  { unfold write_btlm_inner. rewrite write_packets_spec, (wrap_small 32 _ Hsch).
    assert (Hw : blen (MAGIC ++ le2 VERSION ++ le4 (blen sch) ++ sch) = 10 + blen sch).
    { unfold le2, le4. autorewrite with blen. change (blen MAGIC) with 4. lia. }
    rewrite (blen_app _ (concat (bodies pkts))), Hw. fold offs. rewrite Hlo, (wrap_small 32 _ Hn), <-!app_assoc. done. }
  rewrite Hfile in *. set (file := MAGIC ++ _) in *.
  pose proof (seg_self file) as Hs. unfold file in Hs at 2. rewrite !seg_app in Hs.
  destruct Hs as (S0 & S1 & S2 & S3 & S4 & S5 & S6 & S7 & S8).
  change (0 + blen MAGIC) with 4 in *. unfold le2, le4, le8 in *. rewrite !blen_le_bytes in *.
  change (4 + Z.of_nat 2) with 6 in *. change (6 + Z.of_nat 4) with 10 in *.
  fold (size (bodies pkts)) in *. fold io in S5.
  apply (read_btlm_layout _ _ file sch (bodies pkts) offs); rewrite ?Hb; try done.
  { apply lookup_insert_eq. }
  assert (Htot : blen file = io + blen (concat (map index_entry offs)) + 16).
  { unfold file. autorewrite with blen. change (blen MAGIC) with 4. unfold io, size. lia. }
  rewrite !seg_app. unfold le8, le4. rewrite !blen_le_bytes, Htot, Z.add_simpl_r. done.
Qed.

(** ** Panics of the reader *)
Lemma read_exact_total file pos n : read_exact file pos n <> Panic.
Proof. unfold read_exact. by destruct (_ || _). Qed.

Lemma seek_start_total off : seek_start off <> Panic.
Proof. unfold seek_start. by destruct (_ <? _). Qed.

Lemma read_index_total file n pos : read_index file n pos <> Panic.
Proof.
  revert pos. induction n as [|n IH]; intros pos; cbn [read_index]; [discriminate|].
  apply bind_no_panic; [apply read_exact_total|]. intros b _.
  apply bind_no_panic; [apply IH|discriminate].
Qed.

(** Only a packet that ends beyond [isize::MAX] makes the loop panic. *)
Lemma read_packets_panic file io entries :
  0 <= io < 2 ^ 63 -> Forall (Z.le 0) entries -> read_packets file io entries = Panic ->
  exists off, off ∈ entries /\ 2 ^ 63 <= off.
Proof.
  intros Hio. induction 1 as [|start rest Hst Hr IH]; cbn [read_packets]; [done|].
  set (end_ := match rest with next :: _ => next | [] => io end).
  destruct (end_ <? start) eqn:E; [done|]. unfold seek_start.
  destruct (start <? 2 ^ 63) eqn:E1; [|done]. cbn [mbind res_bind]. unfold alloc.
  destruct (end_ - start <? 2 ^ 63) eqn:E2; cbn [mbind res_bind].
  - destruct (read_exact file start _) eqn:Er; cbn [mbind res_bind];
      [|done|by apply read_exact_total in Er].
    destruct (read_packets file io rest) eqn:Ep; cbn [mbind res_bind]; [done|done|].
    intros _. destruct (IH eq_refl) as (off & ? & ?). exists off. split; [|done]. by apply elem_of_cons; right.
  - intros _. exists end_. split; [|lia]. unfold end_ in *. destruct rest; [lia|].
    apply elem_of_cons. right. apply elem_of_cons. by left.
Qed.

Lemma read_index_elem file n pos l off :
  0 <= pos -> read_index file n pos = Ok l -> off ∈ l ->
  exists i, 0 <= i < Z.of_nat n /\ pos + 28 * i + 28 <= blen file /\
    off = le_u (slice file (pos + 28 * i) 8).
Proof.
  revert pos l. induction n as [|n IH]; intros pos l Hp H Hin; cbn [read_index] in H.
  - inv_bind. by apply elem_of_nil in Hin.
  - apply bind_Ok in H as (buf & Hb & H). apply bind_Ok in H as (k & Hk & [= <-]).
    apply elem_of_cons in Hin as [->|Hin].
    + exists 0. unfold read_exact in Hb. destruct (pos + 28 <=? blen file) eqn:E; [|done].
      cbn in Hb. injection Hb as <-. rewrite Z.mul_0_r, Z.add_0_r. split_and!; [lia|lia|lia|].
      f_equal. unfold slice. rewrite drop_0, take_take. f_equal.
    + destruct (IH (pos + 28) k ltac:(lia) Hk Hin) as (i & Hi & Hbd & ->).
      exists (i + 1). replace (pos + 28 * (i + 1)) with (pos + 28 + 28 * i) by lia. split_and!; [lia..|done].
Qed.

(** ** The calendar *)
Definition leaps (n : Z) : Z := n / 4 - n / 100 + n / 400.

(** Days from 1970-01-01 to January 1st of [year], in closed form. *)
Definition days_before_year (year : Z) : Z := 365 * (year - 1970) + leaps (year - 1) - leaps 1969.
Definition days_before_month (year month : Z) : Z :=
  foldr Z.add 0 (take (Z.to_nat (month - 1)) (month_days year)).

(** Seconds since the epoch of a proleptic Gregorian date and time. *)
Definition unix_time (c : Z * Z * Z * Z * Z * Z) : Z :=
  let '(y, m, d, hh, mm, ss) := c in
  86400 * (days_before_year y + days_before_month y m + (d - 1)) + 3600 * hh + 60 * mm + ss.

Definition valid_date (c : Z * Z * Z * Z * Z * Z) : Prop :=
  let '(y, m, d, hh, mm, ss) := c in
  1970 <= y /\ 1 <= m <= 12 /\
  (exists md, month_days y !! Z.to_nat (m - 1) = Some md /\ 1 <= d <= md) /\
  0 <= hh < 24 /\ 0 <= mm < 60 /\ 0 <= ss < 60.

Lemma div_step n d : 0 < d -> n / d = (n - 1) / d + (if n mod d =? 0 then 1 else 0).
Proof.
  intros Hd. pose proof (Z.div_mod n d ltac:(lia)). pose proof (Z.mod_pos_bound n d Hd).
  destruct (n mod d =? 0) eqn:E.
  - rewrite <-(Z.div_unique_pos (n - 1) d (n / d - 1) (d - 1)); lia.
  - rewrite <-(Z.div_unique_pos (n - 1) d (n / d) (n mod d - 1)); lia.
Qed.

Lemma days_before_year_step y : days_before_year (y + 1) = days_before_year y + year_days y.
Proof.
  unfold days_before_year, leaps. replace (y + 1 - 1) with y by lia.
  rewrite (div_step y 4), (div_step y 100), (div_step y 400) by lia. unfold year_days, is_leap.
  assert (y mod 400 = 0 -> y mod 100 = 0).
  { intros H. apply Z.mod_divide in H as [k ->]; [|lia].
    replace (k * 400) with (k * 4 * 100) by lia. apply Z.mod_mul. lia. }
  assert (y mod 100 = 0 -> y mod 4 = 0).
  { intros H'. apply Z.mod_divide in H' as [k ->]; [|lia].
    replace (k * 100) with (k * 25 * 4) by lia. apply Z.mod_mul. lia. }
  destruct (y mod 4 =? 0) eqn:E4, (y mod 100 =? 0) eqn:E100, (y mod 400 =? 0) eqn:E400; cbn; lia.
Qed.

Lemma year_loop_spec p fuel days year :
  0 <= days -> 1970 <= year -> year + Z.of_nat fuel < 2 ^ 32 -> days < 365 * (Z.of_nat fuel + 1) ->
  exists days' year', year_loop p fuel days year = Ok (days', year') /\
    1970 <= year' /\ 0 <= days' < year_days year' /\
    days_before_year year + days = days_before_year year' + days'.
Proof.
  revert days year. induction fuel as [|fuel IH]; intros days year Hd Hy Hf Hb; cbn [year_loop];
    assert (365 <= year_days year <= 366) by (unfold year_days; destruct (is_leap year); lia);
    destruct (days <? year_days year) eqn:E.
  - exists days, year. split_and!; [done|lia..].
  - lia.
  - exists days, year. split_and!; [done|lia..].
  - rewrite arith_ok by (unfold in_u; lia). cbn [mbind res_bind].
    destruct (IH (days - year_days year) (year + 1)) as (d' & y' & H1 & H2 & H3 & H4); [lia..|].
    exists d', y'. split_and!; [done|lia..|]. rewrite days_before_year_step in H4. lia.
Qed.

Lemma month_loop_spec mds days month :
  0 <= days < foldr Z.add 0 mds ->
  exists k md, month_loop mds days month =
      (days - foldr Z.add 0 (take k mds), month + Z.of_nat k) /\
    mds !! k = Some md /\ 0 <= days - foldr Z.add 0 (take k mds) < md.
Proof.
  revert days month. induction mds as [|md mds IH]; intros days month Hd; cbn [foldr] in Hd; [lia|].
  cbn [month_loop]. destruct (days <? md) eqn:E.
  - exists 0%nat, md. cbn. rewrite Z.sub_0_r, Z.add_0_r. split_and!; [done|done|lia|lia].
  - destruct (IH (days - md) (month + 1) ltac:(lia)) as (k & md' & H1 & H2 & H3).
    exists (S k), md'. rewrite H1. cbn [take foldr lookup list_lookup]. split_and!; [f_equal; lia|done|lia|lia].
Qed.

Lemma sum_month_days y : foldr Z.add 0 (month_days y) = year_days y.
Proof. unfold month_days, year_days. by destruct (is_leap y). Qed.

Lemma with_capacity_ok cap : 0 <= cap -> ring_ok (with_capacity cap).
Proof. intros. split; cbn; try done; lia. Qed.

(** ** Properties *)

(** C14: The ring holds the longest suffix of the accepted packets that fits
    its byte budget (oldest packets are dropped first, and no more of them than
    needed), whatever is pushed: its byte count is exactly the size of what it
    holds, the totals count every accepted packet, and every packet not held
    was counted as dropped.  Malformed packets change nothing. *)
Theorem ring_keeps_newest p cap hist :
  0 <= cap < 2 ^ 63 -> Forall (fun x => blen x.1 < 2 ^ 63) hist -> blen hist < 2 ^ 64 ->
  exists g, feed p (with_capacity cap) hist = Ok g /\
    longest_fit cap (accepted hist) (bodies (packets g)) /\
    bytes g = size (bodies (packets g)) /\
    packets_total g = blen (accepted hist) /\
    packets_dropped g = blen (accepted hist) - blen (packets g).
Proof.
  intros Hc Hall Hn.
  destruct (feed_ok p (with_capacity cap) hist []) as (g & Hg & [] & Hcap & Ht & Hf).
  - apply with_capacity_ok. lia.
  - cbn. lia.
  - cbn [packets with_capacity Inner_new cap_bytes bodies map]. split; [done|].
    split; [change (size []) with 0; lia|]. intros r' Hr _. exact Hr.
  - eapply Forall_impl; [exact Hall|]. intros x Hx. split; [done|apply extract_meta_safe].
  - change (packets_total (with_capacity cap)) with 0. lia.
  - exists g. change (packets_total (with_capacity cap)) with 0 in Ht. split_and!; [done|done|done|lia|lia].
Qed.

(** Saving and loading are inverse: the file a capture with a schema
    writes reads back as exactly that schema and the ring's packets in order,
    and the report counts them; without a schema nothing is written. *)
Theorem save_read_roundtrip g fs path sch :
  schema g = Some sch -> in_u 32 (blen sch) -> in_u 32 (blen (packets g)) ->
  blen (write_btlm_inner sch (packets g)) < 2 ^ 63 ->
  exists fs' report, save_btlm g fs path = Ok (fs', report) /\
    read_btlm fs' path = Ok (mkLoadedCapture sch (bodies (packets g))) /\
    sr_packets report = blen (packets g) /\ sr_schema_bytes report = blen sch /\
    (forall path', path' <> path -> fs' !! path' = fs !! path').
Proof.
  intros Hs H1 H2 H3. unfold save_btlm. rewrite Hs. do 2 eexists. split; [done|].
  split; [by apply read_write_btlm|]. split; [done|]. split; [done|].
  intros path' Hp. by apply lookup_insert_ne.
Qed.

(** Every packet the decoder accepts is accepted by the ring, whose
    metadata is the number of entries and the least and greatest entry
    timestamp the decoder reads (0 for a packet without entries). *)
Theorem extract_meta_agrees buf p :
  Wire.decode_packet buf = Ok p ->
  let ts := map Wire.de_timestamp (Wire.pk_entries p) in
  extract_meta buf =
  Ok (mkPacketMeta (default 0 (list_min ts)) (default 0 (list_max ts)) (blen ts)).
Proof. apply extract_meta_decoded. Qed.

(** Reading a file panics only when its index records a packet offset of
    2^63 or more (the buffer for the packet before it cannot be allocated);
    every other malformed file is reported as an error. *)
Theorem read_btlm_panics fs path :
  read_btlm fs path = Panic ->
  exists file footer i, fs !! path = Some file /\ footer = slice file (blen file - 16) 16 /\
    0 <= i < le_u (slice footer 8 4) /\
    2 ^ 63 <= le_u (slice file (le_u (slice footer 0 8) + 28 * i) 8).
Proof.
  unfold read_btlm. destruct (fs !! path) as [file|]; [|done]. intros H.
  destruct (read_exact file 0 4) eqn:E; cbn [mbind res_bind] in H; [|done|by apply read_exact_total in E].
  case_bool_decide; [done|]. clear E.
  destruct (read_exact file 4 2) eqn:E; cbn [mbind res_bind] in H; [|done|by apply read_exact_total in E].
  destruct (negb _) in H; [done|]. clear E.
  destruct (read_exact file 6 4) eqn:E; cbn [mbind res_bind] in H; [|done|by apply read_exact_total in E].
  clear E. destruct (read_exact file 10 _) eqn:E in H; cbn [mbind res_bind] in H;
    [|done|by apply read_exact_total in E]. clear E.
  destruct (blen file <? 16) eqn:El; [done|].
  unfold read_exact in H. rewrite Z.sub_add, Z.leb_refl, orb_true_r in H. cbn [mbind res_bind] in H.
  set (footer := slice file (blen file - 16) 16) in *.
  destruct (negb _) in H; [done|]. set (io := le_u (slice footer 0 8)) in *.
  assert (Hio : 0 <= io) by apply le_u_range. unfold seek_start in H.
  destruct (io <? 2 ^ 63) eqn:Es; cbn [mbind res_bind] in H; [|done].
  destruct (read_index file _ io) as [es| |] eqn:Ei; cbn [mbind res_bind] in H;
    [|done|by apply read_index_total in Ei].
  destruct (read_packets file io es) eqn:Ep; cbn [mbind res_bind] in H; [done|done|].
  apply read_packets_panic in Ep as (off & Hin & Hoff); [|lia|].
  - destruct (read_index_elem _ _ _ _ _ Hio Ei Hin) as (i & Hi & _ & ->).
    pose proof (le_u_range (slice footer 8 4)). exists file, footer, i. split_and!; [done|done|lia|lia|done].
  - apply Forall_forall. intros off Hin.
    destruct (read_index_elem _ _ _ _ _ Hio Ei Hin) as (i & _ & _ & ->). apply le_u_range.
Qed.

(** The date in a suggested file name is the calendar date of the clock:
    for every time before the year 2^32 the loops return, in both build
    profiles, the Gregorian date and time of day whose Unix time is [secs]. *)
Theorem utc_components_correct p secs :
  0 <= secs -> 1970 + secs / 86400 / 365 < 2 ^ 32 ->
  exists c, utc_components p secs = Ok c /\ valid_date c /\ unix_time c = secs.
Proof.
  intros H0 Hy. unfold utc_components. cbv zeta. set (days := secs / 86400) in *.
  assert (Hd : 0 <= days) by (apply Z.div_pos; lia).
  assert (0 <= days / 365) by (apply Z.div_pos; lia).
  destruct (year_loop_spec p (Z.to_nat (days / 365)) days 1970) as (d & y & -> & Hyr & Hd' & Hsum).
  { done. } { lia. } { lia. }
  { rewrite Z2Nat.id by lia. pose proof (Z.mod_pos_bound days 365). pose proof (Z.div_mod days 365). lia. }
  cbn [mbind res_bind].
  destruct (month_loop_spec (month_days y) d 1) as (k & md & -> & Hk & Hmd); [by rewrite sum_month_days|].
  assert (Hk12 : (k < 12)%nat) by (apply lookup_lt_Some in Hk; exact Hk).
  assert (Hle : md <= 31).
  { unfold month_days in Hk. do 12 (destruct k as [|k]; [injection Hk as <-; destruct (is_leap y); lia|]). lia. }
  rewrite arith_ok by (unfold in_u; lia). cbn [mbind res_bind]. eexists. split; [done|].
  change (days_before_year 1970 + days) with (0 + days) in Hsum.
  pose proof (Z.div_mod secs 86400 ltac:(lia)). fold days in H1.
  pose proof (Z.div_mod secs 60 ltac:(lia)). pose proof (Z.div_mod (secs / 60) 60 ltac:(lia)).
  rewrite Z.div_div in H3 by lia. pose proof (Z.div_mod (secs / 3600) 24 ltac:(lia)).
  rewrite Z.div_div in H4 by lia. change (60 * 60) with 3600 in *. change (3600 * 24) with 86400 in *.
  fold days in H4. pose proof (Z.mod_pos_bound secs 60). pose proof (Z.mod_pos_bound (secs / 60) 60).
  pose proof (Z.mod_pos_bound (secs / 3600) 24). replace (1 + Z.of_nat k - 1) with (Z.of_nat k) by lia.
  split.
  - cbn [valid_date]. split_and!; try lia. exists md. replace (Z.to_nat (1 + Z.of_nat k - 1)) with k by lia.
    split; [done|lia].
  - unfold unix_time, days_before_month. replace (Z.to_nat (1 + Z.of_nat k - 1)) with k by lia. lia.
Qed.

(** ** Concrete captures *)
Definition packet_of (ts : Z) : list byte :=
  Wire.encode_packet 0 0 [Wire.mkDecodedEntry 1 ts [x2a]].

(** Three 33-byte packets and a malformed one into a ring of 70 bytes. *)
Definition demo_hist : list (list byte * Z) :=
  [(packet_of 10, 0); (packet_of 20, 0); ([x00], 0); (packet_of 30, 0)].

Lemma ring_keeps_newest_witness :
  exists g, feed Debug (with_capacity 70) demo_hist = Ok g /\ packets_total g = 3.
Proof.
  destruct (ring_keeps_newest Debug 70 demo_hist) as (g & Hg & _ & _ & Ht & _).
  - lia.
  - repeat (constructor; [vm_compute; reflexivity|]). constructor.
  - vm_compute. reflexivity.
  - exists g. split; [exact Hg|]. rewrite Ht. vm_compute. reflexivity.
Defined.

Definition demo_capture : Inner :=
  mkInner (Some [x00; x00; x00]) [(packet_of 10, mkPacketMeta 10 10 1); (packet_of 20, mkPacketMeta 20 20 1)]
    66 100 2 0 None.

Lemma save_read_roundtrip_witness :
  exists fs' report, save_btlm demo_capture ∅ (str "a.btlm") = Ok (fs', report) /\
    read_btlm fs' (str "a.btlm") =
      Ok (mkLoadedCapture [x00; x00; x00] [packet_of 10; packet_of 20]).
Proof.
  destruct (save_read_roundtrip demo_capture ∅ (str "a.btlm") [x00; x00; x00])
    as (fs' & report & H1 & H2 & _).
  - reflexivity.
  - apply in_ub_spec. reflexivity.
  - apply in_ub_spec. reflexivity.
  - vm_compute. reflexivity.
  - exists fs', report. split; [exact H1|exact H2].
Defined.

Lemma extract_meta_agrees_witness : extract_meta (packet_of 10) = Ok (mkPacketMeta 10 10 1).
Proof.
  apply (extract_meta_agrees (packet_of 10)
    (Wire.mkPacket (Wire.mkPacketHeader 1 0 1 0) [Wire.mkDecodedEntry 1 10 [x2a]])).
  vm_compute. reflexivity.
Defined.

(** A file whose second index entry points at 2^64 - 1. *)
Definition corrupt_file : list byte :=
  MAGIC ++ le2 VERSION ++ le4 0 ++
  index_entry (0, mkPacketMeta 0 0 0) ++ index_entry (u64_max, mkPacketMeta 0 0 0) ++
  le8 10 ++ le4 2 ++ le4 INDEX_MAGIC.

Definition corrupt_files : files := {[str "a" := corrupt_file]}.

Lemma read_btlm_panics_witness :
  exists file, corrupt_files !! str "a" = Some file /\ read_btlm corrupt_files (str "a") = Panic.
Proof.
  destruct (read_btlm_panics corrupt_files (str "a")) as (file & _ & _ & Hf & _).
  - vm_compute. reflexivity.
  - exists file. split; [exact Hf|]. vm_compute. reflexivity.
Defined.

(** 2024-02-29 12:34:56 UTC. *)
Lemma utc_components_correct_witness :
  utc_components Debug 1709210096 = Ok (2024, 2, 29, 12, 34, 56) /\
  unix_time (2024, 2, 29, 12, 34, 56) = 1709210096.
Proof.
  destruct (utc_components_correct Debug 1709210096) as (c & Hc & _ & Hu).
  - lia.
  - vm_compute. reflexivity.
  - assert (E : utc_components Debug 1709210096 = Ok (2024, 2, 29, 12, 34, 56))
      by (vm_compute; reflexivity).
    rewrite E in Hc. injection Hc as <-. split; [exact E|exact Hu].
Defined.
