(* ===== verification/Mapper.v ===== *)
(** * btelem-ingest: schema to channel mapping

    Models viewer/crates/btelem-ingest/src/mapper.rs.  The store the Rust code
    mutates through a shared handle is passed in and returned.  Narrow
    arithmetic (u16 offsets, u64 shifts) follows the build profile. *)

From Stdlib Require Import SpecFloat.
From S2P Require Import Prelude Slices Text Float64 Wire WireSchema WireValue Store MockStore.

Inductive MapError := DuplicateSchema (id : Z).

Inductive FieldKind :=
| FkScalar (ch : ChannelId) (ty : FieldType) (offset size : Z)
| FkScalarArray (ty : FieldType) (base_offset elem_size : Z) (channels : list ChannelId)
| FkState (ch : ChannelId) (offset : Z)
| FkBitfield (offset storage_bytes : Z) (word : option ChannelId) (bits : list (BitDef * ChannelId))
| FkText (ch : ChannelId) (field_def : FieldDef)
| FkIgnored.

Record EntryMap := mkEntryMap { em_fields : list FieldKind }.
Record ChannelMap := mkChannelMap { cm_entries : gmap Z EntryMap }.

Definition is_numeric (t : FieldType) : bool :=
  match t with U8 | U16 | U32 | U64 | I8 | I16 | I32 | I64 | F32 | F64 => true | _ => false end.
Definition is_integer (t : FieldType) : bool :=
  match t with U8 | U16 | U32 | U64 | I8 | I16 | I32 | I64 => true | _ => false end.

Definition read_scalar (ty : FieldType) (payload : list byte) (offset size : Z) : total (option f64) :=
  if blen payload <? offset + size then mret None
  else
    s ← subslice payload offset size;
    match ty with
    | U8 => v ← first_byte s; mret (Some (f64_of_Z v))
    | U16 => mret (f64_of_Z <$> le_exact 2 s)
    | U32 => mret (f64_of_Z <$> le_exact 4 s)
    | U64 => mret (f64_of_Z <$> le_exact 8 s)
    | I8 => v ← first_byte s; mret (Some (f64_of_Z (to_signed 8 v)))
    | I16 => mret ((fun v => f64_of_Z (to_signed 16 v)) <$> le_exact 2 s)
    | I32 => mret ((fun v => f64_of_Z (to_signed 32 v)) <$> le_exact 4 s)
    | I64 => mret ((fun v => f64_of_Z (to_signed 64 v)) <$> le_exact 8 s)
    | F32 => mret ((fun v => f64_of_f32 (f32_of_bits v)) <$> le_exact 4 s)
    | F64 => mret (f64_of_bits <$> le_exact 8 s)
    | _ => mret None
    end.

Section mapper.
Context (p : profile).

(** ** Registration *)

(** The closure [add]: an integer or a float channel. *)
Definition add_numeric (s : Inner) (integer : bool) (path : text) : total (Inner * ChannelId) :=
  if integer then add_scalar_int p s path else add_scalar p s path.

(** Register one numeric channel per path, in order. *)
Fixpoint add_lanes (s : Inner) (integer : bool) (paths : list text) : total (Inner * list ChannelId) :=
  match paths with
  | [] => mret (s, [])
  | path :: paths =>
    r ← add_numeric s integer path;
    r' ← add_lanes r.1 integer paths;
    mret (r'.1, r.2 :: r'.2)
  end.

(** [entry_name.field][suffix]. *)
Definition field_path (entry_name : text) (f : FieldDef) (suffix : text) : text :=
  entry_name ++ str "." ++ fd_name f ++ suffix.

(** A numeric field: one channel, or one per array element. *)
Definition build_numeric (f : FieldDef) (path : text -> text) (s : Inner) : total (Inner * FieldKind) :=
  let elem_size := if 0 <? fd_count f then fd_size f / fd_count f else fd_size f in
  if fd_count f =? 1 then
    r ← add_numeric s (is_integer (fd_ty f)) (path []);
    mret (r.1, FkScalar r.2 (fd_ty f) (fd_offset f) elem_size)
  else
    r ← add_lanes s (is_integer (fd_ty f))
          (map (fun i => path (str "[" ++ fmt_dec (Z.of_nat i) ++ str "]")) (seq 0 (Z.to_nat (fd_count f))));
    mret (r.1, FkScalarArray (fd_ty f) (fd_offset f) elem_size r.2).

(** A bitfield: the word channel for a supported width, then one per bit. *)
Definition build_bits (f : FieldDef) (bf : BitfieldDef) (path : text -> text) (s : Inner)
  : total (Inner * FieldKind) :=
  w ← (if bool_decide (fd_size f ∈ [1; 2; 4; 8])
       then r ← add_scalar_int p s (path []); mret (r.1, Some r.2)
       else mret (s, None));
  r ← add_lanes w.1 true (map (fun b => path (str "." ++ bd_name b)) (bf_bits bf));
  let s' := match w.2 with Some word => register_word_bits r.1 word r.2 | None => r.1 end in
  mret (s', FkBitfield (fd_offset f) (fd_size f) w.2 (zip (bf_bits bf) r.2)).

Definition build_field (schema_id field_index : Z) (f : FieldDef) (schema : Schema) (s : Inner)
  : total (Inner * FieldKind) :=
  let entry_name := match Schema_entry schema schema_id with Some e => se_name e | None => str "?" end in
  let path := field_path entry_name f in
  if is_numeric (fd_ty f) then build_numeric f path s
  else if negb (fd_count f =? 1) then mret (s, FkIgnored)
  else match fd_ty f with
  | Bool =>
    r ← add_state p s (path []) [str "false"; str "true"];
    mret (r.1, FkState r.2 (fd_offset f))
  | Enum =>
    let labels := default [] (Schema_enum_labels schema schema_id field_index) in
    r ← add_state p s (path []) labels;
    mret (r.1, FkState r.2 (fd_offset f))
  | Bitfield =>
    match Schema_bitfield schema schema_id field_index with
    | None => mret (s, FkIgnored)
    | Some bf => build_bits f bf path s
    end
  | String_ =>
    r ← add_text p s (path []);
    mret (r.1, FkText r.2 f)
  | _ => mret (s, FkIgnored)
  end.

Fixpoint build_fields (schema_id fi : Z) (fs : list FieldDef) (schema : Schema) (s : Inner)
  : total (Inner * list FieldKind) :=
  match fs with
  | [] => mret (s, [])
  | f :: fs =>
    r ← build_field schema_id (wrap 16 fi) f schema s;
    r' ← build_fields schema_id (fi + 1) fs schema r.1;
    mret (r'.1, r.2 :: r'.2)
  end.

Definition build_entry (entry : SchemaEntry) (schema : Schema) (s : Inner) : total (Inner * EntryMap) :=
  r ← build_fields (se_id entry) 0 (se_fields entry) schema s;
  mret (r.1, mkEntryMap r.2).

(** A duplicate id aborts the build; the channels registered so far remain. *)
Fixpoint build_entries (es : list SchemaEntry) (schema : Schema) (s : Inner) (m : gmap Z EntryMap)
  : total (Inner * (MapError + ChannelMap)) :=
  match es with
  | [] => mret (s, inr (mkChannelMap m))
  | e :: es =>
    match m !! se_id e with
    | Some _ => mret (s, inl (DuplicateSchema (se_id e)))
    | None =>
      r ← build_entry e schema s;
      build_entries es schema r.1 (<[se_id e := r.2]> m)
    end
  end.

Definition ChannelMap_build (schema : Schema) (s : Inner) : total (Inner * (MapError + ChannelMap)) :=
  build_entries (sc_entries schema) schema s ∅.

(** ** Dispatch *)
Definition push_opt (s : Inner) (ch t : Z) (v : option f64) : total Inner :=
  match v with Some v => push_scalar p s ch t v | None => mret s end.

Fixpoint dispatch_array (ty : FieldType) (base_offset elem_size t : Z) (payload : list byte)
    (i : Z) (chs : list ChannelId) (s : Inner) : total Inner :=
  match chs with
  | [] => mret s
  | ch :: chs =>
    d ← arith p 16 (i * elem_size);
    off ← arith p 16 (base_offset + d);
    v ← read_scalar ty payload off elem_size;
    s' ← push_opt s ch t v;
    dispatch_array ty base_offset elem_size t payload (i + 1) chs s'
  end.

(** [raw |= (b as u64) << (i * 8)] over the storage bytes. *)
Fixpoint word_loop (bs : list byte) (i raw : Z) : total Z :=
  match bs with
  | [] => mret raw
  | b :: bs => v ← shl p 64 (byte_z b) (i * 8); word_loop bs (i + 1) (Z.lor raw v)
  end.

(** [((raw & mask) >> start)] with [mask = ((1 << width) - 1) << start]. *)
Definition bit_value (raw : Z) (bit : BitDef) : total Z :=
  one ← shl p 64 1 (bd_width bit);
  m ← arith p 64 (one - 1);
  mask ← shl p 64 m (bd_start bit);
  shr p 64 (Z.land raw mask) (bd_start bit).

Fixpoint dispatch_bits (t raw : Z) (bits : list (BitDef * ChannelId)) (s : Inner) : total Inner :=
  match bits with
  | [] => mret s
  | (bit, ch) :: bits =>
    v ← bit_value raw bit;
    s' ← push_scalar p s ch t (f64_of_Z v);
    dispatch_bits t raw bits s'
  end.

Definition dispatch_field (fk : FieldKind) (t : Z) (payload : list byte) (s : Inner) : total Inner :=
  match fk with
  | FkScalar ch ty offset size => v ← read_scalar ty payload offset size; push_opt s ch t v
  | FkScalarArray ty base_offset elem_size chs =>
    dispatch_array ty base_offset elem_size t payload 0 chs s
  | FkState ch offset =>
    if offset <? blen payload then
      b ← index payload offset;
      push_state p s ch t (byte_z b)
    else mret s
  | FkBitfield offset n word bits =>
    if offset + n <=? blen payload then
      bs ← subslice payload offset n;
      raw ← word_loop bs 0 0;
      s' ← (match word with Some ch => push_scalar p s ch t (f64_of_Z raw) | None => mret s end);
      dispatch_bits t raw bits s'
    else mret s
  | FkIgnored => mret s
  | FkText ch field_def =>
    match field_as_string field_def payload with
    | Some value => push_text p s ch t value
    | None => mret s
    end
  end.

Fixpoint dispatch_fields (fks : list FieldKind) (t : Z) (payload : list byte) (s : Inner) : total Inner :=
  match fks with
  | [] => mret s
  | fk :: fks => s' ← dispatch_field fk t payload s; dispatch_fields fks t payload s'
  end.

Definition dispatch (m : ChannelMap) (schema_id t : Z) (payload : list byte) (s : Inner) : total Inner :=
  match cm_entries m !! schema_id with
  | None => mret s
  | Some em => dispatch_fields (em_fields em) t payload s
  end.
End mapper.

(** ** What registration does to the store *)

(** [s'] is [s] with the channels [news] appended, empty. *)
Record extends (s s' : Inner) (news : list ChannelInfo) : Prop := {
  ext_channels : in_channels s' = in_channels s ++ news;
  ext_scalars : in_scalars s' = in_scalars s ++ replicate (length news) [];
  ext_states : in_states s' = in_states s ++ replicate (length news) [];
  ext_texts : in_texts s' = in_texts s ++ replicate (length news) [];
  ext_revision : in_revision s' = in_revision s + blen news;
}.

(** Enough identifiers and revisions left for [n] more channels. *)
Record room (s : Inner) (n : Z) : Prop := {
  room_ids : blen (in_channels s) + n <= 2 ^ 32;
  room_rev_pos : 0 <= in_revision s;
  room_rev : in_revision s + n <= u64_max;
}.

Lemma extends_refl s : extends s s [].
Proof. split; cbn; rewrite ?app_nil_r; try done. rewrite blen_nil. lia. Qed.

Lemma extends_trans s1 s2 s3 n1 n2 :
  extends s1 s2 n1 -> extends s2 s3 n2 -> extends s1 s3 (n1 ++ n2).
Proof.
  intros [A1 A2 A3 A4 A5] [B1 B2 B3 B4 B5].
  split; rewrite ?B1, ?B2, ?B3, ?B4, ?B5, ?A1, ?A2, ?A3, ?A4, ?A5, ?length_app, ?replicate_add, ?blen_app, ?app_assoc; done || lia.
Qed.

Lemma extends_room s s' news n : extends s s' news -> room s (blen news + n) -> room s' n.
Proof.
  intros [A1 _ _ _ A5] [R1 R2 R3]. pose proof (blen_nonneg news).
  split; rewrite ?A1, ?A5, ?blen_app; lia.
Qed.

Lemma room_le s n m : room s n -> m <= n -> room s m.
Proof. intros [R1 R2 R3] H. split; lia. Qed.

Lemma add_channel_extends p s path kind ints :
  room s 1 ->
  exists s' info, add_channel p s path kind ints = Ok (s', blen (in_channels s)) /\
    extends s s' [info] /\ ci_kind info = kind /\ ci_path info = path /\
    ci_integer_storage info = ints /\ ci_id info = blen (in_channels s).
Proof.
  intros [R1 R2 R3]. unfold add_channel. pose proof (blen_nonneg (in_channels s)).
  rewrite wrap_small by (unfold in_u; lia).
  rewrite arith_ok by (unfold in_u, u64_max in *; lia). cbn [mbind res_bind].
  do 2 eexists. split; [done|]. split; [by split|done].
Qed.

Lemma add_numeric_eq p s ints path : add_numeric p s ints path = add_channel p s path Scalar ints.
Proof. by destruct ints. Qed.

Lemma add_lanes_extends p s ints paths :
  room s (blen paths) ->
  exists s' news, add_lanes p s ints paths =
      Ok (s', seqZ (blen (in_channels s)) (blen paths)) /\
    extends s s' news /\ length news = length paths /\
    Forall (fun i => ci_kind i = Scalar) news /\ map ci_path news = paths.
Proof.
  revert s. induction paths as [|path paths IH]; intros s Hr.
  - exists s, []. rewrite blen_nil. split; [done|]. split; [apply extends_refl|]. by split_and!.
  - rewrite blen_cons in *. pose proof (blen_nonneg paths). cbn [add_lanes].
    rewrite add_numeric_eq.
    destruct (add_channel_extends p s path Scalar ints) as (s1 & info & -> & He & Hk & Hp & _);
      [eapply room_le; [exact Hr|lia]|]. cbn [mbind res_bind fst snd].
    destruct (IH s1) as (s' & news & -> & He' & Hl & Hk' & Hp').
    { eapply extends_room; [exact He|]. change (blen [info]) with 1. done. }
    cbn [mbind res_bind fst snd]. exists s', (info :: news). split_and!.
    + rewrite (ext_channels _ _ _ He), blen_app. change (blen [info]) with 1.
      rewrite (seqZ_cons _ (1 + blen paths)) by lia. unfold Z.succ, Z.pred.
      replace (1 + blen paths + -1) with (blen paths) by lia. done.
    + exact (extends_trans _ _ _ _ _ He He').
    + simpl. lia.
    + by constructor.
    + simpl. by f_equal.
Qed.

(** ** Lanes of a field *)

(** How many channels a field contributes. *)
Definition field_lanes (schema : Schema) (schema_id field_index : Z) (f : FieldDef) : Z :=
  if is_numeric (fd_ty f) then fd_count f
  else if negb (fd_count f =? 1) then 0
  else match fd_ty f with
  | Bool | Enum | String_ => 1
  | Bitfield =>
    match Schema_bitfield schema schema_id field_index with
    | None => 0
    | Some bf => (if bool_decide (fd_size f ∈ [1; 2; 4; 8]) then 1 else 0) + blen (bf_bits bf)
    end
  | _ => 0
  end.

Definition option_ids (o : option ChannelId) : list ChannelId :=
  match o with Some c => [c] | None => [] end.

(** The channels a field is dispatched to, in registration order. *)
Definition fk_ids (fk : FieldKind) : list ChannelId :=
  match fk with
  | FkScalar ch _ _ _ | FkState ch _ | FkText ch _ => [ch]
  | FkScalarArray _ _ _ chs => chs
  | FkBitfield _ _ word bits => option_ids word ++ map snd bits
  | FkIgnored => []
  end.

(** The kind of channel a field's samples are pushed to. *)
Definition fk_kind (fk : FieldKind) (k : ChannelKind) : Prop :=
  match fk, k with
  | (FkScalar _ _ _ _ | FkScalarArray _ _ _ _ | FkBitfield _ _ _ _), Scalar => True
  | FkState _ _, State _ => True
  | FkText _ _, Text => True
  | _, _ => False
  end.

(** The outcome of registering something that contributes [lanes] channels. *)
Definition registers (s : Inner) (lanes : Z) (s' : Inner) (ids : list ChannelId)
    (ok : ChannelKind -> Prop) : Prop :=
  exists news, extends s s' news /\ blen news = lanes /\
    ids = seqZ (blen (in_channels s)) lanes /\ Forall (fun i => ok (ci_kind i)) news.

Lemma register_bits_extends s s' news w b :
  extends s s' news -> extends s (register_word_bits s' w b) news.
Proof. by intros []. Qed.

(** A single registration. *)
Lemma registers_one p s path kind ints (mk : ChannelId -> FieldKind) :
  room s 1 -> (forall c, fk_ids (mk c) = [c]) -> (forall c, fk_kind (mk c) kind) ->
  exists s' fk, (r ← add_channel p s path kind ints; mret (r.1, mk r.2)) = Ok (s', fk) /\
    registers s 1 s' (fk_ids fk) (fk_kind fk).
Proof.
  intros Hr Hi Hk. destruct (add_channel_extends p s path kind ints Hr) as (s' & info & H1 & H2 & H3 & _).
  rewrite H1. cbn [mbind res_bind fst snd]. do 2 eexists. split; [done|]. exists [info].
  rewrite Hi. split_and!; [done|done|done|]. constructor; [by rewrite H3|done].
Qed.

Lemma registers_none s fk : fk_ids fk = [] -> registers s 0 s (fk_ids fk) (fk_kind fk).
Proof. intros ->. exists []. split; [apply extends_refl|done]. Qed.

Lemma build_numeric_registers p f path s :
  0 <= fd_count f -> room s (fd_count f) ->
  exists s' fk, build_numeric p f path s = Ok (s', fk) /\
    registers s (fd_count f) s' (fk_ids fk) (fk_kind fk).
Proof.
  intros Hc Hr. unfold build_numeric. cbv zeta. destruct (fd_count f =? 1) eqn:E1.
  - replace (fd_count f) with 1 in * by lia. rewrite add_numeric_eq.
    by apply (registers_one p s _ Scalar _ (fun c => FkScalar c (fd_ty f) (fd_offset f) _)).
  - set (paths := map _ _).
    assert (Hp : blen paths = fd_count f) by (unfold blen, paths; rewrite length_map, length_seq; lia).
    destruct (add_lanes_extends p s (is_integer (fd_ty f)) paths) as (s' & news & -> & He & Hl & Hk & _);
      [by rewrite Hp|]. cbn [mbind res_bind fst snd]. do 2 eexists. split; [done|].
    exists news. rewrite Hp. split_and!; [done|unfold blen in *; lia|done|].
    eapply Forall_impl; [exact Hk|]. intros i ->. done.
Qed.

Lemma build_bits_registers p f bf path s :
  let lanes := (if bool_decide (fd_size f ∈ [1; 2; 4; 8]) then 1 else 0) + blen (bf_bits bf) in
  room s lanes ->
  exists s' fk, build_bits p f bf path s = Ok (s', fk) /\
    registers s lanes s' (fk_ids fk) (fk_kind fk).
Proof.
  cbv zeta. unfold build_bits. set (paths := map _ _). pose proof (blen_nonneg (bf_bits bf)).
  assert (Hp : blen paths = blen (bf_bits bf)) by (unfold blen, paths; by rewrite length_map).
  assert (Hsnd : forall m, map snd (zip (bf_bits bf) (seqZ m (blen paths))) = seqZ m (blen paths)).
  { intros m. apply snd_zip. rewrite length_seqZ, Hp. unfold blen. lia. }
  case_bool_decide; intros Hr.
  - destruct (add_channel_extends p s (path []) Scalar true) as (s1 & info & H1 & H2 & H3 & _);
      [eapply room_le; [exact Hr|lia]|].
    unfold add_scalar_int, add_scalar_with. rewrite H1. cbn [mbind res_bind mret res_ret fst snd].
    destruct (add_lanes_extends p s1 true paths) as (s' & news & -> & He & Hl & Hk & _).
    { eapply extends_room; [exact H2|]. by rewrite Hp. }
    cbn [mbind res_bind mret res_ret fst snd]. do 2 eexists. split; [done|]. exists (info :: news). split_and!.
    + apply register_bits_extends. exact (extends_trans _ _ _ _ _ H2 He).
    + rewrite blen_cons. unfold blen in *. lia.
    + cbn [fk_ids option_ids app]. rewrite Hsnd.
      rewrite (ext_channels _ _ _ H2), blen_app, Hp. change (blen [info]) with 1.
      rewrite (seqZ_cons _ (1 + _)) by lia. unfold Z.succ, Z.pred.
      by replace (1 + blen (bf_bits bf) + -1) with (blen (bf_bits bf)) by lia.
    + constructor; [cbn; by rewrite H3|]. eapply Forall_impl; [exact Hk|]. intros i ->. done.
  - cbn [mbind res_bind mret res_ret fst snd].
    destruct (add_lanes_extends p s true paths) as (s' & news & -> & He & Hl & Hk & _); [by rewrite Hp|].
    cbn [mbind res_bind mret res_ret fst snd]. do 2 eexists. split; [done|]. exists news. split_and!.
    + done.
    + unfold blen in *. lia.
    + cbn [fk_ids option_ids app]. by rewrite Hsnd, Hp.
    + eapply Forall_impl; [exact Hk|]. intros i ->. done.
Qed.

Lemma build_field_registers p id fi f schema s :
  0 <= fd_count f -> room s (field_lanes schema id fi f) ->
  exists s' fk, build_field p id fi f schema s = Ok (s', fk) /\
    registers s (field_lanes schema id fi f) s' (fk_ids fk) (fk_kind fk).
Proof.
  intros Hc. unfold build_field, field_lanes. cbv zeta. set (path := field_path _ f).
  destruct (is_numeric (fd_ty f)) eqn:En; [intros Hr; by apply build_numeric_registers|].
  assert (Hign : exists s' fk, @mret (res Empty_set) _ _ (s, FkIgnored) = Ok (s', fk) /\
    registers s 0 s' (fk_ids fk) (fk_kind fk)) by (do 2 eexists; split; [done|by apply registers_none]).
  destruct (fd_count f =? 1); cbn [negb]; [|done].
  destruct (fd_ty f); try discriminate En; try done; intros Hr.
  - by apply (registers_one p s (path []) (State _) true (fun c => FkState c (fd_offset f))).
  - by apply (registers_one p s (path []) (State _) true (fun c => FkState c (fd_offset f))).
  - destruct (Schema_bitfield schema id fi) as [bf|]; [|done]. by apply build_bits_registers.
  - by apply (registers_one p s (path []) Text false (fun c => FkText c f)).
Qed.

(** ** Whole schemas *)
Fixpoint fields_lanes (schema : Schema) (id fi : Z) (fs : list FieldDef) : Z :=
  match fs with
  | [] => 0
  | f :: fs => field_lanes schema id (wrap 16 fi) f + fields_lanes schema id (fi + 1) fs
  end.
Definition entry_lanes (schema : Schema) (e : SchemaEntry) : Z :=
  fields_lanes schema (se_id e) 0 (se_fields e).
Definition schema_lanes (schema : Schema) : Z :=
  foldr (fun e n => entry_lanes schema e + n) 0 (sc_entries schema).

Definition em_ids (em : EntryMap) : list ChannelId := concat (map fk_ids (em_fields em)).

(** The channels of a schema entry, through the map. *)
Definition entry_ids (m : gmap Z EntryMap) (e : SchemaEntry) : list ChannelId :=
  match m !! se_id e with Some em => em_ids em | None => [] end.

(** The mapped channels of field kind [fk] are channels of [s] of the kind its
    samples are pushed to. *)
Definition fk_registered (s : Inner) (fk : FieldKind) : Prop :=
  forall c, c ∈ fk_ids fk -> exists info, in_channels s !! Z.to_nat c = Some info /\ fk_kind fk (ci_kind info).

Definition counts_ok (fs : list FieldDef) : Prop := Forall (fun f => 0 <= fd_count f) fs.

Lemma field_lanes_nonneg schema id fi f : 0 <= fd_count f -> 0 <= field_lanes schema id fi f.
Proof.
  intros H. unfold field_lanes. destruct (is_numeric _); [done|]. destruct (negb _); [done|].
  destruct (fd_ty f); try lia. destruct (Schema_bitfield _ _ _); [|lia].
  pose proof (blen_nonneg (bf_bits b)). case_bool_decide; lia.
Qed.

Lemma fields_lanes_nonneg schema id fi fs : counts_ok fs -> 0 <= fields_lanes schema id fi fs.
Proof.
  intros H. revert fi. induction H as [|f fs Hf Hfs IH]; intros fi; cbn; [done|].
  pose proof (field_lanes_nonneg schema id (wrap 16 fi) f Hf). specialize (IH (fi + 1)). lia.
Qed.

Lemma registers_channels s lanes s' ids ok c :
  registers s lanes s' ids ok -> c ∈ ids ->
  exists info, in_channels s' !! Z.to_nat c = Some info /\ ok (ci_kind info).
Proof.
  intros (news & He & Hl & -> & Hk) Hc. apply elem_of_seqZ in Hc.
  rewrite (ext_channels _ _ _ He). pose proof (blen_nonneg (in_channels s)).
  destruct (lookup_lt_is_Some_2 news (Z.to_nat c - length (in_channels s))) as [info Hi].
  { unfold blen in *. lia. }
  exists info. rewrite lookup_app_r by (unfold blen in *; lia). split; [done|].
  by apply (Forall_lookup_1 _ _ _ _ Hk Hi).
Qed.

Lemma fk_registered_mono s s' news fk :
  extends s s' news -> fk_registered s fk -> fk_registered s' fk.
Proof.
  intros He H c Hc. destruct (H c Hc) as (info & Hi & Hk). exists info. split; [|done].
  rewrite (ext_channels _ _ _ He). by apply lookup_app_l_Some.
Qed.

(** The outcome for a sequence of fields. *)
Definition registers_all (s : Inner) (lanes : Z) (s' : Inner) (fks : list FieldKind) : Prop :=
  exists news, extends s s' news /\ blen news = lanes /\
    concat (map fk_ids fks) = seqZ (blen (in_channels s)) lanes /\
    Forall (fk_registered s') fks.

Lemma build_fields_registers p schema id fi fs s :
  counts_ok fs -> room s (fields_lanes schema id fi fs) ->
  exists s' fks, build_fields p id fi fs schema s = Ok (s', fks) /\
    registers_all s (fields_lanes schema id fi fs) s' fks.
Proof.
  intros H. revert fi s. induction H as [|f fs Hf Hfs IH]; intros fi s Hr; cbn [build_fields fields_lanes] in *.
  - do 2 eexists. split; [done|]. exists []. split; [apply extends_refl|done].
  - pose proof (field_lanes_nonneg schema id (wrap 16 fi) f Hf).
    pose proof (fields_lanes_nonneg schema id (fi + 1) fs Hfs).
    destruct (build_field_registers p id (wrap 16 fi) f schema s Hf) as (s1 & fk & -> & Hreg);
      [eapply room_le; [exact Hr|lia]|].
    pose proof Hreg as (n1 & E1 & L1 & I1 & K1). cbn [mbind res_bind fst snd].
    destruct (IH (fi + 1) s1) as (s' & fks & -> & n2 & E2 & L2 & I2 & K2).
    { eapply extends_room; [exact E1|]. by rewrite L1. }
    cbn [mbind res_bind fst snd]. do 2 eexists. split; [done|]. exists (n1 ++ n2). split_and!.
    + by eapply extends_trans.
    + rewrite blen_app. lia.
    + cbn [map concat]. rewrite I1, I2, (ext_channels _ _ _ E1), blen_app, L1. by rewrite seqZ_app.
    + constructor; [|done]. eapply fk_registered_mono; [exact E2|].
      intros c Hc. by eapply registers_channels.
Qed.

Lemma build_entries_registers p schema es s m :
  Forall (fun e => counts_ok (se_fields e)) es -> NoDup (map se_id es) ->
  (forall e, e ∈ es -> m !! se_id e = None) ->
  let lanes := foldr (fun e n => entry_lanes schema e + n) 0 es in
  room s lanes ->
  exists s' m' news, build_entries p es schema s m = Ok (s', inr (mkChannelMap m')) /\
    extends s s' news /\ blen news = lanes /\
    concat (map (entry_ids m') es) = seqZ (blen (in_channels s)) lanes /\
    (forall id em, m !! id = Some em -> m' !! id = Some em) /\
    (forall id em, m' !! id = Some em ->
       m !! id = Some em \/ (id ∈ map se_id es /\ Forall (fk_registered s') (em_fields em))).
Proof.
  intros H. revert s m. induction H as [|e es He Hes IH]; intros s m Hnd Hm lanes Hr; cbn [build_entries].
  { exists s, m, []. split_and!; [done|apply extends_refl|done|done|done|by left]. }
  cbn [map] in Hnd. apply NoDup_cons in Hnd as [Hni Hnd]. cbn [foldr] in lanes.
  rewrite (Hm e) by (apply elem_of_cons; by left). unfold build_entry.
  set (rest := foldr _ 0 es) in *.
  assert (0 <= rest).
  { unfold rest. clear -Hes. induction Hes as [|a l Ha Hl IH]; cbn; [done|].
    pose proof (fields_lanes_nonneg schema (se_id a) 0 (se_fields a) Ha). unfold entry_lanes at 1. lia. }
  pose proof (fields_lanes_nonneg schema (se_id e) 0 (se_fields e) He). fold (entry_lanes schema e) in *.
  destruct (build_fields_registers p schema (se_id e) 0 (se_fields e) s He) as (s1 & fks & -> & n1 & E1 & L1 & I1 & K1);
    [eapply room_le; [exact Hr|unfold lanes, entry_lanes in *; lia]|].
  fold (entry_lanes schema e) in *. cbn [mbind res_bind mret res_ret fst snd].
  destruct (IH s1 (<[se_id e := mkEntryMap fks]> m) Hnd) as (s' & m' & n2 & -> & E2 & L2 & I2 & M2 & R2).
  { intros e' He'. rewrite lookup_insert_ne; [apply Hm, elem_of_cons; by right|].
    intros Heq. apply Hni. rewrite Heq. by apply list_elem_of_fmap_2. }
  { eapply extends_room; [exact E1|]. by rewrite L1. }
  assert (Hm' : m' !! se_id e = Some (mkEntryMap fks)) by (apply M2, lookup_insert_eq).
  exists s', m', (n1 ++ n2). split_and!; [done| | | | |].
  - by eapply extends_trans.
  - rewrite blen_app. unfold lanes. lia.
  - cbn [map concat]. unfold entry_ids at 1. rewrite Hm'. unfold em_ids. cbn [em_fields].
    rewrite I1, I2, (ext_channels _ _ _ E1), blen_app, L1. unfold lanes. by rewrite seqZ_app.
  - intros id em Hid. apply M2. rewrite lookup_insert_ne; [done|]. intros <-.
    rewrite (Hm e) in Hid; [done|]. apply elem_of_cons. by left.
  - intros id em Hid. destruct (R2 id em Hid) as [Hin|[Hin Hk]].
    + destruct (decide (id = se_id e)) as [->|Hne].
      * rewrite lookup_insert_eq in Hin. simplify_eq. right. split; [apply elem_of_cons; by left|].
        eapply Forall_impl; [exact K1|]. intros fk. by apply (fk_registered_mono _ _ _ _ E2).
      * rewrite lookup_insert_ne in Hin by done. by left.
    + right. split; [apply elem_of_cons; by right|done].
Qed.

(** ** Reading values *)
Lemma read_scalar_eq f payload :
  is_numeric (fd_ty f) = true -> fd_count f = 1 ->
  read_scalar (fd_ty f) payload (fd_offset f) (fd_size f) = field_as_f64 f payload.
Proof.
  intros Hn Hc. unfold read_scalar, field_as_f64. rewrite Hc. cbn [negb Z.eqb Pos.eqb].
  destruct (_ <? _); [done|]. destruct (subslice _ _ _); [|done|done]. cbn [mbind res_bind].
  by destruct (fd_ty f).
Qed.

Lemma read_scalar_safe ty payload off size :
  0 <= off -> 0 < size -> read_scalar ty payload off size <> Panic.
Proof.
  intros Ho Hs. unfold read_scalar. destruct (_ <? _) eqn:E; [discriminate|].
  unfold subslice. replace (_ <=? _) with true by lia. cbn [mbind res_bind].
  pose proof (length_slice payload off size Ho ltac:(lia) ltac:(lia)) as Hl.
  destruct (slice payload off size) as [|b s]; [change (blen []) with 0 in Hl; lia|].
  destruct ty; rewrite ?first_byte_cons; discriminate.
Qed.

(** ** Bit lanes *)
Lemma land_shiftl_low raw x k : 0 <= raw < 2 ^ k -> 0 <= k -> Z.land raw (Z.shiftl x k) = 0.
Proof.
  intros Hr Hk. apply Z.bits_inj'. intros n Hn. rewrite Z.land_spec, Z.bits_0.
  destruct (Z_lt_le_dec n k).
  - rewrite (Z.shiftl_spec_low _ _ n) by lia. by rewrite andb_false_r.
  - rewrite <-(Z.mod_small raw (2 ^ k)) by lia. by rewrite Z.mod_pow2_bits_high by lia.
Qed.

Lemma word_loop_spec p bs i raw :
  0 <= i -> i + blen bs <= 8 -> 0 <= raw < 2 ^ (i * 8) ->
  word_loop p bs i raw = Ok (raw + 2 ^ (i * 8) * le_u bs).
Proof.
  revert i raw. induction bs as [|b bs IH]; intros i raw Hi Hl Hr; cbn [word_loop le_u].
  - by rewrite Z.mul_0_r, Z.add_0_r.
  - rewrite blen_cons in Hl. pose proof (blen_nonneg bs). pose proof (byte_z_range b).
    rewrite shl_ok by lia. cbn [mbind res_bind].
    assert (H256 : 2 ^ ((i + 1) * 8) = 2 ^ (i * 8) * 256).
    { replace ((i + 1) * 8) with (i * 8 + 8) by lia. by rewrite Z.pow_add_r by lia. }
    assert (0 < 2 ^ (i * 8)) by (apply Z.pow_pos_nonneg; lia).
    rewrite Z.shiftl_mul_pow2 by lia.
    assert (Hw : wrap 64 (byte_z b * 2 ^ (i * 8)) = byte_z b * 2 ^ (i * 8)).
    { apply wrap_small. unfold in_u.
      assert (2 ^ ((i + 1) * 8) <= 2 ^ 64) by (apply Z.pow_le_mono_r; lia). nia. }
    rewrite Hw. assert (Hlor : Z.lor raw (byte_z b * 2 ^ (i * 8)) = raw + byte_z b * 2 ^ (i * 8)).
    { rewrite <-Z.shiftl_mul_pow2 by lia. pose proof (land_shiftl_low raw (byte_z b) (i * 8) Hr ltac:(lia)).
      symmetry. by rewrite <-Z.lxor_lor, <-Z.add_nocarry_lxor. }
    rewrite Hlor, IH; [f_equal; rewrite H256; ring|lia|lia|]. rewrite H256. nia.
Qed.

Lemma bit_value_spec p raw bit :
  in_u 64 raw -> 0 <= bd_width bit < 64 -> 0 <= bd_start bit < 64 ->
  bit_value p raw bit = Ok (Z.shiftr raw (bd_start bit) mod 2 ^ bd_width bit).
Proof.
  unfold in_u. intros Hr Hw Hs. unfold bit_value. rewrite shl_ok by lia. cbn [mbind res_bind].
  rewrite Z.shiftl_1_l.
  assert (1 <= 2 ^ bd_width bit < 2 ^ 64).
  { split; [apply (Z.pow_le_mono_r 2 0); lia|apply Z.pow_lt_mono_r; lia]. }
  rewrite wrap_small by (unfold in_u; lia). rewrite arith_ok by (unfold in_u; lia). cbn [mbind res_bind].
  rewrite shl_ok by lia. cbn [mbind res_bind]. rewrite shr_ok by lia. f_equal.
  apply Z.bits_inj'. intros n Hn. unfold wrap.
  rewrite Z.shiftr_spec, Z.land_spec by lia.
  replace (2 ^ bd_width bit - 1) with (Z.ones (bd_width bit)) by (rewrite Z.ones_equiv; lia).
  destruct (Z_lt_le_dec n (bd_width bit)).
  - rewrite (Z.mod_pow2_bits_low _ (bd_width bit)) by lia. rewrite Z.shiftr_spec by lia.
    destruct (Z_lt_le_dec (n + bd_start bit) 64).
    + rewrite Z.mod_pow2_bits_low, Z.shiftl_spec by lia.
      replace (n + bd_start bit - bd_start bit) with n by lia.
      rewrite Z.ones_spec_low by lia. by rewrite andb_true_r.
    + rewrite Z.mod_pow2_bits_high by lia. rewrite andb_false_r. symmetry.
      rewrite <-(Z.mod_small raw (2 ^ 64)) by lia. apply Z.mod_pow2_bits_high. lia.
  - rewrite (Z.mod_pow2_bits_high _ (bd_width bit)) by lia.
    destruct (Z_lt_le_dec (n + bd_start bit) 64).
    + rewrite Z.mod_pow2_bits_low, Z.shiftl_spec by lia.
      replace (n + bd_start bit - bd_start bit) with n by lia.
      rewrite Z.ones_spec_high by lia. by rewrite andb_false_r.
    + rewrite Z.mod_pow2_bits_high by lia. by rewrite andb_false_r.
Qed.

(** ** Dispatch keeps the store's contract *)

(** Nothing recorded is later than [t]. *)
Record before (s : Inner) (t : Z) : Prop := {
  before_scalars : Forall (Forall (fun x => x.1 <= t)) (in_scalars s);
  before_states : Forall (Forall (fun r => t_end r <= t)) (in_states s);
  before_texts : Forall (Forall (fun x => x.1 <= t)) (in_texts s);
}.

(** The store can take [n] more samples stamped [t]. *)
Record ready (p : profile) (s : Inner) (t n : Z) : Prop := {
  ready_wf : mock_wf s;
  ready_before : before s t;
  ready_time : in_u 64 t;
  ready_rev : p = Release \/ in_revision s + n <= u64_max;
}.

Lemma ready_le p s t n m : ready p s t n -> m <= n -> ready p s t m.
Proof. intros [? ? ? Hr] H. split; try done. destruct Hr; [by left|right; lia]. Qed.

Lemma after_before {A} (time : A -> Z) vs i t :
  in_u 64 t -> Forall (Forall (fun x => time x <= t)) vs -> after time (vs !! i) t.
Proof.
  intros Ht Hb. split; [done|]. intros buf x Hi Hx.
  pose proof (Forall_lookup_1 _ _ _ _ Hb Hi) as Hbuf. rewrite last_lookup in Hx.
  by apply (Forall_lookup_1 _ _ _ _ Hbuf Hx).
Qed.

Lemma push_scalar_ready p s ch t v n :
  0 <= n -> ready p s t (1 + n) -> exists s', push_scalar p s ch t v = Ok s' /\ ready p s' t n.
Proof.
  intros Hn [Hw Hb Ht Hr]. pose proof (wf_revision _ Hw) as Hrv. unfold in_u in Hrv.
  assert (Hadm : admissible s (PushScalar ch t v)) by (apply after_before, Hb; done).
  destruct (run_op_returns p s (PushScalar ch t v)) as [s' Hs']; [destruct Hr; [by left|right; lia]|done|].
  exists s'. split; [done|]. split; [by eapply run_op_wf| |done|].
  - cbn in Hs'. unfold push_scalar in Hs'. destruct (in_scalars s !! _) as [buf|] eqn:E; inv_bind; [|done].
    destruct Hb as [B1 B2 B3]. split; cbn; [|done|done]. apply Forall_insert; [done|].
    apply Forall_app. split; [by apply (Forall_lookup_1 _ _ _ _ B1 E)|]. by constructor.
  - destruct Hr as [->|Hr]; [by left|right]. cbn in Hs'. unfold push_scalar in Hs'. destruct (in_scalars s !! _) as [buf|] eqn:E; inv_bind; [|lia].
    cbn. rewrite arith_ok in H by (unfold in_u, u64_max in *; lia). simplify_eq. lia.
Qed.

Lemma push_run_before runs t v :
  Forall (fun r => t_end r <= t) runs -> Forall (fun r => t_end r <= t) (push_run runs t v).
Proof.
  intros H. destruct (last runs) as [r|] eqn:E.
  - apply last_Some in E as [k ->]. apply Forall_app in H as [H _]. rewrite push_run_last.
    destruct (_ =? _); apply Forall_app; (split; [done|]); repeat constructor; cbn; lia.
  - apply last_None in E as ->. cbn. repeat constructor; cbn; lia.
Qed.

Lemma push_state_ready p s ch t v n :
  0 <= n -> in_u 32 v -> ready p s t (1 + n) -> exists s', push_state p s ch t v = Ok s' /\ ready p s' t n.
Proof.
  intros Hn Hv [Hw Hb Ht Hr]. pose proof (wf_revision _ Hw) as Hrv. unfold in_u in Hrv.
  assert (Hadm : admissible s (PushState ch t v)) by (split; [apply after_before, Hb; done|done]).
  destruct (run_op_returns p s (PushState ch t v)) as [s' Hs']; [destruct Hr; [by left|right; lia]|done|].
  exists s'. split; [done|]. split; [by eapply run_op_wf| |done|].
  - cbn in Hs'. unfold push_state in Hs'. destruct (in_states s !! _) as [runs|] eqn:E; inv_bind; [|done].
    destruct Hb as [B1 B2 B3]. split; cbn; [done| |done]. apply Forall_insert; [done|].
    apply push_run_before. by apply (Forall_lookup_1 _ _ _ _ B2 E).
  - destruct Hr as [->|Hr]; [by left|right]. cbn in Hs'. unfold push_state in Hs'. destruct (in_states s !! _) as [runs|] eqn:E; inv_bind; [|lia].
    cbn. rewrite arith_ok in H by (unfold in_u, u64_max in *; lia). simplify_eq. lia.
Qed.

Lemma push_text_ready p s ch t v n :
  0 <= n -> ready p s t (1 + n) -> exists s', push_text p s ch t v = Ok s' /\ ready p s' t n.
Proof.
  intros Hn [Hw Hb Ht Hr]. pose proof (wf_revision _ Hw) as Hrv. unfold in_u in Hrv.
  assert (Hadm : admissible s (PushText ch t v)) by (apply after_before, Hb; done).
  destruct (run_op_returns p s (PushText ch t v)) as [s' Hs']; [destruct Hr; [by left|right; lia]|done|].
  exists s'. split; [done|]. split; [by eapply run_op_wf| |done|].
  - cbn in Hs'. unfold push_text in Hs'. destruct (in_texts s !! _) as [buf|] eqn:E; inv_bind; [|done].
    destruct Hb as [B1 B2 B3]. split; cbn; [done|done|]. apply Forall_insert; [done|].
    apply Forall_app. split; [by apply (Forall_lookup_1 _ _ _ _ B3 E)|]. by constructor.
  - destruct Hr as [->|Hr]; [by left|right]. cbn in Hs'. unfold push_text in Hs'. destruct (in_texts s !! _) as [buf|] eqn:E; inv_bind; [|lia].
    cbn. rewrite arith_ok in H by (unfold in_u, u64_max in *; lia). simplify_eq. lia.
Qed.

(** Field descriptions on which dispatch cannot panic. *)
Definition fk_safe (fk : FieldKind) : Prop :=
  match fk with
  | FkScalar _ _ offset size => 0 <= offset /\ 0 < size
  | FkScalarArray _ base elem chs =>
    chs = [] \/ (0 <= base /\ 0 < elem /\ base + elem * blen chs <= 2 ^ 16)
  | FkState _ offset => 0 <= offset
  | FkBitfield offset n _ bits =>
    0 <= offset /\ 0 <= n <= 8 /\
    Forall (fun b => 0 <= bd_width b.1 < 64 /\ 0 <= bd_start b.1 < 64) bits
  | FkText _ _ | FkIgnored => True
  end.

Lemma push_opt_ready p s ch t v n :
  0 <= n -> ready p s t (1 + n) -> exists s', push_opt p s ch t v = Ok s' /\ ready p s' t n.
Proof.
  intros Hn Hr. destruct v; [by apply push_scalar_ready|]. exists s. split; [done|].
  eapply ready_le; [exact Hr|lia].
Qed.

Lemma no_panic_ok {A} (m : total A) : m <> Panic -> exists a, m = Ok a.
Proof. destruct m as [a|[]|]; [by exists a|done]. Qed.

Lemma dispatch_array_ready p ty base elem t payload i chs s n :
  0 <= i -> 0 <= n -> chs = [] \/ (0 <= base /\ 0 < elem /\ base + elem * (i + blen chs) <= 2 ^ 16) ->
  ready p s t (blen chs + n) ->
  exists s', dispatch_array p ty base elem t payload i chs s = Ok s' /\ ready p s' t n.
Proof.
  revert i s. induction chs as [|ch chs IH]; intros i s Hi Hn Hs Hr; cbn [dispatch_array].
  - exists s. split; [done|]. eapply ready_le; [exact Hr|rewrite blen_nil; lia].
  - destruct Hs as [Hs|(Hb & He & Hs)]; [done|]. rewrite blen_cons in *. pose proof (blen_nonneg chs).
    rewrite (arith_ok p 16 (i * elem)) by (unfold in_u; nia). cbn [mbind res_bind].
    rewrite arith_ok by (unfold in_u; nia). cbn [mbind res_bind].
    destruct (no_panic_ok (read_scalar ty payload (base + i * elem) elem)) as [v ->];
      [apply read_scalar_safe; nia|]. cbn [mbind res_bind].
    destruct (push_opt_ready p s ch t v (blen chs + n)) as (s1 & -> & H1); [lia|eapply ready_le; [exact Hr|lia]|].
    cbn [mbind res_bind]. apply IH; [lia|lia| |done]. right. split_and!; [done|done|].
    by replace (i + 1 + blen chs) with (i + (1 + blen chs)) by lia.
Qed.

Lemma dispatch_bits_ready p t raw bits s n :
  0 <= n -> in_u 64 raw ->
  Forall (fun b => 0 <= bd_width b.1 < 64 /\ 0 <= bd_start b.1 < 64) bits ->
  ready p s t (blen bits + n) ->
  exists s', dispatch_bits p t raw bits s = Ok s' /\ ready p s' t n.
Proof.
  intros Hn Hraw H. revert s. induction H as [|[bit ch] bits [Hw Hst] Hbs IH]; intros s Hr; cbn [dispatch_bits].
  - exists s. split; [done|]. eapply ready_le; [exact Hr|rewrite blen_nil; lia].
  - rewrite blen_cons in *. pose proof (blen_nonneg bits).
    rewrite bit_value_spec by done. cbn [mbind res_bind].
    edestruct (push_scalar_ready p s ch t) as (s1 & -> & H1); [|eapply ready_le; [exact Hr|]|].
    3:{ cbn [mbind res_bind]. apply IH. exact H1. } all: lia.
Qed.

Lemma dispatch_field_ready p fk t payload s n :
  0 <= n -> fk_safe fk -> ready p s t (blen (fk_ids fk) + n) ->
  exists s', dispatch_field p fk t payload s = Ok s' /\ ready p s' t n.
Proof.
  intros Hn Hs Hr. destruct fk as [ch ty off size|ty base elem chs|ch off|off sz word bits|ch fd|];
    cbn [fk_safe fk_ids dispatch_field] in *.
  - destruct Hs as [Ho Hsz].
    destruct (no_panic_ok (read_scalar ty payload off size)) as [v ->]; [by apply read_scalar_safe|].
    cbn [mbind res_bind]. by apply push_opt_ready.
  - apply dispatch_array_ready; [lia|lia| |done]. by rewrite Z.add_0_l.
  - destruct (off <? blen payload) eqn:E.
    + destruct (@index_slice Empty_set payload off) as (b & -> & _); [lia|]. cbn [mbind res_bind].
      apply push_state_ready; [done| |done]. pose proof (byte_z_range b). unfold in_u. lia.
    + exists s. split; [done|]. eapply ready_le; [exact Hr|]. change (blen [ch]) with 1. lia.
  - destruct Hs as (Ho & Hsz & Hb). rewrite blen_app in Hr. assert (Hl : blen (map snd bits) = blen bits)
      by (unfold blen; by rewrite length_map). rewrite Hl in Hr. pose proof (blen_nonneg bits).
    destruct (off + sz <=? blen payload) eqn:E.
    2:{ exists s. split; [done|]. eapply ready_le; [exact Hr|]. pose proof (blen_nonneg (option_ids word)). lia. }
    unfold subslice. rewrite E. cbn [mbind res_bind].
    pose proof (length_slice payload off sz ltac:(lia) ltac:(lia) ltac:(lia)) as Hsl.
    rewrite word_loop_spec by (cbn; lia). cbn [mbind res_bind].
    pose proof (le_u_range (slice payload off sz)) as Hle. fold (blen (slice payload off sz)) in Hle.
    rewrite Hsl in Hle. change (2 ^ (0 * 8)) with 1. rewrite Z.add_0_l, Z.mul_1_l.
    assert (Hraw : in_u 64 (le_u (slice payload off sz))).
    { unfold in_u. split; [lia|]. eapply Z.lt_le_trans; [apply Hle|]. apply Z.pow_le_mono_r; lia. }
    assert (exists s1, match word with Some ch => push_scalar p s ch t (f64_of_Z (le_u (slice payload off sz)))
      | None => mret s end = Ok s1 /\ ready p s1 t (blen bits + n)) as (s1 & -> & H1).
    { destruct word as [ch|]; cbn [option_ids] in Hr.
      - apply push_scalar_ready; [lia|]. eapply ready_le; [exact Hr|]. change (blen [ch]) with 1. lia.
      - exists s. split; [done|]. eapply ready_le; [exact Hr|]. change (blen []) with 0. lia. }
    cbn [mbind res_bind]. by apply dispatch_bits_ready.
  - destruct (field_as_string fd payload); [by apply push_text_ready|].
    exists s. split; [done|]. eapply ready_le; [exact Hr|]. change (blen [ch]) with 1. lia.
  - exists s. split; [done|]. eapply ready_le; [exact Hr|]. change (blen []) with 0. lia.
Qed.

Lemma dispatch_fields_ready p fks t payload s n :
  0 <= n -> Forall fk_safe fks -> ready p s t (blen (concat (map fk_ids fks)) + n) ->
  exists s', dispatch_fields p fks t payload s = Ok s' /\ ready p s' t n.
Proof.
  intros Hn H. revert s. induction H as [|fk fks Hfk Hfks IH]; intros s Hr; cbn [dispatch_fields].
  - exists s. split; [done|]. eapply ready_le; [exact Hr|]. change (blen (concat (map fk_ids []))) with 0. lia.
  - cbn [map concat] in Hr. rewrite blen_app in Hr. pose proof (blen_nonneg (concat (map fk_ids fks))).
    destruct (dispatch_field_ready p fk t payload s (blen (concat (map fk_ids fks)) + n)) as (s1 & -> & H1);
      [lia|done|eapply ready_le; [exact Hr|lia]|]. cbn [mbind res_bind]. by apply IH.
Qed.

(** ** Consistent schemas *)

(** A field description dispatch can serve: arrays lie inside the 16-bit offset
    space with at least one byte per element, bitfields fit a 64-bit word. *)
Definition field_sane (schema : Schema) (id fi : Z) (f : FieldDef) : Prop :=
  0 <= fd_count f /\ 0 <= fd_offset f /\
  (is_numeric (fd_ty f) = true -> fd_count f = 0 \/
     (fd_count f <= fd_size f /\ fd_offset f + fd_size f <= 2 ^ 16)) /\
  (forall bf, fd_ty f = Bitfield -> Schema_bitfield schema id fi = Some bf ->
     0 <= fd_size f <= 8 /\
     Forall (fun b => 0 <= bd_width b < 64 /\ 0 <= bd_start b < 64) (bf_bits bf)).

Fixpoint fields_sane (schema : Schema) (id fi : Z) (fs : list FieldDef) : Prop :=
  match fs with
  | [] => True
  | f :: fs => field_sane schema id (wrap 16 fi) f /\ fields_sane schema id (fi + 1) fs
  end.
Definition schema_sane (schema : Schema) : Prop :=
  Forall (fun e => fields_sane schema (se_id e) 0 (se_fields e)) (sc_entries schema).

Lemma add_lanes_length p s ints paths s' ids :
  add_lanes p s ints paths = Ok (s', ids) -> length ids = length paths.
Proof.
  revert s s' ids. induction paths as [|q paths IH]; intros s s' ids H; cbn [add_lanes] in H.
  - by injection H as _ <-.
  - apply bind_Ok in H as (r & _ & H). apply bind_Ok in H as ([s1 l] & Hl & H).
    injection H as _ <-. simpl. f_equal. by eapply IH.
Qed.

Lemma build_numeric_safe p f path s s' fk :
  0 <= fd_count f -> 0 <= fd_offset f ->
  fd_count f = 0 \/ (fd_count f <= fd_size f /\ fd_offset f + fd_size f <= 2 ^ 16) ->
  build_numeric p f path s = Ok (s', fk) -> fk_safe fk.
Proof.
  intros Hc Ho Hs. unfold build_numeric. cbv zeta.
  set (es := if 0 <? fd_count f then fd_size f / fd_count f else fd_size f).
  assert (Hes : fd_count f <> 0 -> 0 < es /\ es * fd_count f <= fd_size f).
  { intros Hnz. unfold es. replace (0 <? fd_count f) with true by lia. split.
    - apply Z.div_str_pos. lia.
    - rewrite Z.mul_comm. apply Z.mul_div_le. lia. }
  destruct (fd_count f =? 1) eqn:E1; intros H; apply bind_Ok in H as ([s1 r] & Hr & H); injection H as _ <-.
  - cbn. destruct Hes; lia.
  - apply add_lanes_length in Hr. rewrite length_map, length_seq in Hr. cbn.
    destruct (decide (fd_count f = 0)) as [E|E].
    + left. rewrite E in Hr. by apply length_zero_iff_nil in Hr.
    + right. destruct (Hes E). unfold blen. rewrite Hr, Z2Nat.id by lia. lia.
Qed.

Lemma build_field_safe p id fi f schema s s' fk :
  field_sane schema id fi f -> build_field p id fi f schema s = Ok (s', fk) -> fk_safe fk.
Proof.
  intros (Hc & Ho & Hn & Hb). unfold build_field. cbv zeta.
  destruct (is_numeric (fd_ty f)); [apply build_numeric_safe; auto|].
  destruct (negb _); [intros [= <- <-]; done|].
  destruct (fd_ty f) eqn:Et; try (intros [= <- <-]; done);
    try (intros H; apply bind_Ok in H as ([s1 r] & _ & H); injection H as _ <-; done).
  destruct (Schema_bitfield schema id fi) as [bf|]; [|intros [= <- <-]; done].
  destruct (Hb bf eq_refl eq_refl) as [Hsz Hbits]. unfold build_bits. intros H.
  apply bind_Ok in H as (w & _ & H). apply bind_Ok in H as ([s1 ids] & _ & H).
  injection H as _ <-. cbn. split_and!; [done|lia|lia|].
  apply Forall_lookup_2. intros i [b c] Hi. apply lookup_zip_with_Some in Hi as (b' & c' & E & Hb' & _).
  simplify_eq. by apply (Forall_lookup_1 _ _ _ _ Hbits Hb').
Qed.

Lemma build_fields_safe p id fi fs schema s s' fks :
  fields_sane schema id fi fs -> build_fields p id fi fs schema s = Ok (s', fks) -> Forall fk_safe fks.
Proof.
  revert fi s s' fks. induction fs as [|f fs IH]; intros fi s s' fks Hs H; cbn [build_fields] in H.
  - by injection H as _ <-.
  - destruct Hs as [Hf Hs]. apply bind_Ok in H as ([s1 fk] & Hfk & H).
    apply bind_Ok in H as ([s2 l] & Hl & H). injection H as _ <-.
    constructor; [by eapply build_field_safe|by eapply IH].
Qed.

Lemma build_entries_safe p schema es s m s' m' :
  Forall (fun e => fields_sane schema (se_id e) 0 (se_fields e)) es ->
  (forall id em, m !! id = Some em -> Forall fk_safe (em_fields em)) ->
  build_entries p es schema s m = Ok (s', inr m') ->
  forall id em, cm_entries m' !! id = Some em -> Forall fk_safe (em_fields em).
Proof.
  intros Hes. revert s m. induction Hes as [|e es He Hes IH]; intros s m Hm H; cbn [build_entries] in H.
  - injection H as _ <-. exact Hm.
  - destruct (m !! se_id e); [done|]. apply bind_Ok in H as ([s1 em] & Hem & H).
    refine (IH _ _ _ H). intros id em' Hid. cbn in Hid.
    apply lookup_insert_Some in Hid as [[_ <-]|[_ Hid]]; [|by eapply Hm].
    unfold build_entry in Hem. apply bind_Ok in Hem as ([s2 fks] & Hf & Hem). injection Hem as _ <-.
    by eapply build_fields_safe.
Qed.

(** ** Properties *)

(** Successive scalar pushes with one time stamp. *)
Fixpoint push_list (p : profile) (t : Z) (l : list (ChannelId * f64)) (s : Inner) : total Inner :=
  match l with
  | [] => mret s
  | (ch, v) :: l => s' ← push_scalar p s ch t v; push_list p t l s'
  end.

Lemma dispatch_bits_list p t raw bits s :
  in_u 64 raw -> Forall (fun b => 0 <= bd_width b.1 < 64 /\ 0 <= bd_start b.1 < 64) bits ->
  dispatch_bits p t raw bits s =
  push_list p t (map (fun '(b, ch) => (ch, f64_of_Z (Z.shiftr raw (bd_start b) mod 2 ^ bd_width b))) bits) s.
Proof.
  intros Hraw H. revert s. induction H as [|[b ch] bits [Hw Hs] Hb IH]; intros s; [done|].
  cbn [dispatch_bits map push_list]. rewrite bit_value_spec by done. cbn [mbind res_bind].
  destruct (push_scalar p s ch t _); cbn [mbind res_bind]; [apply IH|done|done].
Qed.

(** Building a channel map for a schema with distinct ids returns, in both
    build profiles, and registers exactly the channels the fields need: the
    store keeps its old channels and samples, the new channels are empty, and
    the dispatch targets of the entries, fields and lanes, read in order, are
    exactly the new channel ids, each once and of the kind that is pushed. *)
Theorem build_registers p schema s :
  Forall (fun e => counts_ok (se_fields e)) (sc_entries schema) ->
  NoDup (map se_id (sc_entries schema)) -> room s (schema_lanes schema) ->
  exists s' m news, ChannelMap_build p schema s = Ok (s', inr (mkChannelMap m)) /\
    extends s s' news /\ blen news = schema_lanes schema /\
    concat (map (entry_ids m) (sc_entries schema)) =
      seqZ (blen (in_channels s)) (schema_lanes schema) /\
    (forall id em, m !! id = Some em ->
       id ∈ map se_id (sc_entries schema) /\ Forall (fk_registered s') (em_fields em)).
Proof.
  intros Hc Hnd Hr. unfold ChannelMap_build.
  destruct (build_entries_registers p schema (sc_entries schema) s ∅ Hc Hnd)
    as (s' & m & news & H1 & H2 & H3 & H4 & _ & H6); [done|done|].
  exists s', m, news. split_and!; try done. intros id em Hid.
  destruct (H6 id em Hid) as [Hx|Hx]; [done|exact Hx].
Qed.

(** The ingest reader of numeric values and the library's [field_as_f64]
    agree on every numeric field and payload, errors and panics included. *)
Theorem read_scalar_agrees f payload :
  is_numeric (fd_ty f) = true -> fd_count f = 1 ->
  read_scalar (fd_ty f) payload (fd_offset f) (fd_size f) = field_as_f64 f payload.
Proof. apply read_scalar_eq. Qed.

(** C29: A bitfield of up to eight bytes is dispatched as the little-endian word
    of its bytes to the word channel, followed by one sample per bit range:
    bits [start, start + width) of the word, for every width and start below
    64, in declaration order. *)
Theorem dispatch_bitfield_lanes p off n word bits t payload s :
  0 <= off -> 0 <= n <= 8 -> off + n <= blen payload ->
  Forall (fun b => 0 <= bd_width b.1 < 64 /\ 0 <= bd_start b.1 < 64) bits ->
  let raw := le_u (slice payload off n) in
  dispatch_field p (FkBitfield off n word bits) t payload s =
  push_list p t
    (map (fun ch => (ch, f64_of_Z raw)) (option_ids word) ++
     map (fun '(b, ch) => (ch, f64_of_Z (Z.shiftr raw (bd_start b) mod 2 ^ bd_width b))) bits) s.
Proof.
  intros Ho Hn Hb Hbits. cbn [dispatch_field]. cbv zeta.
  replace (off + n <=? blen payload) with true by lia.
  unfold subslice. replace (off + n <=? blen payload) with true by lia. cbn [mbind res_bind].
  pose proof (length_slice payload off n ltac:(lia) ltac:(lia) ltac:(lia)) as Hsl.
  rewrite word_loop_spec by (cbn; lia). cbn [mbind res_bind]. change (2 ^ (0 * 8)) with 1.
  rewrite Z.add_0_l, Z.mul_1_l. set (raw := le_u _).
  assert (Hraw : in_u 64 raw).
  { pose proof (le_u_range (slice payload off n)) as Hle. fold (blen (slice payload off n)) in Hle.
    rewrite Hsl in Hle. unfold in_u, raw. split; [lia|]. eapply Z.lt_le_trans; [apply Hle|].
    apply Z.pow_le_mono_r; lia. }
  destruct word as [ch|]; cbn [option_ids map app push_list].
  - destruct (push_scalar p s ch t _); cbn [mbind res_bind]; [by apply dispatch_bits_list|done|done].
  - cbn [mbind res_bind mret res_ret]. by apply dispatch_bits_list.
Qed.

(** C16: Once a consistent schema is mapped, dispatching any entry id with any
    payload bytes never panics in either profile and respects the store's push
    contract: if nothing recorded is later than [t], the store stays well
    formed and nothing recorded is later than [t] afterwards. *)
Theorem dispatch_safe p schema s s' m id t payload s1 :
  schema_sane schema -> ChannelMap_build p schema s = Ok (s', inr m) ->
  ready p s1 t (blen (default [] (em_ids <$> cm_entries m !! id))) ->
  exists s2, dispatch p m id t payload s1 = Ok s2 /\ ready p s2 t 0.
Proof.
  intros Hs Hb Hr. unfold dispatch. destruct (cm_entries m !! id) as [em|] eqn:E.
  - apply dispatch_fields_ready; [done| |].
    + by eapply (build_entries_safe p schema (sc_entries schema) s ∅ s' m).
    + by rewrite Z.add_0_r.
  - exists s1. by split.
Qed.

(** The shift arithmetic of the bitfield path is not guarded: a bit range
    of width or start 64 and above, or a storage word of more than eight bytes,
    panics in a debug build, and a release build reports a 64-bit-wide lane
    as 0. *)
Theorem dispatch_bitfield_overflow raw bit off n word bits t payload s :
  (64 <= bd_width bit -> bit_value Debug raw bit = Panic) /\
  (0 <= bd_width bit < 64 -> 64 <= bd_start bit -> bit_value Debug raw bit = Panic) /\
  (bd_width bit = 64 -> bd_start bit = 0 -> bit_value Release raw bit = Ok 0) /\
  (0 <= off -> 8 < n -> off + n <= blen payload ->
   dispatch_field Debug (FkBitfield off n word bits) t payload s = Panic).
Proof.
  split_and!.
  - intros H. unfold bit_value, shl. by replace (bd_width bit <? 64) with false by lia.
  - intros Hw H. unfold bit_value. rewrite shl_ok by lia. cbn [mbind res_bind]. rewrite Z.shiftl_1_l.
    assert (1 <= 2 ^ bd_width bit < 2 ^ 64).
    { split; [apply (Z.pow_le_mono_r 2 0); lia|apply Z.pow_lt_mono_r; lia]. }
    rewrite wrap_small by (unfold in_u; lia). rewrite arith_ok by (unfold in_u; lia). cbn [mbind res_bind].
    unfold shl. by replace (bd_start bit <? 64) with false by lia.
  - intros Hw Hst. unfold bit_value. rewrite Hw, Hst. by destruct raw.
  - intros Ho Hn Hb. cbn [dispatch_field]. replace (off + n <=? blen payload) with true by lia.
    unfold subslice. replace (off + n <=? blen payload) with true by lia. cbn [mbind res_bind].
    pose proof (length_slice payload off n ltac:(lia) ltac:(lia) ltac:(lia)) as Hsl.
    enough (Hp : forall bs i raw, 0 <= i <= 8 -> 8 < i + blen bs -> word_loop Debug bs i raw = Panic)
      by (rewrite Hp by lia; done).
    clear. induction bs as [|b bs IH]; intros i raw Hi Hl; [rewrite blen_nil in Hl; lia|].
    rewrite blen_cons in Hl. cbn [word_loop]. unfold shl. destruct (i * 8 <? 64) eqn:E; [|done].
    cbn [mbind res_bind]. apply IH; lia.
Qed.

(** ** A concrete schema *)
Definition demo_map_schema : Schema :=
  mkSchema
    [mkSchemaEntry 7 (str "imu") (str "") 6
       [mkFieldDef (str "x") 0 2 I16 1; mkFieldDef (str "v") 2 2 U8 2;
        mkFieldDef (str "flags") 4 1 Bitfield 1; mkFieldDef (str "on") 5 1 Bool 1]]
    []
    [mkBitfieldDef 7 2 [mkBitDef (str "lo") 0 4; mkBitDef (str "hi") 4 4]].

(** Decision procedure for [schema_sane] on concrete schemas. *)
Definition field_saneb (schema : Schema) (id fi : Z) (f : FieldDef) : bool :=
  (0 <=? fd_count f) && (0 <=? fd_offset f) &&
  (negb (is_numeric (fd_ty f)) || (fd_count f =? 0) ||
     ((fd_count f <=? fd_size f) && (fd_offset f + fd_size f <=? 2 ^ 16))) &&
  match fd_ty f, Schema_bitfield schema id fi with
  | Bitfield, Some bf =>
    (0 <=? fd_size f) && (fd_size f <=? 8) &&
    forallb (fun b => (0 <=? bd_width b) && (bd_width b <? 64) && (0 <=? bd_start b) && (bd_start b <? 64))
      (bf_bits bf)
  | _, _ => true
  end.

Lemma field_saneb_spec schema id fi f : field_saneb schema id fi f = true -> field_sane schema id fi f.
Proof.
  unfold field_saneb, field_sane. intros H.
  apply andb_true_iff in H as [H Hb]. apply andb_true_iff in H as [H Hn]. apply andb_true_iff in H as [Hc Ho].
  split_and!; [lia|lia| |].
  - intros Hnum. rewrite Hnum in Hn. cbn in Hn. lia.
  - intros bf Ht Hbf. rewrite Ht, Hbf in Hb. apply andb_true_iff in Hb as [Hs Hb]. split; [lia|].
    apply Forall_forall. intros b Hin. rewrite forallb_forall in Hb.
    specialize (Hb b ltac:(by apply list_elem_of_In)). lia.
Qed.

Lemma demo_map_sane : schema_sane demo_map_schema.
Proof.
  constructor; [|constructor].
  repeat (split; [apply field_saneb_spec; vm_compute; reflexivity|]). exact I.
Qed.

Lemma room_new n : n <= 2 ^ 32 -> room MockStore_new n.
Proof.
  intros H. split; [|done|].
  - change (blen (in_channels MockStore_new)) with 0. lia.
  - change (in_revision MockStore_new) with 0. unfold u64_max. lia.
Qed.

(** Seven channels: x, v[0], v[1], flags, flags.lo, flags.hi, on. *)
Lemma build_registers_witness :
  exists s' m, ChannelMap_build Debug demo_map_schema MockStore_new = Ok (s', inr (mkChannelMap m)) /\
    concat (map (entry_ids m) (sc_entries demo_map_schema)) = [0; 1; 2; 3; 4; 5; 6].
Proof.
  destruct (build_registers Debug demo_map_schema MockStore_new) as (s' & m & news & H1 & _ & _ & H2 & _).
  - repeat constructor; vm_compute; discriminate.
  - apply NoDup_singleton.
  - apply room_new. vm_compute. discriminate.
  - exists s', m. split; [exact H1|exact H2].
Defined.

Lemma read_scalar_agrees_witness :
  read_scalar I16 [xfe; xff] 0 2 = field_as_f64 (mkFieldDef (str "x") 0 2 I16 1) [xfe; xff].
Proof. apply (read_scalar_agrees (mkFieldDef (str "x") 0 2 I16 1)); reflexivity. Defined.

Lemma dispatch_bitfield_lanes_witness :
  dispatch_field Debug (FkBitfield 0 1 None [(mkBitDef (str "hi") 4 4, 0)]) 5 [xa3]
    (after_ops Debug [AddScalarInt (str "f.hi")]) =
  push_list Debug 5 [(0, f64_of_Z 10)] (after_ops Debug [AddScalarInt (str "f.hi")]).
Proof.
  apply (dispatch_bitfield_lanes Debug 0 1 None [(mkBitDef (str "hi") 4 4, 0)] 5 [xa3]).
  - lia.
  - lia.
  - vm_compute. discriminate.
  - constructor; [cbn; lia|constructor].
Defined.

Definition demo_built : Inner * (MapError + ChannelMap) :=
  match ChannelMap_build Debug demo_map_schema MockStore_new with
  | Ok r => r
  | _ => (MockStore_new, inl (DuplicateSchema 0))
  end.
Definition demo_map : ChannelMap :=
  match demo_built.2 with inr m => m | inl _ => mkChannelMap ∅ end.

Lemma demo_build_ok : ChannelMap_build Debug demo_map_schema MockStore_new = Ok (demo_built.1, inr demo_map).
Proof. vm_compute. reflexivity. Qed.

Lemma dispatch_safe_witness :
  exists s2, dispatch Debug demo_map 7 100 [x01; x00; x02; x03; xa3; x01] MockStore_new = Ok s2.
Proof.
  destruct (dispatch_safe Debug demo_map_schema MockStore_new demo_built.1 demo_map 7 100
              [x01; x00; x02; x03; xa3; x01] MockStore_new) as (s2 & H & _).
  - exact demo_map_sane.
  - exact demo_build_ok.
  - split; [exact mock_new_wf|split; constructor|apply in_ub_spec; reflexivity|right; vm_compute; discriminate].
  - exists s2. exact H.
Defined.

(** A duplicate id is reported, but the channels registered before it remain. *)
Lemma duplicate_leaves_channels :
  let e id name := mkSchemaEntry id name (str "") 2 [mkFieldDef (str "x") 0 2 U16 1] in
  exists s', ChannelMap_build Debug (mkSchema [e 1 (str "a"); e 1 (str "b")] [] []) MockStore_new =
    Ok (s', inl (DuplicateSchema 1)) /\ length (in_channels s') = 1%nat.
Proof. eexists. split; vm_compute; reflexivity. Qed.
