(* ===== verification/Tcp.v ===== *)
(** * btelem-ingest: the TCP source

    Models viewer/crates/btelem-ingest/src/tcp.rs and the error type of lib.rs.
    The environment is a script: a connection is the list of what successive
    [read] calls see ([Data] is received bytes, [Fault] an error, the end of the
    list is the peer closing), an address attempt is a connection or a refusal,
    and each [stop.load] takes the next observation of the shared flag (once the
    observations run out the flag reads true, so every run ends).  Sleeping is
    recorded in milliseconds.  The clock is only used for the capture's age. *)

From S2P Require Import Prelude Slices Text Float64 Wire WireSchema WireValue Store MockStore Mapper.
From S2P Require Capture.

Inductive io_kind := Interrupted | WouldBlock | TimedOut | OtherIo.

Inductive IngestError :=
| IngIo (k : io_kind)
| IngWire (e : WireError)
| IngMap (e : MapError)
| IngClosed.

Inductive read_event :=
| Data (bs : list byte)
| Fault (k : io_kind).
Abbreviation stream := (list read_event).

(** Faults [read_exact_or_eof] retries when it has already read something. *)
Definition transient (k : io_kind) : bool :=
  match k with OtherIo => false | _ => true end.

(** ** Reading *)

(** [filled] are the bytes read so far, [need] how many are missing; one [read]
    returns what is available, at most [need] bytes. *)
Fixpoint read_loop (st : stream) (need : nat) (filled : list byte)
  : stream * (IngestError + list byte) :=
  if (need =? 0)%nat then (st, inr filled)
  else match st with
  | [] => ([], inl IngClosed)
  | Data bs :: st' =>
    if (length bs =? 0)%nat then (st', inl IngClosed)
    else if (length bs <=? need)%nat then read_loop st' (need - length bs) (filled ++ bs)
    else (Data (drop need bs) :: st', inr (filled ++ take need bs))
  | Fault k :: st' =>
    if transient k then
      if bool_decide (filled = []) then (st', inl (IngIo k)) else read_loop st' need filled
    else (st', inl (IngIo k))
  end.

Definition read_exact_or_eof (st : stream) (n : nat) : stream * (IngestError + list byte) :=
  read_loop st n [].

Definition read_len (st : stream) : stream * (IngestError + Z) :=
  let '(st, r) := read_exact_or_eof st 4 in
  (st, match r with inl e => inl e | inr b => inr (le_u b) end).

(** ** The packet loop *)
Record Sinks := mkSinks { sk_store : Inner; sk_capture : option Capture.Inner }.

Section source.
Context (p : profile) (now : Z).

Fixpoint dispatch_all (m : ChannelMap) (es : list DecodedEntry) (s : Inner) : total Inner :=
  match es with
  | [] => mret s
  | e :: es => s' ← dispatch p m (de_id e) (de_timestamp e) (de_payload e) s; dispatch_all m es s'
  end.

(** [let _ = cap.push_packet(..)]: a rejected packet is ignored. *)
Definition tee (c : option Capture.Inner) (pkt : list byte) : total (option Capture.Inner) :=
  match c with
  | None => mret None
  | Some g => match Capture.push_packet p g pkt now with
              | Ok g' => mret (Some g')
              | Err _ => mret (Some g)
              | Panic => Panic
              end
  end.

(** What is left when the loop returns: the sinks, the unread flag
    observations and the result. *)
Abbreviation loop_end := (Sinks * list bool * (IngestError + unit))%type.

Fixpoint packet_loop (stops : list bool) (st : stream) (m : ChannelMap) (k : Sinks) : total loop_end :=
  match stops with
  | [] => mret (k, [], inr tt)
  | true :: stops => mret (k, stops, inr tt)
  | false :: stops =>
    let '(st, r) := read_len st in
    match r with
    | inl (IngIo WouldBlock) | inl (IngIo TimedOut) => packet_loop stops st m k
    | inl e => mret (k, stops, inl e)
    | inr len =>
      let '(st, r) := read_exact_or_eof st (Z.to_nat len) in
      match r with
      | inl e => mret (k, stops, inl e)
      | inr pkt =>
        match decode_packet pkt with
        | Err e => mret (k, stops, inl (IngWire e))
        | Panic => Panic
        | Ok pk =>
          s ← dispatch_all m (pk_entries pk) (sk_store k);
          c ← tee (sk_capture k) pkt;
          packet_loop stops st m (mkSinks s c)
        end
      end
    end
  end.

(** ** Connecting *)

(** One attempt per address, until a connection is accepted; a failure after
    that is final.  The store keeps what was registered before an error. *)
Fixpoint connect_once (addrs : nat) (conns : list (option stream)) (s : Inner) (last : option IngestError)
  : total (Inner * list (option stream) * (IngestError + (stream * list byte * ChannelMap))) :=
  match addrs with
  | O => mret (s, conns, inl (default (IngIo OtherIo) last))
  | S addrs =>
    match conns with
    | [] => connect_once addrs [] s (Some (IngIo OtherIo))
    | None :: conns => connect_once addrs conns s (Some (IngIo OtherIo))
    | Some st :: conns =>
      let '(st, r) := read_len st in
      match r with
      | inl e => mret (s, conns, inl e)
      | inr len =>
        let '(st, r) := read_exact_or_eof st (Z.to_nat len) in
        match r with
        | inl e => mret (s, conns, inl e)
        | inr buf =>
          match Schema_decode buf with
          | Err e => mret (s, conns, inl (IngWire e))
          | Panic => Panic
          | Ok schema =>
            r ← ChannelMap_build p schema s;
            mret (r.1, conns, match r.2 with inl e => inl (IngMap e) | inr m => inr (st, buf, m) end)
          end
        end
      end
    end
  end.

(** ** Reconnecting *)
Definition poll (stops : list bool) : bool * list bool :=
  match stops with [] => (true, []) | b :: stops => (b, stops) end.

(** The sleep is cut into 100 ms chunks, polling the flag before each. *)
Fixpoint sleep_loop (fuel : nat) (delay_ms slept total_ms : Z) (stops : list bool) : Z * list bool :=
  match fuel with
  | O => (total_ms, stops)
  | S fuel =>
    if slept <? delay_ms then
      let '(b, stops) := poll stops in
      if b then (total_ms, stops)
      else sleep_loop fuel delay_ms (slept + 100) (total_ms + Z.min 100 (delay_ms - slept)) stops
    else (total_ms, stops)
  end.

Record Session := mkSession {
  ss_sinks : Sinks;
  ss_conns : list (option stream);
  ss_stops : list bool;
  ss_delay : Z;
  ss_slept : list Z;
}.

Definition clear_sinks (k : Sinks) : Sinks :=
  mkSinks (mock_clear (sk_store k)) (Capture.clear <$> sk_capture k).
Definition record_schema (c : option Capture.Inner) (buf : list byte) : option Capture.Inner :=
  (fun g => (Capture.set_schema g buf now).1) <$> c.

(** One turn of the reconnect loop; [inr] is a return from the function. *)
Definition reconnect_turn (addrs : nat) (ss : Session) : total (Session + Session) :=
  let '(b, stops) := poll (ss_stops ss) in
  if b then mret (inr (mkSession (ss_sinks ss) (ss_conns ss) stops (ss_delay ss) (ss_slept ss)))
  else
    let '(ms, stops) := sleep_loop (Z.to_nat (ss_delay ss)) (ss_delay ss) 0 0 stops in
    let slept := ss_slept ss ++ [ms] in
    let '(b, stops) := poll stops in
    if b then mret (inr (mkSession (ss_sinks ss) (ss_conns ss) stops (ss_delay ss) slept))
    else
      let k := clear_sinks (ss_sinks ss) in
      r ← connect_once addrs (ss_conns ss) (sk_store k) None;
      let '(s, conns, c) := r in
      match c with
      | inl _ => mret (inl (mkSession (mkSinks s (sk_capture k)) conns stops
                              (Z.min (ss_delay ss * 2) 5000) slept))
      | inr (st, buf, m) =>
        e ← packet_loop stops st m (mkSinks s (record_schema (sk_capture k) buf));
        let '(k, stops, res) := e in
        match res with
        | inr _ => mret (inl (mkSession k conns stops 250 slept))
        | inl _ =>
          let '(b, stops) := poll stops in
          let ss' := mkSession k conns stops 250 slept in
          if b then mret (inr ss') else mret (inl ss')
        end
      end.

Fixpoint reconnect_loop (fuel : nat) (addrs : nat) (ss : Session) : total (option Session) :=
  match fuel with
  | O => mret None
  | S fuel =>
    r ← reconnect_turn addrs ss;
    match r with inr ss' => mret (Some ss') | inl ss' => reconnect_loop fuel addrs ss' end
  end.

(** The thread body.  Every turn of the loop takes a flag observation, so
    [length stops + 1] turns are enough. *)
Definition run_with_reconnect (addrs : nat) (st : stream) (m : ChannelMap) (k : Sinks)
    (conns : list (option stream)) (stops : list bool) : total (option Session) :=
  e ← packet_loop stops st m k;
  let '(k, stops, res) := e in
  let stay stops := reconnect_loop (S (length stops)) addrs (mkSession k conns stops 250 []) in
  match res with
  | inr _ => stay stops
  | inl _ => let '(b, stops) := poll stops in
             if b then mret (Some (mkSession k conns stops 250 [])) else stay stops
  end.

(** [TcpSource::connect]: the synchronous part, and the state it hands to the
    thread. *)
Definition TcpSource_connect (addrs : nat) (conns : list (option stream)) (k : Sinks)
  : total (Sinks * list (option stream) * (IngestError + (stream * ChannelMap))) :=
  if (addrs =? 0)%nat then mret (k, conns, inl (IngIo OtherIo))
  else
    r ← connect_once addrs conns (sk_store k) None;
    let '(s, conns, c) := r in
    match c with
    | inl e => mret (mkSinks s (sk_capture k), conns, inl e)
    | inr (st, buf, m) => mret (mkSinks s (record_schema (sk_capture k) buf), conns, inr (st, m))
    end.
End source.

(** ** Streams without faults: only the bytes matter, not the chunking *)
Definition plain (st : stream) : Prop := Forall (fun e => exists bs, e = Data bs /\ bs <> []) st.
Fixpoint content (st : stream) : list byte :=
  match st with Data bs :: st => bs ++ content st | Fault _ :: st => content st | [] => [] end.

(** Whatever follows what is read. *)
Lemma read_loop_front st rest need filled :
  plain st -> (need <= length (content st))%nat ->
  exists st', read_loop (st ++ rest) need filled = (st' ++ rest, inr (filled ++ take need (content st))) /\
    plain st' /\ content st' = drop need (content st).
Proof.
  intros H. revert need filled. induction H as [|e st (bs & -> & Hbs) Hst IH]; intros need filled Hn.
  - destruct need; [|simpl in Hn; lia]. exists []. destruct rest; cbn; rewrite app_nil_r; (split; [done|]; split; [constructor|done]).
  - cbn [read_loop content app] in *. destruct (need =? 0)%nat eqn:E0.
    { apply Nat.eqb_eq in E0 as ->. exists (Data bs :: st). rewrite take_0, app_nil_r. split; [done|].
      split; [constructor; [by exists bs|done]|done]. }
    replace (length bs =? 0)%nat with false by (destruct bs; done). rewrite length_app in Hn.
    destruct (length bs <=? need)%nat eqn:E1.
    + apply Nat.leb_le in E1. destruct (IH (need - length bs)%nat (filled ++ bs)) as (st' & -> & Hp & Hc); [lia|].
      exists st'. rewrite <-app_assoc, take_app, drop_app, (drop_ge bs), (take_ge bs) by lia. done.
    + apply Nat.leb_gt in E1. exists (Data (drop need bs) :: st). rewrite take_app_le, drop_app_le by lia. split; [done|].
      split; [|done]. constructor; [|done]. eexists. split; [done|]. intros Hd.
      apply (f_equal length) in Hd. rewrite length_drop in Hd. simpl in Hd. lia.
Qed.

Lemma read_loop_short st need filled :
  plain st -> (length (content st) < need)%nat -> read_loop st need filled = ([], inl IngClosed).
Proof.
  intros H. revert need filled. induction H as [|e st (bs & -> & Hbs) Hst IH]; intros need filled Hn;
    cbn [read_loop content] in *.
  - simpl in Hn. by destruct need; [lia|].
  - rewrite length_app in Hn. replace (need =? 0)%nat with false by (symmetry; apply Nat.eqb_neq; lia).
    replace (length bs =? 0)%nat with false by (destruct bs; done).
    replace (length bs <=? need)%nat with true by (symmetry; apply Nat.leb_le; lia). apply IH. lia.
Qed.

(** A length-prefixed frame, read back from any chunking. *)
Definition frame (x : list byte) : list byte := le_bytes 4 (blen x) ++ x.

Lemma read_len_front st after x rest :
  plain st -> content st = frame x ++ rest -> in_u 32 (blen x) ->
  exists st', read_len (st ++ after) = (st' ++ after, inr (blen x)) /\ plain st' /\ content st' = x ++ rest.
Proof.
  intros Hp Hc Hx. unfold read_len, read_exact_or_eof.
  destruct (read_loop_front st after 4 [] Hp) as (st' & -> & Hp' & Hc').
  { rewrite Hc. unfold frame. rewrite !length_app, length_le_bytes. lia. }
  exists st'. unfold frame in Hc. rewrite <-app_assoc in Hc. rewrite Hc in *.
  rewrite take_app_le, take_ge, drop_app_le, drop_ge in * by (rewrite length_le_bytes; lia).
  split; [|done]. cbn [app]. by rewrite le_u_le_bytes.
Qed.

Lemma read_body_front st after x rest :
  plain st -> content st = x ++ rest ->
  exists st', read_exact_or_eof (st ++ after) (Z.to_nat (blen x)) = (st' ++ after, inr x) /\ plain st' /\ content st' = rest.
Proof.
  intros Hp Hc. unfold read_exact_or_eof, blen. rewrite Nat2Z.id.
  destruct (read_loop_front st after (length x) [] Hp) as (st' & -> & Hp' & Hc').
  { rewrite Hc, length_app. lia. }
  exists st'. rewrite Hc in *. rewrite take_app_length, drop_app_length in *. done.
Qed.

Lemma read_len_frame st x rest :
  plain st -> content st = frame x ++ rest -> in_u 32 (blen x) ->
  exists st', read_len st = (st', inr (blen x)) /\ plain st' /\ content st' = x ++ rest.
Proof.
  intros Hp Hc Hx. destruct (read_len_front st [] x rest Hp Hc Hx) as (st' & H & ?). rewrite !app_nil_r in H. by exists st'.
Qed.

Lemma read_body st x rest :
  plain st -> content st = x ++ rest ->
  exists st', read_exact_or_eof st (Z.to_nat (blen x)) = (st', inr x) /\ plain st' /\ content st' = rest.
Proof.
  intros Hp Hc. destruct (read_body_front st [] x rest Hp Hc) as (st' & H & ?). rewrite !app_nil_r in H. by exists st'.
Qed.

(** ** What a session does with a sequence of packets *)
Section process.
Context (p : profile) (now : Z) (m : ChannelMap).

Definition process_one (pkt : list byte) (k : Sinks) : total Sinks :=
  match decode_packet pkt with
  | Ok pk =>
    s ← dispatch_all p m (pk_entries pk) (sk_store k);
    c ← tee p now (sk_capture k) pkt;
    mret (mkSinks s c)
  | _ => mret k
  end.

Fixpoint process (pkts : list (list byte)) (k : Sinks) : total Sinks :=
  match pkts with
  | [] => mret k
  | pkt :: pkts => k' ← process_one pkt k; process pkts k'
  end.

Lemma packet_loop_frames pkts st k j :
  plain st -> content st = concat (map frame pkts) ->
  Forall (fun pkt => in_u 32 (blen pkt) /\ exists pk, decode_packet pkt = Ok pk) pkts ->
  packet_loop p now (replicate (S (length pkts) + j) false) st m k =
  (k' ← process pkts k; mret (k', replicate j false, inl IngClosed)).
Proof.
  intros Hp Hc H. revert st k Hp Hc.
  induction H as [|pkt pkts [Hl [pk Hpk]] Hpkts IH]; intros st k Hp Hc;
    cbn [length Nat.add replicate packet_loop process].
  - unfold read_len, read_exact_or_eof. rewrite read_loop_short; [done|done|]. rewrite Hc. simpl. lia.
  - cbn [map concat] in Hc.
    destruct (read_len_frame st pkt _ Hp Hc Hl) as (st1 & -> & Hp1 & Hc1).
    destruct (read_body st1 pkt _ Hp1 Hc1) as (st2 & -> & Hp2 & Hc2).
    unfold process_one. rewrite Hpk.
    destruct (dispatch_all p m (pk_entries pk) (sk_store k)); cbn [mbind res_bind]; [|done|done].
    destruct (tee p now (sk_capture k) pkt); cbn [mbind res_bind mret res_ret]; [|done|done].
    exact (IH st2 _ Hp2 Hc2).
Qed.
End process.

(** ** The flag observations run down *)
Lemma poll_length stops : (length (poll stops).2 <= length stops)%nat.
Proof. destruct stops; simpl; lia. Qed.

Lemma poll_false stops stops' : poll stops = (false, stops') -> (length stops' < length stops)%nat.
Proof. destruct stops as [|[] stops]; cbn; intros [= <-]. simpl. lia. Qed.

Lemma sleep_loop_spec fuel delay slept ms stops :
  0 <= slept -> 0 <= ms -> ms <= Z.min slept delay ->
  let r := sleep_loop fuel delay slept ms stops in
  (length r.2 <= length stops)%nat /\ 0 <= r.1 <= Z.max ms delay.
Proof.
  revert slept ms stops. induction fuel as [|fuel IH]; intros slept ms stops H0 H1 H2; cbn [sleep_loop].
  - cbn. split; [done|lia].
  - destruct (slept <? delay) eqn:E; [|cbn; split; [done|lia]].
    destruct (poll stops) as [[] stops'] eqn:Ep.
    + pose proof (poll_length stops). rewrite Ep in H. cbn in *. split; [done|lia].
    + apply poll_false in Ep. destruct (IH (slept + 100) (ms + Z.min 100 (delay - slept)) stops') as [A B]; [lia..|].
      cbv zeta. split; [lia|]. lia.
Qed.

Lemma packet_loop_length p now stops st m k r :
  packet_loop p now stops st m k = Ok r -> (length r.1.2 <= length stops)%nat.
Proof.
  revert st k. induction stops as [|[] stops IH]; intros st k H; cbn [packet_loop] in H.
  - by injection H as <-.
  - injection H as <-. cbn. lia.
  - assert (Hdone : forall e, @mret (res Empty_set) _ _ (k, stops, inl e) = Ok r -> (length r.1.2 <= length (false :: stops))%nat).
    { intros e [= <-]. cbn. lia. }
    destruct (read_len st) as [st1 [[[]| | |]|len]]; try (by eapply Hdone);
      try (apply IH in H; cbn; lia).
    destruct (read_exact_or_eof st1 _) as [st2 [e|pkt]]; [by eapply Hdone|].
    destruct (decode_packet pkt) as [pk|e|]; [|by eapply Hdone|done].
    apply bind_Ok in H as (s & _ & H). apply bind_Ok in H as (c & _ & H).
    apply IH in H. cbn. lia.
Qed.

(** Invariant of the reconnect loop: the backoff stays in 250 ms .. 5 s. *)
Record backoff_ok (ss : Session) : Prop := {
  bo_delay : 250 <= ss_delay ss <= 5000;
  bo_slept : Forall (fun ms => 0 <= ms <= 5000) (ss_slept ss);
}.

Lemma reconnect_turn_spec p now addrs ss r :
  backoff_ok ss -> reconnect_turn p now addrs ss = Ok r ->
  match r with
  | inl ss' => backoff_ok ss' /\ (length (ss_stops ss') < length (ss_stops ss))%nat
  | inr ss' => backoff_ok ss'
  end.
Proof.
  intros [Hd Hs]. unfold reconnect_turn. destruct (poll (ss_stops ss)) as [[] stops] eqn:Ep.
  { intros [= <-]. by split. }
  apply poll_false in Ep. pose proof (sleep_loop_spec (Z.to_nat (ss_delay ss)) (ss_delay ss) 0 0 stops) as Hsl.
  destruct (sleep_loop _ _ _ _ _) as [ms stops1]. cbn in Hsl. destruct Hsl as [L1 M1]; [lia..|].
  assert (Hs' : Forall (fun ms => 0 <= ms <= 5000) (ss_slept ss ++ [ms])).
  { apply Forall_app. split; [done|]. constructor; [lia|done]. }
  destruct (poll stops1) as [[] stops2] eqn:Ep2; [intros [= <-]; by split|].
  apply poll_false in Ep2. intros H. apply bind_Ok in H as ([[s conns] [e|[[st buf] m]]] & _ & H).
  - injection H as <-. cbn. split; [split; cbn; [lia|done]|lia].
  - apply bind_Ok in H as ([[k stops3] res] & Hp & H). apply packet_loop_length in Hp. cbn in Hp.
    destruct res as [e|[]].
    + pose proof (poll_length stops3). destruct (poll stops3) as [[] stops4]; injection H as <-; cbn in *.
      * by split.
      * split; [by split|lia].
    + injection H as <-. cbn. split; [by split|lia].
Qed.

Lemma reconnect_loop_spec p now addrs fuel ss :
  backoff_ok ss -> (length (ss_stops ss) < fuel)%nat ->
  reconnect_loop p now fuel addrs ss = Panic \/
  exists ss', reconnect_loop p now fuel addrs ss = Ok (Some ss') /\ backoff_ok ss'.
Proof.
  revert ss. induction fuel as [|fuel IH]; intros ss Hb Hf; [lia|]. cbn [reconnect_loop].
  destruct (reconnect_turn p now addrs ss) as [r|[]|] eqn:E; cbn [mbind res_bind]; [|by left].
  apply reconnect_turn_spec in E; [|done]. destruct r as [ss'|ss'].
  - destruct E. apply IH; [done|lia].
  - right. by exists ss'.
Qed.

Lemma entry_counts_ok schema : schema_wf schema ->
  Forall (fun e => counts_ok (se_fields e)) (sc_entries schema).
Proof.
  intros (_ & _ & _ & He & _). eapply Forall_impl; [exact He|]. intros e (_ & _ & _ & _ & _ & Hf).
  eapply Forall_impl; [exact Hf|]. intros f (_ & _ & _ & Hc). apply Hc.
Qed.

(** ** Properties *)

(** C13: A session delivers the stream, however TCP chunks it: if the received
    bytes are length-prefixed packets, every packet is decoded, dispatched to
    the store and teed into the capture exactly once and in order, and the
    session then ends with [Closed] when the peer closes. *)
Theorem session_delivers p now m pkts st k j :
  plain st -> content st = concat (map frame pkts) ->
  Forall (fun pkt => in_u 32 (blen pkt) /\ exists pk, decode_packet pkt = Ok pk) pkts ->
  packet_loop p now (replicate (S (length pkts) + j) false) st m k =
  (k' ← process p now m pkts k; mret (k', replicate j false, inl IngClosed)).
Proof. apply packet_loop_frames. Qed.

(** The handshake transfers the schema: from any chunking of a
    length-prefixed encoding of a well-formed schema with distinct ids,
    connecting yields that blob, registers exactly its channels (the dispatch
    targets are the new ids in order) and leaves the stream at the first
    packet. *)
Theorem handshake_registers p schema st rest conns addrs s :
  plain st -> content st = frame (encode_schema schema) ++ rest ->
  schema_wf schema -> in_u 32 (blen (encode_schema schema)) ->
  NoDup (map se_id (sc_entries schema)) -> room s (schema_lanes schema) ->
  exists s' st' m news,
    connect_once p (S addrs) (Some st :: conns) s None =
      Ok (s', conns, inr (st', encode_schema schema, mkChannelMap m)) /\
    plain st' /\ content st' = rest /\ extends s s' news /\
    concat (map (entry_ids m) (sc_entries schema)) =
      seqZ (blen (in_channels s)) (schema_lanes schema).
Proof.
  intros Hp Hc Hwf Hlen Hnd Hroom. cbn [connect_once].
  destruct (read_len_frame st _ _ Hp Hc Hlen) as (st1 & -> & Hp1 & Hc1).
  destruct (read_body st1 _ _ Hp1 Hc1) as (st2 & -> & Hp2 & Hc2).
  rewrite Schema_decode_encode by done.
  destruct (build_entries_registers p schema (sc_entries schema) s ∅ (entry_counts_ok _ Hwf) Hnd)
    as (s' & m & news & Hb & He & _ & Hids & _); [done|exact Hroom|].
  unfold ChannelMap_build. rewrite Hb. cbn [mbind res_bind fst snd].
  by exists s', st2, m, news.
Qed.

(** A read timeout is harmless between frames (the loop polls the stop flag
    and reads on) and inside a frame's body, but not between a frame's length
    prefix and its first body byte: there it ends the session with an error, so
    a sender that pauses after the prefix loses the connection. *)
Theorem body_timeout_drops_session p now stops st m k len b :
  in_u 32 len -> 1 < len ->
  packet_loop p now (false :: stops) (Fault TimedOut :: st) m k = packet_loop p now stops st m k /\
  packet_loop p now (false :: stops) (Data (le_bytes 4 len) :: Data [b] :: Fault TimedOut :: st) m k =
    packet_loop p now (false :: stops) (Data (le_bytes 4 len) :: Data [b] :: st) m k /\
  packet_loop p now (false :: stops) (Data (le_bytes 4 len) :: Fault TimedOut :: st) m k =
    Ok (k, stops, inl (IngIo TimedOut)).
Proof.
  intros Hl Hpos. split; [done|].
  assert (Hlen : forall st', read_len (Data (le_bytes 4 len) :: st') = (st', inr len)).
  { intros st'. unfold read_len, read_exact_or_eof. cbn [read_loop Nat.eqb]. rewrite length_le_bytes.
    cbn [Nat.eqb Nat.leb Nat.sub app]. destruct st'; cbn [read_loop Nat.eqb]; by rewrite le_u_le_bytes. }
  destruct (Z.to_nat len) as [|[|n]] eqn:En; [unfold in_u in Hl; lia..|].
  split; cbn [packet_loop]; rewrite !Hlen, En; reflexivity.
Qed.


(** ** Concrete sessions *)
Definition demo_packet : list byte :=
  encode_packet 0 0 [mkDecodedEntry 7 100 [x01; x00; x02; x03; xa3; x01]].
Definition demo_sinks : Sinks := mkSinks demo_built.1 None.

(** One packet, received as three chunks. *)
Definition demo_stream : stream :=
  [Data (take 3 (frame demo_packet)); Data (take 10 (drop 3 (frame demo_packet)));
   Data (drop 13 (frame demo_packet))].

Lemma session_delivers_witness :
  packet_loop Debug 0 [false; false] demo_stream demo_map demo_sinks =
  (k' ← process Debug 0 demo_map [demo_packet] demo_sinks; mret (k', [], inl IngClosed)).
Proof.
  apply (session_delivers Debug 0 demo_map [demo_packet] demo_stream demo_sinks 0).
  - repeat (constructor; [eexists; split; [reflexivity|vm_compute; discriminate]|]). constructor.
  - vm_compute. reflexivity.
  - constructor; [|constructor]. split; [apply in_ub_spec; vm_compute; reflexivity|].
    eexists. vm_compute. reflexivity.
Defined.

(** A peer announces a schema. *)
Lemma handshake_registers_witness :
  exists s' st' m, connect_once Debug 1 [Some [Data (frame (encode_schema (demo_schema)))]] MockStore_new None =
    Ok (s', [], inr (st', encode_schema (demo_schema), mkChannelMap m)).
Proof.
  destruct (handshake_registers Debug (demo_schema) [Data (frame (encode_schema (demo_schema)))] [] [] 0
              MockStore_new) as (s' & st' & m & news & H & _).
  - constructor; [|constructor]. eexists. split; [reflexivity|vm_compute; discriminate].
  - vm_compute. reflexivity.
  - exact demo_schema_wf.
  - apply in_ub_spec. vm_compute. reflexivity.
  - repeat constructor; vm_compute; intros H; inversion H.
  - apply room_new. vm_compute. discriminate.
  - exists s', st', m. exact H.
Defined.

Lemma body_timeout_drops_session_witness :
  packet_loop Debug 0 [false] [Data (le_bytes 4 20); Fault TimedOut] demo_map demo_sinks =
  Ok (demo_sinks, [], inl (IngIo TimedOut)).
Proof.
  apply (body_timeout_drops_session Debug 0 [] [] demo_map demo_sinks 20 x00).
  - apply in_ub_spec. reflexivity.
  - lia.
Defined.
