(* ===== verification/Typed.v ===== *)
(** * btelem-ingest: the store stays typed

    A type system for the store and for channel maps, and its soundness for the
    ingest path of viewer/crates/btelem-ingest (mapper.rs, tcp.rs): a channel's
    kind (store lib.rs, [ChannelKind]) says which of its three buffers may hold
    data, a map is well typed when every dispatch target has the kind its field
    pushes.  Registration yields well-typed maps, dispatch keeps the store typed,
    and so does the whole receiver thread, whatever the peers send and however
    often it reconnects. *)

From S2P Require Import Prelude Slices Text Float64 Wire WireSchema WireValue Store MockStore Robust Mapper Tcp.
From S2P Require Capture.

(** ** Typing *)

(** The buffers a channel of kind [k] may have: all data is in its own. *)
Definition holds (k : ChannelKind) (v : list (Timestamp * f64)) (r : list StateRun) (x : list (Timestamp * text)) : Prop :=
  match k with
  | Scalar => r = [] /\ x = []
  | State _ => v = [] /\ x = []
  | Text => v = [] /\ r = []
  end.

Record typed (s : Inner) : Prop := {
  ty_scalars : length (in_scalars s) = length (in_channels s);
  ty_states : length (in_states s) = length (in_channels s);
  ty_texts : length (in_texts s) = length (in_channels s);
  ty_holds : forall i info v r x, in_channels s !! i = Some info -> in_scalars s !! i = Some v ->
    in_states s !! i = Some r -> in_texts s !! i = Some x -> holds (ci_kind info) v r x;
}.

(** Every dispatch target of the map is a channel of the kind that is pushed. *)
Definition map_typed (s : Inner) (m : ChannelMap) : Prop :=
  forall id em, cm_entries m !! id = Some em -> Forall (fk_registered s) (em_fields em).

Definition kind_at (s : Inner) (ch : ChannelId) (ok : ChannelKind -> Prop) : Prop :=
  exists info, in_channels s !! Z.to_nat ch = Some info /\ ok (ci_kind info).

(** What dispatch needs of its targets: a channel that exists has the right kind.
    It survives a clearing of the store, after which pushes find no buffer. *)
Definition may_push (s : Inner) (ch : ChannelId) (ok : ChannelKind -> Prop) : Prop :=
  forall info, in_channels s !! Z.to_nat ch = Some info -> ok (ci_kind info).
Definition fk_agrees (s : Inner) (fk : FieldKind) : Prop := forall c, c ∈ fk_ids fk -> may_push s c (fk_kind fk).
Definition map_agrees (s : Inner) (m : ChannelMap) : Prop :=
  forall id em, cm_entries m !! id = Some em -> Forall (fk_agrees s) (em_fields em).

(** A step of the store that keeps the channels and the typing. *)
Definition keeps (s s' : Inner) : Prop := in_channels s' = in_channels s /\ typed s'.

Lemma keeps_refl s : typed s -> keeps s s.
Proof. by split. Qed.
Lemma keeps_trans s1 s2 s3 : keeps s1 s2 -> keeps s2 s3 -> keeps s1 s3.
Proof. intros [E1 _] [E2 T]. split; [by rewrite E2|done]. Qed.

Lemma fk_registered_channels s s' fk : in_channels s' = in_channels s -> fk_registered s fk -> fk_registered s' fk.
Proof. intros E H c Hc. rewrite E. by apply H. Qed.

Lemma fk_agrees_channels s s' fk : in_channels s' = in_channels s -> fk_agrees s fk -> fk_agrees s' fk.
Proof. intros E H c Hc. unfold may_push. rewrite E. by apply H. Qed.

Lemma map_agrees_channels s s' m : in_channels s' = in_channels s -> map_agrees s m -> map_agrees s' m.
Proof.
  intros E H id em Hid. eapply Forall_impl; [by eapply H|]. intros fk. by apply fk_agrees_channels.
Qed.

Lemma map_typed_agrees s m : map_typed s m -> map_agrees s m.
Proof.
  intros H id em Hid. eapply Forall_impl; [by eapply H|]. intros fk Hr c Hc info Hi.
  destruct (Hr c Hc) as (info' & Hi' & Hk). congruence.
Qed.

Lemma map_agrees_cleared s m : in_channels s = [] -> map_agrees s m.
Proof. intros E id em Hid. apply Forall_true. intros fk c Hc info. by rewrite E. Qed.

Lemma typed_empty s : in_channels s = [] -> in_scalars s = [] -> in_states s = [] -> in_texts s = [] -> typed s.
Proof. intros E1 E2 E3 E4. split; rewrite ?E1, ?E2, ?E3, ?E4; done. Qed.

Lemma typed_new : typed MockStore_new.
Proof. by apply typed_empty. Qed.
Lemma typed_clear s : typed (mock_clear s).
Proof. by apply typed_empty. Qed.

(** ** Pushing *)
Section push.
Context (p : profile) (safe : Prop) (Hrel : safe -> p = Release).

Lemma arith_outcome w z : 0 <= w -> outcome safe (arith p w z) (in_u w).
Proof using Hrel.
  intros Hw. unfold arith. destruct (in_ub w z) eqn:E; cbn; [by apply in_ub_spec|].
  destruct p; cbn; [intros H; by apply Hrel in H|]. unfold wrap, in_u. apply Z.mod_pos_bound. lia.
Qed.

(** Replacing one buffer of a channel by one its kind allows. *)
Lemma push_scalar_keeps s ch t v : typed s -> may_push s ch (fun k => k = Scalar) ->
  outcome safe (push_scalar p s ch t v) (keeps s).
Proof using Hrel.
  intros [L1 L2 L3 H] Hk. unfold push_scalar.
  destruct (in_scalars s !! _) as [buf|] eqn:E; [|by apply outcome_ret, keeps_refl].
  eapply outcome_bind; [apply arith_outcome; lia|]. intros rev _ _. apply outcome_ret. split; [done|].
  split; cbn; [by rewrite length_insert|done|done|]. intros i info' v' r x Hc Hv Hr Hx.
  apply list_lookup_insert_Some in Hv as [(<- & _ & _)|(_ & Hv)]; [|by eapply H].
  specialize (H _ _ _ _ _ Hc E Hr Hx). pose proof (Hk _ Hc) as Hk'. rewrite Hk' in *. exact H.
Qed.

Lemma push_state_keeps s ch t v : typed s -> may_push s ch (fun k => exists labels, k = State labels) ->
  outcome safe (push_state p s ch t v) (keeps s).
Proof using Hrel.
  intros [L1 L2 L3 H] Hk. unfold push_state.
  destruct (in_states s !! _) as [buf|] eqn:E; [|by apply outcome_ret, keeps_refl].
  eapply outcome_bind; [apply arith_outcome; lia|]. intros rev _ _. apply outcome_ret. split; [done|].
  split; cbn; [done|by rewrite length_insert|done|]. intros i info' v' r x Hc Hv Hr Hx.
  apply list_lookup_insert_Some in Hr as [(<- & _ & _)|(_ & Hr)]; [|by eapply H].
  specialize (H _ _ _ _ _ Hc Hv E Hx). destruct (Hk _ Hc) as [labels Hk']. rewrite Hk' in *. exact H.
Qed.

Lemma push_text_keeps s ch t v : typed s -> may_push s ch (fun k => k = Text) ->
  outcome safe (push_text p s ch t v) (keeps s).
Proof using Hrel.
  intros [L1 L2 L3 H] Hk. unfold push_text.
  destruct (in_texts s !! _) as [buf|] eqn:E; [|by apply outcome_ret, keeps_refl].
  eapply outcome_bind; [apply arith_outcome; lia|]. intros rev _ _. apply outcome_ret. split; [done|].
  split; cbn; [done|done|by rewrite length_insert|]. intros i info' v' r x Hc Hv Hr Hx.
  apply list_lookup_insert_Some in Hx as [(<- & _ & _)|(_ & Hx)]; [|by eapply H].
  specialize (H _ _ _ _ _ Hc Hv Hr E). pose proof (Hk _ Hc) as Hk'. rewrite Hk' in *. exact H.
Qed.

Lemma push_opt_keeps s ch t v : typed s -> may_push s ch (fun k => k = Scalar) ->
  outcome safe (push_opt p s ch t v) (keeps s).
Proof using Hrel. intros Ht Hk. destruct v; [by apply push_scalar_keeps|by apply outcome_ret, keeps_refl]. Qed.

(** ** Dispatching *)
Definition scalars_may (s : Inner) (chs : list ChannelId) : Prop := forall c, c ∈ chs -> may_push s c (fun k => k = Scalar).

Lemma scalars_may_keeps s s' chs : keeps s s' -> scalars_may s chs -> scalars_may s' chs.
Proof. intros [E _] H c Hc. unfold may_push. rewrite E. by apply H. Qed.

Lemma scalars_may_cons s c chs : scalars_may s (c :: chs) <-> may_push s c (fun k => k = Scalar) /\ scalars_may s chs.
Proof. unfold scalars_may. setoid_rewrite elem_of_cons. split; [intros H; split; auto|intros [H1 H2] x [->|?]; auto]. Qed.

Lemma read_scalar_outcome ty payload off size :
  (safe -> 0 <= off /\ 0 < size) -> outcome safe (read_scalar ty payload off size) (fun _ => True).
Proof.
  intros H. destruct (read_scalar ty payload off size) as [v|[]|] eqn:E; [done|].
  intros Hs. destruct (H Hs). by apply (read_scalar_safe ty payload off size).
Qed.

Lemma shl_outcome w x k : outcome safe (shl p w x k) (fun _ => True).
Proof using Hrel. unfold shl. destruct (_ <? _); [done|]. destruct p; [|done]. intros H. by apply Hrel in H. Qed.

Lemma bit_value_outcome raw bit : outcome safe (bit_value p raw bit) (fun _ => True).
Proof using Hrel.
  unfold bit_value. eapply outcome_bind; [apply shl_outcome|intros one _ _].
  eapply outcome_bind; [apply arith_outcome; lia|intros m _ _].
  eapply outcome_bind; [apply shl_outcome|intros mask _ _]. unfold shr.
  destruct (_ <? _); [done|]. destruct p; [|done]. intros H. by apply Hrel in H.
Qed.

Lemma word_loop_outcome bs i raw : outcome safe (word_loop p bs i raw) (fun _ => True).
Proof using Hrel.
  revert i raw. induction bs as [|b bs IH]; intros i raw; cbn [word_loop]; [done|].
  eapply outcome_bind; [apply shl_outcome|]. intros v _ _. apply IH.
Qed.

Lemma dispatch_array_keeps ty base elem t payload i chs s :
  (safe -> chs = [] \/ 0 < elem) -> typed s -> scalars_may s chs ->
  outcome safe (dispatch_array p ty base elem t payload i chs s) (keeps s).
Proof using Hrel.
  revert i s. induction chs as [|c chs IH]; intros i s Hsafe Ht Hk; cbn [dispatch_array]; [by apply outcome_ret, keeps_refl|].
  apply scalars_may_cons in Hk as [Hc Hk].
  eapply outcome_bind; [apply arith_outcome; lia|intros d _ _].
  eapply outcome_bind; [apply arith_outcome; lia|intros off _ Hoff].
  eapply outcome_bind; [apply read_scalar_outcome|intros v _ _].
  { intros Hs. destruct (Hsafe Hs) as [|]; [done|]. unfold in_u in Hoff. lia. }
  eapply outcome_bind; [by apply push_opt_keeps|]. intros s1 _ K1.
  eapply outcome_impl; [apply IH|].
  - intros Hs. destruct (Hsafe Hs) as [|]; [done|by right].
  - apply K1.
  - by eapply scalars_may_keeps.
  - intros s2. by apply keeps_trans.
Qed.

Lemma dispatch_bits_keeps t raw bits s : typed s -> scalars_may s (map snd bits) ->
  outcome safe (dispatch_bits p t raw bits s) (keeps s).
Proof using Hrel.
  revert s. induction bits as [|[b c] bits IH]; intros s Ht Hk; cbn [dispatch_bits map snd] in *; [by apply outcome_ret, keeps_refl|].
  apply scalars_may_cons in Hk as [Hc Hk]. eapply outcome_bind; [apply bit_value_outcome|intros v _ _].
  eapply outcome_bind; [by apply push_scalar_keeps|]. intros s1 _ K1.
  eapply outcome_impl; [apply IH; [apply K1|by eapply scalars_may_keeps]|]. intros s2. by apply keeps_trans.
Qed.

Lemma word_keeps s word t v : typed s -> scalars_may s (option_ids word) ->
  outcome safe (match word with Some ch => push_scalar p s ch t v | None => mret s end) (keeps s).
Proof using Hrel.
  intros Ht Hk. destruct word as [ch|]; [|by apply outcome_ret, keeps_refl].
  apply push_scalar_keeps; [done|]. apply Hk. by constructor.
Qed.

Lemma dispatch_field_keeps fk t payload s : typed s -> fk_agrees s fk -> (safe -> fk_safe fk) ->
  outcome safe (dispatch_field p fk t payload s) (keeps s).
Proof using Hrel.
  intros Ht Hk Hsafe.
  assert (Hsc : (forall k, fk_kind fk k -> k = Scalar) -> scalars_may s (fk_ids fk)).
  { intros Hs c Hc info Hi. apply Hs. by eapply Hk. }
  destruct fk as [ch ty off size|ty base elem chs|ch off|off n word bits|ch fd|]; cbn [dispatch_field fk_safe fk_ids] in *.
  - eapply outcome_bind; [by apply read_scalar_outcome|]. intros v _ _. apply push_opt_keeps; [done|].
    apply Hsc; [by intros []|by constructor].
  - apply dispatch_array_keeps; [|done|apply Hsc; by intros []].
    intros Hs. destruct (Hsafe Hs) as [|(_ & ? & _)]; auto.
  - destruct (off <? blen payload) eqn:E; [|by apply outcome_ret, keeps_refl].
    eapply outcome_bind with (P := fun _ => True).
    + unfold index. destruct (payload !! Z.to_nat off) eqn:El; [done|]. intros Hs. specialize (Hsafe Hs).
      apply lookup_ge_None in El. unfold blen in E. lia.
    + intros b _ _. apply push_state_keeps; [done|]. intros info Hi. pose proof (Hk ch ltac:(by constructor) info Hi) as Hki.
      cbn in Hki. destruct (ci_kind info); [done|by eexists|done].
  - specialize (Hsc ltac:(by intros [])).
    destruct (off + n <=? blen payload) eqn:E; [|by apply outcome_ret, keeps_refl].
    unfold subslice. rewrite E. cbn [mbind res_bind].
    eapply outcome_bind; [apply word_loop_outcome|]. intros raw _ _.
    eapply outcome_bind; [apply word_keeps; [done|intros c Hc; apply Hsc, elem_of_app; by left]|]. intros s1 _ K1.
    eapply outcome_impl; [apply dispatch_bits_keeps; [apply K1|]|intros s2; by apply keeps_trans].
    eapply scalars_may_keeps; [exact K1|]. intros c Hc. apply Hsc, elem_of_app. by right.
  - destruct (field_as_string fd payload); [|by apply outcome_ret, keeps_refl]. apply push_text_keeps; [done|].
    intros info Hi. pose proof (Hk ch ltac:(by constructor) info Hi). by destruct (ci_kind info).
  - by apply outcome_ret, keeps_refl.
Qed.

Lemma dispatch_fields_keeps fks t payload s : typed s -> Forall (fk_agrees s) fks -> (safe -> Forall fk_safe fks) ->
  outcome safe (dispatch_fields p fks t payload s) (keeps s).
Proof using Hrel.
  revert s. induction fks as [|fk fks IH]; intros s Ht Hk Hs; cbn [dispatch_fields]; [by apply outcome_ret, keeps_refl|].
  apply Forall_cons in Hk as [Hk Hks].
  eapply outcome_bind; [apply dispatch_field_keeps; [done|done|intros S; by apply Hs, Forall_cons in S as [? _]]|].
  intros s1 _ K1. eapply outcome_impl; [apply IH; [apply K1| |intros S; by apply Hs, Forall_cons in S as [_ ?]]|].
  - eapply Forall_impl; [exact Hks|]. intros fk'. apply fk_agrees_channels, K1.
  - intros s2. by apply keeps_trans.
Qed.

(** A map on which dispatch cannot panic. *)
Definition map_safe (m : ChannelMap) : Prop := forall id em, cm_entries m !! id = Some em -> Forall fk_safe (em_fields em).

Lemma dispatch_all_keeps m es s : typed s -> map_agrees s m -> (safe -> map_safe m) ->
  outcome safe (dispatch_all p m es s) (keeps s).
Proof using Hrel.
  revert s. induction es as [|e es IH]; intros s Ht Hm Hs; cbn [dispatch_all]; [by apply outcome_ret, keeps_refl|].
  eapply outcome_bind with (P := keeps s).
  - unfold dispatch. destruct (cm_entries m !! de_id e) as [em|] eqn:E; [|by apply outcome_ret, keeps_refl].
    apply dispatch_fields_keeps; [done|by eapply Hm|]. intros S. by eapply Hs.
  - intros s1 _ K1. eapply outcome_impl; [apply IH; [apply K1| |done]|intros s2; by apply keeps_trans].
    eapply map_agrees_channels; [apply K1|done].
Qed.

(** ** Registration *)

(** [s'] is [s] with [n] empty channels appended. *)
Definition grows (s s' : Inner) (n : Z) : Prop :=
  exists news, blen news = n /\ in_channels s' = in_channels s ++ news /\
    in_scalars s' = in_scalars s ++ replicate (length news) [] /\
    in_states s' = in_states s ++ replicate (length news) [] /\
    in_texts s' = in_texts s ++ replicate (length news) [].

Lemma grows_none s : grows s s 0.
Proof. exists []. cbn. rewrite !app_nil_r. by split_and!. Qed.

Lemma grows_trans s1 s2 s3 n m : grows s1 s2 n -> grows s2 s3 m -> grows s1 s3 (n + m).
Proof.
  intros (l1 & L1 & A1 & A2 & A3 & A4) (l2 & L2 & B1 & B2 & B3 & B4). exists (l1 ++ l2).
  rewrite B1, B2, B3, B4, A1, A2, A3, A4, blen_app, length_app, !replicate_add, !app_assoc. split_and!; [lia|done..].
Qed.

Lemma grows_length s s' n : grows s s' n -> blen (in_channels s') = blen (in_channels s) + n.
Proof. intros (l & L & A & _). rewrite A, blen_app. lia. Qed.

Lemma grows_typed s s' n : grows s s' n -> typed s -> typed s'.
Proof.
  intros (l & _ & E1 & E2 & E3 & E4) [L1 L2 L3 H].
  split; [rewrite E1, ?E2, ?E3, ?E4, !length_app, length_replicate; lia..|].
  intros i info v r x Hc Hv Hr Hx. rewrite E1 in Hc. rewrite E2 in Hv. rewrite E3 in Hr. rewrite E4 in Hx. destruct (decide (i < length (in_channels s))%nat) as [Hi|Hi].
  - rewrite lookup_app_l in Hc by lia. rewrite lookup_app_l in Hv by lia. rewrite lookup_app_l in Hr by lia.
    rewrite lookup_app_l in Hx by lia. by eapply H.
  - rewrite lookup_app_r in Hv by lia. rewrite lookup_app_r in Hr by lia. rewrite lookup_app_r in Hx by lia.
    apply lookup_replicate in Hv as [-> _]. apply lookup_replicate in Hr as [-> _]. apply lookup_replicate in Hx as [-> _]. by destruct (ci_kind info).
Qed.

Lemma kind_at_grows s s' n c ok : grows s s' n -> kind_at s c ok -> kind_at s' c ok.
Proof. intros (l & _ & E & _) (info & Hi & Hk). exists info. split; [|done]. rewrite E. by apply lookup_app_l_Some. Qed.

Lemma fk_registered_grows s s' n fk : grows s s' n -> fk_registered s fk -> fk_registered s' fk.
Proof. intros Hg H c Hc. by eapply (kind_at_grows s s'), H. Qed.

Definition scalar_at (s : Inner) (chs : list ChannelId) : Prop := forall c, c ∈ chs -> kind_at s c (fun k => k = Scalar).

Lemma scalar_at_cons s c chs : scalar_at s (c :: chs) <-> kind_at s c (fun k => k = Scalar) /\ scalar_at s chs.
Proof. unfold scalar_at. setoid_rewrite elem_of_cons. split; [intros H; split; auto|intros [H1 H2] x [->|?]; auto]. Qed.

(** What a registration of [lanes] channels yields: the ids below 2^32 are the
    new positions. *)
Definition yields (s : Inner) (lanes : Z) (r : Inner * FieldKind) : Prop :=
  grows s r.1 lanes /\ (blen (in_channels r.1) <= 2 ^ 32 -> fk_registered r.1 r.2).

Lemma add_channel_yields s path kind ints :
  outcome safe (add_channel p s path kind ints) (fun r =>
    grows s r.1 1 /\ (blen (in_channels r.1) <= 2 ^ 32 -> kind_at r.1 r.2 (fun k => k = kind))).
Proof using Hrel.
  unfold add_channel. eapply outcome_bind; [apply arith_outcome; lia|]. intros rev _ _. apply outcome_ret. cbn. split.
  - by exists [mkChannelInfo (wrap 32 (blen (in_channels s))) path kind ints].
  - rewrite blen_app. change (blen [_]) with 1. intros Hb. pose proof (blen_nonneg (in_channels s)).
    rewrite wrap_small by (unfold in_u; lia). exists (mkChannelInfo (blen (in_channels s)) path kind ints). split; [|done].
    cbn. unfold blen. by rewrite Nat2Z.id, lookup_app_r, Nat.sub_diag by done.
Qed.

Lemma add_lanes_yields s ints paths :
  outcome safe (add_lanes p s ints paths) (fun r =>
    grows s r.1 (blen paths) /\ (blen (in_channels r.1) <= 2 ^ 32 -> scalar_at r.1 r.2)).
Proof using Hrel.
  revert s. induction paths as [|path paths IH]; intros s; cbn [add_lanes].
  { apply outcome_ret. split; [apply grows_none|]. intros _ c Hc. by apply elem_of_nil in Hc. }
  rewrite add_numeric_eq. eapply outcome_bind; [apply add_channel_yields|]. intros [s1 c] _ [G1 K1]. cbn in *.
  eapply outcome_bind; [apply IH|]. intros [s2 l] _ [G2 K2]. apply outcome_ret. cbn in *. split.
  - rewrite blen_cons. by eapply grows_trans.
  - intros Hb. apply scalar_at_cons. split; [|by apply K2]. eapply kind_at_grows; [exact G2|]. apply K1.
    apply grows_length in G2. pose proof (blen_nonneg paths). lia.
Qed.

Lemma add_one_yields s path kind ints (mk : ChannelId -> FieldKind) :
  (forall c, fk_ids (mk c) = [c]) -> (forall c, fk_kind (mk c) kind) ->
  outcome safe (r ← add_channel p s path kind ints; mret (r.1, mk r.2)) (yields s 1).
Proof using Hrel.
  intros Hi Hk. eapply outcome_bind; [apply add_channel_yields|]. intros [s1 c] _ [G K]. apply outcome_ret. split; [done|].
  intros Hb x Hx. cbn in *. rewrite Hi in Hx. apply list_elem_of_singleton in Hx as ->.
  destruct (K Hb) as (info & Hi' & Hk'). exists info. split; [done|]. by rewrite Hk'.
Qed.

Lemma scalars_registered s fk : (fk_kind fk Scalar) -> scalar_at s (fk_ids fk) -> fk_registered s fk.
Proof. intros Hk H c Hc. destruct (H c Hc) as (info & Hi & Hki). exists info. split; [done|]. by rewrite Hki. Qed.

Lemma build_bits_yields f bf path s :
  outcome safe (build_bits p f bf path s)
    (yields s ((if bool_decide (fd_size f ∈ [1; 2; 4; 8]) then 1 else 0) + blen (bf_bits bf))).
Proof using Hrel.
  unfold build_bits. set (k := if bool_decide _ then 1 else 0). set (paths := map _ _).
  assert (Hp : blen paths = blen (bf_bits bf)) by (unfold blen, paths; by rewrite length_map). clearbody paths.
  eapply outcome_bind with (P := fun w => grows s w.1 k /\ 0 <= k /\
    (blen (in_channels w.1) <= 2 ^ 32 -> scalar_at w.1 (option_ids w.2))).
  { unfold k. destruct (bool_decide _).
    - eapply outcome_bind; [apply add_channel_yields|]. intros [s1 c] _ [G K]. apply outcome_ret. cbn in *.
      split_and!; [done|lia|]. intros Hb. apply scalar_at_cons. split; [by apply K|]. intros x Hx. by apply elem_of_nil in Hx.
    - apply outcome_ret. split_and!; [apply grows_none|lia|]. intros _ x Hx. by apply elem_of_nil in Hx. }
  intros [s1 w] _ (G1 & Hk & K1). cbn in *.
  eapply outcome_bind; [apply add_lanes_yields|]. intros [s2 ids] _ [G2 K2]. apply outcome_ret.
  rewrite Hp in G2. cbn in *. set (s3 := match w with Some _ => _ | None => s2 end).
  assert (E : in_channels s3 = in_channels s2 /\ grows s s3 (k + blen (bf_bits bf))).
  { pose proof (grows_trans _ _ _ _ _ G1 G2) as G. unfold s3. destruct w; by split. }
  destruct E as [E G]. split; [done|]. cbn. rewrite E. intros Hb. eapply fk_registered_channels; [exact E|].
  apply scalars_registered; [done|]. cbn. intros c Hc. apply elem_of_app in Hc as [Hc|Hc].
  - eapply kind_at_grows; [exact G2|]. apply K1; [|done]. apply grows_length in G2. pose proof (blen_nonneg (bf_bits bf)). lia.
  - apply K2; [done|]. apply list_elem_of_fmap in Hc as ([b c'] & -> & Hc). by apply elem_of_zip_r in Hc.
Qed.

Lemma build_field_yields id fi f schema s : 0 <= fd_count f ->
  outcome safe (build_field p id fi f schema s) (yields s (field_lanes schema id fi f)).
Proof using Hrel.
  intros Hc. unfold build_field, field_lanes. cbv zeta. set (path := field_path _ f).
  assert (Hign : outcome safe (mret (s, FkIgnored)) (yields s 0)).
  { apply outcome_ret. split; [apply grows_none|]. intros _ c Hx. by apply elem_of_nil in Hx. }
  destruct (is_numeric (fd_ty f)) eqn:En.
  - unfold build_numeric. cbv zeta. destruct (fd_count f =? 1) eqn:E1.
    + replace (fd_count f) with 1 by lia. rewrite add_numeric_eq.
      by apply (add_one_yields s _ Scalar _ (fun c => FkScalar c (fd_ty f) (fd_offset f) _)).
    + set (paths := map _ _).
      assert (Hp : blen paths = fd_count f) by (unfold blen, paths; rewrite length_map, length_seq; lia).
      eapply outcome_bind; [apply add_lanes_yields|]. intros [s1 ids] _ [G K]. rewrite Hp in G. apply outcome_ret.
      split; [done|]. intros Hb. by apply scalars_registered, K.
  - destruct (fd_count f =? 1); cbn [negb]; [|done]. destruct (fd_ty f); try discriminate En; try done.
    + by apply (add_one_yields s (path []) (State _) true (fun c => FkState c (fd_offset f))).
    + by apply (add_one_yields s (path []) (State _) true (fun c => FkState c (fd_offset f))).
    + destruct (Schema_bitfield schema id fi) as [bf|]; [|done]. apply build_bits_yields.
    + by apply (add_one_yields s (path []) Text false (fun c => FkText c f)).
Qed.

Lemma build_fields_yields id fi fs schema s : counts_ok fs ->
  outcome safe (build_fields p id fi fs schema s) (fun r =>
    grows s r.1 (fields_lanes schema id fi fs) /\
    (blen (in_channels r.1) <= 2 ^ 32 -> Forall (fk_registered r.1) r.2)).
Proof using Hrel.
  intros H. revert fi s. induction H as [|f fs Hf Hfs IH]; intros fi s; cbn [build_fields fields_lanes].
  { apply outcome_ret. split; [apply grows_none|by constructor]. }
  eapply outcome_bind; [by apply build_field_yields|]. intros [s1 fk] _ [G1 K1].
  eapply outcome_bind; [apply IH|]. intros [s2 fks] _ [G2 K2]. apply outcome_ret. cbn in *.
  split; [by eapply grows_trans|]. intros Hb. constructor; [|by apply K2].
  eapply fk_registered_grows; [exact G2|]. apply K1. apply grows_length in G2.
  pose proof (fields_lanes_nonneg schema id (fi + 1) fs Hfs). lia.
Qed.

Definition entries_lanes (schema : Schema) (es : list SchemaEntry) : Z :=
  foldr (fun e n => entry_lanes schema e + n) 0 es.

(** The store is typed whether or not the schema is accepted, has at most [b]
    channels, and an accepted map is well typed. *)
Definition registered (b : Z) (r : Inner * (MapError + ChannelMap)) : Prop :=
  typed r.1 /\ blen (in_channels r.1) <= b /\ match r.2 with inr m => map_typed r.1 m | inl _ => True end.

Lemma build_entries_typed b schema es s m : b <= 2 ^ 32 ->
  Forall (fun e => counts_ok (se_fields e)) es -> typed s -> map_typed s (mkChannelMap m) ->
  blen (in_channels s) + entries_lanes schema es <= b ->
  outcome safe (build_entries p es schema s m) (registered b).
Proof using Hrel.
  intros H32 H. revert s m. induction H as [|e es He Hes IH]; intros s m Ht Hm Hb; cbn [build_entries].
  { apply outcome_ret. split_and!; [done| |done]. cbn in Hb |- *. lia. }
  cbn [entries_lanes foldr] in Hb. fold (entries_lanes schema es) in Hb.
  assert (0 <= entries_lanes schema es).
  { clear -Hes. induction Hes as [|a l Ha Hl IH]; cbn; [done|]. fold (entries_lanes schema l).
    pose proof (fields_lanes_nonneg schema (se_id a) 0 (se_fields a) Ha). unfold entry_lanes at 1. lia. }
  pose proof (fields_lanes_nonneg schema (se_id e) 0 (se_fields e) He). fold (entry_lanes schema e) in *.
  destruct (m !! se_id e); [apply outcome_ret; split_and!; [done|cbn; lia|done]|]. unfold build_entry.
  eapply outcome_bind with (P := fun r => grows s r.1 (entry_lanes schema e) /\ Forall (fk_registered r.1) (em_fields r.2)).
  - eapply outcome_bind; [by apply build_fields_yields|]. intros [s1 fks] _ [G K]. apply outcome_ret. cbn in *.
    split; [done|]. apply K. apply grows_length in G. unfold entry_lanes in *. lia.
  - intros [s1 em] _ [G K]. cbn in *. apply IH.
    + by eapply grows_typed.
    + intros id em' Hid. cbn in Hid. apply lookup_insert_Some in Hid as [[_ <-]|[_ Hid]]; [done|].
      eapply Forall_impl; [by eapply Hm|]. intros fk. by eapply fk_registered_grows.
    + apply grows_length in G. lia.
Qed.

(** A decoded schema needs at most this many channels. *)
Definition lanes_max : Z := 512 * 16 * 255.
Lemma fields_lanes_le schema id fi fs : Forall bitfield_wf (sc_bitfields schema) -> Forall field_wf fs ->
  fields_lanes schema id fi fs <= 255 * blen fs.
Proof.
  intros Hbf H. revert fi. induction H as [|f fs Hf Hfs IH]; intros fi; cbn [fields_lanes]; [done|].
  rewrite blen_cons. specialize (IH (fi + 1)). enough (field_lanes schema id (wrap 16 fi) f <= 255) by lia.
  destruct Hf as (_ & _ & _ & Hc). unfold in_u in Hc. unfold field_lanes. destruct (is_numeric _); [lia|].
  destruct (negb _); [lia|]. destruct (fd_ty f); try lia.
  destruct (Schema_bitfield _ _ _) as [bf|] eqn:E; [|lia].
  assert (blen (bf_bits bf) <= 32).
  { unfold Schema_bitfield in E. apply find_some in E as [E _].
    rewrite Forall_forall in Hbf. by apply Hbf, list_elem_of_In. }
  destruct (bool_decide _); lia.
Qed.

Lemma schema_lanes_le schema : schema_wf schema -> schema_lanes schema <= lanes_max.
Proof.
  unfold lanes_max.
  intros (Hn & _ & _ & He & _ & Hb). unfold schema_lanes.
  enough (Hg : forall es, Forall entry_wf es -> entries_lanes schema es <= 255 * 16 * blen es).
  { specialize (Hg _ He). unfold entries_lanes in Hg. lia. }
  induction 1 as [|e es Hew Hes IH]; cbn; [done|]. fold (entries_lanes schema es). rewrite blen_cons.
  destruct Hew as (_ & _ & _ & _ & Hf & Hfw). unfold entry_lanes at 1.
  pose proof (fields_lanes_le schema (se_id e) 0 (se_fields e) Hb Hfw). lia.
Qed.

Lemma ChannelMap_build_typed b buf schema s : Schema_decode buf = Ok schema -> typed s ->
  blen (in_channels s) + lanes_max <= b -> b <= 2 ^ 32 -> outcome safe (ChannelMap_build p schema s) (registered b).
Proof using Hrel.
  intros Hd Ht Hc H32. pose proof (Schema_decode_Ok_wf _ _ Hd) as Hwf. pose proof (schema_lanes_le _ Hwf).
  apply build_entries_typed; [done|by apply entry_counts_ok|done|by intros id em Hid|]. unfold entries_lanes. fold (schema_lanes schema). lia.
Qed.

(** ** Connecting and receiving *)

(** The schema a connection offers in its handshake. *)
Definition offered (st : stream) : option Schema :=
  let '(st, r) := read_len st in
  match r with
  | inl _ => None
  | inr len =>
    match (read_exact_or_eof st (Z.to_nat len)).2 with
    | inl _ => None
    | inr buf => match Schema_decode buf with Ok schema => Some schema | _ => None end
    end
  end.

(** A connection whose schema, if it offers one, can be served. *)
Definition sane_offer (c : option stream) : Prop :=
  match c with
  | Some st => match offered st with Some schema => schema_sane schema | None => True end
  | None => True
  end.

(** The source's view of the store and of the peers still to come. *)
Definition map_fits (s : Inner) (m : ChannelMap) : Prop := map_agrees s m /\ (safe -> map_safe m).

Definition connected (b : Z) (r : Inner * list (option stream) * (IngestError + (stream * list byte * ChannelMap))) : Prop :=
  typed r.1.1 /\ blen (in_channels r.1.1) <= b /\ (safe -> Forall sane_offer r.1.2) /\
  match r.2 with inr (_, _, m) => map_fits r.1.1 m | inl _ => True end.

Lemma connect_once_typed b addrs conns s last : typed s -> blen (in_channels s) + lanes_max <= b -> b <= 2 ^ 32 ->
  (safe -> Forall sane_offer conns) -> outcome safe (connect_once p addrs conns s last) (connected b).
Proof using Hrel.
  intros Ht Hc H32. assert (Hb0 : blen (in_channels s) <= b) by (unfold lanes_max in Hc; lia).
  revert conns last. induction addrs as [|addrs IH]; intros conns last Hs; cbn [connect_once].
  { by apply outcome_ret. }
  destruct conns as [|[st|] conns]; [by apply IH| |apply IH; intros S; by apply Hs, Forall_cons in S as [_ ?]].
  assert (Hs' : safe -> Forall sane_offer conns) by (intros S; by apply Hs, Forall_cons in S as [_ ?]).
  assert (Ho : safe -> sane_offer (Some st)) by (intros S; by apply Hs, Forall_cons in S as [? _]).
  unfold sane_offer, offered in Ho. destruct (read_len st) as [st1 [e|len]]; [by apply outcome_ret|].
  destruct (read_exact_or_eof st1 (Z.to_nat len)) as [st2 [e|buf]]; [by apply outcome_ret|]. cbn [snd] in Ho.
  destruct (Schema_decode buf) as [schema|e|] eqn:Ed; [|by apply outcome_ret|].
  2:{ pose proof (Schema_decode_fails buf) as Hf. by rewrite Ed in Hf. }
  eapply outcome_bind; [by eapply ChannelMap_build_typed|]. intros [s1 [e|m]] Hb (Ht1 & Hn & Hm); apply outcome_ret; [done|].
  split_and!; [done|done|done|]. cbn in *. split; [by apply map_typed_agrees|]. intros S.
  refine (build_entries_safe p schema (sc_entries schema) s ∅ s1 m (Ho S) _ Hb). intros id em Hid. by rewrite lookup_empty in Hid.
Qed.

Lemma push_packet_total g pkt now : safe -> Capture.push_packet p g pkt now <> Panic.
Proof using Hrel.
  intros S. rewrite (Hrel S). unfold Capture.push_packet.
  pose proof (Capture.extract_meta_safe pkt). destruct (Capture.extract_meta pkt); cbn [mbind res_bind]; [|done|done].
  assert (Ha : forall z, exists x, (arith Release 64 z : Capture.capture Z) = Ok x)
    by (intros z; unfold arith; destruct (in_ub 64 z); by eexists).
  destruct (Ha (Capture.bytes g + blen pkt)) as [n ->]. destruct (Ha (Capture.packets_total g + 1)) as [tot ->].
  cbn [mbind res_bind].
  enough (He : forall pkts n d, exists r, Capture.evict_to_fit Release (Capture.cap_bytes g) pkts n d = Ok r).
  { destruct (He (Capture.packets g ++ [(pkt, a)]) n (Capture.packets_dropped g)) as [[[] ?] ->]. done. }
  induction pkts as [|[q mt] pkts IH]; intros n' d; cbn [Capture.evict_to_fit]; (destruct (_ <? _); [|by eexists]); [by eexists|].
  destruct (Ha (n' - blen q)) as [x ->]. destruct (Ha (d + 1)) as [y ->]. cbn [mbind res_bind]. apply IH.
Qed.

Lemma tee_outcome now c pkt : outcome safe (tee p now c pkt) (fun _ => True).
Proof using Hrel.
  destruct c as [g|]; cbn; [|done]. destruct (Capture.push_packet p g pkt now) eqn:E; [done|done|].
  intros S. by apply (push_packet_total g pkt now S).
Qed.
End push.

(** ** What typing means for the queries *)

(** In a typed store a query of another kind finds nothing, and the sample count
    of a channel counts all it holds. *)
Lemma typed_queries p s ch info v r x t0 t1 n : typed s -> in_channels s !! Z.to_nat ch = Some info ->
  in_scalars s !! Z.to_nat ch = Some v -> in_states s !! Z.to_nat ch = Some r -> in_texts s !! Z.to_nat ch = Some x ->
  mock_sample_count s ch = blen v + blen r + blen x /\
  (ci_kind info <> Scalar -> mock_query_scalar p s ch t0 t1 n = Ok [] /\ mock_query_raw s ch t0 t1 n = Ok []) /\
  ((forall labels, ci_kind info <> State labels) -> mock_query_state s ch t0 t1 = Ok []) /\
  (ci_kind info <> Text -> mock_query_text s ch t0 t1 n = Ok []).
Proof.
  intros [_ _ _ H] Hi Hv Hr Hx. specialize (H _ _ _ _ _ Hi Hv Hr Hx).
  unfold mock_sample_count, mock_query_scalar, mock_query_raw, mock_query_text, mock_query_state, query_strided.
  rewrite Hi, Hv, Hr, Hx. split.
  { destruct (ci_kind info); destruct H as [-> ->]; cbn; unfold blen; cbn; lia. }
  destruct (ci_kind info) as [|labels|]; destruct H as [-> ->]; cbn; split_and!; intros Hk;
    try done; try (by destruct (Hk labels)); repeat (destruct (_ || _); try done).
Qed.

(** ** In a release build registration and connecting always return *)
Lemma typed_aligned s : typed s -> aligned s.
Proof. intros []. by split. Qed.

Lemma build_release buf schema s : Schema_decode buf = Ok schema -> typed s -> in_channels s = [] ->
  returns (ChannelMap_build Release schema s) (registered (2 ^ 32)).
Proof.
  intros Hd Hs Hc. apply (outcome_returns True); [|done].
  apply (ChannelMap_build_typed Release True ltac:(done) (2 ^ 32) buf schema s Hd Hs); [by rewrite Hc|done].
Qed.

Lemma connect_once_release addrs conns s last : typed s -> in_channels s = [] ->
  returns (connect_once Release addrs conns s last) (fun r => typed r.1.1).
Proof.
  intros Hs Hc. revert conns last. induction addrs as [|addrs IH]; intros conns last; cbn [connect_once]; [by apply returns_ret|].
  destruct conns as [|[st|] conns]; [apply IH| |apply IH].
  destruct (read_len st) as [st1 [e|len]]; [by apply returns_ret|].
  destruct (read_exact_or_eof st1 (Z.to_nat len)) as [st2 [e|buf]]; [by apply returns_ret|].
  pose proof (Schema_decode_fails buf). destruct (Schema_decode buf) as [schema|e|] eqn:Ed; [|by apply returns_ret|done].
  eapply returns_bind; [by eapply build_release|]. intros [s1 r] [H1 _]. by apply returns_ret.
Qed.

Lemma TcpSource_connect_release now addrs conns k : typed (sk_store k) -> in_channels (sk_store k) = [] ->
  returns (TcpSource_connect Release now addrs conns k) (fun r => typed (sk_store r.1.1)).
Proof.
  intros Hs Hc. unfold TcpSource_connect. destruct (addrs =? 0)%nat; [by apply returns_ret|].
  eapply returns_bind; [by apply connect_once_release|]. intros [[s conns1] [e|[[st buf] m]]] H1; by apply returns_ret.
Qed.
