(* ===== verification/Source.v ===== *)
(** * btelem-ingest: the receiver thread, step by step

    Models the thread of viewer/crates/btelem-ingest/src/tcp.rs as a machine that
    moves from one load of the stop flag to the next (the code between two loads
    runs without looking at it), and the [SourceHandle] that owns it.  [Tcp.v] has
    the same code as functions of all the observations of the flag at once; the
    machine is the form in which it interleaves with the rest of the program
    (System.v), and the two are proved equal. *)

From S2P Require Import Prelude Slices Text Float64 Wire WireSchema WireValue Store MockStore Mapper Tcp Typed.
From S2P Require Capture.

(** ** The machine *)

(** The loads of the stop flag, by their place in the code. *)
Inductive phase :=
| Packets (st : stream) (m : ChannelMap) (* the head of [packet_loop] *)
| Failed                                 (* after [packet_loop] returned an error *)
| Retry (delay : Z)                      (* the head of the reconnect loop *)
| Sleeping (delay slept : Z)             (* the head of the sleep, not yet over *)
| Connect (delay : Z)                    (* after the sleep *)
| Done.

Record Thread := mkThread { th_phase : phase; th_conns : list (option stream) }.

Section source.
Context (p : profile) (now : Z) (addrs : nat).

(** The sleep's own condition, [slept < delay_ms]. *)
Definition pause (delay slept : Z) : phase := if slept <? delay then Sleeping delay slept else Connect delay.

(** One turn of [packet_loop], the flag being clear. *)
Definition receive (st : stream) (m : ChannelMap) (k : Sinks) : total (phase * Sinks) :=
  let '(st, r) := read_len st in
  match r with
  | inl (IngIo WouldBlock) | inl (IngIo TimedOut) => mret (Packets st m, k)
  | inl _ => mret (Failed, k)
  | inr len =>
    let '(st, r) := read_exact_or_eof st (Z.to_nat len) in
    match r with
    | inl _ => mret (Failed, k)
    | inr pkt =>
      match decode_packet pkt with
      | Err _ => mret (Failed, k)
      | Panic => Panic
      | Ok pk =>
        s ← dispatch_all p m (pk_entries pk) (sk_store k);
        c ← tee p now (sk_capture k) pkt;
        mret (Packets st m, mkSinks s c)
      end
    end
  end.

(** A reconnect attempt: wipe, connect, register. *)
Definition attempt (delay : Z) (conns : list (option stream)) (k : Sinks) : total (Thread * Sinks) :=
  let k := clear_sinks k in
  r ← connect_once p addrs conns (sk_store k) None;
  let '(s, conns, c) := r in
  mret (match c with
        | inl _ => (mkThread (Retry (Z.min (delay * 2) 5000)) conns, mkSinks s (sk_capture k))
        | inr (st, buf, m) => (mkThread (Packets st m) conns, mkSinks s (record_schema now (sk_capture k) buf))
        end).

(** The code from one load of the flag, which read [stop], to the next. *)
Definition thread_step (stop : bool) (th : Thread) (k : Sinks) : total (Thread * Sinks) :=
  let go ph := mret (mkThread ph (th_conns th), k) in
  match th_phase th, stop with
  | Packets _ _, true => go (Retry 250)
  | Packets st m, false => r ← receive st m k; mret (mkThread r.1 (th_conns th), r.2)
  | Failed, true => go Done
  | Failed, false => go (Retry 250)
  | Retry _, true => go Done
  | Retry delay, false => go (pause delay 0)
  | Sleeping delay _, true => go (Connect delay)
  | Sleeping delay slept, false => go (pause delay (slept + 100))
  | Connect _, true => go Done
  | Connect delay, false => attempt delay (th_conns th) k
  | Done, _ => go Done
  end.

Fixpoint thread_run (stops : list bool) (th : Thread) (k : Sinks) : total (Thread * Sinks) :=
  match stops with
  | [] => mret (th, k)
  | b :: stops => r ← thread_step b th k; thread_run stops r.1 r.2
  end.

(** ** The handle *)

(** [stop] and [join: Option<JoinHandle<..>>] of the running thread. *)
Record SourceHandle := mkSourceHandle { sh_stop : bool; sh_join : option Thread }.

Definition is_finished (th : Thread) : bool := match th_phase th with Done => true | _ => false end.

Definition is_alive (h : SourceHandle) : bool :=
  match sh_join h with Some th => negb (is_finished th) | None => false end.

(** The thread from the moment the flag is set: it may still be between a load
    that read [false] and the next one ([late]); from then on it reads [true]. *)
Definition wind_down (late : bool) (th : Thread) (k : Sinks) : total (Thread * Sinks) :=
  thread_run (if late then [false; true; true] else [true; true]) th k.

(** [SourceHandle::join]: a panic of the thread is propagated. *)
Definition handle_join (late : bool) (h : SourceHandle) (k : Sinks) : total (Sinks * (IngestError + unit)) :=
  match sh_join h with
  | Some th => r ← wind_down late th k; mret (r.2, inr tt)
  | None => mret (k, inr tt)
  end.

(** [Drop]: the thread is joined and its result ignored; [None] when it
    panicked, with the store as far as it had come. *)
Definition handle_drop (late : bool) (h : SourceHandle) (k : Sinks) : SourceHandle * option Sinks :=
  (mkSourceHandle true None,
   match sh_join h with
   | Some th => match wind_down late th k with Ok r => Some r.2 | _ => None end
   | None => Some k
   end).

(** The thread is spawned at the head of [packet_loop], the flag clear. *)
Definition spawn (conns : list (option stream)) (h : stream * ChannelMap) : SourceHandle :=
  mkSourceHandle false (Some (mkThread (Packets h.1 h.2) conns)).

(** [TcpSource::connect] with the handle it returns. *)
Definition source_connect (conns : list (option stream)) (k : Sinks)
  : total (Sinks * (IngestError + SourceHandle)) :=
  r ← TcpSource_connect p now addrs conns k;
  let '(k, conns, res) := r in
  mret (k, match res with
           | inl e => inl e
           | inr h => inr (spawn conns h)
           end).

(** ** The machine is the code *)

(** The machine over all the observations of the flag; after the last one it
    reads [true], and the thread ends as it is. *)
Fixpoint thread_exec (stops : list bool) (th : Thread) (k : Sinks) : total (Thread * Sinks) :=
  match stops with
  | [] => mret (mkThread Done (th_conns th), k)
  | b :: stops => r ← thread_step b th k; thread_exec stops r.1 r.2
  end.

(** Two loads of the set flag end the thread, whatever it was doing, and it
    touches neither the store nor the capture. *)
Lemma stop_ends th k : thread_run [true; true] th k = Ok (mkThread Done (th_conns th), k).
Proof. destruct th as [[] conns]; reflexivity. Qed.

Lemma wind_down_now th k : wind_down false th k = Ok (mkThread Done (th_conns th), k).
Proof. apply stop_ends. Qed.

Lemma wind_down_late th k :
  wind_down true th k = (r ← thread_step false th k; mret (mkThread Done (th_conns r.1), r.2)).
Proof.
  change (wind_down true th k) with (r ← thread_step false th k; thread_run [true; true] r.1 r.2).
  destruct (thread_step false th k) as [r| |]; [|done|done]. apply stop_ends.
Qed.

Lemma thread_run_stopped stops th k : thread_run (stops ++ [true; true]) th k = thread_exec stops th k.
Proof.
  revert th k. induction stops as [|b stops IH]; intros th k; cbn [app]; [apply stop_ends|].
  cbn [thread_run thread_exec]. destruct (thread_step b th k) as [[th' k']| |]; cbn [mbind res_bind]; [apply IH|done|done].
Qed.

Lemma exec_done stops conns k : thread_exec stops (mkThread Done conns) k = Ok (mkThread Done conns, k).
Proof. induction stops as [|b stops IH]; [done|]. by cbn [thread_exec thread_step th_phase th_conns mbind res_bind mret res_ret fst snd]. Qed.

(** Where [packet_loop] leaves the thread. *)
Definition after_session (res : IngestError + unit) : phase := match res with inr _ => Retry 250 | inl _ => Failed end.

Lemma exec_packets stops st m conns k :
  thread_exec stops (mkThread (Packets st m) conns) k =
  (e ← packet_loop p now stops st m k; thread_exec e.1.2 (mkThread (after_session e.2) conns) e.1.1).
Proof.
  revert st k. induction stops as [|[] stops IH]; intros st k; [done|done|].
  cbn [thread_exec thread_step th_phase th_conns packet_loop]. unfold receive.
  destruct (read_len st) as [st1 [e|len]]; [destruct e as [[]| | |]; try done; apply IH|].
  destruct (read_exact_or_eof st1 (Z.to_nat len)) as [st2 [e|pkt]]; [done|].
  destruct (decode_packet pkt) as [pk|e|]; [|done|done].
  destruct (dispatch_all p m (pk_entries pk) (sk_store k)) as [s| |]; cbn [mbind res_bind]; [|done|done].
  destruct (tee p now (sk_capture k) pkt) as [c| |]; cbn [mbind res_bind mret res_ret fst snd]; [apply IH|done|done].
Qed.

Lemma exec_pause stops conns k fuel delay slept ms :
  0 <= slept -> (Z.to_nat (delay - slept) <= fuel)%nat ->
  thread_exec stops (mkThread (pause delay slept) conns) k =
  thread_exec (sleep_loop fuel delay slept ms stops).2 (mkThread (Connect delay) conns) k.
Proof.
  revert stops slept ms. induction fuel as [|fuel IH]; intros stops slept ms H0 Hf; cbn [sleep_loop]; unfold pause.
  { replace (slept <? delay) with false by lia. done. }
  destruct (slept <? delay) eqn:E; [|done]. destruct stops as [|[] stops]; cbn [poll snd]; [done|done|].
  cbn [thread_exec thread_step th_phase th_conns mbind res_bind mret res_ret fst snd]. apply IH; lia.
Qed.
End source.

Definition ended (o : option Session) (th : Thread) (k : Sinks) : Thread * Sinks :=
  match o with Some ss => (mkThread Done (ss_conns ss), ss_sinks ss) | None => (th, k) end.

Section equal.
Context (p : profile) (now : Z) (addrs : nat).

Lemma exec_failed stops conns k :
  thread_exec p now addrs stops (mkThread Failed conns) k =
  let '(b, stops) := poll stops in
  if b then Ok (mkThread Done conns, k) else thread_exec p now addrs stops (mkThread (Retry 250) conns) k.
Proof. destruct stops as [|[] stops]; [done| |done]. apply exec_done. Qed.

(** One turn of the reconnect loop. *)
Lemma exec_turn ss : backoff_ok ss ->
  thread_exec p now addrs (ss_stops ss) (mkThread (Retry (ss_delay ss)) (ss_conns ss)) (ss_sinks ss) =
  (r ← reconnect_turn p now addrs ss;
   match r with
   | inl ss' => thread_exec p now addrs (ss_stops ss') (mkThread (Retry (ss_delay ss')) (ss_conns ss')) (ss_sinks ss')
   | inr ss' => mret (mkThread Done (ss_conns ss'), ss_sinks ss')
   end).
Proof.
  intros [Hd _]. destruct ss as [k conns stops delay slept]. cbn in Hd |- *. unfold reconnect_turn.
  cbn [ss_sinks ss_conns ss_stops ss_delay ss_slept]. destruct stops as [|[] stops]; cbn [poll]; [done|apply exec_done|].
  cbn [thread_exec thread_step th_phase th_conns mbind res_bind mret res_ret fst snd].
  rewrite (exec_pause p now addrs stops conns k (Z.to_nat delay) delay 0 0) by lia.
  destruct (sleep_loop _ _ _ _ _) as [ms stops1]. cbn [snd].
  destruct stops1 as [|[] stops1]; cbn [poll]; [done|apply exec_done|].
  cbn [thread_exec thread_step th_phase th_conns]. unfold attempt.
  destruct (connect_once p addrs conns _ None) as [[[s conns1] c]| |]; cbn [mbind res_bind mret res_ret]; [|done|done].
  destruct c as [e|[[st buf] m]]; [done|]. cbn [mbind res_bind mret res_ret fst snd sk_capture]. rewrite exec_packets.
  destruct (packet_loop _ _ _ _ _ _) as [[[k2 stops2] res]| |]; cbn [mbind res_bind fst snd]; [|done|done].
  destruct res as [e|[]]; cbn [after_session]; [|done]. rewrite exec_failed.
  destruct (poll stops2) as [[] stops3]; done.
Qed.

Lemma exec_reconnect fuel ss th0 k0 : backoff_ok ss -> (length (ss_stops ss) < fuel)%nat ->
  thread_exec p now addrs (ss_stops ss) (mkThread (Retry (ss_delay ss)) (ss_conns ss)) (ss_sinks ss) =
  (o ← reconnect_loop p now fuel addrs ss; mret (ended o th0 k0)).
Proof.
  revert ss. induction fuel as [|fuel IH]; intros ss Hb Hf; [lia|]. rewrite exec_turn by done. cbn [reconnect_loop].
  destruct (reconnect_turn p now addrs ss) as [r|[]|] eqn:E; cbn [mbind res_bind]; [|done].
  apply reconnect_turn_spec in E; [|done]. destruct r as [ss'|ss']; [|done]. destruct E. apply IH; [done|lia].
Qed.

Lemma exec_run st m k conns stops :
  thread_exec p now addrs stops (mkThread (Packets st m) conns) k =
  (o ← run_with_reconnect p now addrs st m k conns stops; mret (ended o (mkThread (Packets st m) conns) k)).
Proof.
  rewrite exec_packets. unfold run_with_reconnect.
  destruct (packet_loop p now stops st m k) as [[[k1 stops1] res]| |]; cbn [mbind res_bind fst snd]; [|done|done].
  assert (Hb : forall stops2, backoff_ok (mkSession k1 conns stops2 250 [])) by (split; [cbn; lia|constructor]).
  set (th := mkThread (Packets st m) conns).
  assert (Hr : forall stops2, thread_exec p now addrs stops2 (mkThread (Retry 250) conns) k1 =
    (o ← reconnect_loop p now (S (length stops2)) addrs (mkSession k1 conns stops2 250 []); mret (ended o th k))).
  { intros stops2. apply (exec_reconnect (S (length stops2)) (mkSession k1 conns stops2 250 [])); [done|cbn; lia]. }
  destruct res as [e|[]]; cbn [after_session]; [|apply Hr]. rewrite exec_failed.
  destruct (poll stops1) as [[] stops2]; [done|apply Hr].
Qed.
End equal.

(** ** The thread keeps the store typed *)
Section typed.
Context (p : profile) (now : Z) (addrs : nat) (safe : Prop) (Hrel : safe -> p = Release).

(** What holds at every load of the flag. *)
Record thread_ok (th : Thread) (s : Inner) : Prop := {
  tk_typed : typed s;
  tk_offers : safe -> Forall sane_offer (th_conns th);
  tk_map : forall st m, th_phase th = Packets st m -> map_fits safe s m;
}.

Lemma thread_ok_phase ph conns s : typed s -> (safe -> Forall sane_offer conns) ->
  (forall st m, ph <> Packets st m) -> thread_ok (mkThread ph conns) s.
Proof. intros Ht Hs Hp. split; [done|done|]. intros st m E. by destruct (Hp st m). Qed.

Lemma thread_step_ok stop th k : thread_ok th (sk_store k) ->
  outcome safe (thread_step p now addrs stop th k) (fun r => thread_ok r.1 (sk_store r.2)).
Proof using Hrel.
  destruct th as [ph conns]. intros [Ht Hs Hm]. cbn in Hs, Hm. unfold thread_step. cbn [th_phase th_conns].
  assert (Hpause : forall d s st m, pause d s <> Packets st m) by (intros d s st m; unfold pause; by destruct (_ <? _)).
  assert (Hgo : forall ph', (forall st m, ph' <> Packets st m) ->
    outcome safe (mret (mkThread ph' conns, k)) (fun r => thread_ok r.1 (sk_store r.2)))
    by (intros ph' Hp; apply outcome_ret; by apply thread_ok_phase).
  destruct ph as [st m| |delay|delay slept|delay|]; [|by destruct stop; apply Hgo| | | |by apply Hgo].
  - specialize (Hm st m eq_refl). destruct stop; [by apply Hgo|].
    eapply outcome_bind with (P := fun r => thread_ok (mkThread r.1 conns) (sk_store r.2)); [|intros r _ Hr; by apply outcome_ret].
    unfold receive. assert (Hkeep : forall st', thread_ok (mkThread (Packets st' m) conns) (sk_store k))
      by (intros st'; split; [done|done|]; by intros ? ? [= <- <-]).
    assert (Hfail : outcome safe (mret (Failed, k)) (fun r => thread_ok (mkThread r.1 conns) (sk_store r.2)))
      by (apply outcome_ret; by apply thread_ok_phase).
    destruct (read_len st) as [st1 [e|len]]; [destruct e as [[]| | |]; done || by apply outcome_ret, Hkeep|].
    destruct (read_exact_or_eof st1 (Z.to_nat len)) as [st2 [e|pkt]]; [done|].
    pose proof (decode_packet_fails pkt). destruct (decode_packet pkt) as [pk|e|]; [|done|done].
    destruct Hm as [Hm1 Hm2]. eapply outcome_bind; [by apply (dispatch_all_keeps p safe Hrel)|]. intros s _ [Hc Ht'].
    eapply outcome_bind; [by apply tee_outcome|]. intros c _ _. apply outcome_ret. split; [done|done|].
    intros ? ? [= <- <-]. split; [by eapply map_agrees_channels|done].
  - destruct stop; by apply Hgo.
  - destruct stop; by apply Hgo.
  - destruct stop; [by apply Hgo|]. unfold attempt.
    eapply outcome_bind; [apply (connect_once_typed p safe Hrel (2 ^ 32)); [apply typed_clear|done|done|done]|].
    intros [[s conns1] [e|[[st buf] m]]] _ (T1 & _ & O1 & M1); cbn in T1, O1, M1; apply outcome_ret; [by apply thread_ok_phase|].
    split; [done|done|]. by intros ? ? [= <- <-].
Qed.

Lemma thread_run_ok stops th k : thread_ok th (sk_store k) ->
  outcome safe (thread_run p now addrs stops th k) (fun r => thread_ok r.1 (sk_store r.2)).
Proof using Hrel.
  revert th k. induction stops as [|b stops IH]; intros th k H; cbn [thread_run]; [by apply outcome_ret|].
  eapply outcome_bind; [by apply thread_step_ok|]. intros [th1 k1] _ H1. by apply IH.
Qed.

Lemma source_connect_ok b conns k : typed (sk_store k) -> blen (in_channels (sk_store k)) + lanes_max <= b -> b <= 2 ^ 32 ->
  (safe -> Forall sane_offer conns) ->
  outcome safe (TcpSource_connect p now addrs conns k) (fun r => typed (sk_store r.1.1) /\ blen (in_channels (sk_store r.1.1)) <= b /\
    (safe -> Forall sane_offer r.1.2) /\
    match r.2 with inr (st, m) => thread_ok (mkThread (Packets st m) r.1.2) (sk_store r.1.1) | inl _ => True end).
Proof using Hrel.
  intros Ht Hc H32 Hs. assert (blen (in_channels (sk_store k)) <= b) by (unfold lanes_max in Hc; lia).
  unfold TcpSource_connect. destruct (addrs =? 0)%nat; [by apply outcome_ret|].
  eapply outcome_bind; [by apply (connect_once_typed p safe Hrel b)|].
  intros [[s conns1] [e|[[st buf] m]]] _ (T1 & B1 & O1 & M1); cbn in T1, B1, O1, M1; apply outcome_ret; split_and!; try done.
  split; [done|done|]. by intros ? ? [= <- <-].
Qed.
End typed.

(** ** Dispatch is a sequence of pushes *)
Inductive pushed (p : profile) : nat -> Inner -> Inner -> Prop :=
| pushed_none s : pushed p 0 s s
| pushed_scalar s s1 s2 ch t v n : push_scalar p s ch t v = Ok s1 -> pushed p n s1 s2 -> pushed p (S n) s s2
| pushed_state s s1 s2 ch t v n : push_state p s ch t v = Ok s1 -> pushed p n s1 s2 -> pushed p (S n) s s2
| pushed_text s s1 s2 ch t v n : push_text p s ch t v = Ok s1 -> pushed p n s1 s2 -> pushed p (S n) s s2.

(** At most [n] pushes lead from [s] to [s']. *)
Definition pushes_to (p : profile) (n : Z) (s s' : Inner) : Prop := exists k, pushed p k s s' /\ Z.of_nat k <= n.

Lemma pushed_trans p a b s1 s2 s3 : pushed p a s1 s2 -> pushed p b s2 s3 -> pushed p (a + b) s1 s3.
Proof. induction 1; intros H2; cbn; [done|eapply pushed_scalar; eauto|eapply pushed_state; eauto|eapply pushed_text; eauto]. Qed.

Lemma pushes_none p n s : 0 <= n -> pushes_to p n s s.
Proof. exists 0%nat. split; [constructor|lia]. Qed.
Lemma pushes_trans p a b s1 s2 s3 : pushes_to p a s1 s2 -> pushes_to p b s2 s3 -> pushes_to p (a + b) s1 s3.
Proof. intros (k1 & H1 & L1) (k2 & H2 & L2). exists (k1 + k2)%nat. split; [by eapply pushed_trans|lia]. Qed.
Lemma pushes_scalar p s s' ch t v : push_scalar p s ch t v = Ok s' -> pushes_to p 1 s s'.
Proof. intros H. exists 1%nat. split; [eapply pushed_scalar; [exact H|constructor]|lia]. Qed.
Lemma pushes_opt p s s' ch t v : push_opt p s ch t v = Ok s' -> pushes_to p 1 s s'.
Proof. destruct v; [apply pushes_scalar|]. intros [= <-]. by apply pushes_none. Qed.

Lemma dispatch_array_pushes p ty base es t payload i chs s s' :
  dispatch_array p ty base es t payload i chs s = Ok s' -> pushes_to p (blen chs) s s'.
Proof.
  revert i s. induction chs as [|c chs IH]; intros i s H; cbn [dispatch_array] in H; inv_bind; [by apply pushes_none|].
  rewrite blen_cons. eapply pushes_trans; [by eapply pushes_opt|by eapply IH].
Qed.

Lemma dispatch_bits_pushes p t raw bits s s' : dispatch_bits p t raw bits s = Ok s' -> pushes_to p (blen bits) s s'.
Proof.
  revert s. induction bits as [|[b c] bits IH]; intros s H; cbn [dispatch_bits] in H; inv_bind; [by apply pushes_none|].
  rewrite blen_cons. eapply pushes_trans; [by eapply pushes_scalar|by eapply IH].
Qed.

Lemma dispatch_field_pushes p fk t payload s s' :
  dispatch_field p fk t payload s = Ok s' -> pushes_to p (blen (fk_ids fk)) s s'.
Proof.
  intros H. destruct fk as [ch ty off sz|ty base es chs|ch off|off n word bits|ch fd|]; cbn [dispatch_field fk_ids] in *.
  - inv_bind. by eapply pushes_opt.
  - by eapply dispatch_array_pushes.
  - destruct (_ <? _); inv_bind; [|by apply pushes_none]. exists 1%nat. split; [|done]. by eapply pushed_state, pushed_none.
  - rewrite blen_app. pose proof (blen_nonneg (option_ids word)). pose proof (blen_nonneg (map snd bits)).
    destruct (_ <=? _); inv_bind; [|apply pushes_none; lia].
    replace (blen (map snd bits)) with (blen bits) by (unfold blen; by rewrite length_map).
    eapply pushes_trans; [|by eapply dispatch_bits_pushes].
    destruct word; cbn [option_ids]; inv_bind; [by eapply pushes_scalar|by apply pushes_none].
  - destruct (field_as_string fd payload); inv_bind; [|by apply pushes_none]. exists 1%nat. split; [|done].
    by eapply pushed_text, pushed_none.
  - inv_bind. by apply pushes_none.
Qed.

(** The entries of a packet, none if it does not decode. *)
Definition packet_entries (pkt : list byte) : list DecodedEntry :=
  match decode_packet pkt with Ok pk => pk_entries pk | _ => [] end.

(** How many samples the entries can push. *)
Definition entry_pushes (m : ChannelMap) (e : DecodedEntry) : Z := blen (default [] (em_ids <$> cm_entries m !! de_id e)).
Definition pushes (m : ChannelMap) (es : list DecodedEntry) : Z := foldr (fun e n => entry_pushes m e + n) 0 es.

Lemma pushes_app m es es' : pushes m (es ++ es') = pushes m es + pushes m es'.
Proof. induction es as [|e es IH]; cbn; [done|]. unfold pushes in IH. rewrite IH. unfold pushes. lia. Qed.
Lemma pushes_nonneg m es : 0 <= pushes m es.
Proof. induction es as [|e es IH]; cbn; [done|]. fold (pushes m es). pose proof (blen_nonneg (default [] (em_ids <$> cm_entries m !! de_id e))). unfold entry_pushes. lia. Qed.

Lemma dispatch_all_pushes p m es s s' : dispatch_all p m es s = Ok s' -> pushes_to p (pushes m es) s s'.
Proof.
  revert s. induction es as [|e es IH]; intros s H; cbn [dispatch_all pushes foldr] in *; inv_bind; [by apply pushes_none|].
  eapply pushes_trans; [|by apply IH]. unfold dispatch, entry_pushes in *.
  destruct (cm_entries m !! de_id e) as [em|]; inv_bind; [|by apply pushes_none].
  change (blen (default [] (em_ids <$> Some em))) with (blen (em_ids em)). unfold em_ids. revert s H. induction (em_fields em) as [|fk fks IHf]; intros s H; cbn [dispatch_fields map concat] in *;
    inv_bind; [by apply pushes_none|]. rewrite blen_app. eapply pushes_trans; [by eapply dispatch_field_pushes|by apply IHf].
Qed.

(** A store without channels takes no sample. *)
Definition no_channels (s : Inner) : Prop := in_scalars s = [] /\ in_states s = [] /\ in_texts s = [].

Lemma pushed_nowhere p n s s' : no_channels s -> pushed p n s s' -> s' = s.
Proof.
  intros Hn H. revert Hn. induction H as [|s s1 s2 ch t v n E _ IH|s s1 s2 ch t v n E _ IH|s s1 s2 ch t v n E _ IH]; [done|..];
    intros (H1 & H2 & H3); [unfold push_scalar in E; rewrite H1, lookup_nil in E|unfold push_state in E; rewrite H2, lookup_nil in E|
      unfold push_text in E; rewrite H3, lookup_nil in E]; injection E as <-; by apply IH.
Qed.

(** The revision tells new data: while it does not wrap, it never goes back, and
    a store whose revision is unchanged is unchanged. *)
Lemma pushed_revision p n s s' : pushed p n s s' -> 0 <= in_revision s -> in_revision s + Z.of_nat n <= u64_max ->
  in_revision s <= in_revision s' <= in_revision s + Z.of_nat n /\ (in_revision s' = in_revision s -> s' = s).
Proof.
  assert (Hstep : forall s s1 s2 k, (s1 = s \/ in_revision s1 = in_revision s + 1) ->
    0 <= in_revision s -> in_revision s + Z.of_nat (S k) <= u64_max ->
    (0 <= in_revision s1 -> in_revision s1 + Z.of_nat k <= u64_max ->
      in_revision s1 <= in_revision s2 <= in_revision s1 + Z.of_nat k /\ (in_revision s2 = in_revision s1 -> s2 = s1)) ->
    in_revision s <= in_revision s2 <= in_revision s + Z.of_nat (S k) /\ (in_revision s2 = in_revision s -> s2 = s)).
  { intros a b c k Hb H0 Hm IH. destruct Hb as [->|Hb]; specialize (IH ltac:(lia) ltac:(lia)) as [IH1 IH2].
    - split; [lia|done].
    - split; [lia|]. intros Hc. lia. }
  induction 1 as [s|s s1 s2 ch t v n E _ IH|s s1 s2 ch t v n E _ IH|s s1 s2 ch t v n E _ IH]; intros H0 Hm; [split; [lia|done]|..];
    (apply (Hstep s s1 s2 n); [|done|done|exact IH]);
    [unfold push_scalar in E|unfold push_state in E|unfold push_text in E];
    destruct (_ !! Z.to_nat ch); inv_bind; try (by left); right;
    rewrite arith_ok in H by (unfold in_u, u64_max in *; lia); injection H as <-; reflexivity.
Qed.

(** ** A link that stays up *)

Definition good_packet (pkt : list byte) : Prop := in_u 32 (blen pkt) /\ exists pk, decode_packet pkt = Ok pk.
Definition idle (k : io_kind) : Prop := k = WouldBlock \/ k = TimedOut.

(** What successive turns of [packet_loop] find on the link: packets, in bursts of
    any chunking, and read timeouts between the bursts. *)
Inductive carries : list (option (list byte)) -> stream -> Prop :=
| carries_nil : carries [] []
| carries_idle k l st : idle k -> carries l st -> carries (None :: l) (Fault k :: st)
| carries_burst pkts burst l st :
    plain burst -> content burst = concat (map frame pkts) -> Forall good_packet pkts ->
    carries l st -> carries (map Some pkts ++ l) (burst ++ st).

(** What a turn does with what it finds. *)
Definition turn_effect (p : profile) (now : Z) (m : ChannelMap) (x : option (list byte)) (k : Sinks) : total Sinks :=
  match x with Some pkt => process_one p now m pkt k | None => mret k end.

Lemma receive_carries p now m x l st k : carries (x :: l) st ->
  exists st', carries l st' /\
    receive p now st m k = (k' ← turn_effect p now m x k; mret (Packets st' m, k')).
Proof.
  remember (x :: l) as turns eqn:E. intros H. revert x l E.
  induction H as [|fk l st Hk Hc IH|pkts burst l st Hp Hcn Hg Hc IH]; intros x l0 E.
  - done.
  - injection E as <- ->. exists st. split; [done|]. unfold receive, read_len, read_exact_or_eof.
    cbn [read_loop Nat.eqb]. by destruct Hk as [-> | ->].
  - destruct pkts as [|pkt pkts].
    + assert (burst = []) as ->.
      { destruct Hp as [|e st1 (bs & -> & Hbs) _]; [done|]. cbn in Hcn. by apply app_eq_nil in Hcn as [-> _]. }
      by apply IH.
    + cbn [map app] in E. injection E as <- <-. cbn [map concat] in Hcn. apply Forall_cons in Hg as [[Hl [pk Hpk]] Hg].
      destruct (read_len_front burst st pkt _ Hp Hcn Hl) as (b1 & E1 & Hp1 & Hc1).
      destruct (read_body_front b1 st pkt _ Hp1 Hc1) as (b2 & E2 & Hp2 & Hc2).
      exists (b2 ++ st). split; [by apply carries_burst|]. unfold receive, turn_effect, process_one. rewrite E1, E2, Hpk.
      destruct (dispatch_all p m (pk_entries pk) (sk_store k)); cbn [mbind res_bind]; [|done|done].
      by destruct (tee p now (sk_capture k) pkt).
Qed.

(** ** Samples in order of time *)

(** The time stamps do not go back, starting from [t]. *)
Fixpoint in_order (t : Z) (es : list DecodedEntry) : Prop :=
  match es with [] => True | e :: es => t <= de_timestamp e /\ in_u 64 (de_timestamp e) /\ in_order (de_timestamp e) es end.
Definition last_stamp (t : Z) (es : list DecodedEntry) : Z := foldl (fun _ e => de_timestamp e) t es.

Lemma in_order_app t es es' : in_order t (es ++ es') <-> in_order t es /\ in_order (last_stamp t es) es'.
Proof.
  revert t. induction es as [|e es IH]; intros t; cbn; [tauto|].
  unfold last_stamp in IH. rewrite IH. unfold last_stamp. tauto.
Qed.

Lemma ready_later p s t t' n : ready p s t n -> t <= t' -> in_u 64 t' -> ready p s t' n.
Proof.
  intros [Hw [B1 B2 B3] Ht Hr] Hle Hin. split; [done| |done|done].
  split; (eapply Forall_impl; [eassumption|]; intros buf Hbuf; eapply Forall_impl; [exact Hbuf|]; cbn; intros; lia).
Qed.

Lemma dispatch_all_ready p m es s t n : map_safe m -> 0 <= n -> in_order t es -> ready p s t (pushes m es + n) ->
  exists s', dispatch_all p m es s = Ok s' /\ ready p s' (last_stamp t es) n.
Proof.
  intros Hm Hn. revert s t. induction es as [|e es IH]; intros s t Ho Hr; cbn [dispatch_all last_stamp foldl].
  { exists s. split; [done|]. exact Hr. }
  destruct Ho as (Hle & Hin & Ho). cbn [pushes foldr] in Hr. fold (pushes m es) in Hr.
  pose proof (pushes_nonneg m es). apply (ready_later _ _ _ _ _ Hr Hle) in Hin.
  unfold dispatch, entry_pushes in *. destruct (cm_entries m !! de_id e) as [em|] eqn:E; cbn [default fmap option_fmap option_map] in Hin.
  - destruct (dispatch_fields_ready p (em_fields em) (de_timestamp e) (de_payload e) s (pushes m es + n)) as (s1 & -> & H1);
      [lia|by eapply Hm|by replace (blen (concat (map fk_ids (em_fields em))) + (pushes m es + n))
         with (blen (em_ids em) + pushes m es + n) by (unfold em_ids; lia)|].
    cbn [mbind res_bind]. by apply IH.
  - cbn [mbind res_bind mret res_ret]. apply IH; [done|]. eapply ready_le; [exact Hin|]. change (blen []) with 0. lia.
Qed.

(** ** Properties *)


(** C12: Ingest is well typed, whatever the peers send.  From an empty store, at
    every point of the receiver thread's life (any schemas, packets, faults and
    reconnections), a scalar channel holds samples only, a state channel runs
    only and a text channel texts only.  In a release build, when the schemas
    offered are consistent, the thread moreover never panics. *)
Theorem ingest_typed p now addrs conns k k1 h :
  typed (sk_store k) -> in_channels (sk_store k) = [] -> source_connect p now addrs conns k = Ok (k1, inr h) ->
  exists th, h = mkSourceHandle false (Some th) /\
    (forall stops th2 k2, thread_run p now addrs stops th k1 = Ok (th2, k2) -> typed (sk_store k2)) /\
    (p = Release -> Forall sane_offer conns -> forall stops, exists r, thread_run p now addrs stops th k1 = Ok r).
Proof.
  intros Ht Hc H. unfold source_connect in H. apply bind_Ok in H as ([[k1' conns1] [e|[st m]]] & Hcon & H); [by injection H|].
  injection H as -> <-. set (safe := p = Release /\ Forall sane_offer conns).
  assert (Hrel : safe -> p = Release) by (by intros [? _]).
  pose proof (source_connect_ok p now addrs safe Hrel (2 ^ 32) conns k Ht ltac:(by rewrite Hc) ltac:(done) ltac:(by intros [_ ?])) as Hok.
  rewrite Hcon in Hok. destruct Hok as (_ & _ & _ & Hok). cbn in Hok. eexists. split; [done|].
  assert (Hrun : forall stops, outcome safe (thread_run p now addrs stops (mkThread (Packets st m) conns1) k1)
    (fun r => thread_ok safe r.1 (sk_store r.2))) by (intros; by apply thread_run_ok).
  split.
  - intros stops th2 k2 E. exact (tk_typed _ _ _ (outcome_Ok _ _ _ _ (Hrun stops) E)).
  - intros Hp Hs stops. destruct (outcome_returns _ _ _ (Hrun stops) (conj Hp Hs)) as (r & E & _). by exists r.
Qed.

(** Dropping or joining the handle ends the thread, wherever it was: asleep,
    between packets or connecting.  It finishes what it had begun, at most one
    packet or one connection attempt, and otherwise leaves the store and the
    capture as they are. *)
Theorem handle_drop_ends p now addrs late st th k :
  let h := mkSourceHandle st (Some th) in
  (handle_drop p now addrs late h k).1 = mkSourceHandle true None /\
  is_alive (handle_drop p now addrs late h k).1 = false /\
  (late = false -> (handle_drop p now addrs late h k).2 = Some k /\ handle_join p now addrs late h k = Ok (k, inr tt)) /\
  (forall th' k', thread_step p now addrs false th k = Ok (th', k') ->
     (handle_drop p now addrs true h k).2 = Some k' /\ handle_join p now addrs true h k = Ok (k', inr tt)).
Proof.
  cbv zeta. split_and!; [done|done| |].
  - intros ->. unfold handle_drop, handle_join. cbn [sh_join]. by rewrite wind_down_now.
  - intros th' k' E. unfold handle_drop, handle_join. cbn [sh_join]. by rewrite wind_down_late, E.
Qed.

(** The flag is not looked at inside a frame: once the first byte of a frame has
    arrived, any number of read timeouts pass before the next load of the flag, so
    a peer that stalls there keeps [Drop] (and the viewer's window with it)
    waiting, although the documentation of [SourceHandle] says the thread exits on
    the next timeout. *)
Lemma stall_ignores_stop p now b n st m k :
  receive p now (Data [b] :: replicate n (Fault TimedOut) ++ st) m k = receive p now (Data [b] :: st) m k.
Proof.
  enough (H : forall need filled, filled <> [] -> read_loop (replicate n (Fault TimedOut) ++ st) (S need) filled = read_loop st (S need) filled).
  { unfold receive, read_len, read_exact_or_eof. cbn [read_loop Nat.eqb length Nat.leb Nat.sub app].
    by rewrite (H 2%nat [b]). }
  intros need filled Hf. induction n as [|n IH]; [done|]. cbn [replicate app read_loop Nat.eqb transient].
  by rewrite bool_decide_eq_false_2.
Qed.

(** A lost link wipes the recording, whether or not the peer comes back: the store
    and the capture are cleared before every attempt, so 300 ms after the target is
    switched off nothing is left to look at or to save. *)
Lemma link_loss_wipes p now addrs m k :
  thread_run p now addrs (replicate 7 false) (mkThread (Packets [] m) []) k =
  Ok (mkThread (Retry 500) [], clear_sinks k).
Proof.
  assert (Hc : forall s last, exists e, connect_once p addrs [] s last = Ok (s, [], inl e)).
  { induction addrs as [|n IH]; intros s last; cbn [connect_once]; [by eexists|apply IH]. }
  destruct (Hc (sk_store (clear_sinks k)) None) as [e E].
  change (thread_run p now addrs (replicate 7 false) (mkThread (Packets [] m) []) k)
    with (r ← attempt p now addrs 250 [] k; mret (r.1, r.2) : total (Thread * Sinks)).
  unfold attempt. by rewrite E.
Qed.

(** ** A concrete source *)
Definition demo_conns : list (option stream) :=
  [Some (Data (frame (encode_schema demo_map_schema)) :: demo_stream)].

Lemma demo_offer_sane st : st = demo_stream \/ st = [] -> sane_offer (Some (Data (frame (encode_schema demo_map_schema)) :: st)).
Proof.
  intros H. assert (E : offered (Data (frame (encode_schema demo_map_schema)) :: st) = Some demo_map_schema)
    by (destruct H as [-> | ->]; vm_compute; reflexivity).
  unfold sane_offer. rewrite E. exact demo_map_sane.
Qed.
Lemma demo_offers_sane : Forall sane_offer demo_conns.
Proof. constructor; [apply demo_offer_sane; by left|constructor]. Qed.

Definition demo_source : Sinks * SourceHandle :=
  match source_connect Debug 0 1 demo_conns (mkSinks MockStore_new None) with
  | Ok (k, inr h) => (k, h)
  | _ => (mkSinks MockStore_new None, mkSourceHandle true None)
  end.
Definition demo_thread : Thread := default (mkThread Done []) (sh_join demo_source.2).

Lemma demo_source_ok :
  source_connect Debug 0 1 demo_conns (mkSinks MockStore_new None) = Ok (demo_source.1, inr demo_source.2).
Proof. vm_compute. reflexivity. Qed.

(** After the first packet. *)
Definition demo_received : Thread * Sinks :=
  match thread_run Debug 0 1 [false] demo_thread demo_source.1 with Ok r => r | _ => (demo_thread, demo_source.1) end.

Lemma demo_received_ok : thread_run Debug 0 1 [false] demo_thread demo_source.1 = Ok (demo_received.1, demo_received.2).
Proof. vm_compute. reflexivity. Qed.

Lemma ingest_typed_witness :
  typed (sk_store demo_received.2) /\ mock_sample_count (sk_store demo_received.2) 0 = 1.
Proof.
  destruct (ingest_typed Debug 0 1 demo_conns (mkSinks MockStore_new None) demo_source.1 demo_source.2) as (th & E & H & _).
  - apply typed_new.
  - reflexivity.
  - exact demo_source_ok.
  - assert (Eth : th = demo_thread) by (unfold demo_thread; rewrite E; reflexivity). split.
    + apply (H [false] demo_received.1 demo_received.2). rewrite Eth. exact demo_received_ok.
    + vm_compute. reflexivity.
Defined.

Lemma handle_drop_ends_witness :
  (handle_drop Debug 0 1 false (mkSourceHandle false (Some demo_thread)) demo_source.1).2 = Some demo_source.1.
Proof. apply (handle_drop_ends Debug 0 1 false false demo_thread demo_source.1). reflexivity. Defined.
