(* ===== verification/Reopen.v ===== *)
(** * btelem-viewer: opening a saved capture

    Models the data part of [ViewerApp::load_capture_file] (viewer/crates/
    btelem-viewer/src/app.rs lines 310-364): a .btlm file is read, its schema
    decoded, the store and the ring cleared, the channels registered and every
    packet replayed.  The file composes the wire, store, capture, ingest and TCP
    components: a live session that is saved and opened again gives the same
    data. *)

From S2P Require Import Prelude Slices Text Float64 Wire WireSchema WireValue Store MockStore Robust Capture Mapper Tcp Typed Source.

(** Why opening failed, as the message shows it. *)
Inductive OpenError :=
| OpenRead (e : CaptureError)
| OpenSchema (e : WireError)
| OpenMap (e : MapError).

Record Replayed := mkReplayed {
  rp_store : MockStore.Inner;
  rp_capture : Capture.Inner;
  rp_pkts : Z;
  rp_entries : Z;
  rp_skipped : Z;
}.

Section load.
Context (p : profile) (now : Z).

(** The loop over the packets: a packet that does not decode is skipped, one
    the ring rejects is still dispatched. *)
Fixpoint replay (m : ChannelMap) (pkts : list (list byte)) (r : Replayed) : total Replayed :=
  match pkts with
  | [] => mret r
  | pkt :: pkts =>
    match decode_packet pkt with
    | Ok pk =>
      s ← dispatch_all p m (pk_entries pk) (rp_store r);
      g ← (match push_packet p (rp_capture r) pkt now with
           | Ok g => mret g
           | Err _ => mret (rp_capture r)
           | Panic => Panic
           end);
      replay m pkts (mkReplayed s g (rp_pkts r + 1) (rp_entries r + blen (pk_entries pk)) (rp_skipped r))
    | Err _ => replay m pkts (mkReplayed (rp_store r) (rp_capture r) (rp_pkts r) (rp_entries r) (rp_skipped r + 1))
    | Panic => Panic
    end
  end.

(** The store and the ring after opening, or after the failure. *)
Definition load_capture (fs : files) (path : text) (s : MockStore.Inner) (g : Capture.Inner)
  : total (MockStore.Inner * Capture.Inner * (OpenError + Replayed)) :=
  match read_btlm fs path with
  | Panic => Panic
  | Err e => mret (s, g, inl (OpenRead e))
  | Ok loaded =>
    match Schema_decode (lc_schema loaded) with
    | Panic => Panic
    | Err e => mret (s, g, inl (OpenSchema e))
    | Ok schema =>
      let s := mock_clear s in
      let g := Capture.clear g in
      b ← ChannelMap_build p schema s;
      match b.2 with
      | inl e => mret (b.1, g, inl (OpenMap e))
      | inr m =>
        let g := (set_schema g (lc_schema loaded) now).1 in
        r ← replay m (lc_packets loaded) (mkReplayed b.1 g 0 0 0);
        mret (rp_store r, rp_capture r, inr r)
      end
    end
  end.
End load.

(** ** Opening any file, in a release build *)

(** A file the viewer can show: its index is not corrupt (offsets below 2^63), and
    if it holds a decodable schema, this is consistent. *)
Definition openable (fs : files) (path : text) : Prop :=
  read_btlm fs path <> Panic /\
  forall loaded schema, read_btlm fs path = Ok loaded -> Schema_decode (lc_schema loaded) = Ok schema -> schema_sane schema.

(** The store stays typed in either build, and a release build always returns on
    such a file. *)
Section typed.
Context (p : profile) (safe : Prop) (Hrel : safe -> p = Release).

Lemma replay_typed now m pkts r : typed (rp_store r) -> map_fits safe (rp_store r) m ->
  outcome safe (replay p now m pkts r) (fun r' => typed (rp_store r')).
Proof using Hrel.
  revert r. induction pkts as [|pkt pkts IH]; intros r Ht [Hm Hs]; cbn [replay]; [done|].
  pose proof (decode_packet_fails pkt). destruct (decode_packet pkt) as [pk|e|]; [|by apply IH|done].
  eapply outcome_bind; [by apply (dispatch_all_keeps p safe Hrel)|]. intros s _ [Hc Hk].
  eapply outcome_bind with (P := fun _ => True).
  { destruct (push_packet p (rp_capture r) pkt now) eqn:E; [done|done|]. intros S. by apply (push_packet_total p safe Hrel (rp_capture r) pkt now S). }
  intros g _ _. apply IH; [done|]. split; [by eapply map_agrees_channels|done].
Qed.

Lemma load_capture_typed now fs path s g : (safe -> openable fs path) ->
  outcome safe (load_capture p now fs path s g) (fun r => r.1.1 = s \/ typed r.1.1).
Proof using Hrel.
  intros Hop. unfold load_capture. destruct (read_btlm fs path) as [loaded|e|] eqn:El; [|by left|intros S; by apply (proj1 (Hop S))].
  pose proof (Schema_decode_fails (lc_schema loaded)).
  destruct (Schema_decode (lc_schema loaded)) as [schema|e|] eqn:Ed; [|by left|done]. cbv zeta.
  eapply outcome_bind; [apply (ChannelMap_build_typed p safe Hrel (2 ^ 32) _ _ _ Ed); [apply typed_clear|done|done]|].
  intros [s1 [e|m]] Eb (Ht & _ & Hm); [by right|]. cbn [fst snd] in *.
  eapply outcome_bind; [apply replay_typed; [done|split; [by apply map_typed_agrees|]]|intros r _ Hr; by right].
  intros S. refine (build_entries_safe p schema (sc_entries schema) (mock_clear s) ∅ s1 m _ _ Eb).
  - by apply (proj2 (Hop S) loaded).
  - intros id em Hid. by rewrite lookup_empty in Hid.
Qed.
End typed.

Lemma load_capture_release now fs path s g : openable fs path -> aligned s ->
  returns (load_capture Release now fs path s g) (fun r => aligned r.1.1).
Proof.
  intros Hop Hs. eapply returns_impl; [apply (outcome_returns True); [by apply load_capture_typed|done]|].
  intros r [->|Hr]; [done|by apply typed_aligned].
Qed.

(** ** The revision counter is the only trace of the past

    [sim s s']: the same data; in a debug build the counters differ by [d]. *)
Section tracking.
Context (p : profile) (d : Z).

Record sim (s s' : MockStore.Inner) : Prop := {
  sim_channels : in_channels s' = in_channels s;
  sim_scalars : in_scalars s' = in_scalars s;
  sim_states : in_states s' = in_states s;
  sim_texts : in_texts s' = in_texts s;
  sim_words : word_to_bits s' = word_to_bits s;
  sim_revision : p = Debug -> in_revision s' = in_revision s + d;
}.

(** A computation that behaves the same on stores with the same data, as long
    as the counter has room. *)
Definition moves (s s1 : MockStore.Inner) : Prop :=
  in_u 64 (in_revision s) -> in_u 64 (in_revision s1) /\ (p = Debug -> in_revision s <= in_revision s1).
Definition has_room (s1 : MockStore.Inner) : Prop := p = Debug -> in_revision s1 + d < 2 ^ 64.

Definition tracks {B} (f : MockStore.Inner -> total (MockStore.Inner * B)) : Prop :=
  forall s s1 b, in_u 64 (in_revision s) -> f s = Ok (s1, b) ->
    moves s s1 /\ forall s', sim s s' -> has_room s1 -> exists s1', f s' = Ok (s1', b) /\ sim s1 s1'.
Definition tracks1 (f : MockStore.Inner -> total MockStore.Inner) : Prop :=
  forall s s1, in_u 64 (in_revision s) -> f s = Ok s1 ->
    moves s s1 /\ forall s', sim s s' -> has_room s1 -> exists s1', f s' = Ok s1' /\ sim s1 s1'.

Lemma moves_refl s : moves s s.
Proof. intros H. split; [done|lia]. Qed.
Lemma moves_trans s s1 s2 : moves s s1 -> moves s1 s2 -> moves s s2.
Proof. intros H1 H2 H. destruct (H1 H) as [A B]. destruct (H2 A) as [C D]. split; [done|]. intros E. specialize (B E). specialize (D E). lia. Qed.
Lemma room_before s s1 : in_u 64 (in_revision s) -> moves s s1 -> has_room s1 -> has_room s.
Proof. intros Hu Hm Hr E. destruct (Hm Hu) as [_ H]. specialize (H E). specialize (Hr E). lia. Qed.

Lemma tracks_ret {B} (b : B) : tracks (fun s => mret (s, b)).
Proof. intros s s1 b' Hu [= <- <-]. split; [apply moves_refl|]. intros s' Hs _. by exists s'. Qed.
Lemma tracks1_ret : tracks1 (fun s => mret s).
Proof. intros s s1 Hu [= <-]. split; [apply moves_refl|]. intros s' Hs _. by exists s'. Qed.

Lemma tracks_bind {B C} (f : MockStore.Inner -> total (MockStore.Inner * B)) (g : MockStore.Inner * B -> total (MockStore.Inner * C)) :
  tracks f -> (forall b, tracks (fun s => g (s, b))) -> tracks (fun s => x ← f s; g x).
Proof.
  intros Hf Hg s s2 c Hu E. destruct (f s) as [[s1 b]| |] eqn:Ef; [|done..]. cbn [mbind res_bind] in E.
  destruct (Hf s s1 b Hu Ef) as [M1 T1]. destruct (M1 Hu) as [Hu1 _]. destruct (Hg b s1 s2 c Hu1 E) as [M2 T2].
  split; [by eapply moves_trans|]. intros s' Hs Hr. destruct (T1 s' Hs (room_before s1 s2 Hu1 M2 Hr)) as (s1' & E1 & Hs1).
  rewrite E1. cbn [mbind res_bind]. by apply T2.
Qed.
Lemma tracks1_bind (f g : MockStore.Inner -> total MockStore.Inner) : tracks1 f -> tracks1 g -> tracks1 (fun s => x ← f s; g x).
Proof.
  intros Hf Hg s s2 Hu E. destruct (f s) as [s1| |] eqn:Ef; [|done..]. cbn [mbind res_bind] in E.
  destruct (Hf s s1 Hu Ef) as [M1 T1]. destruct (M1 Hu) as [Hu1 _]. destruct (Hg s1 s2 Hu1 E) as [M2 T2].
  split; [by eapply moves_trans|]. intros s' Hs Hr. destruct (T1 s' Hs (room_before s1 s2 Hu1 M2 Hr)) as (s1' & E1 & Hs1).
  rewrite E1. cbn [mbind res_bind]. by apply T2.
Qed.
(** A step that does not touch the store. *)
Lemma tracks1_pure {A} (m : total A) (g : A -> MockStore.Inner -> total MockStore.Inner) :
  (forall a, tracks1 (g a)) -> tracks1 (fun s => a ← m; g a s).
Proof. intros Hg s s1 Hu. destruct m as [a| |]; [|done..]. cbn [mbind res_bind]. by apply Hg. Qed.

(** ** The operations of the store *)
Lemma bump_tracks s s' : 0 <= d -> in_u 64 (in_revision s) ->
  forall rev, arith (E := Empty_set) p 64 (in_revision s + 1) = Ok rev ->
  in_u 64 rev /\ (p = Debug -> in_revision s <= rev) /\
  (sim s s' -> (p = Debug -> rev + d < 2 ^ 64) ->
   exists rev', arith (E := Empty_set) p 64 (in_revision s' + 1) = Ok rev' /\ (p = Debug -> rev' = rev + d)).
Proof.
  intros Hd Hu rev. unfold in_u in Hu. unfold arith. destruct (in_ub 64 (in_revision s + 1)) eqn:E.
  - apply in_ub_spec in E. intros [= <-]. unfold in_u in *. split; [done|]. split; [lia|]. intros Hs Hr.
    destruct (in_ub 64 (in_revision s' + 1)) eqn:E'.
    + eexists. split; [done|]. intros Ep. rewrite (sim_revision _ _ Hs Ep). lia.
    + destruct p eqn:Ep; [|by eexists]. rewrite (sim_revision _ _ Hs Ep) in E'. specialize (Hr eq_refl).
      rewrite (proj2 (in_ub_spec _ _)) in E' by (unfold in_u; lia). done.
  - destruct p eqn:Ep; [done|]. intros [= <-]. split; [by apply wrap_range|]. split; [done|]. intros Hs _.
    destruct (in_ub 64 (in_revision s' + 1)); by eexists.
Qed.

Hypothesis Hd : 0 <= d.

(** Every write has this shape: bump the counter, replace the data. *)
Lemma write_tracks {B} s (mk : MockStore.Inner -> Z -> MockStore.Inner) (out : B) s1 b :
  in_u 64 (in_revision s) ->
  (forall x r, in_revision (mk x r) = r) ->
  (forall x x' r r', sim x x' -> (p = Debug -> r' = r + d) -> sim (mk x r) (mk x' r')) ->
  (rev ← arith p 64 (in_revision s + 1); mret (mk s rev, out) : total _) = Ok (s1, b) ->
  moves s s1 /\ forall s', sim s s' -> has_room s1 ->
    exists s1', (rev ← arith p 64 (in_revision s' + 1); mret (mk s' rev, out) : total _) = Ok (s1', b) /\ sim s1 s1'.
Proof using Hd.
  intros Hu Hrev Hmk. destruct (arith p 64 (in_revision s + 1)) as [rev| |] eqn:E; [|done..]. intros [= <- <-].
  split.
  - intros _. destruct (bump_tracks s s Hd Hu rev E) as (H1 & H2 & _). by rewrite Hrev.
  - intros s' Hs Hr. destruct (bump_tracks s s' Hd Hu rev E) as (_ & _ & H3). unfold has_room in Hr. rewrite Hrev in Hr.
    destruct (H3 Hs Hr) as (rev' & -> & Hrv). eexists. split; [done|]. by apply Hmk.
Qed.

Lemma add_channel_tracks path kind ints : tracks (fun s => add_channel p s path kind ints).
Proof using Hd.
  intros s s1 b Hu E. unfold add_channel in *. cbv zeta in *.
  destruct (write_tracks s (fun s rev => MockStore.mkInner (in_channels s ++ [mkChannelInfo (wrap 32 (blen (in_channels s))) path kind ints])
    (in_scalars s ++ [[]]) (in_states s ++ [[]]) (in_texts s ++ [[]]) rev (word_to_bits s)) (wrap 32 (blen (in_channels s))) s1 b) as [M T];
    [done|done| |exact E|].
  - intros x x' r r' [] Hr. split; cbn; (done || congruence).
  - split; [done|]. intros s' Hs Hr. specialize (T s' Hs Hr). cbv beta in T. rewrite (sim_channels _ _ Hs) in *. exact T.
Qed.

(** A push finds its buffer or does nothing. *)
Lemma update_tracks {X} (buf : MockStore.Inner -> option X) (mk : X -> MockStore.Inner -> Z -> MockStore.Inner) :
  (forall s s', sim s s' -> buf s' = buf s) -> (forall b s r, in_revision (mk b s r) = r) ->
  (forall b s s' r r', sim s s' -> (p = Debug -> r' = r + d) -> sim (mk b s r) (mk b s' r')) ->
  tracks1 (fun s => match buf s with
                    | None => mret s
                    | Some b => rev ← arith p 64 (in_revision s + 1); mret (mk b s rev)
                    end).
Proof using Hd.
  intros Hbuf Hrev Hmk s s1 Hu E. destruct (buf s) as [b|] eqn:Eb.
  - destruct (write_tracks s (mk b) tt s1 tt) as [M T]; [done|by intros|by intros; apply Hmk| |].
    + destruct (arith _ _ _); [|done..]. by injection E as <-.
    + split; [done|]. intros s' Hs Hr. rewrite (Hbuf s s' Hs), Eb. destruct (T s' Hs Hr) as (s1' & E1 & Hs1).
      exists s1'. split; [|done]. destruct (arith _ _ (in_revision s' + 1)); [|done..]. by injection E1 as <-.
  - injection E as <-. split; [apply moves_refl|]. intros s' Hs _. exists s'. by rewrite (Hbuf s s' Hs), Eb.
Qed.

Ltac solve_update Hs := first [intros ? ? Hs; by rewrite ?(sim_scalars _ _ Hs), ?(sim_states _ _ Hs), ?(sim_texts _ _ Hs)
                              |done|intros ? ? ? ? ? [] ?; split; cbn; (done || congruence)].

Lemma push_scalar_tracks ch t v : tracks1 (fun s => push_scalar p s ch t v).
Proof using Hd.
  apply (update_tracks (fun s => in_scalars s !! Z.to_nat ch) (fun buf s rev => MockStore.mkInner (in_channels s)
    (<[Z.to_nat ch := buf ++ [(t, v)]]> (in_scalars s)) (in_states s) (in_texts s) rev (word_to_bits s))); solve_update Hs.
Qed.

Lemma push_state_tracks ch t v : tracks1 (fun s => push_state p s ch t v).
Proof using Hd.
  apply (update_tracks (fun s => in_states s !! Z.to_nat ch) (fun buf s rev => MockStore.mkInner (in_channels s) (in_scalars s)
    (<[Z.to_nat ch := push_run buf t v]> (in_states s)) (in_texts s) rev (word_to_bits s))); solve_update Hs.
Qed.

Lemma push_text_tracks ch t v : tracks1 (fun s => push_text p s ch t v).
Proof using Hd.
  apply (update_tracks (fun s => in_texts s !! Z.to_nat ch) (fun buf s rev => MockStore.mkInner (in_channels s) (in_scalars s)
    (in_states s) (<[Z.to_nat ch := buf ++ [(t, v)]]> (in_texts s)) rev (word_to_bits s))); solve_update Hs.
Qed.

Lemma register_tracks word bits : tracks (fun s => mret (register_word_bits s word bits, tt)).
Proof.
  intros s s1 b Hu [= <- <-]. split; [intros H; split; [done|cbn; lia]|]. intros s' [] _. eexists. split; [done|].
  split; cbn; (done || congruence).
Qed.

(** ** Registration and dispatch *)
Lemma add_numeric_tracks ints path : tracks (fun s => add_numeric p s ints path).
Proof using Hd. unfold add_numeric. destruct ints; apply add_channel_tracks. Qed.

Lemma add_lanes_tracks ints paths : tracks (fun s => add_lanes p s ints paths).
Proof using Hd.
  induction paths as [|path paths IH]; [apply (tracks_ret [])|]. cbn [add_lanes].
  apply tracks_bind; [apply add_numeric_tracks|]. intros b.
  cbn [fst snd]. apply (tracks_bind (fun s => add_lanes p s ints paths)); [exact IH|]. intros c. apply (tracks_ret (b :: c)).
Qed.

Lemma build_numeric_tracks f path : tracks (build_numeric p f path).
Proof using Hd.
  unfold build_numeric. cbv zeta. destruct (fd_count f =? 1).
  - apply tracks_bind; [apply add_numeric_tracks|]. intros b. cbn [fst snd]. apply tracks_ret.
  - apply tracks_bind; [apply add_lanes_tracks|]. intros b. cbn [fst snd]. apply tracks_ret.
Qed.

Lemma register_ret_tracks {B} word bits (b : B) : tracks (fun s => mret (register_word_bits s word bits, b)).
Proof.
  intros s s1 b' Hu [= <- <-]. split; [intros H; split; [done|cbn; lia]|]. intros s' [] _. eexists. split; [done|].
  split; cbn; (done || congruence).
Qed.

Lemma build_bits_tracks f bf path : tracks (build_bits p f bf path).
Proof using Hd.
  unfold build_bits. apply (tracks_bind (fun s => if bool_decide (fd_size f ∈ [1; 2; 4; 8])
    then r ← add_scalar_int p s (path []); mret (r.1, Some r.2) else mret (s, None))).
  - case_bool_decide; [|apply (tracks_ret None)]. apply tracks_bind; [apply add_channel_tracks|]. intros b. cbn [fst snd]. apply tracks_ret.
  - intros w. cbn [fst snd]. apply (tracks_bind (fun s => add_lanes p s true (map (fun b => path (str "." ++ bd_name b)) (bf_bits bf))));
      [apply add_lanes_tracks|]. intros ids. cbn [fst snd].
    destruct w as [word|]; [apply register_ret_tracks|apply tracks_ret].
Qed.

Lemma build_field_tracks id fi f schema : tracks (build_field p id fi f schema).
Proof using Hd.
  unfold build_field. cbv zeta. destruct (is_numeric _); [apply build_numeric_tracks|].
  destruct (negb _); [apply (tracks_ret FkIgnored)|].
  destruct (fd_ty f); try apply (tracks_ret FkIgnored);
    try (apply tracks_bind; [apply add_channel_tracks|intros b; cbn [fst snd]; apply tracks_ret]).
  destruct (Schema_bitfield _ _ _); [apply build_bits_tracks|apply (tracks_ret FkIgnored)].
Qed.

Lemma build_fields_tracks id fi fs schema : tracks (build_fields p id fi fs schema).
Proof using Hd.
  revert fi. induction fs as [|f fs IH]; intros fi; cbn [build_fields]; [apply (tracks_ret [])|].
  apply tracks_bind; [apply build_field_tracks|]. intros b.
  cbn [fst snd]. apply (tracks_bind (fun s => build_fields p id (fi + 1) fs schema s)); [apply IH|]. intros c. apply (tracks_ret (b :: c)).
Qed.

Lemma build_tracks schema : tracks (ChannelMap_build p schema).
Proof using Hd.
  unfold ChannelMap_build. generalize (∅ : gmap Z EntryMap) as m. induction (sc_entries schema) as [|e es IH]; intros m; cbn [build_entries].
  { apply (tracks_ret (inr (mkChannelMap m))). }
  destruct (m !! se_id e); [apply (tracks_ret (inl (DuplicateSchema (se_id e))))|].
  apply tracks_bind; [|intros em; cbn [fst snd]; apply IH]. unfold build_entry.
  apply tracks_bind; [apply build_fields_tracks|]. intros b. cbn [fst snd]. apply tracks_ret.
Qed.

Lemma push_opt_tracks ch t v : tracks1 (fun s => push_opt p s ch t v).
Proof using Hd. destruct v as [v|]; [apply push_scalar_tracks|apply tracks1_ret]. Qed.

Lemma dispatch_array_tracks ty base elem t payload i chs : tracks1 (dispatch_array p ty base elem t payload i chs).
Proof using Hd.
  revert i. induction chs as [|ch chs IH]; intros i; cbn [dispatch_array]; [apply tracks1_ret|].
  do 3 (apply tracks1_pure; intros ?). apply tracks1_bind; [apply push_opt_tracks|apply IH].
Qed.

Lemma dispatch_bits_tracks t raw bits : tracks1 (dispatch_bits p t raw bits).
Proof using Hd.
  induction bits as [|[bit ch] bits IH]; cbn [dispatch_bits]; [apply tracks1_ret|].
  apply tracks1_pure. intros v. apply tracks1_bind; [apply push_scalar_tracks|exact IH].
Qed.

Lemma dispatch_field_tracks fk t payload : tracks1 (dispatch_field p fk t payload).
Proof using Hd.
  destruct fk as [ch ty off sz|ty base elem chs|ch off|off n word bits|ch fd|]; unfold dispatch_field.
  - apply tracks1_pure. intros v. apply push_opt_tracks.
  - apply dispatch_array_tracks.
  - destruct (off <? blen payload); [|apply tracks1_ret]. apply tracks1_pure. intros b. apply push_state_tracks.
  - destruct (off + n <=? blen payload); [|apply tracks1_ret]. do 2 (apply tracks1_pure; intros ?).
    apply (tracks1_bind (fun s => match word with Some ch => _ | None => mret s end));
      [destruct word; [apply push_scalar_tracks|apply tracks1_ret]|apply dispatch_bits_tracks].
  - destruct (field_as_string fd payload); [apply push_text_tracks|apply tracks1_ret].
  - apply tracks1_ret.
Qed.

Lemma dispatch_all_tracks m es : tracks1 (dispatch_all p m es).
Proof using Hd.
  induction es as [|e es IH]; cbn [dispatch_all]; [apply tracks1_ret|]. apply tracks1_bind; [|exact IH].
  unfold dispatch. destruct (cm_entries m !! _) as [em|]; [|apply tracks1_ret].
  induction (em_fields em) as [|fk fks IHf]; cbn [dispatch_fields]; [apply tracks1_ret|].
  apply tracks1_bind; [apply dispatch_field_tracks|exact IHf].
Qed.

(** The store's half of a session. *)
Fixpoint ingest (m : ChannelMap) (pkts : list (list byte)) (s : MockStore.Inner) : total MockStore.Inner :=
  match pkts with
  | [] => mret s
  | pkt :: pkts =>
    s ← (match decode_packet pkt with Ok pk => dispatch_all p m (pk_entries pk) s | _ => mret s end);
    ingest m pkts s
  end.

Lemma ingest_tracks m pkts : tracks1 (ingest m pkts).
Proof using Hd.
  induction pkts as [|pkt pkts IH]; cbn [ingest]; [apply tracks1_ret|]. apply tracks1_bind; [|exact IH].
  destruct (decode_packet pkt); [apply dispatch_all_tracks|apply tracks1_ret..].
Qed.
End tracking.

(** ** The ring's half of a session *)
Section ring.
Context (p : profile) (now : Z).

Definition retain1 (pkt : list byte) (g : Capture.Inner) : total Capture.Inner :=
  match push_packet p g pkt now with Ok g => mret g | Err _ => mret g | Panic => Panic end.

Fixpoint retain (pkts : list (list byte)) (g : Capture.Inner) : total Capture.Inner :=
  match pkts with
  | [] => mret g
  | pkt :: pkts =>
    g ← (match decode_packet pkt with Ok _ => retain1 pkt g | _ => mret g end);
    retain pkts g
  end.

(** A ring holding [h] with its schema. *)
Record holds (g : Capture.Inner) (sch : list byte) (h : list (list byte)) : Prop := {
  ho_ok : ring_ok g;
  ho_schema : Capture.schema g = Some sch;
  ho_bodies : bodies (packets g) = h;
  ho_total : packets_total g = blen h;
}.

Lemma longest_fit_whole cap h r : longest_fit cap h r -> Capture.size h <= cap -> r = h.
Proof.
  intros (Hs & _ & Hmax) Hfit. specialize (Hmax h ltac:(done) Hfit).
  destruct Hs as [k ->], Hmax as [k' Hk']. apply (f_equal length) in Hk' as Hl. rewrite !length_app in Hl.
  destruct k; [done|cbn in Hl; lia].
Qed.

(** As long as nothing has to be evicted the ring keeps every packet. *)
Lemma retain_all pkts g sch h :
  holds g sch h -> 0 <= cap_bytes g < 2 ^ 63 -> Capture.size (h ++ pkts) <= cap_bytes g -> blen (h ++ pkts) < 2 ^ 64 ->
  Forall (fun pkt => exists pk, decode_packet pkt = Ok pk) pkts ->
  returns (retain pkts g) (fun g' => holds g' sch (h ++ pkts) /\ cap_bytes g' = cap_bytes g).
Proof.
  revert g h. induction pkts as [|pkt pkts IH]; intros g h Hh Hc Hs Hn Hd; cbn [retain].
  { rewrite app_nil_r. by apply returns_ret. }
  apply Forall_cons in Hd as [[pk Hpk] Hd]. rewrite Hpk. destruct (extract_meta pkt) as [me|e|] eqn:Hm;
    [|by rewrite (extract_meta_decoded _ _ Hpk) in Hm..].
  assert (Hs1 : Capture.size (h ++ [pkt]) + Capture.size pkts <= cap_bytes g).
  { rewrite <-size_app, <-app_assoc. done. }
  assert (Hn1 : blen h + 1 + blen pkts < 2 ^ 64) by (rewrite blen_app, blen_cons in Hn; lia).
  pose proof (size_nonneg pkts). pose proof (blen_nonneg pkts). pose proof (size_nonneg h). pose proof (blen_nonneg h).
  assert (Hpl : blen pkt < 2 ^ 63) by (rewrite size_app, size_cons in Hs1; change (Capture.size []) with 0 in Hs1; lia).
  destruct Hh as [Hr1 Hr2 Hr3 Hr4].
  destruct (push_packet_ok p g pkt now me h Hr1) as (g1 & Hg1 & Hok1 & Hc1 & Hs1' & Ht1 & Hf1); [lia|exact Hm|done|lia| |].
  { rewrite Hr3. split; [done|]. split; [|by intros r' ? _]. rewrite <-Hr3, <-(ring_bytes _ Hr1). apply Hr1. }
  unfold retain1. rewrite Hg1. cbn [mbind res_bind].
  assert (Hb1 : bodies (packets g1) = h ++ [pkt]) by (eapply longest_fit_whole; [exact Hf1|lia]).
  replace (h ++ pkt :: pkts) with ((h ++ [pkt]) ++ pkts) in * by (by rewrite <-app_assoc).
  eapply returns_impl; [apply IH|].
  - split; [done|by rewrite Hs1'|done|]. rewrite Ht1, Hr4, blen_app. done.
  - by rewrite Hc1.
  - rewrite Hc1. done.
  - done.
  - done.
  - intros g' [Hg' Hcg']. split; [done|]. by rewrite Hcg'.
Qed.

(** A live session is its two halves. *)
Lemma process_halves m pkts s g k :
  process p now m pkts (mkSinks s (Some g)) = Ok k ->
  exists s' g', k = mkSinks s' (Some g') /\ ingest p m pkts s = Ok s' /\ retain pkts g = Ok g'.
Proof.
  revert s g. induction pkts as [|pkt pkts IH]; intros s g; cbn [process ingest retain].
  { intros [= <-]. by exists s, g. }
  unfold process_one. cbn [sk_store sk_capture]. destruct (decode_packet pkt) as [pk|e|]; cbn [mbind res_bind]; [|apply IH..].
  destruct (dispatch_all p m (pk_entries pk) s) as [s1| |]; cbn [mbind res_bind]; [|done..].
  unfold tee, retain1. destruct (push_packet p g pkt now) as [g1|e|]; cbn [mbind res_bind]; [apply IH|apply IH|done].
Qed.

(** So is a replay. *)
Lemma replay_halves m pkts r s' g' :
  ingest p m pkts (rp_store r) = Ok s' -> retain pkts (rp_capture r) = Ok g' ->
  Forall (fun pkt => exists pk, decode_packet pkt = Ok pk) pkts ->
  exists r', replay p now m pkts r = Ok r' /\ rp_store r' = s' /\ rp_capture r' = g' /\
    rp_pkts r' = rp_pkts r + blen pkts /\ rp_skipped r' = rp_skipped r.
Proof.
  intros Hs Hg Hd. revert r Hs Hg. induction Hd as [|pkt pkts [pk Hpk] Hd IH]; intros r; cbn [ingest retain replay].
  { intros [= <-] [= <-]. exists r. split_and!; [done..| |done]. change (blen []) with 0. lia. }
  rewrite Hpk. destruct (dispatch_all p m (pk_entries pk) (rp_store r)) as [s1| |]; cbn [mbind res_bind]; [|done..].
  intros Hs Hg.
  assert (Hgo : forall g1, retain pkts g1 = Ok g' ->
    exists r', replay p now m pkts (mkReplayed s1 g1 (rp_pkts r + 1) (rp_entries r + blen (pk_entries pk)) (rp_skipped r)) = Ok r' /\
      rp_store r' = s' /\ rp_capture r' = g' /\ rp_pkts r' = rp_pkts r + blen (pkt :: pkts) /\ rp_skipped r' = rp_skipped r).
  { intros g1 Hg1. destruct (IH (mkReplayed s1 g1 (rp_pkts r + 1) (rp_entries r + blen (pk_entries pk)) (rp_skipped r)) Hs Hg1)
      as (r' & Hr' & H1 & H2 & H3 & H4). exists r'. split_and!; [exact Hr'|done|done| |done]. rewrite H3, blen_cons. cbn. lia. }
  unfold retain1 in Hg. destruct (push_packet p (rp_capture r) pkt now) as [g1|e|]; cbn [mbind res_bind mret res_ret] in *; [..|done];
    by apply Hgo.
Qed.
End ring.

(** The data of two stores, without the revision counter. *)
Definition same_data (s s' : MockStore.Inner) : Prop :=
  in_channels s' = in_channels s /\ in_scalars s' = in_scalars s /\ in_states s' = in_states s /\
  in_texts s' = in_texts s /\ word_to_bits s' = word_to_bits s.

Lemma saved_reopens p now now' schema blob m s0 pkts k fs path cur_s cur_g :
  Schema_decode blob = Ok schema -> ChannelMap_build p schema MockStore_new = Ok (s0, inr m) ->
  Forall (fun pkt => exists pk, decode_packet pkt = Ok pk) pkts ->
  process p now m pkts (mkSinks s0 (Some (set_schema default_capture blob now).1)) = Ok k ->
  Capture.size pkts <= DEFAULT_RING_BYTES -> Capture.size pkts <= cap_bytes cur_g < 2 ^ 63 ->
  in_u 32 (blen blob) -> in_u 32 (blen pkts) ->
  (forall g, sk_capture k = Some g -> blen (write_btlm_inner blob (packets g)) < 2 ^ 63) ->
  in_u 64 (in_revision cur_s) -> in_revision (sk_store k) + in_revision cur_s + 1 < 2 ^ 64 ->
  exists g fs' report s' g' r,
    sk_capture k = Some g /\ save_btlm g fs path = Ok (fs', report) /\
    load_capture p now' fs' path cur_s cur_g = Ok (s', g', inr r) /\
    same_data (sk_store k) s' /\
    Capture.schema g' = Some blob /\ bodies (packets g') = pkts /\
    rp_pkts r = blen pkts /\ rp_skipped r = 0.
Proof.
  intros Hsch Hb Hd Hp Hfit Hcap Hbl Hpl Hw Hrev Hroom. unfold in_u in Hrev.
  apply process_halves in Hp as (s & g & -> & Hs & Hg). cbn [sk_store sk_capture] in *.
  set (g0 := (set_schema default_capture blob now).1) in *.
  assert (Hg0 : holds g0 blob []) by (split; [split; cbn; try done; by constructor|done|done|done]).
  destruct (retain_all p now pkts g0 blob [] Hg0) as (g1 & Hg1 & Hh & _); [done|done|unfold in_u in Hpl; cbn; lia|done|].
  rewrite Hg in Hg1. injection Hg1 as <-. cbn [app] in Hh. destruct Hh as [Hok Hsc Hbo Hto].
  exists g. unfold save_btlm. rewrite Hsc. do 2 eexists.
  set (d := in_revision cur_s + 1). set (sc := mock_clear cur_s). set (gc := (set_schema (Capture.clear cur_g) blob now').1).
  assert (Hgc : holds gc blob []) by (split; [split; cbn; try done; try (by constructor); cbn in *; pose proof (size_nonneg pkts); lia|done|done|done]).
  destruct (retain_all p now' pkts gc blob [] Hgc) as (g' & Hg' & Hh' & _);
    [cbn; pose proof (size_nonneg pkts); lia|cbn; lia|unfold in_u in Hpl; cbn; lia|done|].
  assert (H0 : in_u 64 (in_revision MockStore_new)) by (cbn; unfold in_u; lia).
  destruct (build_tracks p d ltac:(unfold d; lia) schema MockStore_new s0 (inr m) H0 Hb) as [M1 T1].
  destruct (M1 H0) as [Hu0 _].
  destruct (ingest_tracks p d ltac:(unfold d; lia) m pkts s0 s Hu0 Hs) as [M2 T2].
  destruct (M2 Hu0) as [Hu Hle]. unfold in_u in Hu.
  assert (Hsim : sim p d MockStore_new sc).
  { split; cbn; try done. intros _. unfold d. apply wrap_small. unfold in_u. lia. }
  assert (Hroom1 : has_room p d s) by (intros _; unfold d; lia).
  destruct (T1 sc Hsim) as (s0' & Hb' & Hsim0); [eapply room_before; [exact Hu0|exact M2|exact Hroom1]|].
  destruct (T2 s0' Hsim0 Hroom1) as (s' & Hs' & [E1 E2 E3 E4 E5 _]).
  destruct (replay_halves p now' m pkts (mkReplayed s0' gc 0 0 0) s' g' Hs' Hg' Hd) as (r & Hr & R1 & R2 & R3 & R4).
  exists s', g', r. split; [done|]. split; [done|]. split.
  - unfold load_capture. rewrite read_write_btlm; [|done| |by apply Hw].
    + cbn [lc_schema lc_packets]. rewrite Hsch. fold sc. rewrite Hb'. cbn [mbind res_bind snd fst]. rewrite Hbo. fold gc. rewrite Hr. cbn [mbind res_bind].
      by rewrite R1, R2.
    + assert (blen (packets g) = blen pkts) as -> by (rewrite <-Hbo; unfold blen, bodies; by rewrite length_map). done.
  - destruct Hh' as [_ ? ? _]. split_and!; done.
Qed.

(** C18: Saving a live session and opening the file again gives the session back:
    after any sequence of packets was received over a schema, as long as the
    ring kept them all, the saved file opens in any viewer (whatever its store
    and ring held before, in both build profiles) with exactly the channels and
    samples of the live store, the same schema and packets in the ring, and no
    packet skipped. *)
Theorem save_reopen p now now' schema blob m s0 pkts k fs path cur_s cur_g :
  Schema_decode blob = Ok schema -> ChannelMap_build p schema MockStore_new = Ok (s0, inr m) ->
  Forall (fun pkt => exists pk, decode_packet pkt = Ok pk) pkts ->
  process p now m pkts (mkSinks s0 (Some (set_schema default_capture blob now).1)) = Ok k ->
  Capture.size pkts <= DEFAULT_RING_BYTES -> Capture.size pkts <= cap_bytes cur_g < 2 ^ 63 ->
  in_u 32 (blen blob) -> in_u 32 (blen pkts) ->
  (forall g, sk_capture k = Some g -> blen (write_btlm_inner blob (packets g)) < 2 ^ 63) ->
  in_u 64 (in_revision cur_s) -> in_revision (sk_store k) + in_revision cur_s + 1 < 2 ^ 64 ->
  exists g fs' report s' g' r,
    sk_capture k = Some g /\ save_btlm g fs path = Ok (fs', report) /\
    load_capture p now' fs' path cur_s cur_g = Ok (s', g', inr r) /\
    same_data (sk_store k) s' /\
    Capture.schema g' = Some blob /\ bodies (packets g') = pkts /\
    rp_pkts r = blen pkts /\ rp_skipped r = 0.
Proof. apply saved_reopens. Qed.

(** ** A concrete session: two packets of one record each *)
Definition demo_session_blob : list byte := encode_schema demo_map_schema.
Definition demo_session_packets : list (list byte) :=
  [demo_packet; encode_packet 0 0 [mkDecodedEntry 7 200 [x02; x00; x05; x06; x1f; x00]]].
Definition demo_session : Sinks :=
  match process Debug 5 demo_map demo_session_packets
          (mkSinks demo_built.1 (Some (set_schema default_capture demo_session_blob 5).1)) with
  | Ok k => k
  | _ => mkSinks MockStore_new None
  end.

(** The session is saved to a file and opened over an empty store. *)
Lemma save_reopen_witness :
  exists g fs' report s' g' r,
    sk_capture demo_session = Some g /\ save_btlm g ∅ (str "a.btlm") = Ok (fs', report) /\
    load_capture Debug 9 fs' (str "a.btlm") MockStore_new default_capture = Ok (s', g', inr r) /\
    same_data (sk_store demo_session) s' /\ rp_pkts r = 2 /\ rp_skipped r = 0.
Proof.
  destruct (save_reopen Debug 5 9 demo_map_schema demo_session_blob demo_map demo_built.1 demo_session_packets
              demo_session ∅ (str "a.btlm") MockStore_new default_capture)
    as (g & fs' & report & s' & g' & r & H1 & H2 & H3 & H4 & _ & _ & H7 & H8).
  - vm_compute. reflexivity.
  - exact demo_build_ok.
  - repeat (constructor; [eexists; vm_compute; reflexivity|]). constructor.
  - vm_compute. reflexivity.
  - vm_compute. discriminate.
  - vm_compute. split; [discriminate|reflexivity].
  - apply in_ub_spec. vm_compute. reflexivity.
  - apply in_ub_spec. vm_compute. reflexivity.
  - intros g Hg. vm_compute in Hg. injection Hg as <-. vm_compute. reflexivity.
  - apply in_ub_spec. reflexivity.
  - vm_compute. reflexivity.
  - exists g, fs', report, s', g', r. split_and!; done.
Defined.
