(* ===== verification/ViewPanels.v ===== *)
(** * btelem-viewer: panels, filters, the plot registry and drag and drop

    Models viewer/crates/btelem-viewer/src/view_state.rs lines 1-571.  A [HashMap] is a [gmap], a [HashSet] a
    [gset]; a method returning [&mut] is a function that applies an update to
    the place it points at. *)

From Stdlib Require Import SpecFloat.
From S2P Require Import Prelude Slices Text Float64 Store.

(** ** Styles and modes *)
Abbreviation PlotId := Z.

Inductive LabelRadix := Dec | Hex | Bin.
Inductive LaneMode := Named | Numeric.
Inductive LineStyle := Line | Step | Points | PointsLine.
Inductive LineWidth := Thin | Medium | Thick.

Record SignalStyle := mkSignalStyle { sty_line : LineStyle; sty_width : LineWidth; sty_envelope : bool }.
Definition SignalStyle_default : SignalStyle := mkSignalStyle Step Medium false.

#[global] Instance LabelRadix_eq_dec : EqDecision LabelRadix.
Proof. solve_decision. Defined.
#[global] Instance LaneMode_eq_dec : EqDecision LaneMode.
Proof. solve_decision. Defined.
#[global] Instance LineStyle_eq_dec : EqDecision LineStyle.
Proof. solve_decision. Defined.
#[global] Instance LineWidth_eq_dec : EqDecision LineWidth.
Proof. solve_decision. Defined.
#[global] Instance SignalStyle_eq_dec : EqDecision SignalStyle.
Proof. solve_decision. Defined.

Definition requires_labels (m : LaneMode) : bool := match m with Named => true | Numeric => false end.
Definition channel_has_labels (ch : ChannelInfo) : bool :=
  match ci_kind ch with State _ => true | _ => false end.

(** ** Column filters *)
Inductive FilterValue := FvText (s : text) | FvNum (n : f64).

Inductive ColumnFilter :=
| CfText (needle : text) (case_sensitive : bool)
| CfRange (min max : option f64)
| CfEnumSet (allowed : gset Z).

Definition filter_accepts (f : ColumnFilter) (value : option FilterValue) : bool :=
  match f with
  | CfText needle case_sensitive =>
    if trim_is_empty needle then true
    else match value with
    | Some (FvText s) =>
      if case_sensitive then contains s needle
      else contains (to_ascii_lowercase s) (to_ascii_lowercase needle)
    | _ => false
    end
  | CfRange min max =>
    match value with
    | Some (FvNum n) =>
      if match min with Some lo => f64_lt n lo | None => false end then false
      else if match max with Some hi => f64_lt hi n | None => false end then false
      else true
    | _ => false
    end
  | CfEnumSet allowed =>
    match value with
    | Some (FvNum n) => bool_decide (f64_to_u32 n ∈ allowed)
    | _ => false
    end
  end.

Definition filter_is_active (f : ColumnFilter) : bool :=
  match f with
  | CfText needle _ => negb (trim_is_empty needle)
  | CfRange min max => bool_decide (is_Some min) || bool_decide (is_Some max)
  | CfEnumSet _ => true
  end.

(** ** Panels *)
Record ScalarPanel := mkScalarPanel {
  sp_title : text;
  sp_channels : list ChannelId;
  sp_styles : gmap Z SignalStyle;
  sp_selected : gset Z;
}.
Record LogicLane := mkLogicLane { ll_ch : ChannelId; ll_mode : LaneMode; ll_radix : LabelRadix }.
Record LogicAnalyserPanel := mkLogicAnalyserPanel { la_title : text; la_lanes : list LogicLane }.
Record LogViewPanel := mkLogViewPanel {
  lv_title : text;
  lv_group : text;
  lv_columns : list ChannelId;
  lv_visible : list nat;
  lv_filters : gmap Z ColumnFilter;
  lv_color_by : option ChannelId;
  lv_priority_by : option ChannelId;
  lv_max_rows : nat;
}.
Record XYPlot := mkXYPlot { xy_title : text; xy_x : ChannelId; xy_y : ChannelId; xy_trail_ns : option Z }.

Inductive PlotKind :=
| PScalar (p : ScalarPanel)
| PLogicAnalyser (p : LogicAnalyserPanel)
| PLogView (p : LogViewPanel)
| PXY (p : XYPlot).

Definition LOG_VIEW_DEFAULT_MAX_ROWS : nat := 1000.

Definition ScalarPanel_new (title : text) : ScalarPanel := mkScalarPanel title [] ∅ ∅.

Definition scalar_add (p : ScalarPanel) (ch : ChannelInfo) : ScalarPanel * bool :=
  if negb (bool_decide (ci_kind ch = Scalar)) then (p, false)
  else if bool_decide (ci_id ch ∈ sp_channels p) then (p, false)
  else
    let styles :=
      match head (sp_channels p) with
      | Some first => match sp_styles p !! first with
                      | Some style => <[ci_id ch := style]> (sp_styles p)
                      | None => sp_styles p
                      end
      | None => sp_styles p
      end in
    (mkScalarPanel (sp_title p) (sp_channels p ++ [ci_id ch]) styles (sp_selected p), true).

Definition scalar_remove (p : ScalarPanel) (id : ChannelId) : ScalarPanel :=
  mkScalarPanel (sp_title p) (filter (fun x => x <> id) (sp_channels p)) (delete id (sp_styles p))
    (sp_selected p).

Definition style_for (p : ScalarPanel) (ch : ChannelId) : SignalStyle :=
  default SignalStyle_default (sp_styles p !! ch).

Definition style_for_mut (p : ScalarPanel) (ch : ChannelId) (f : SignalStyle -> SignalStyle) : ScalarPanel :=
  mkScalarPanel (sp_title p) (sp_channels p) (<[ch := f (style_for p ch)]> (sp_styles p)) (sp_selected p).

Definition styles_iter `{HashOrder} (p : ScalarPanel) : list (ChannelId * SignalStyle) := hash_iter (sp_styles p).

Definition scalar_is_empty (p : ScalarPanel) : bool := bool_decide (sp_channels p = []).

Definition accepts_logic (ch : ChannelInfo) : bool :=
  match ci_kind ch with
  | State _ => true
  | Scalar => ci_integer_storage ch
  | Text => false
  end.

Definition default_lane_mode (kind : ChannelKind) (integer_storage : bool) : LaneMode :=
  match kind with State _ => Named | Scalar => Numeric | Text => Numeric end.

Definition LogicAnalyserPanel_new (title : text) : LogicAnalyserPanel := mkLogicAnalyserPanel title [].

Definition logic_add (p : LogicAnalyserPanel) (ch : ChannelInfo) : LogicAnalyserPanel * bool :=
  if negb (accepts_logic ch) then (p, false)
  else if existsb (fun l => ll_ch l =? ci_id ch) (la_lanes p) then (p, false)
  else
    (mkLogicAnalyserPanel (la_title p)
       (la_lanes p ++ [mkLogicLane (ci_id ch) (default_lane_mode (ci_kind ch) (ci_integer_storage ch)) Hex]),
     true).

Definition logic_remove (p : LogicAnalyserPanel) (id : ChannelId) : LogicAnalyserPanel :=
  mkLogicAnalyserPanel (la_title p) (filter (fun l => ll_ch l <> id) (la_lanes p)).

(** Update the first lane of a channel ([iter_mut().find]). *)
Fixpoint update_lane (id : ChannelId) (f : LogicLane -> LogicLane) (lanes : list LogicLane)
  : option (list LogicLane) :=
  match lanes with
  | [] => None
  | l :: lanes =>
    if ll_ch l =? id then Some (f l :: lanes) else (cons l) <$> update_lane id f lanes
  end.

Definition radix_for_mut (p : LogicAnalyserPanel) (id : ChannelId) (f : LabelRadix -> LabelRadix)
  : option LogicAnalyserPanel :=
  mkLogicAnalyserPanel (la_title p) <$>
    update_lane id (fun l => mkLogicLane (ll_ch l) (ll_mode l) (f (ll_radix l))) (la_lanes p).
Definition mode_for_mut (p : LogicAnalyserPanel) (id : ChannelId) (f : LaneMode -> LaneMode)
  : option LogicAnalyserPanel :=
  mkLogicAnalyserPanel (la_title p) <$>
    update_lane id (fun l => mkLogicLane (ll_ch l) (f (ll_mode l)) (ll_radix l)) (la_lanes p).

Definition logic_is_empty (p : LogicAnalyserPanel) : bool := match la_lanes p with [] => true | _ => false end.

Definition LogViewPanel_new (title group : text) : LogViewPanel :=
  mkLogViewPanel title group [] [] ∅ None None LOG_VIEW_DEFAULT_MAX_ROWS.

Definition plot_title (k : PlotKind) : text :=
  match k with
  | PScalar p => sp_title p
  | PLogicAnalyser p => la_title p
  | PLogView p => lv_title p
  | PXY p => xy_title p
  end.

Definition title_mut (k : PlotKind) (f : text -> text) : PlotKind :=
  match k with
  | PScalar p => PScalar (mkScalarPanel (f (sp_title p)) (sp_channels p) (sp_styles p) (sp_selected p))
  | PLogicAnalyser p => PLogicAnalyser (mkLogicAnalyserPanel (f (la_title p)) (la_lanes p))
  | PLogView p =>
    PLogView (mkLogViewPanel (f (lv_title p)) (lv_group p) (lv_columns p) (lv_visible p) (lv_filters p)
                (lv_color_by p) (lv_priority_by p) (lv_max_rows p))
  | PXY p => PXY (mkXYPlot (f (xy_title p)) (xy_x p) (xy_y p) (xy_trail_ns p))
  end.

Definition plot_accepts (k : PlotKind) (ch : ChannelInfo) : bool :=
  match k with
  | PScalar _ => bool_decide (ci_kind ch = Scalar)
  | PLogicAnalyser _ => accepts_logic ch
  | PLogView _ => false
  | PXY _ => bool_decide (ci_kind ch = Scalar)
  end.

(** ** The registry *)
Record PlotRegistry := mkPlotRegistry { pr_plots : gmap Z PlotKind; pr_next_id : Z }.

Definition PlotRegistry_new : PlotRegistry := mkPlotRegistry ∅ 0.

Definition registry_insert (p : profile) (r : PlotRegistry) (kind : PlotKind) : total (PlotRegistry * PlotId) :=
  let id := pr_next_id r in
  next ← arith p 64 (pr_next_id r + 1);
  mret (mkPlotRegistry (<[id := kind]> (pr_plots r)) next, id).

Definition registry_remove (r : PlotRegistry) (id : PlotId) : PlotRegistry * option PlotKind :=
  (mkPlotRegistry (delete id (pr_plots r)) (pr_next_id r), pr_plots r !! id).

Definition registry_get (r : PlotRegistry) (id : PlotId) : option PlotKind := pr_plots r !! id.

Definition registry_get_mut (r : PlotRegistry) (id : PlotId) (f : PlotKind -> PlotKind) : PlotRegistry :=
  mkPlotRegistry (alter f id (pr_plots r)) (pr_next_id r).

Definition registry_len (r : PlotRegistry) : nat := size (pr_plots r).

Definition registry_is_empty (r : PlotRegistry) : bool := bool_decide (pr_plots r = ∅).

Definition iter_ids `{HashOrder} (r : PlotRegistry) : list PlotId := map fst (hash_iter (pr_plots r)).

Definition registry_iter `{HashOrder} (r : PlotRegistry) : list (PlotId * PlotKind) := hash_iter (pr_plots r).

(** ** Drag and drop *)
Inductive DragPayload :=
| DragChannel (ch : ChannelId)
| DragChannels (chs : list ChannelId)
| DragGroup (name : text) (chs : list ChannelId)
| DragXYSeed (ch : ChannelId).

Inductive DropTint := Accept | Reject.

Definition tint_for_drop (payload : DragPayload) (plot : PlotKind) (by_id : gmap Z ChannelInfo)
  : option DropTint :=
  match payload with
  | DragChannel ch =>
    match by_id !! ch with
    | Some info => Some (if plot_accepts plot info then Accept else Reject)
    | None => None
    end
  | DragChannels chs =>
    let any := existsb (fun c => match by_id !! c with Some i => plot_accepts plot i | None => false end) chs in
    Some (if any then Accept else Reject)
  | DragGroup _ _ => None
  | DragXYSeed _ => None
  end.

(** The two halves of a move: the destination gains the channel, the source
    loses it. *)
Definition move_in (ch : ChannelId) (info : ChannelInfo) (radix : option LabelRadix) (k : PlotKind) : PlotKind :=
  match k with
  | PScalar p => PScalar (scalar_add p info).1
  | PLogicAnalyser p =>
    let p := (logic_add p info).1 in
    PLogicAnalyser (match radix with
                    | Some r => default p (radix_for_mut p ch (fun _ => r))
                    | None => p
                    end)
  | PLogView _ | PXY _ => k
  end.
Definition move_out (ch : ChannelId) (k : PlotKind) : PlotKind :=
  match k with
  | PScalar p => PScalar (scalar_remove p ch)
  | PLogicAnalyser p => PLogicAnalyser (logic_remove p ch)
  | PLogView _ | PXY _ => k
  end.

Definition try_move_channel (r : PlotRegistry) (from to : PlotId) (ch : ChannelId) (info : ChannelInfo)
    (radix : option LabelRadix) : PlotRegistry * bool :=
  if from =? to then (r, false)
  else if negb (match registry_get r to with Some k => plot_accepts k info | None => false end) then (r, false)
  else
    let r := registry_get_mut r to (move_in ch info radix) in
    let r := registry_get_mut r from (move_out ch) in
    (r, true).

(** ** Invariants *)

(** The channels a plot draws, in order. *)
Definition plot_channels (k : PlotKind) : list ChannelId :=
  match k with
  | PScalar p => sp_channels p
  | PLogicAnalyser p => map ll_ch (la_lanes p)
  | PLogView _ | PXY _ => []
  end.
(** Plots that hold a list of channels. *)
Definition hosts (k : PlotKind) : bool :=
  match k with PScalar _ | PLogicAnalyser _ => true | PLogView _ | PXY _ => false end.

(** No plot draws a channel twice, and the next id is unused. *)
Record registry_ok (r : PlotRegistry) : Prop := {
  reg_nodup : map_Forall (fun _ k => NoDup (plot_channels k)) (pr_plots r);
  reg_fresh : forall id, is_Some (pr_plots r !! id) -> 0 <= id < pr_next_id r;
}.

Lemma scalar_add_channels p info :
  ci_kind info = Scalar ->
  sp_channels (scalar_add p info).1 =
  if bool_decide (ci_id info ∈ sp_channels p) then sp_channels p else sp_channels p ++ [ci_id info].
Proof.
  intros H. unfold scalar_add. rewrite (bool_decide_eq_true_2 _ H). cbn [negb].
  by case_bool_decide.
Qed.

Lemma existsb_lane id lanes :
  existsb (fun l => ll_ch l =? id) lanes = bool_decide (id ∈ map ll_ch lanes).
Proof.
  induction lanes as [|l lanes IH]; [done|]. cbn [existsb map]. rewrite IH.
  destruct (ll_ch l =? id) eqn:E; cbn [orb].
  - symmetry. apply bool_decide_eq_true_2. apply elem_of_cons. left. lia.
  - apply bool_decide_ext. rewrite elem_of_cons. split; [by right|intros [->|]; [lia|done]].
Qed.

Lemma logic_add_channels p info :
  accepts_logic info = true ->
  map ll_ch (la_lanes (logic_add p info).1) =
  if bool_decide (ci_id info ∈ map ll_ch (la_lanes p)) then map ll_ch (la_lanes p)
  else map ll_ch (la_lanes p) ++ [ci_id info].
Proof.
  intros H. unfold logic_add. rewrite H, existsb_lane. cbn [negb].
  case_bool_decide; [done|]. cbn. by rewrite map_app.
Qed.

Lemma update_lane_channels id f lanes lanes' :
  (forall l, ll_ch (f l) = ll_ch l) -> update_lane id f lanes = Some lanes' ->
  map ll_ch lanes' = map ll_ch lanes.
Proof.
  intros Hf. revert lanes'. induction lanes as [|l lanes IH]; intros lanes' H; cbn in H; [done|].
  destruct (ll_ch l =? id); [injection H as <-; cbn; by rewrite Hf|].
  apply fmap_Some in H as (k & Hk & ->). cbn. by rewrite (IH k).
Qed.

Lemma move_in_channels ch info radix k :
  ci_id info = ch -> plot_accepts k info = true ->
  plot_channels (move_in ch info radix k) =
  if hosts k && negb (bool_decide (ch ∈ plot_channels k)) then plot_channels k ++ [ch] else plot_channels k.
Proof.
  intros <- Ha. destruct k as [p|p|p|p]; cbn [move_in plot_channels hosts andb] in *; [| |done|done].
  - apply bool_decide_eq_true_1 in Ha. rewrite scalar_add_channels by done. by case_bool_decide.
  - cbn in Ha. pose proof (logic_add_channels p info Ha) as Hc. set (q := (logic_add p info).1) in *.
    assert (Hq : map ll_ch (la_lanes (match radix with
      | Some r => default q (radix_for_mut q (ci_id info) (fun _ => r)) | None => q end)) = map ll_ch (la_lanes q)).
    { destruct radix as [r|]; [|done]. unfold radix_for_mut.
      destruct (update_lane _ _ _) as [lanes|] eqn:E; [|done]. cbn.
      eapply update_lane_channels; [|exact E]. done. }
    rewrite Hq, Hc. by case_bool_decide.
Qed.

Lemma map_filter_ch id lanes :
  map ll_ch (filter (fun l => ll_ch l <> id) lanes) = filter (fun x => x <> id) (map ll_ch lanes).
Proof.
  induction lanes as [|l lanes IH]; [done|]. cbn [map]. rewrite !filter_cons, <-IH.
  by repeat case_decide.
Qed.

Lemma move_out_channels ch k :
  plot_channels (move_out ch k) = filter (fun x => x <> ch) (plot_channels k).
Proof. destruct k; cbn; [done|apply map_filter_ch|done|done]. Qed.

Lemma registry_insert_fresh p r kind :
  registry_ok r -> NoDup (plot_channels kind) -> 0 <= pr_next_id r < u64_max ->
  exists r', registry_insert p r kind = Ok (r', pr_next_id r) /\ registry_ok r' /\
    pr_plots r !! pr_next_id r = None /\ pr_plots r' = <[pr_next_id r := kind]> (pr_plots r).
Proof.
  intros [Hn Hf] Hk Hid. unfold registry_insert. unfold u64_max in Hid.
  rewrite arith_ok by (unfold in_u; lia). cbn [mbind res_bind]. eexists. split; [done|].
  split; [split|].
  - cbn. by apply map_Forall_insert_2.
  - cbn. intros id [k Hi]. apply lookup_insert_Some in Hi as [[<- _]|[_ Hi]]; [lia|].
    destruct (Hf id ltac:(by exists k)). lia.
  - split; [|done]. destruct (pr_plots r !! pr_next_id r) eqn:E; [|done].
    destruct (Hf (pr_next_id r) ltac:(by eexists)). lia.
Qed.

(** Editing one plot in place. *)
Lemma registry_get_mut_ok r id f :
  registry_ok r ->
  (forall k, pr_plots r !! id = Some k -> NoDup (plot_channels k) -> NoDup (plot_channels (f k))) ->
  registry_ok (registry_get_mut r id f).
Proof.
  intros [Hn Hf] Hk. split; cbn.
  - intros i k. destruct (decide (i = id)) as [->|Hne].
    + rewrite lookup_alter_eq. intros (k0 & Hk0 & ->)%fmap_Some. apply Hk; [done|]. by apply (Hn id).
    + rewrite lookup_alter_ne by done. apply Hn.
  - intros i Hi. apply Hf. destruct (decide (i = id)) as [->|Hne].
    + rewrite lookup_alter_eq in Hi. by apply fmap_is_Some in Hi.
    + by rewrite lookup_alter_ne in Hi.
Qed.

Lemma move_in_nodup ch info radix k :
  ci_id info = ch -> plot_accepts k info = true -> NoDup (plot_channels k) ->
  NoDup (plot_channels (move_in ch info radix k)).
Proof.
  intros Hid Ha Hk. rewrite move_in_channels by done. destruct (hosts k); cbn [andb]; [|done].
  case_bool_decide; cbn [negb]; [done|]. apply NoDup_app. split_and!; [done| |apply NoDup_singleton].
  by intros x Hx ->%list_elem_of_singleton.
Qed.

Lemma try_move_ok r from to ch info radix :
  registry_ok r -> ci_id info = ch -> registry_ok (try_move_channel r from to ch info radix).1.
Proof.
  intros Hr Hid. unfold try_move_channel. destruct (from =? to); [done|].
  destruct (registry_get r to) as [k|] eqn:Eto; cbn [negb]; [|done].
  destruct (plot_accepts k info) eqn:Ea; cbn [negb fst]; [|done].
  apply registry_get_mut_ok; [apply registry_get_mut_ok; [done|]|].
  - intros k' Hk' Hn. unfold registry_get in Eto. simplify_eq. by apply move_in_nodup.
  - intros k' _ Hn. rewrite move_out_channels. by apply NoDup_filter.
Qed.

(** ** Properties *)

(** Moving a channel between plots touches only the two plots: a refused
    move changes nothing; an accepted one removes the channel from the source
    and appends it to a destination that lists channels (once), keeping the
    order of everything else, no plot ever lists a channel twice, and plots
    neither appear nor disappear.  A destination that accepts scalars but lists
    no channels (an XY plot) is left as it is, so the channel is lost. *)
Theorem move_channel_spec r from to ch info radix r' moved :
  registry_ok r -> ci_id info = ch ->
  try_move_channel r from to ch info radix = (r', moved) ->
  registry_ok r' /\ (moved = false -> r' = r) /\
  (moved = true -> forall id,
     plot_channels <$> pr_plots r' !! id =
     (fun k => if decide (id = from) then filter (fun x => x <> ch) (plot_channels k)
               else if decide (id = to) then
                 if hosts k && negb (bool_decide (ch ∈ plot_channels k))
                 then plot_channels k ++ [ch] else plot_channels k
               else plot_channels k) <$> pr_plots r !! id).
Proof.
  intros Hr Hid E. pose proof (try_move_ok r from to ch info radix Hr Hid) as Hok. rewrite E in Hok. cbn in Hok.
  revert E. unfold try_move_channel, registry_get. destruct (from =? to) eqn:Eft.
  { intros [= <- <-]. by split. }
  destruct (pr_plots r !! to) as [k|] eqn:Eto; cbn [negb]; [|intros [= <- <-]; by split].
  destruct (plot_accepts k info) eqn:Ea; cbn [negb]; [|intros [= <- <-]; by split].
  intros [= <- <-].
  assert (Hch : forall id, plot_channels <$> alter (move_out ch) from (alter (move_in ch info radix) to (pr_plots r)) !! id =
     (fun k => if decide (id = from) then filter (fun x => x <> ch) (plot_channels k)
               else if decide (id = to) then
                 if hosts k && negb (bool_decide (ch ∈ plot_channels k))
                 then plot_channels k ++ [ch] else plot_channels k
               else plot_channels k) <$> pr_plots r !! id).
  { intros id. destruct (decide (id = from)) as [->|Hne].
    - rewrite lookup_alter_eq, lookup_alter_ne by lia. destruct (pr_plots r !! from); [|done]. cbn.
      by rewrite move_out_channels.
    - rewrite lookup_alter_ne by done. destruct (decide (id = to)) as [->|Hne'].
      + rewrite lookup_alter_eq, Eto. cbn. by rewrite move_in_channels.
      + by rewrite lookup_alter_ne. }
  by split_and!.
Qed.

(** A scalar plot 0 and an XY plot 1: the move menu offers plot 1. *)
Definition demo_registry : PlotRegistry :=
  mkPlotRegistry {[0 := PScalar (mkScalarPanel (str "a") [5; 6] ∅ ∅); 1 := PXY (mkXYPlot (str "b") 1 2 None)]} 2.

Lemma move_channel_spec_witness :
  (try_move_channel demo_registry 0 1 5 (mkChannelInfo 5 (str "x") Scalar false) None).2 = true /\
  plot_channels <$> pr_plots (try_move_channel demo_registry 0 1 5 (mkChannelInfo 5 (str "x") Scalar false) None).1 !! 0
  = Some [6].
Proof.
  split; [reflexivity|].
  refine (eq_trans (proj2 (proj2 (move_channel_spec demo_registry 0 1 5 (mkChannelInfo 5 (str "x") Scalar false) None
    (try_move_channel demo_registry 0 1 5 (mkChannelInfo 5 (str "x") Scalar false) None).1 true _ _ _)) _ 0) _).
  - split.
    + intros id k Hk. unfold demo_registry in Hk. cbn in Hk.
      apply lookup_insert_Some in Hk as [[_ <-]|[_ Hk]]; [|apply lookup_singleton_Some in Hk as [_ <-]; constructor].
      cbn. repeat constructor; set_solver.
    + intros id [k Hk]. cbn in Hk |- *. apply lookup_insert_Some in Hk as [[<- _]|[_ Hk]]; [lia|].
      apply lookup_singleton_Some in Hk as [<- _]. lia.
  - reflexivity.
  - vm_compute. reflexivity.
  - reflexivity.
  - vm_compute. reflexivity.
Defined.
