(* ===== verification/ViewCamera.v ===== *)
(** * btelem-viewer: the time axis

    Models the camera, the visible window and the rate estimator of
    viewer/crates/btelem-viewer/src/view_state.rs (lines 573-754, 1210-1256).
    Bounds in plot units are [f64] seconds; instants are nanoseconds. *)

From Stdlib Require Import SpecFloat.
From S2P Require Import Prelude Float64 Store Capture.

(** A decimal literal [a / b] with exactly representable [a] and [b]. *)
Definition lit (a b : Z) : f64 := f64_div (f64_of_Z a) (f64_of_Z b).

Definition STATE_LABEL_TEXT_LIMIT : nat := 16.
Inductive StateLaneMode := Labels | Heatmap.
Definition state_lane_mode (distinct : nat) : StateLaneMode :=
  if (STATE_LABEL_TEXT_LIMIT <? distinct)%nat then Heatmap else Labels.

(** ** Camera *)
Inductive TimeBase := Follow | Pan.
#[global] Instance TimeBase_eq_dec : EqDecision TimeBase.
Proof. solve_decision. Defined.

Definition TimeBase_toggle (t : TimeBase) : TimeBase := match t with Follow => Pan | Pan => Follow end.

Record Camera := mkCamera { cam_mode : TimeBase; cam_window_ns : Z; cam_free : option (f64 * f64) }.

Definition Camera_default : Camera := mkCamera Follow 10000000000 None.

Definition cam_follow (c : Camera) : bool := match cam_mode c with Follow => true | Pan => false end.

Definition pan_x (c : Camera) (delta_s : f64) (fallback : f64 * f64) : Camera :=
  let '(lo, hi) := default fallback (cam_free c) in
  mkCamera Pan (cam_window_ns c) (Some (f64_add lo delta_s, f64_add hi delta_s)).

Definition MIN_SPAN_S : f64 := lit 1 1000000.
Definition half : f64 := lit 1 2.

Definition zoom_x (c : Camera) (factor pivot_s : f64) (fallback : f64 * f64) : Camera :=
  let '(lo, hi) := default fallback (cam_free c) in
  let new_lo := f64_add pivot_s (f64_mul (f64_sub lo pivot_s) factor) in
  let new_hi := f64_add pivot_s (f64_mul (f64_sub hi pivot_s) factor) in
  let bounds :=
    if f64_lt (f64_sub new_hi new_lo) MIN_SPAN_S then
      let mid := f64_mul (f64_add new_lo new_hi) half in
      (f64_sub mid (f64_mul MIN_SPAN_S half), f64_add mid (f64_mul MIN_SPAN_S half))
    else (new_lo, new_hi) in
  mkCamera Pan (cam_window_ns c) (Some bounds).

Definition cam_reset (c : Camera) : Camera := mkCamera Follow (cam_window_ns c) None.

(** [x as f64 / 1e9]. *)
Definition ns_to_s (t : Z) : f64 := f64_div (f64_of_Z t) (f64_of_Z (10 ^ 9)).

Definition view_all (c : Camera) (data : option (Z * Z)) : Camera :=
  match data with
  | None => c
  | Some (lo, hi) =>
    let s_lo := ns_to_s lo in
    let s_hi := f64_max (ns_to_s hi) (f64_add s_lo (lit 1 (10 ^ 9))) in
    mkCamera Pan (cam_window_ns c) (Some (s_lo, s_hi))
  end.

Definition zoom_in_at (c : Camera) (factor pivot_s : f64) (fallback : f64 * f64) : Camera :=
  zoom_x c factor pivot_s fallback.

Definition jump_to (c : Camera) (t_ns : Z) (fallback : f64 * f64) : Camera :=
  let '(lo, hi) := default fallback (cam_free c) in
  let h := f64_max (f64_mul (f64_sub hi lo) half) (lit 1 1000) in
  let centre := ns_to_s t_ns in
  mkCamera Pan (cam_window_ns c) (Some (f64_sub centre h, f64_add centre h)).

Definition zoom_window (c : Camera) (factor : f64) (max_ns : option Z) : Camera :=
  let lower := f64_of_Z 1000000 in
  let abs_max := f64_of_Z 3600000000000 in
  let upper := match max_ns with
               | Some m => f64_clamp (f64_of_Z m) lower abs_max
               | None => abs_max
               end in
  let new := f64_to_u64 (f64_clamp (f64_mul (f64_of_Z (cam_window_ns c)) factor) lower upper) in
  mkCamera (cam_mode c) (Z.max new 1) (cam_free c).

(** ** The visible window, in nanoseconds *)
Definition s_to_ns (x : f64) : Z :=
  f64_to_u64 (f64_mul (f64_max x (f64_of_Z 0)) (f64_of_Z (10 ^ 9))).

Definition compute_view (p : profile) (c : Camera) (data : option (Z * Z)) : total (option (Z * Z)) :=
  match data with
  | None => mret None
  | Some (earliest, latest) =>
    match cam_mode c with
    | Follow =>
      let left := sat_sub latest (cam_window_ns c) in
      next ← arith p 64 (left + 1);
      mret (Some (left, Z.max latest next))
    | Pan =>
      match cam_free c with
      | Some (a, b) =>
        let lo := s_to_ns a in
        let hi := s_to_ns b in
        next ← arith p 64 (lo + 1);
        mret (Some (Z.min lo hi, Z.max hi next))
      | None =>
        next ← arith p 64 (earliest + 1);
        mret (Some (earliest, Z.max latest next))
      end
    end
  end.

(** The left edge of the window before the width is enforced. *)
Definition left_edge (c : Camera) (earliest latest : Z) : Z :=
  match cam_mode c with
  | Follow => sat_sub latest (cam_window_ns c)
  | Pan => match cam_free c with Some (a, _) => s_to_ns a | None => earliest end
  end.

(** ** Rate estimation *)
Record RateEstimator := mkRateEstimator { re_window : list (Z * Z); re_window_secs : f64 }.

Definition RateEstimator_new (window_secs : f64) : RateEstimator := mkRateEstimator [] window_secs.
Definition RateEstimator_default : RateEstimator := RateEstimator_new (f64_of_Z 2).

(** [a.duration_since(b).as_secs_f64()]; the difference saturates at zero. *)
Definition since (a b : Z) : f64 := as_secs_f64 (sat_sub a b).

Fixpoint drop_old (now : Z) (secs : f64) (w : list (Z * Z)) : list (Z * Z) :=
  match w with
  | [] => []
  | (t, n) :: w' => if f64_lt secs (since now t) then drop_old now secs w' else w
  end.

Definition rate_push (e : RateEstimator) (now count : Z) : RateEstimator :=
  mkRateEstimator (drop_old now (re_window_secs e) (re_window e ++ [(now, count)])) (re_window_secs e).

Definition rate (e : RateEstimator) : f64 :=
  match head (re_window e), last (re_window e) with
  | Some (t0, c0), Some (t1, c1) =>
    if (length (re_window e) <? 2)%nat then f64_of_Z 0
    else
      let dt := since t1 t0 in
      if f64_lt dt (lit 1 1000000) then f64_of_Z 0
      else f64_div (f64_of_Z (sat_sub c1 c0)) dt
  | _, _ => f64_of_Z 0
  end.

(** ** Facts *)
Lemma f64_to_u64_range x : in_u 64 (f64_to_u64 x).
Proof.
  unfold f64_to_u64, in_u. destruct x as [s|s| |s m e]; cbn [f64_cast]; try destruct s; cbn; lia.
Qed.

(** The window always spans [now]'s newest observation, and everything kept is
    within the window. *)
Lemma drop_old_suffix now secs w : drop_old now secs w `suffix_of` w.
Proof.
  induction w as [|[t n] w IH]; [done|]. cbn [drop_old]. destruct (f64_lt _ _); [|done].
  by apply suffix_cons_r.
Qed.

Lemma drop_old_head now secs w x : head (drop_old now secs w) = Some x -> f64_lt secs (since now x.1) = false.
Proof.
  induction w as [|[t n] w IH]; [done|]. cbn [drop_old]. destruct (f64_lt secs (since now t)) eqn:E; [done|].
  intros [= <-]. done.
Qed.

(** ** Properties *)

(** The visible window is computed without panic and is never empty: for
    any machine-word data bounds and camera state whose left edge is below the
    last representable nanosecond, in both build profiles, the window starts at
    or before that edge, ends after it, and in follow mode ends at the newest
    sample. *)
Theorem compute_view_nonempty p c earliest latest :
  in_u 64 earliest -> in_u 64 latest -> in_u 64 (cam_window_ns c) ->
  left_edge c earliest latest < u64_max ->
  exists lo hi, compute_view p c (Some (earliest, latest)) = Ok (Some (lo, hi)) /\
    lo < hi /\ lo <= left_edge c earliest latest < hi /\ in_u 64 lo /\ in_u 64 hi /\
    (cam_mode c = Follow -> 0 < cam_window_ns c -> 0 < latest -> hi = latest).
Proof.
  unfold in_u, left_edge, u64_max. intros He Hl Hw Hedge. unfold compute_view.
  destruct (cam_mode c).
  - unfold sat_sub in *. rewrite arith_ok by (unfold in_u; lia). cbn [mbind res_bind].
    do 2 eexists. split; [done|]. split_and!; try lia.
  - destruct (cam_free c) as [[a b]|].
    + pose proof (f64_to_u64_range (f64_mul (f64_max a (f64_of_Z 0)) (f64_of_Z (10 ^ 9)))) as Ha.
      pose proof (f64_to_u64_range (f64_mul (f64_max b (f64_of_Z 0)) (f64_of_Z (10 ^ 9)))) as Hb.
      fold (s_to_ns a) in Ha. fold (s_to_ns b) in Hb. unfold in_u in *.
      rewrite arith_ok by (unfold in_u; lia). cbn [mbind res_bind].
      do 2 eexists. split; [done|]. split_and!; try lia. done.
    + rewrite arith_ok by (unfold in_u; lia). cbn [mbind res_bind].
      do 2 eexists. split; [done|]. split_and!; try lia. done.
Qed.

Lemma compute_view_nonempty_witness :
  exists lo hi, compute_view Debug Camera_default (Some (5, 20000000000)) = Ok (Some (lo, hi)) /\ lo < hi.
Proof.
  destruct (compute_view_nonempty Debug Camera_default 5 20000000000) as (lo & hi & H & Hlt & _).
  - apply in_ub_spec. reflexivity.
  - apply in_ub_spec. reflexivity.
  - apply in_ub_spec. reflexivity.
  - vm_compute. reflexivity.
  - exists lo, hi. split; [exact H|exact Hlt].
Defined.
