(* ===== verification/ViewGroups.v ===== *)
(** * btelem-viewer: grouping, labels and connection strings

    Models viewer/crates/btelem-viewer/src/view_state.rs lines 756-990.  Strings
    are compared bytewise, as Rust's [str] ordering does; a [BTreeMap] is an
    association list with ascending keys. *)

From S2P Require Import Prelude Slices Text Store.
From Stdlib Require Import Sorted.

(** ** Bytewise order of strings *)
Fixpoint text_leb (a b : text) : bool :=
  match a, b with
  | [], _ => true
  | _ :: _, [] => false
  | x :: a, y :: b =>
    if byte_z x <? byte_z y then true else if byte_z y <? byte_z x then false else text_leb a b
  end.

Lemma text_leb_total a b : text_leb a b = true \/ text_leb b a = true.
Proof.
  revert b. induction a as [|x a IH]; intros [|y b]; cbn; auto.
  destruct (byte_z x <? byte_z y) eqn:E1; [by left|]. destruct (byte_z y <? byte_z x) eqn:E2; [by right|].
  apply IH.
Qed.

Lemma text_leb_trans a b c : text_leb a b = true -> text_leb b c = true -> text_leb a c = true.
Proof.
  revert b c. induction a as [|x a IH]; intros [|y b] [|z c]; cbn; try done.
  destruct (byte_z x <? byte_z y) eqn:E1, (byte_z y <? byte_z z) eqn:E2,
    (byte_z y <? byte_z x) eqn:E3, (byte_z z <? byte_z y) eqn:E4; try done; intros H1 H2;
    try (replace (byte_z x <? byte_z z) with true by lia; done).
  replace (byte_z x <? byte_z z) with false by lia. replace (byte_z z <? byte_z x) with false by lia.
  by apply (IH b).
Qed.

Lemma text_leb_antisym a b : text_leb a b = true -> text_leb b a = true -> a = b.
Proof.
  revert b. induction a as [|x a IH]; intros [|y b]; cbn; try done.
  destruct (byte_z x <? byte_z y) eqn:E1, (byte_z y <? byte_z x) eqn:E2; try done; try lia.
  intros H1 H2. f_equal; [apply (inj byte_z); lia|by apply IH].
Qed.

Lemma text_leb_refl a : text_leb a a = true.
Proof. destruct (text_leb_total a a); done. Qed.

(** ** Paths *)
Definition dot : byte := x2e.

Definition channel_group (path : text) : text :=
  match find_byte dot path with Some i => take i path | None => path end.
Definition strip_group_prefix (path : text) : text :=
  match find_byte dot path with Some i => drop (S i) path | None => path end.

Definition is_nil (s : text) : bool := match s with [] => true | _ => false end.

(** [false < true]; empty group keys go last. *)
Definition group_leb (a b : text) : bool :=
  match is_nil a, is_nil b with
  | false, true => true
  | true, false => false
  | _, _ => text_leb a b
  end.

Definition group_order (groups : list (option text)) : list (nat * text) :=
  sort_by (fun a b => group_leb a.2 b.2) (imap (fun i g => (i, default [] g)) groups).

(** Group first, then the full path. *)
Definition group_name_leb (a b : nat * text * text) : bool :=
  let '(_, ga, pa) := a in
  let '(_, gb, pb) := b in
  if negb (group_leb ga gb) then false
  else if negb (group_leb gb ga) then true
  else text_leb pa pb.

Definition group_then_name_order (resolved : list (option text * text)) : list (nat * text) :=
  map (fun '(i, g, _) => (i, g))
    (sort_by group_name_leb (imap (fun i '(g, p) => (i, default [] g, p)) resolved)).

(** [groups.entry(head).or_default().push(c)] *)
Fixpoint entry_push (key : text) (c : ChannelInfo) (groups : list (text * list ChannelInfo))
  : list (text * list ChannelInfo) :=
  match groups with
  | [] => [(key, [c])]
  | (k, v) :: groups' =>
    if text_leb k key then
      if text_leb key k then (k, v ++ [c]) :: groups' else (k, v) :: entry_push key c groups'
    else (key, [c]) :: groups
  end.

Definition group_by_struct (channels : list ChannelInfo) : list (text * list ChannelInfo) :=
  let groups := foldl (fun g c => entry_push (channel_group (ci_path c)) c g) [] channels in
  map (fun '(k, v) => (k, sort_by (fun a b => text_leb (ci_path a) (ci_path b)) v)) groups.

Definition matches_query (path query : text) : bool :=
  if is_nil query then true else contains (to_ascii_lowercase path) (to_ascii_lowercase query).

(** ** Shift-drag pairs *)
Record XYDragAccumulator := mkXYDrag { xd_first : option ChannelId }.

Definition xy_feed (a : XYDragAccumulator) (ch : ChannelId)
  : XYDragAccumulator * option (ChannelId * ChannelId) :=
  match xd_first a with
  | None => (mkXYDrag (Some ch), None)
  | Some prev => if prev =? ch then (mkXYDrag (Some prev), None) else (mkXYDrag None, Some (prev, ch))
  end.

Definition xy_cancel (a : XYDragAccumulator) : XYDragAccumulator := mkXYDrag None.

(** ** Labels *)
Definition ellipsis : text := [xe2; x80; xa6].

Definition fit_label (label : text) (available_chars : nat) : text :=
  let len := length (chars label) in
  if (available_chars =? 0)%nat then []
  else if (len <=? available_chars)%nat then label
  else if (available_chars <? 2)%nat then []
  else concat (take (available_chars - 1) (chars label)) ++ ellipsis.

(** ** Connection strings *)
Inductive Protocol := Tcp | Udp | Serial.
#[global] Instance Protocol_eq_dec : EqDecision Protocol.
Proof. solve_decision. Defined.

Definition Protocol_label (p : Protocol) : text :=
  match p with Tcp => str "TCP" | Udp => str "UDP" | Serial => str "Serial" end.

Record Connection := mkConnection { cn_host : text; cn_port : Z; cn_protocol : Protocol }.

Definition Connection_default : Connection := mkConnection (str "127.0.0.1") 4040 Tcp.

(** The two messages [parse] reports. *)
Inductive ParseError := ExpectedHostPort (rest : text) | BadPort (port : text).

(** [rsplit_once(sep)]: split at the last occurrence. *)
Fixpoint rsplit_once (sep : byte) (s : text) : option (text * text) :=
  match s with
  | [] => None
  | b :: s =>
    match rsplit_once sep s with
    | Some (h, t) => Some (b :: h, t)
    | None => if bool_decide (b = sep) then Some ([], s) else None
    end
  end.

Definition Connection_parse (s : text) : res ParseError Connection :=
  let '(proto, rest) :=
    match strip_prefix s (str "tcp://") with
    | Some r => (Tcp, r)
    | None =>
      match strip_prefix s (str "udp://") with
      | Some r => (Udp, r)
      | None => match strip_prefix s (str "serial://") with
                | Some r => (Serial, r)
                | None => (Tcp, s)
                end
      end
    end in
  match proto with
  | Serial => Ok (mkConnection rest 0 Serial)
  | _ =>
    match rsplit_once x3a rest with
    | None => Err (ExpectedHostPort rest)
    | Some (h, p) =>
      match parse_u16 p with
      | None => Err (BadPort p)
      | Some port => Ok (mkConnection h port proto)
      end
    end
  end.

Definition socket_addr (c : Connection) : text := cn_host c ++ str ":" ++ fmt_dec (cn_port c).

Definition Connection_pretty (c : Connection) : text :=
  match cn_protocol c with
  | Serial => str "serial://" ++ cn_host c
  | p => to_ascii_lowercase (Protocol_label p) ++ str "://" ++ cn_host c ++ str ":" ++ fmt_dec (cn_port c)
  end.

(** ** Facts *)
Definition text_lt (a b : text) : Prop := text_leb a b = true /\ a <> b.

Lemma text_leb_false a b : text_leb a b = false -> text_lt b a.
Proof.
  intros H. destruct (text_leb_total a b) as [|H']; [congruence|]. split; [done|].
  intros ->. rewrite text_leb_refl in H. done.
Qed.

Lemma text_lt_trans a b c : text_lt a b -> text_lt b c -> text_lt a c.
Proof.
  intros [H1 N1] [H2 N2]. split; [by eapply text_leb_trans|]. intros ->.
  apply N1, text_leb_antisym; done.
Qed.

(** A map grouping [cs] by [key]: ascending keys, each with its elements in
    order, and every element's key present. *)
Record groups_of (key : ChannelInfo -> text) (cs : list ChannelInfo) (g : list (text * list ChannelInfo)) : Prop := {
  go_sorted : StronglySorted text_lt (map fst g);
  go_group : Forall (fun kv => kv.2 = filter (fun c => key c = kv.1) cs /\ kv.2 <> []) g;
  go_all : Forall (fun c => key c ∈ map fst g) cs;
}.

Lemma entry_push_keys key c g x :
  x ∈ map fst (entry_push key c g) <-> x = key \/ x ∈ map fst g.
Proof.
  induction g as [|[k v] g IH]; cbn [entry_push map fst].
  - rewrite list_elem_of_singleton, elem_of_nil. tauto.
  - destruct (text_leb k key) eqn:E1; [destruct (text_leb key k) eqn:E2|]; cbn [map fst];
      rewrite ?elem_of_cons, ?IH; [|tauto|tauto].
    assert (k = key) as -> by (by apply text_leb_antisym). tauto.
Qed.

Lemma entry_push_sorted key c g :
  StronglySorted text_lt (map fst g) -> StronglySorted text_lt (map fst (entry_push key c g)).
Proof.
  induction g as [|[k v] g IH]; cbn [entry_push map fst]; intros H; [repeat constructor|].
  apply StronglySorted_inv in H as [Hs Hf].
  destruct (text_leb k key) eqn:E1; [destruct (text_leb key k) eqn:E2|]; cbn [map fst].
  - by constructor.
  - constructor; [by apply IH|]. apply Forall_forall. intros x Hx. apply entry_push_keys in Hx as [->|Hx].
    + split; [done|]. intros ->. by rewrite text_leb_refl in E2.
    + by apply (proj1 (Forall_forall _ _) Hf).
  - apply text_leb_false in E1. constructor; [by constructor|]. constructor; [done|].
    eapply Forall_impl; [exact Hf|]. intros x Hx. by eapply text_lt_trans.
Qed.

Lemma entry_push_groups key cs c g :
  groups_of key cs g -> groups_of key (cs ++ [c]) (entry_push (key c) c g).
Proof.
  intros [Hs Hg Ha]. split.
  - by apply entry_push_sorted.
  - (* the group of [c]'s key gains [c]; the others are unchanged *)
    assert (Hfilt : forall k, filter (fun d => key d = k) (cs ++ [c]) =
      if decide (key c = k) then filter (fun d => key d = k) cs ++ [c] else filter (fun d => key d = k) cs).
    { intros k. rewrite filter_app, filter_cons, filter_nil. by case_decide; rewrite ?app_nil_r. }
    assert (Hnew : (key c ∉ map fst g) -> filter (fun d => key d = key c) cs = []).
    { intros Hni. apply filter_none. eapply Forall_impl; [exact Ha|]. simpl. intros d Hd E.
      apply Hni. by rewrite <-E. }
    clear Ha. revert Hs Hg Hnew. induction g as [|[k v] g IH]; intros Hs Hg Hnew; cbn [entry_push].
    + constructor; [|constructor]. cbn. rewrite Hfilt, decide_True by done.
      rewrite Hnew by (by apply not_elem_of_nil). split; [done|by destruct (filter _ cs)].
    + apply Forall_cons in Hg as [[Hv Hne] Hg]. cbn [map fst snd] in *.
      apply StronglySorted_inv in Hs as [Hs Hf].
      assert (Hrest : (forall k', text_lt k k' -> key c <> k') -> Forall (fun kv => kv.2 =
        filter (fun d => key d = kv.1) (cs ++ [c]) /\ kv.2 <> []) g).
      { intros Hk. apply Forall_forall. intros kv Hkv. rewrite Hfilt, decide_False.
        - by apply (proj1 (Forall_forall _ _) Hg).
        - apply Hk. apply (proj1 (Forall_forall _ _) Hf). by apply list_elem_of_fmap_2. }
      destruct (text_leb k (key c)) eqn:E1; [destruct (text_leb (key c) k) eqn:E2|].
      * assert (key c = k) as Ek by (by apply text_leb_antisym). constructor.
        -- cbn. rewrite Hfilt, decide_True by done. rewrite <-Hv. split; [done|by destruct v].
        -- apply Hrest. intros k' [_ Hk'] E. by rewrite Ek in E.
      * constructor.
        -- cbn. rewrite Hfilt, decide_False; [done|]. intros E. by rewrite E, text_leb_refl in E2.
        -- apply IH; [done|done|]. intros Hni. apply Hnew. rewrite not_elem_of_cons. split; [|done].
           intros E. by rewrite E, text_leb_refl in E2.
      * apply text_leb_false in E1. assert (key c ∉ k :: map fst g) as Hni.
        { rewrite not_elem_of_cons. split; [by destruct E1|]. intros Hin.
          pose proof (proj1 (Forall_forall _ _) Hf _ Hin) as Hlt.
          destruct (text_lt_trans _ _ _ E1 Hlt) as [_ Hx]. done. }
        constructor; [|constructor].
        -- cbn. rewrite Hfilt, decide_True by done. rewrite Hnew by done. done.
        -- cbn. rewrite Hfilt, decide_False; [done|]. by destruct E1.
        -- apply Hrest. intros k' Hk' E. destruct (text_lt_trans _ _ _ E1 Hk') as [_ Hx]. done.
  - apply Forall_app. split.
    + eapply Forall_impl; [exact Ha|]. intros d Hd. apply entry_push_keys. by right.
    + constructor; [|constructor]. apply entry_push_keys. by left.
Qed.

Lemma foldl_groups key cs :
  groups_of key cs (foldl (fun g c => entry_push (key c) c g) [] cs).
Proof.
  induction cs as [|c cs IH] using rev_ind; [by split; constructor|].
  rewrite foldl_app. cbn [foldl]. by apply entry_push_groups.
Qed.

Lemma rsplit_once_app sep s h t : rsplit_once sep s = Some (h, t) -> s = h ++ sep :: t.
Proof.
  revert h. induction s as [|b s IH]; intros h H; cbn in H; [done|].
  destruct (rsplit_once sep s) as [[h' t']|] eqn:E.
  - injection H as <- <-. cbn. by rewrite (IH h').
  - case_bool_decide; [|done]. injection H as <- <-. by subst.
Qed.

Lemma rsplit_once_absent sep s : rsplit_once sep s = None -> sep ∉ s.
Proof.
  induction s as [|b s IH]; intros E; [apply not_elem_of_nil|]. cbn in E.
  destruct (rsplit_once sep s) as [[]|]; [done|]. case_bool_decide; [done|].
  apply not_elem_of_cons. split; [congruence|by apply IH].
Qed.

Lemma rsplit_once_tail sep s h t : rsplit_once sep s = Some (h, t) -> sep ∉ t.
Proof.
  revert h. induction s as [|b s IH]; intros h H; cbn in H; [done|].
  destruct (rsplit_once sep s) as [[h' t']|] eqn:E; [injection H as <- <-; by apply (IH h')|].
  case_bool_decide; [|done]. injection H as <- <-. by apply rsplit_once_absent.
Qed.

Lemma rsplit_once_None sep s : sep ∉ s -> rsplit_once sep s = None.
Proof.
  induction s as [|b s IH]; intros H; [done|]. apply not_elem_of_cons in H as [H1 H2]. cbn.
  rewrite IH by done. by rewrite bool_decide_eq_false_2 by congruence.
Qed.

Lemma rsplit_once_last sep h t : (sep ∉ t) -> rsplit_once sep (h ++ sep :: t) = Some (h, t).
Proof.
  intros Ht. induction h as [|b h IH]; cbn.
  - rewrite rsplit_once_None by done. by rewrite bool_decide_eq_true_2.
  - by rewrite IH.
Qed.

Lemma strip_prefix_app p r : strip_prefix (p ++ r) p = Some r.
Proof.
  unfold strip_prefix. rewrite (proj2 (is_prefix_spec p (p ++ r))) by (by exists r).
  by rewrite drop_app_length.
Qed.

Lemma fmt_dec_no_colon n : 0 <= n -> x3a ∉ fmt_dec n.
Proof.
  intros Hn. unfold fmt_dec. replace (n <? 0) with false by lia.
  destruct (fmt_radix_dec n Hn) as (ds & -> & _ & Hd & _). intros Hin.
  by apply (proj1 (Forall_forall _ _) Hd) in Hin.
Qed.

(** The groups hold exactly the channels. *)
Lemma group_by_struct_elem cs c :
  c ∈ concat (map snd (group_by_struct cs)) <-> c ∈ cs.
Proof.
  unfold group_by_struct. destruct (foldl_groups (fun c => channel_group (ci_path c)) cs) as [_ Hg Ha].
  set (g := foldl _ _ _) in *. rewrite map_map. rewrite list_elem_of_In, in_concat. split.
  - intros (items & Hi & Hc). apply in_map_iff in Hi as ([k v] & <- & Hkv). cbn in Hc.
    rewrite <-list_elem_of_In, sort_by_perm in Hc. apply list_elem_of_In in Hkv.
    destruct (proj1 (Forall_forall _ _) Hg _ Hkv) as [Hv _]. cbn in Hv. subst v.
    by apply list_elem_of_filter in Hc as [_ Hc].
  - intros Hc. pose proof (proj1 (Forall_forall _ _) Ha _ Hc) as Hk.
    apply list_elem_of_fmap in Hk as ([k v] & E & Hkv). cbn in E.
    destruct (proj1 (Forall_forall _ _) Hg _ Hkv) as [Hv _]. cbn in Hv.
    exists (sort_by (fun a b => text_leb (ci_path a) (ci_path b)) v). split.
    + apply in_map_iff. exists (k, v). split; [done|by apply list_elem_of_In].
    + apply list_elem_of_In. rewrite sort_by_perm, Hv. by apply list_elem_of_filter.
Qed.

(** ** Properties *)

(** Connection strings round-trip: parsing the displayed form of any
    TCP or UDP connection (whatever its host, colons included, and any 16-bit
    port) or serial port returns the same connection. *)
Theorem parse_pretty c :
  in_u 16 (cn_port c) -> (cn_protocol c = Serial -> cn_port c = 0) ->
  Connection_parse (Connection_pretty c) = Ok c.
Proof.
  intros Hp Hs. destruct c as [h port proto]. cbn [cn_host cn_port cn_protocol] in *.
  unfold in_u in Hp. unfold Connection_parse, Connection_pretty. cbn [cn_protocol cn_host cn_port].
  assert (Hrest : rsplit_once x3a (h ++ str ":" ++ fmt_dec port) = Some (h, fmt_dec port))
    by (apply rsplit_once_last, fmt_dec_no_colon; lia).
  destruct proto.
  - change (to_ascii_lowercase (Protocol_label Tcp) ++ str "://" ++ ?r) with (str "tcp://" ++ r).
    rewrite strip_prefix_app, Hrest. by rewrite parse_fmt_u16 by lia.
  - change (to_ascii_lowercase (Protocol_label Udp) ++ str "://" ++ ?r) with (str "udp://" ++ r).
    change (strip_prefix (str "udp://" ++ ?r) (str "tcp://")) with (@None text).
    rewrite strip_prefix_app, Hrest. by rewrite parse_fmt_u16 by lia.
  - change (strip_prefix (str "serial://" ++ ?r) (str "tcp://")) with (@None text).
    change (strip_prefix (str "serial://" ++ ?r) (str "udp://")) with (@None text).
    rewrite strip_prefix_app. by rewrite Hs.
Qed.

(** The channel tree is a partition of the channels: group names ascend,
    each group holds exactly the channels whose path starts with its name,
    sorted by path, and no group is empty and no channel left out. *)
Theorem group_by_struct_partition cs :
  let g := group_by_struct cs in
  StronglySorted text_lt (map fst g) /\
  Forall (fun '(k, v) => v <> [] /\
            v ≡ₚ filter (fun c => channel_group (ci_path c) = k) cs /\
            StronglySorted (fun a b => text_leb (ci_path a) (ci_path b) = true) v) g /\
  Forall (fun c => channel_group (ci_path c) ∈ map fst g) cs.
Proof.
  cbv zeta. unfold group_by_struct.
  destruct (foldl_groups (fun c => channel_group (ci_path c)) cs) as [Hs Hg Ha].
  set (g := foldl _ _ cs) in *. set (sortv := fun '(k, v) => (k, sort_by _ v)).
  assert (Hfst : map fst (map sortv g) = map fst g).
  { rewrite map_map. apply map_ext. by intros []. }
  rewrite Hfst. split_and!; [done| |done]. apply Forall_map. eapply Forall_impl; [exact Hg|].
  intros [k v] [Hv Hne]. cbn in *. set (leb := fun a b : ChannelInfo => text_leb (ci_path a) (ci_path b)).
  pose proof (sort_by_perm leb v) as Hperm. split_and!.
  - intros E. rewrite E in Hperm. apply Permutation_nil_l in Hperm. by subst.
  - by rewrite Hperm, Hv.
  - apply (sort_by_sorted leb); unfold leb; intros.
    + apply text_leb_total.
    + by eapply text_leb_trans.
Qed.

Lemma parse_pretty_witness :
  Connection_parse (str "udp://::1:4040") = Ok (mkConnection (str "::1") 4040 Udp).
Proof.
  apply (parse_pretty (mkConnection (str "::1") 4040 Udp)).
  - apply in_ub_spec. reflexivity.
  - discriminate.
Defined.

(** The lane order is a stable sort of the lanes by group, ungrouped last. *)
Lemma group_leb_total a b : group_leb a b = true \/ group_leb b a = true.
Proof. unfold group_leb. destruct (is_nil a), (is_nil b); auto using text_leb_total. Qed.

Lemma group_leb_trans a b c : group_leb a b = true -> group_leb b c = true -> group_leb a c = true.
Proof.
  unfold group_leb. destruct (is_nil a), (is_nil b), (is_nil c); try done; apply text_leb_trans.
Qed.

Lemma group_order_stable groups :
  let lanes := imap (fun i g => (i, default [] g)) groups in
  group_order groups ≡ₚ lanes /\
  StronglySorted (fun a b => group_leb a.2 b.2 = true) (group_order groups) /\
  forall k, filter (fun x => x.2 = k) (group_order groups) = filter (fun x => x.2 = k) lanes.
Proof.
  cbv zeta. split_and!; [apply sort_by_perm| |].
  - apply (sort_by_sorted (fun a b => group_leb a.2 b.2)); intros.
    + apply group_leb_total.
    + by eapply group_leb_trans.
  - intros k. apply sort_by_stable. intros a b Ha Hb. rewrite Ha, Hb.
    destruct (group_leb_total k k); done.
Qed.
