(* ===== verification/ViewMarkers.v ===== *)
(** * btelem-viewer: markers and links

    Models viewer/crates/btelem-viewer/src/view_state.rs lines 894-902 and
    992-1208.  Markers on the time axis are linked into a graph; links refer to
    markers by id.  [MarkerSet] is a state machine: [run_marker] is one user
    action, [reachable] the histories in which callers respect the documented
    preconditions. *)

From S2P Require Import Prelude Text Float64 Store.

Abbreviation color := (Z * Z * Z)%type.
Abbreviation marker_id := Z.

Definition MARKER_PALETTE : list color :=
  [(220, 80, 80); (80, 200, 120); (80, 130, 220); (220, 180, 60); (180, 100, 200); (60, 200, 200)].

Record Marker := mkMarker { mk_id : marker_id; mk_t_ns : Z; mk_label : text; mk_color : color }.

Record Link := mkLink {
  lk_id : Z;
  lk_a : marker_id;
  lk_b : marker_id;
  lk_y_frac : f32;
  lk_signals : list ChannelId;
}.

Record MarkerSet := mkMarkerSet {
  ms_markers : list Marker;
  ms_links : list Link;
  ms_selected : option marker_id;
  ms_next_id : Z;
  ms_next_link_id : Z;
}.

Definition MarkerSet_new : MarkerSet := mkMarkerSet [] [] None 1 1.

Definition y_half : f32 := f32_of_bits 0x3f000000.

Section markers.
Context (p : profile).

Definition alloc_id (ms : MarkerSet) : total (MarkerSet * marker_id) :=
  next ← arith p 64 (ms_next_id ms + 1);
  mret (mkMarkerSet (ms_markers ms) (ms_links ms) (ms_selected ms) next (ms_next_link_id ms), ms_next_id ms).

Definition alloc_link_id (ms : MarkerSet) : total (MarkerSet * Z) :=
  next ← arith p 64 (ms_next_link_id ms + 1);
  mret (mkMarkerSet (ms_markers ms) (ms_links ms) (ms_selected ms) (ms_next_id ms) next, ms_next_link_id ms).

Definition push_marker (ms : MarkerSet) (m : Marker) : MarkerSet :=
  mkMarkerSet (ms_markers ms ++ [m]) (ms_links ms) (ms_selected ms) (ms_next_id ms) (ms_next_link_id ms).
Definition push_link (ms : MarkerSet) (l : Link) : MarkerSet :=
  mkMarkerSet (ms_markers ms) (ms_links ms ++ [l]) (ms_selected ms) (ms_next_id ms) (ms_next_link_id ms).

(** The two loops of [restore]. *)
Fixpoint restore_markers (l : list (Z * text * color)) (ms : MarkerSet) (id_map : list marker_id)
  : total (MarkerSet * list marker_id) :=
  match l with
  | [] => mret (ms, id_map)
  | (t, label, c) :: l =>
    r ← alloc_id ms;
    restore_markers l (push_marker r.1 (mkMarker r.2 t label c)) (id_map ++ [r.2])
  end.

Fixpoint restore_links (l : list (nat * nat * f32 * list ChannelId)) (id_map : list marker_id) (ms : MarkerSet)
  : total MarkerSet :=
  match l with
  | [] => mret ms
  | (a_idx, b_idx, y, sigs) :: l =>
    match id_map !! a_idx, id_map !! b_idx with
    | Some a, Some b =>
      r ← alloc_link_id ms;
      restore_links l id_map (push_link r.1 (mkLink r.2 a b y sigs))
    | _, _ => restore_links l id_map ms
    end
  end.

Definition restore (ms : MarkerSet) (markers : list (Z * text * color))
    (links : list (nat * nat * f32 * list ChannelId)) : total MarkerSet :=
  r ← restore_markers markers (mkMarkerSet [] [] None 1 1) [];
  restore_links links r.2 r.1.

Definition marker_add (ms : MarkerSet) (t_ns : Z) (c : color) : total (MarkerSet * marker_id) :=
  r ← alloc_id ms;
  mret (push_marker r.1 (mkMarker r.2 t_ns (str "M" ++ fmt_dec r.2) c), r.2).

Definition get (ms : MarkerSet) (id : marker_id) : option Marker :=
  snd <$> list_find (fun m => mk_id m = id) (ms_markers ms).

(** [debug_assert!(a != b)]. *)
Definition link (ms : MarkerSet) (a b : marker_id) (sigs : list ChannelId) : total (MarkerSet * Z) :=
  match p, a =? b with
  | Debug, true => Panic
  | _, _ =>
    r ← alloc_link_id ms;
    mret (push_link r.1 (mkLink r.2 a b y_half sigs), r.2)
  end.

Definition add_linked_to (ms : MarkerSet) (anchor : marker_id) (t_ns : Z) (c : color) (sigs : list ChannelId)
  : total (MarkerSet * option (marker_id * Z)) :=
  match get ms anchor with
  | None => mret (ms, None)
  | Some _ =>
    r ← marker_add ms t_ns c;
    l ← link r.1 anchor r.2 sigs;
    mret (l.1, Some (r.2, l.2))
  end.

Definition marker_remove (ms : MarkerSet) (id : marker_id) : MarkerSet :=
  mkMarkerSet (filter (fun m => mk_id m <> id) (ms_markers ms))
    (filter (fun l => lk_a l <> id /\ lk_b l <> id) (ms_links ms))
    (if bool_decide (ms_selected ms = Some id) then None else ms_selected ms)
    (ms_next_id ms) (ms_next_link_id ms).

Definition select (ms : MarkerSet) (id : option marker_id) : MarkerSet :=
  mkMarkerSet (ms_markers ms) (ms_links ms)
    (match id with
     | Some i => if existsb (fun m => mk_id m =? i) (ms_markers ms) then Some i else None
     | None => None
     end) (ms_next_id ms) (ms_next_link_id ms).

Definition unlink (ms : MarkerSet) (link_id : Z) : MarkerSet :=
  mkMarkerSet (ms_markers ms) (filter (fun l => lk_id l <> link_id) (ms_links ms)) (ms_selected ms)
    (ms_next_id ms) (ms_next_link_id ms).

Definition get_link (ms : MarkerSet) (link_id : Z) : option Link :=
  snd <$> list_find (fun l => lk_id l = link_id) (ms_links ms).

(** Apply an edit to the first element that matches ([iter_mut().find]). *)
Fixpoint update_first {A} (q : A -> bool) (f : A -> A) (l : list A) : list A :=
  match l with [] => [] | x :: l => if q x then f x :: l else x :: update_first q f l end.

Definition get_mut (ms : MarkerSet) (id : marker_id) (f : Marker -> Marker) : MarkerSet :=
  mkMarkerSet (update_first (fun m => mk_id m =? id) f (ms_markers ms)) (ms_links ms) (ms_selected ms)
    (ms_next_id ms) (ms_next_link_id ms).
Definition get_link_mut (ms : MarkerSet) (link_id : Z) (f : Link -> Link) : MarkerSet :=
  mkMarkerSet (ms_markers ms) (update_first (fun l => lk_id l =? link_id) f (ms_links ms)) (ms_selected ms)
    (ms_next_id ms) (ms_next_link_id ms).

Definition links_for (ms : MarkerSet) (id : marker_id) : list Link :=
  filter (fun l => lk_a l = id \/ lk_b l = id) (ms_links ms).

Definition link_pairs (ms : MarkerSet) : list (Marker * Marker * Link) :=
  omap (fun l => a ← get ms (lk_a l); b ← get ms (lk_b l); Some (a, b, l)) (ms_links ms).

Definition time_ordered_pairs (ms : MarkerSet) : list (Marker * Marker * Link) :=
  map (fun '(a, b, l) => if mk_t_ns a <=? mk_t_ns b then (a, b, l) else (b, a, l)) (link_pairs ms).

(** ** Histories *)
Inductive marker_op :=
| MAdd (t_ns : Z) (c : color)
| MAddLinked (anchor : marker_id) (t_ns : Z) (c : color) (sigs : list ChannelId)
| MRemove (id : marker_id)
| MSelect (id : option marker_id)
| MLink (a b : marker_id) (sigs : list ChannelId)
| MUnlink (link_id : Z)
| MRestore (markers : list (Z * text * color)) (links : list (nat * nat * f32 * list ChannelId))
| MEdit (id : marker_id) (f : Marker -> Marker)
| MEditLink (link_id : Z) (f : Link -> Link).

Definition run_marker (ms : MarkerSet) (o : marker_op) : total MarkerSet :=
  match o with
  | MAdd t c => r ← marker_add ms t c; mret r.1
  | MAddLinked a t c sigs => r ← add_linked_to ms a t c sigs; mret r.1
  | MRemove id => mret (marker_remove ms id)
  | MSelect id => mret (select ms id)
  | MLink a b sigs => r ← link ms a b sigs; mret r.1
  | MUnlink l => mret (unlink ms l)
  | MRestore m l => restore ms m l
  | MEdit id f => mret (get_mut ms id f)
  | MEditLink l f => mret (get_link_mut ms l f)
  end.

(** Room for one more marker and link id in the 64-bit counters. *)
Definition fresh_room (ms : MarkerSet) : Prop :=
  ms_next_id ms < u64_max /\ ms_next_link_id ms < u64_max.

(** Preconditions: "callers should validate first"; edits keep identities; the
    64-bit counters are not exhausted. *)
Definition marker_pre (ms : MarkerSet) (o : marker_op) : Prop :=
  match o with
  | MAdd _ _ | MAddLinked _ _ _ _ => fresh_room ms
  | MLink a b _ => fresh_room ms /\ a <> b /\ is_Some (get ms a) /\ is_Some (get ms b)
  | MRestore m l => blen m + 1 < u64_max /\ blen l + 1 < u64_max
  | MEdit _ f => forall m, mk_id (f m) = mk_id m
  | MEditLink _ f => forall l, lk_id (f l) = lk_id l /\ lk_a (f l) = lk_a l /\ lk_b (f l) = lk_b l
  | _ => True
  end.

Inductive reachable : MarkerSet -> Prop :=
| reach_new : reachable MarkerSet_new
| reach_op ms o ms' : reachable ms -> marker_pre ms o -> run_marker ms o = Ok ms' -> reachable ms'.
End markers.

(** ** Invariant *)
Definition ids (ms : MarkerSet) : list marker_id := map mk_id (ms_markers ms).
Definition link_ids (ms : MarkerSet) : list Z := map lk_id (ms_links ms).

Record ms_ok (ms : MarkerSet) : Prop := {
  ok_ids : NoDup (ids ms);
  ok_ids_range : Forall (fun i => 1 <= i < ms_next_id ms) (ids ms);
  ok_link_ids : NoDup (link_ids ms);
  ok_link_range : Forall (fun i => 1 <= i < ms_next_link_id ms) (link_ids ms);
  ok_ends : Forall (fun l => lk_a l ∈ ids ms /\ lk_b l ∈ ids ms) (ms_links ms);
  ok_selected : forall i, ms_selected ms = Some i -> i ∈ ids ms;
  ok_next : 1 <= ms_next_id ms < 2 ^ 64 /\ 1 <= ms_next_link_id ms < 2 ^ 64;
}.

Lemma NoDup_snoc_range (l : list Z) n :
  NoDup l -> Forall (fun i => 1 <= i < n) l -> 1 <= n ->
  NoDup (l ++ [n]) /\ Forall (fun i => 1 <= i < n + 1) (l ++ [n]).
Proof.
  intros Hn Hr H1. split.
  - apply NoDup_app. split_and!; [done| |apply NoDup_singleton]. intros x Hx ->%list_elem_of_singleton.
    apply (proj1 (Forall_forall _ _) Hr) in Hx. lia.
  - apply Forall_app. split; [eapply Forall_impl; [exact Hr|]; simpl; lia|]. constructor; [lia|constructor].
Qed.

Lemma get_elem ms id : is_Some (get ms id) <-> id ∈ ids ms.
Proof.
  unfold get, ids. split.
  - intros [m Hm]. apply fmap_Some in Hm as ([i m'] & Hf & ->). apply list_find_Some in Hf as (Hi & <- & _).
    apply list_elem_of_fmap_2. by eapply list_elem_of_lookup_2.
  - intros (m & -> & Hm)%list_elem_of_fmap_1. destruct (list_find _ _) as [[i m']|] eqn:E; [by eexists|].
    apply list_find_None in E. exfalso. by apply (proj1 (Forall_forall _ _) E m Hm).
Qed.

(** The state after a marker with the next id is appended. *)
Definition with_marker (ms : MarkerSet) (t : Z) (label : text) (c : color) : MarkerSet :=
  mkMarkerSet (ms_markers ms ++ [mkMarker (ms_next_id ms) t label c]) (ms_links ms) (ms_selected ms)
    (ms_next_id ms + 1) (ms_next_link_id ms).
Definition with_link (ms : MarkerSet) (a b : marker_id) (y : f32) (sigs : list ChannelId) : MarkerSet :=
  mkMarkerSet (ms_markers ms) (ms_links ms ++ [mkLink (ms_next_link_id ms) a b y sigs]) (ms_selected ms)
    (ms_next_id ms) (ms_next_link_id ms + 1).

Lemma with_marker_ok ms t label c :
  ms_ok ms -> ms_next_id ms < u64_max -> ms_ok (with_marker ms t label c).
Proof.
  intros [H1 H2 H3 H4 H5 H6 H7] Hn. unfold u64_max in Hn.
  destruct (NoDup_snoc_range (ids ms) (ms_next_id ms)) as [A B]; [done|done|lia|].
  assert (Hids : ids (with_marker ms t label c) = ids ms ++ [ms_next_id ms])
    by (unfold ids, with_marker; cbn; by rewrite map_app).
  split; rewrite ?Hids; cbn; try done; try lia.
  - eapply Forall_impl; [exact H5|]. intros l [? ?]. rewrite !elem_of_app. auto.
  - intros i Hi. rewrite elem_of_app. auto.
Qed.

Lemma with_link_ok ms a b y sigs :
  ms_ok ms -> ms_next_link_id ms < u64_max -> a ∈ ids ms -> b ∈ ids ms -> ms_ok (with_link ms a b y sigs).
Proof.
  intros [H1 H2 H3 H4 H5 H6 H7] Hn Ha Hb. unfold u64_max in Hn.
  destruct (NoDup_snoc_range (link_ids ms) (ms_next_link_id ms)) as [A B]; [done|done|lia|].
  assert (Hids : link_ids (with_link ms a b y sigs) = link_ids ms ++ [ms_next_link_id ms])
    by (unfold link_ids, with_link; cbn; by rewrite map_app).
  split; rewrite ?Hids; cbn; try done; try lia.
  apply Forall_app. split; [done|]. by constructor.
Qed.

Lemma alloc_id_eq p ms : 1 <= ms_next_id ms < u64_max ->
  alloc_id p ms = Ok (mkMarkerSet (ms_markers ms) (ms_links ms) (ms_selected ms)
    (ms_next_id ms + 1) (ms_next_link_id ms), ms_next_id ms).
Proof. intros H. unfold alloc_id, u64_max in *. by rewrite arith_ok by (unfold in_u; lia). Qed.

Lemma alloc_link_id_eq p ms : 1 <= ms_next_link_id ms < u64_max ->
  alloc_link_id p ms = Ok (mkMarkerSet (ms_markers ms) (ms_links ms) (ms_selected ms)
    (ms_next_id ms) (ms_next_link_id ms + 1), ms_next_link_id ms).
Proof. intros H. unfold alloc_link_id, u64_max in *. by rewrite arith_ok by (unfold in_u; lia). Qed.

Lemma marker_add_eq p ms t c : ms_ok ms -> ms_next_id ms < u64_max ->
  marker_add p ms t c = Ok (with_marker ms t (str "M" ++ fmt_dec (ms_next_id ms)) c, ms_next_id ms).
Proof. intros Hok Hn. unfold marker_add. rewrite alloc_id_eq; [done|]. destruct Hok. lia. Qed.

Lemma link_eq p ms a b sigs : ms_ok ms -> ms_next_link_id ms < u64_max -> a <> b ->
  link p ms a b sigs = Ok (with_link ms a b y_half sigs, ms_next_link_id ms).
Proof.
  intros Hok Hn Hab. unfold link. replace (a =? b) with false by lia.
  rewrite alloc_link_id_eq by (destruct Hok; lia). by destruct p.
Qed.

Lemma add_linked_ok p ms anchor t c sigs : ms_ok ms -> fresh_room ms ->
  exists ms' r, add_linked_to p ms anchor t c sigs = Ok (ms', r) /\ ms_ok ms'.
Proof.
  intros Hok [Hn Hl]. unfold add_linked_to. destruct (get ms anchor) as [m|] eqn:E; [|by do 2 eexists].
  assert (Ha : anchor ∈ ids ms) by (apply get_elem; by eexists).
  rewrite marker_add_eq by done. cbn [mbind res_bind fst snd]. set (ms1 := with_marker _ _ _ _).
  assert (Hok1 : ms_ok ms1) by (by apply with_marker_ok).
  assert (Hids : ids ms1 = ids ms ++ [ms_next_id ms]) by (unfold ids, ms1; cbn; by rewrite map_app).
  pose proof (proj1 (Forall_forall _ _) (ok_ids_range _ Hok) _ Ha) as Hr. cbn beta in Hr.
  rewrite (link_eq p ms1); [|done|exact Hl|lia]. cbn [mbind res_bind fst snd]. do 2 eexists. split; [done|].
  apply with_link_ok; [done|done| |]; rewrite Hids, elem_of_app, list_elem_of_singleton; auto.
Qed.

Lemma filter_ids (ms : list Marker) id :
  map mk_id (filter (fun m => mk_id m <> id) ms) = filter (fun i => i <> id) (map mk_id ms).
Proof.
  induction ms as [|m ms IH]; [done|]. cbn [map]. rewrite !filter_cons, <-IH. by repeat case_decide.
Qed.

Lemma sublist_map {A B} (f : A -> B) k l : k `sublist_of` l -> map f k `sublist_of` map f l.
Proof. induction 1; cbn; by constructor. Qed.

(** Dropping links keeps the invariant. *)
Lemma fewer_links_ok ms links :
  ms_ok ms -> links `sublist_of` ms_links ms ->
  ms_ok (mkMarkerSet (ms_markers ms) links (ms_selected ms) (ms_next_id ms) (ms_next_link_id ms)).
Proof.
  intros [H1 H2 H3 H4 H5 H6 H7] Hsub. pose proof (sublist_map lk_id _ _ Hsub).
  split; cbn; try done.
  - by eapply sublist_NoDup.
  - by eapply sublist_Forall.
  - by eapply sublist_Forall.
Qed.

Lemma marker_remove_ok ms id : ms_ok ms -> ms_ok (marker_remove ms id).
Proof.
  intros Hok. pose proof (fewer_links_ok ms (filter (fun l => lk_a l <> id /\ lk_b l <> id) (ms_links ms)) Hok
    (sublist_filter _ _)) as [H1 H2 H3 H4 H5 H6 H7]. unfold ids in *. cbn [ms_markers ms_links] in *.
  assert (Hids : ids (marker_remove ms id) = filter (fun i => i <> id) (map mk_id (ms_markers ms)))
    by apply filter_ids.
  split; rewrite ?Hids; cbn [marker_remove ms_links ms_selected ms_next_id ms_next_link_id]; try done.
  - by apply NoDup_filter.
  - eapply sublist_Forall; [apply sublist_filter|done].
  - apply Forall_forall. intros l Hl. pose proof (proj1 (Forall_forall _ _) H5 l Hl) as [? ?].
    apply list_elem_of_filter in Hl as [[? ?] _]. by rewrite !list_elem_of_filter.
  - intros i. case_bool_decide as E; [done|]. intros Hi. rewrite list_elem_of_filter.
    split; [congruence|]. by apply H6.
Qed.

Lemma update_first_map {A B} (g : A -> B) q f (l : list A) :
  (forall x, g (f x) = g x) -> map g (update_first q f l) = map g l.
Proof.
  intros Hg. induction l as [|x l IH]; [done|]. cbn. destruct (q x); cbn; [by rewrite Hg|by rewrite IH].
Qed.

Lemma restore_markers_ok p l ms idm :
  ms_ok ms -> ids ms = idm -> ms_next_id ms + blen l < u64_max ->
  exists ms', restore_markers p l ms idm = Ok (ms', ids ms') /\ ms_ok ms' /\
    ms_next_link_id ms' = ms_next_link_id ms.
Proof.
  revert ms idm. induction l as [|[[t label] c] l IH]; intros ms idm Hok <- Hn; cbn [restore_markers].
  - by exists ms.
  - rewrite blen_cons in Hn. pose proof (blen_nonneg l). pose proof (ok_next _ Hok).
    rewrite alloc_id_eq by lia. cbn [mbind res_bind fst snd].
    change (push_marker _ _) with (with_marker ms t label c).
    destruct (IH (with_marker ms t label c) (ids ms ++ [ms_next_id ms])) as (ms' & H1 & H2 & H3).
    + apply with_marker_ok; [done|lia].
    + unfold ids. cbn. by rewrite map_app.
    + cbn. lia.
    + by exists ms'.
Qed.

Lemma restore_links_ok p l ms idm :
  ms_ok ms -> Forall (fun i => i ∈ ids ms) idm -> ms_next_link_id ms + blen l < u64_max ->
  exists ms', restore_links p l idm ms = Ok ms' /\ ms_ok ms'.
Proof.
  revert ms. induction l as [|[[[a b] y] sigs] l IH]; intros ms Hok Hm Hn; cbn [restore_links].
  - by exists ms.
  - rewrite blen_cons in Hn. pose proof (blen_nonneg l). pose proof (ok_next _ Hok).
    destruct (idm !! a) as [ia|] eqn:Ea; [|apply IH; [done|done|lia]].
    destruct (idm !! b) as [ib|] eqn:Eb; [|apply IH; [done|done|lia]].
    rewrite alloc_link_id_eq by lia. cbn [mbind res_bind fst snd].
    change (push_link _ _) with (with_link ms ia ib y sigs). apply IH; [|done|cbn; lia].
    apply with_link_ok; [done|lia| |].
    + by apply (Forall_lookup_1 _ _ _ _ Hm Ea).
    + by apply (Forall_lookup_1 _ _ _ _ Hm Eb).
Qed.

(** The counters after a restore. *)
Lemma restore_markers_next p l ms idm r :
  1 <= ms_next_id ms -> ms_next_id ms + blen l < u64_max -> restore_markers p l ms idm = Ok r ->
  ms_next_id r.1 = ms_next_id ms + blen l /\ ms_next_link_id r.1 = ms_next_link_id ms.
Proof.
  revert ms idm. induction l as [|[[t label] c] l IH]; intros ms idm H1 Hn E; cbn [restore_markers] in E.
  - injection E as <-. unfold blen. cbn. lia.
  - rewrite blen_cons in *. pose proof (blen_nonneg l). rewrite alloc_id_eq in E by lia. cbn [mbind res_bind fst snd] in E.
    apply IH in E; cbn in *; lia.
Qed.

Lemma restore_links_next p l idm ms ms' :
  1 <= ms_next_link_id ms -> ms_next_link_id ms + blen l < u64_max -> restore_links p l idm ms = Ok ms' ->
  ms_next_id ms' = ms_next_id ms /\ ms_next_link_id ms' <= ms_next_link_id ms + blen l.
Proof.
  revert ms. induction l as [|[[[a b] y] sigs] l IH]; intros ms H1 Hn E; cbn [restore_links] in E.
  - injection E as <-. unfold blen. cbn. lia.
  - rewrite blen_cons in *. pose proof (blen_nonneg l).
    destruct (idm !! a); [destruct (idm !! b)|]; try (apply IH in E; lia).
    rewrite alloc_link_id_eq in E by lia. cbn [mbind res_bind fst snd] in E. apply IH in E; cbn in *; lia.
Qed.

(** What a marker shows, and what its links show: the ids are internal. *)
Definition marker_data (m : Marker) : Z * text * color := (mk_t_ns m, mk_label m, mk_color m).
Definition link_quad (l : Link) : marker_id * marker_id * f32 * list ChannelId :=
  (lk_a l, lk_b l, lk_y_frac l, lk_signals l).
Definition quad_data (ms : MarkerSet) (q : marker_id * marker_id * f32 * list ChannelId)
  : option (Z * text * color * (Z * text * color) * f32 * list ChannelId) :=
  let '(a, b, y, sigs) := q in
  ma ← get ms a; mb ← get ms b; Some (marker_data ma, marker_data mb, y, sigs).
Definition link_data (ms : MarkerSet) : list (Z * text * color * (Z * text * color) * f32 * list ChannelId) :=
  omap (quad_data ms) (map link_quad (ms_links ms)).

Lemma link_data_pairs ms :
  link_data ms = map (fun '(a, b, l) => (marker_data a, marker_data b, lk_y_frac l, lk_signals l)) (link_pairs ms).
Proof.
  unfold link_data, link_pairs. induction (ms_links ms) as [|l links IH]; [done|]. cbn.
  destruct (get ms (lk_a l)); cbn; [|done]. destruct (get ms (lk_b l)); cbn; [|done]. by rewrite IH.
Qed.

Lemma restore_markers_content p l ms idm ms' idm' :
  restore_markers p l ms idm = Ok (ms', idm') ->
  map marker_data (ms_markers ms') = map marker_data (ms_markers ms) ++ l /\
  ms_links ms' = ms_links ms /\ ms_selected ms' = ms_selected ms.
Proof.
  revert ms idm. induction l as [|[[t label] c] l IH]; intros ms idm; cbn [restore_markers].
  - intros [= <- <-]. by rewrite app_nil_r.
  - unfold alloc_id. destruct (arith p 64 _) as [n| |]; [|done|done]. cbn [mbind res_bind mret res_ret fst snd].
    intros (H1 & H2 & H3)%IH. cbn in H1, H2, H3. rewrite H1, map_app, <-app_assoc. done.
Qed.

Lemma restore_links_content p l idm ms ms' :
  restore_links p l idm ms = Ok ms' ->
  ms_markers ms' = ms_markers ms /\ ms_selected ms' = ms_selected ms /\
  map link_quad (ms_links ms') = map link_quad (ms_links ms) ++
    omap (fun '(a, b, y, sigs) => ia ← idm !! a; ib ← idm !! b; Some (ia, ib, y, sigs)) l.
Proof.
  revert ms. induction l as [|[[[a b] y] sigs] l IH]; intros ms; cbn [restore_links].
  - intros [= <-]. by rewrite app_nil_r.
  - cbn [omap list_omap]. destruct (idm !! a) as [ia|]; cbn; [|apply IH]. destruct (idm !! b) as [ib|]; cbn; [|apply IH].
    unfold alloc_link_id. destruct (arith p 64 _) as [n| |]; [|done|done]. cbn [mbind res_bind mret res_ret fst snd].
    intros (H1 & H2 & H3)%IH. cbn in H1, H2, H3. rewrite H1, H2, H3, map_app, <-app_assoc. done.
Qed.

Lemma get_lookup ms i m : ms_ok ms -> ms_markers ms !! i = Some m -> get ms (mk_id m) = Some m.
Proof.
  intros Hok Hi. unfold get. assert (Hf : list_find (fun x => mk_id x = mk_id m) (ms_markers ms) = Some (i, m)).
  { apply list_find_Some. split_and!; [done|done|]. intros j y Hj Hlt Hy.
    assert (j = i); [|lia]. apply (NoDup_lookup (ids ms) j i (mk_id m)); [apply Hok| |].
    - unfold ids. by rewrite list_lookup_fmap, Hj, <-Hy.
    - unfold ids. by rewrite list_lookup_fmap, Hi. }
  by rewrite Hf.
Qed.

Lemma new_ok : ms_ok MarkerSet_new.
Proof. split; cbn; try constructor; try done; lia. Qed.

(** Every admissible action returns and keeps the invariant. *)
Lemma run_marker_ok p ms o : ms_ok ms -> marker_pre ms o ->
  exists ms', run_marker p ms o = Ok ms' /\ ms_ok ms'.
Proof.
  intros Hok Hpre. destruct o as [t c|a t c sigs|id|id|a b sigs|l|m l|id f|l f]; cbn [run_marker marker_pre] in *.
  - rewrite marker_add_eq by (done || apply Hpre). eexists. split; [done|]. by apply with_marker_ok; [|apply Hpre].
  - destruct (add_linked_ok p ms a t c sigs Hok Hpre) as (ms' & r & -> & H). by exists ms'.
  - eexists. split; [done|]. by apply marker_remove_ok.
  - eexists. split; [done|]. destruct Hok. split; cbn; try done. intros i Hi.
    destruct id as [j|]; [|done]. destruct (existsb _ _) eqn:E; [|done]. simplify_eq.
    apply existsb_exists in E as (m & Hm & Hj). apply list_elem_of_fmap. exists m.
    split; [lia|by apply list_elem_of_In].
  - destruct Hpre as ([_ Hl] & Hab & Ha & Hb). rewrite link_eq by done. eexists. split; [done|].
    by apply with_link_ok; [done|done|apply get_elem..].
  - eexists. split; [done|]. apply fewer_links_ok; [done|apply sublist_filter].
  - destruct Hpre as [H1 H2]. unfold restore.
    destruct (restore_markers_ok p m MarkerSet_new []) as (ms1 & E & Hok1 & Hl1); [apply new_ok|done|cbn; lia|].
    change (mkMarkerSet [] [] None 1 1) with MarkerSet_new. rewrite E. cbn [mbind res_bind fst snd].
    apply restore_links_ok; [done|by apply Forall_forall|rewrite Hl1; cbn; lia].
  - eexists. split; [done|]. destruct Hok.
    assert (Hids : ids (get_mut ms id f) = ids ms) by (by apply update_first_map).
    split; rewrite ?Hids; done.
  - eexists. split; [done|]. destruct Hok.
    assert (Hids : link_ids (get_link_mut ms l f) = link_ids ms) by (apply update_first_map; intros; apply Hpre).
    split; rewrite ?Hids; try done. cbn [get_link_mut ms_links]. change (ids (get_link_mut ms l f)) with (ids ms).
    assert (Hends : map (fun l => (lk_a l, lk_b l)) (update_first (fun l0 => lk_id l0 =? l) f (ms_links ms)) =
      map (fun l => (lk_a l, lk_b l)) (ms_links ms)).
    { apply update_first_map. intros x. destruct (Hpre x) as (_ & -> & ->). done. }
    apply (Forall_map (fun l => (lk_a l, lk_b l)) (fun ab => ab.1 ∈ ids ms /\ ab.2 ∈ ids ms)).
    rewrite Hends. by apply Forall_map.
Qed.

Lemma reachable_ok p ms : reachable p ms -> ms_ok ms.
Proof.
  induction 1 as [|ms o ms' Hr IH Hpre Hrun]; [apply new_ok|].
  destruct (run_marker_ok p ms o IH Hpre) as (ms1 & E & H). congruence.
Qed.

(** ** Properties *)

(** C31: The marker graph stays consistent through every sequence of user
    actions (add, add linked, remove, select, link, unlink, edit, restore) that
    respects the documented preconditions, in both build profiles: each action
    returns, marker and link ids stay unique, every link joins two existing
    markers, so every link is drawn ([link_pairs] resolves all of them), and the
    selection never dangles. *)
Theorem markers_consistent p ms :
  reachable p ms ->
  ms_ok ms /\ map snd (link_pairs ms) = ms_links ms /\
  forall o, marker_pre ms o -> exists ms', run_marker p ms o = Ok ms' /\ reachable p ms'.
Proof.
  intros Hr. pose proof (reachable_ok _ _ Hr) as Hok.
  split; [done|]. split.
  - unfold link_pairs. pose proof (ok_ends _ Hok) as He. induction He as [|l links [Ha Hb] He IH]; [done|].
    apply get_elem in Ha as [a Ha], Hb as [b Hb]. cbn. rewrite Ha. cbn. rewrite Hb. cbn. by rewrite IH.
  - intros o Hpre. destruct (run_marker_ok p ms o Hok Hpre) as (ms' & E & _). exists ms'. split; [done|].
    by eapply reach_op.
Qed.

(** Two linked markers; removing the first removes the link. *)
Definition demo_markers : MarkerSet :=
  mkMarkerSet [mkMarker 1 5 (str "M1") (1, 2, 3); mkMarker 2 9 (str "M2") (1, 2, 3)]
    [mkLink 1 1 2 y_half []] None 3 2.

Lemma demo_markers_reachable : reachable Debug demo_markers.
Proof.
  eapply (reach_op Debug _ (MAddLinked 1 9 (1, 2, 3) []));
    [eapply (reach_op Debug _ (MAdd 5 (1, 2, 3))); [apply reach_new| |vm_compute; reflexivity]| |].
  - split; vm_compute; reflexivity.
  - split; vm_compute; reflexivity.
  - vm_compute. reflexivity.
Qed.

Lemma demo_markers_ok : ms_ok demo_markers.
Proof. exact (reachable_ok _ _ demo_markers_reachable). Qed.

Lemma markers_consistent_witness : map snd (link_pairs demo_markers) = [mkLink 1 1 2 y_half []].
Proof. apply (markers_consistent Debug demo_markers demo_markers_reachable). Defined.
