(* ===== verification/Layout.v ===== *)
(** * btelem-viewer: saved layouts

    Models viewer/crates/btelem-viewer/src/layout.rs (1-904) and the
    layout-loading actions of app.rs.  A layout names channels by path, so that
    it can be restored in a session that numbers them differently: [capture]
    turns the live plots, dock tree and markers into a [Layout], [apply] and
    [restore] turn one back.

    The dock tree is [egui_dock]'s, a third-party type: [DockLib] lists the
    operations the code calls and [DockLaws] what their documentation says of
    the tabs; [serde_json] is the pair of functions the file operations take.
    The layouts directory is a map from file names to contents; failures of the
    operating system other than a missing file are not modelled. *)

From S2P Require Import Prelude Slices Text Float64 Store ViewPanels ViewGroups ViewMarkers.

Definition SCHEMA_VERSION : Z := 6.
Definition MIN_VERSION : Z := 1.
Definition version_supported (v : Z) : bool := (MIN_VERSION <=? v) && (v <=? SCHEMA_VERSION).
Definition usize_max : Z := 2 ^ 64 - 1.

(** ** The dock library *)
Class DockLib := {
  DockState : Type -> Type;
  Value : Type;
  Null : Value;
  dock_new : forall {A}, list A -> DockState A;
  iter_all_tabs : forall {A}, DockState A -> list A;
  map_tabs : forall {A B}, (A -> B) -> DockState A -> DockState B;
  filter_tabs : forall {A}, (A -> bool) -> DockState A -> DockState A;
  filter_map_tabs : forall {A B}, (A -> option B) -> DockState A -> DockState B;
  push_to_focused_leaf : forall {A}, DockState A -> A -> DockState A;
  (** [main_surface_mut().split_right(NodeIndex::root(), 0.5, tabs)] *)
  split_right : forall {A}, DockState A -> list A -> DockState A;
  (** the tab lists of the leaves among [iter_all_nodes_mut], and a store
      through one of these references *)
  leaves : forall {A}, DockState A -> list (list A);
  set_leaf : forall {A}, DockState A -> nat -> list A -> DockState A;
  to_value : DockState Z -> option Value;
  from_value : Value -> option (DockState Z);
}.

Class DockLaws (D : DockLib) := {
  new_tabs : forall A (l : list A), iter_all_tabs (dock_new l) = l;
  leaf_tabs : forall A (d : DockState A), iter_all_tabs d = concat (leaves d);
  map_tabs_tabs : forall A B (f : A -> B) d, iter_all_tabs (map_tabs f d) = map f (iter_all_tabs d);
  filter_tabs_tabs : forall A (f : A -> bool) d, iter_all_tabs (filter_tabs f d) = List.filter f (iter_all_tabs d);
  filter_map_tabs_tabs : forall A B (f : A -> option B) d, iter_all_tabs (filter_map_tabs f d) = omap f (iter_all_tabs d);
  push_tabs : forall A (d : DockState A) x, iter_all_tabs (push_to_focused_leaf d x) ≡ₚ x :: iter_all_tabs d;
  split_tabs : forall A (d : DockState A) l, iter_all_tabs (split_right d l) ≡ₚ iter_all_tabs d ++ l;
  set_leaf_leaves : forall A (d : DockState A) i tabs, leaves (set_leaf d i tabs) = <[i := tabs]> (leaves d);
  value_tabs : forall d, exists v, to_value d = Some v /\ iter_all_tabs <$> from_value v = Some (iter_all_tabs d);
}.

(** ** The file's data *)
Record MarkerSpec := mkMarkerSpec { mks_t_ns : Z; mks_label : text; mks_color : color; mks_chain : option Z }.
Record LinkSpec := mkLinkSpec { lks_a_index : nat; lks_b_index : nat; lks_y_frac : f32; lks_signal_paths : list text }.

Inductive TypedFilterSpec :=
| TfText (needle : text) (case_sensitive : bool)
| TfRange (min max : option f64)
| TfEnum (allowed : list Z).
Inductive FilterSpec := Legacy (s : text) | Typed (f : TypedFilterSpec).

Record LogicLaneSpec := mkLogicLaneSpec { ls_ch_path : text; ls_radix : LabelRadix; ls_mode : LaneMode }.

Inductive PlotSpec :=
| SpecTimeSeries (title : text) (scalars states : list text) (styles : gmap text SignalStyle)
| SpecScalar (title : text) (channels : list text) (styles : gmap text SignalStyle)
| SpecStateChart (title : text) (lanes : list text)
| SpecLogicAnalyser (title : text) (lanes : list LogicLaneSpec)
| SpecLogView (title group : text) (visible_columns : list text) (filters : gmap text FilterSpec)
    (color_by priority_by : option text) (max_rows : option nat)
| SpecXy (title x y : text) (trail_ns : option Z).

Record Layout `{DockLib} := mkLayout {
  ly_version : Z;
  ly_name : text;
  ly_dock : Value;
  ly_plots : list PlotSpec;
  ly_markers : list MarkerSpec;
  ly_links : list LinkSpec;
}.

(** [BTreeSet] iterates in ascending order. *)
Definition from_filter (f : ColumnFilter) : FilterSpec :=
  match f with
  | CfText needle case_sensitive => Typed (TfText needle case_sensitive)
  | CfRange min max => Typed (TfRange min max)
  | CfEnumSet allowed => Typed (TfEnum (sort_by Z.leb (elements allowed)))
  end.

Definition to_filter (f : FilterSpec) : ColumnFilter :=
  match f with
  | Legacy s => CfText s false
  | Typed (TfText needle case_sensitive) => CfText needle case_sensitive
  | Typed (TfRange min max) => CfRange min max
  | Typed (TfEnum allowed) => CfEnumSet (list_to_set allowed)
  end.

Definition signals_resolved (l : LinkSpec) (channels : list ChannelInfo) : list ChannelId :=
  omap (fun path => (fun ic => ci_id ic.2) <$> list_find (fun c => ci_path c = path) channels) (lks_signal_paths l).

Record ApplyReport := mkApplyReport { ar_missing_paths : list text; ar_dropped_plots : nat }.
Definition ApplyReport_default : ApplyReport := mkApplyReport [] 0.
Definition missing_count (r : ApplyReport) : nat := length (ar_missing_paths r).
Definition add_missing (r : ApplyReport) (path : text) : ApplyReport :=
  if bool_decide (path ∈ ar_missing_paths r) then r
  else mkApplyReport (ar_missing_paths r ++ [path]) (ar_dropped_plots r).

(** ** File names *)
Definition slug_byte (b : byte) : bool :=
  let z := byte_z b in is_digit z || is_upper z || is_lower z || (z =? 95) || (z =? 45).

(** [c.is_ascii_alphanumeric() || c == '_' || c == '-']; a character of more
    than one byte is not ASCII. *)
Definition slug_char (c : text) : bool := match c with [b] => slug_byte b | _ => false end.

Fixpoint slug_loop (cs : list text) (out : text) (last_dash : bool) : text :=
  match cs with
  | [] => out
  | c :: cs =>
    if slug_char c then slug_loop cs (out ++ to_ascii_lowercase c) false
    else if negb last_dash then slug_loop cs (out ++ str "-") true
    else slug_loop cs out last_dash
  end.

Fixpoint trim_start (b : byte) (s : text) : text :=
  match s with [] => [] | c :: s' => if bool_decide (c = b) then trim_start b s' else s end.
Definition trim_matches (b : byte) (s : text) : text := reverse (trim_start b (reverse (trim_start b s))).

Definition slug (name : text) : text :=
  let trimmed := trim_matches x2d (slug_loop (chars name) [] false) in
  if bool_decide (trimmed = []) then str "untitled" else trimmed.

Definition path_for (name : text) : text := slug name ++ str ".json".

(** [Path::extension] of a file name. *)
Definition extension (file : text) : option text :=
  match rsplit_once x2e file with
  | Some ([], _) => None
  | Some (_, ext) => Some ext
  | None => None
  end.

Section layouts.
Context `{HO : HashOrder} `{D : DockLib}.

(** ** Chains of version 4 *)
Definition chain_push (chains : gmap Z (list nat)) (im : nat * MarkerSpec) : gmap Z (list nat) :=
  match mks_chain im.2 with
  | Some cid => <[cid := default [] (chains !! cid) ++ [im.1]]> chains
  | None => chains
  end.

Definition windows2 (l : list nat) : list (nat * nat) := zip l (tail l).

Definition chain_links (indices : list nat) : list LinkSpec :=
  map (fun w => mkLinkSpec w.1 w.2 y_half []) (windows2 (sort_by Nat.leb indices)).

Definition chain_groups (markers : list MarkerSpec) : gmap Z (list nat) :=
  foldl chain_push ∅ (imap pair markers).

Definition migrate_chains_to_links (markers : list MarkerSpec) : list LinkSpec :=
  concat (map (fun '(_, indices) => chain_links indices) (hash_iter (chain_groups markers))).

(** ** Layout files *)
Inductive IoError := NotFound | InvalidData.
Abbreviation files := (gmap text text).

Section files.
Context (to_vec_pretty : Layout -> option text) (from_slice : text -> option Layout).

Definition list_step (fs : files) (names : list text) (file : text) : list text :=
  if bool_decide (extension file = Some (str "json")) then
    match fs !! file with
    | Some bytes =>
      match from_slice bytes with
      | Some layout => if version_supported (ly_version layout) then names ++ [ly_name layout] else names
      | None => names
      end
    | None => names
    end
  else names.

Definition list_layouts (fs : files) : list text :=
  sort_by text_leb (foldl (list_step fs) [] (map fst (hash_iter fs))).

Definition load (fs : files) (name : text) : res IoError Layout :=
  match fs !! path_for name with
  | None => Err NotFound
  | Some bytes =>
    match from_slice bytes with
    | None => Err InvalidData
    | Some layout =>
      if negb (version_supported (ly_version layout)) then Err InvalidData
      else if (ly_version layout =? 4) && bool_decide (ly_links layout = []) then
        Ok (mkLayout _ SCHEMA_VERSION (ly_name layout) (ly_dock layout) (ly_plots layout) (ly_markers layout)
              (migrate_chains_to_links (ly_markers layout)))
      else Ok layout
    end
  end.

Definition save (fs : files) (layout : Layout) : res IoError files :=
  match to_vec_pretty layout with
  | None => Err InvalidData
  | Some bytes => Ok (<[path_for (ly_name layout) := bytes]> fs)
  end.

Definition delete_layout (fs : files) (name : text) : files := delete (path_for name) fs.
End files.

(** ** Capture: the live state as a layout *)
Definition see (acc : gset Z * list PlotId) (pid : PlotId) : gset Z * list PlotId :=
  if bool_decide (pid ∈ acc.1) then acc else ({[pid]} ∪ acc.1, acc.2 ++ [pid]).

Definition capture_order (plots : PlotRegistry) (dock : DockState PlotId) : list PlotId :=
  (foldl see (foldl see (∅, []) (iter_all_tabs dock)) (iter_ids plots)).2.

Definition paths_of (by_id : gmap Z ChannelInfo) (ids : list ChannelId) : list text :=
  omap (fun id => ci_path <$> by_id !! id) ids.

Definition spec_from_kind (kind : PlotKind) (by_id : gmap Z ChannelInfo) : PlotSpec :=
  match kind with
  | PScalar p =>
    SpecScalar (sp_title p) (paths_of by_id (sp_channels p))
      (foldl (fun styles ist => match by_id !! ist.1 with
                                | Some info => <[ci_path info := ist.2]> styles
                                | None => styles
                                end) ∅ (styles_iter p))
  | PLogicAnalyser p =>
    SpecLogicAnalyser (la_title p)
      (omap (fun l => (fun c => mkLogicLaneSpec (ci_path c) (ll_radix l) (ll_mode l)) <$> by_id !! ll_ch l) (la_lanes p))
  | PLogView p =>
    SpecLogView (lv_title p) (lv_group p)
      (paths_of by_id (omap (fun idx => lv_columns p !! idx) (lv_visible p)))
      (collect_map (omap (fun '(id, f) => (fun c => (ci_path c, from_filter f)) <$> by_id !! id)
                      (hash_iter (lv_filters p))))
      (id ← lv_color_by p; ci_path <$> by_id !! id)
      (id ← lv_priority_by p; ci_path <$> by_id !! id)
      (Some (lv_max_rows p))
  | PXY xy =>
    SpecXy (xy_title xy) (default [] (ci_path <$> by_id !! xy_x xy)) (default [] (ci_path <$> by_id !! xy_y xy))
      (xy_trail_ns xy)
  end.

(** The loop over the order: plot positions and specifications. *)
Definition capture_step (plots : PlotRegistry) (by_id : gmap Z ChannelInfo) (acc : gmap Z Z * list PlotSpec)
    (ipid : nat * PlotId) : gmap Z Z * list PlotSpec :=
  match registry_get plots ipid.2 with
  | None => acc
  | Some kind => (<[ipid.2 := Z.of_nat ipid.1]> acc.1, acc.2 ++ [spec_from_kind kind by_id])
  end.

Definition link_spec (by_id : gmap Z ChannelInfo) (marker_idx : gmap Z nat) (l : Link) : option LinkSpec :=
  a_idx ← marker_idx !! lk_a l;
  b_idx ← marker_idx !! lk_b l;
  Some (mkLinkSpec a_idx b_idx (lk_y_frac l) (paths_of by_id (lk_signals l))).

Definition capture (name : text) (plots : PlotRegistry) (dock : DockState PlotId) (by_id : gmap Z ChannelInfo)
    (markers : MarkerSet) : Layout :=
  let order := capture_order plots dock in
  let '(idx_of, specs) := foldl (capture_step plots by_id) (∅, []) (imap pair order) in
  let dock_usize := map_tabs (fun pid => default usize_max (idx_of !! pid)) dock in
  let dock_usize := filter_tabs (fun i => negb (i =? usize_max)) dock_usize in
  let marker_idx := collect_map (imap (fun i m => (mk_id m, i)) (ms_markers markers)) in
  mkLayout _ SCHEMA_VERSION name (default Null (to_value dock_usize)) specs
    (map (fun m => mkMarkerSpec (mk_t_ns m) (mk_label m) (mk_color m) None) (ms_markers markers))
    (omap (link_spec by_id marker_idx) (ms_links markers)).

(** ** Apply: a layout as live state *)
Abbreviation by_path_t := (gmap text ChannelInfo).

Definition is_state (k : ChannelKind) : bool := match k with State _ => true | _ => false end.

Definition apply_scalar_path (by_path : by_path_t) (acc : ScalarPanel * ApplyReport) (path : text)
  : ScalarPanel * ApplyReport :=
  match by_path !! path with
  | Some info =>
    if bool_decide (ci_kind info = Scalar) then ((scalar_add acc.1 info).1, acc.2)
    else (acc.1, add_missing acc.2 path)
  | None => (acc.1, add_missing acc.2 path)
  end.

(** The flag is [had_any]. *)
Definition apply_state_path (by_path : by_path_t) (acc : LogicAnalyserPanel * bool * ApplyReport) (path : text)
  : LogicAnalyserPanel * bool * ApplyReport :=
  let '(p, had_any, report) := acc in
  match by_path !! path with
  | Some info =>
    if is_state (ci_kind info) then ((logic_add p info).1, true, report)
    else (p, had_any, add_missing report path)
  | None => (p, had_any, add_missing report path)
  end.

(** [scalars_only] is the extra guard of the legacy specification. *)
Definition apply_style (by_path : by_path_t) (scalars_only : bool) (p : ScalarPanel) (ps : text * SignalStyle)
  : ScalarPanel :=
  match by_path !! ps.1 with
  | Some info =>
    if negb scalars_only || bool_decide (ci_kind info = Scalar) then style_for_mut p (ci_id info) (fun _ => ps.2)
    else p
  | None => p
  end.

Definition restored_mode (info : ChannelInfo) (mode : LaneMode) : LaneMode :=
  if bool_decide (mode = Named) && negb (is_state (ci_kind info))
  then default_lane_mode (ci_kind info) (ci_integer_storage info) else mode.

Definition apply_lane (by_path : by_path_t) (acc : LogicAnalyserPanel * ApplyReport) (ls : LogicLaneSpec)
  : LogicAnalyserPanel * ApplyReport :=
  match by_path !! ls_ch_path ls with
  | Some info =>
    let acceptable := is_state (ci_kind info) || ci_integer_storage info in
    if acceptable then
      let '(p, added) := logic_add acc.1 info in
      if added then
        let p := default p (radix_for_mut p (ci_id info) (fun _ => ls_radix ls)) in
        let p := default p (mode_for_mut p (ci_id info) (fun _ => restored_mode info (ls_mode ls))) in
        (p, acc.2)
      else (p, acc.2)
    else (acc.1, add_missing acc.2 (ls_ch_path ls))
  | None => (acc.1, add_missing acc.2 (ls_ch_path ls))
  end.

Definition in_group (group : text) (c : ChannelInfo) : bool :=
  bool_decide (ci_path c = group) || is_prefix (group ++ str ".") (ci_path c).

Definition group_columns (group : text) (channels : list ChannelInfo) : list ChannelId :=
  map ci_id (List.filter (in_group group) channels).

Definition column_of (by_path : by_path_t) (columns : list ChannelId) (path : option text) : option ChannelId :=
  pth ← path;
  info ← by_path !! pth;
  if bool_decide (ci_id info ∈ columns) then Some (ci_id info) else None.

Definition apply_log_view (channels : list ChannelInfo) (by_path : by_path_t) (title group : text)
    (visible_columns : list text) (filters : gmap text FilterSpec) (color_by priority_by : option text)
    (max_rows : option nat) : LogViewPanel :=
  let columns := group_columns group channels in
  mkLogViewPanel title group columns
    (match visible_columns with
     | [] => seq 0 (length columns)
     | _ => omap (fun path => info ← by_path !! path; fst <$> list_find (fun id => id = ci_id info) columns)
              visible_columns
     end)
    (collect_map (omap (fun '(path, spec) => info ← by_path !! path;
                          if bool_decide (ci_id info ∈ columns) then Some (ci_id info, to_filter spec) else None)
                    (hash_iter filters)))
    (column_of by_path columns color_by) (column_of by_path columns priority_by)
    (match max_rows with Some m => Nat.max m 1 | None => LOG_VIEW_DEFAULT_MAX_ROWS end).

Record apply_state := mkApplyState {
  as_registry : PlotRegistry;
  as_report : ApplyReport;
  as_new_ids : list (option PlotId);
  as_companions : list (PlotId * PlotId);
}.

Definition insert_plot (pf : profile) (st : apply_state) (kind : PlotKind) (report : ApplyReport) : total apply_state :=
  r ← registry_insert pf (as_registry st) kind;
  mret (mkApplyState r.1 report (as_new_ids st ++ [Some r.2]) (as_companions st)).

(** An XY plot needs both its channels; the missing ones are reported. *)
Definition apply_xy (pf : profile) (by_path : by_path_t) (st : apply_state) (title x y : text) (trail_ns : option Z)
  : total apply_state :=
  let xi := by_path !! x in
  let yi := by_path !! y in
  let drop :=
    let report := match xi with None => add_missing (as_report st) x | Some _ => as_report st end in
    let report := match yi with None => add_missing report y | Some _ => report end in
    mret (mkApplyState (as_registry st)
            (mkApplyReport (ar_missing_paths report) (S (ar_dropped_plots report)))
            (as_new_ids st ++ [None]) (as_companions st)) in
  match xi, yi with
  | Some xinfo, Some yinfo =>
    if bool_decide (ci_kind xinfo = Scalar) && bool_decide (ci_kind yinfo = Scalar) then
      insert_plot pf st (PXY (mkXYPlot title (ci_id xinfo) (ci_id yinfo) trail_ns)) (as_report st)
    else drop
  | _, _ => drop
  end.

Definition apply_spec (pf : profile) (channels : list ChannelInfo) (by_path : by_path_t) (st : apply_state)
    (spec : PlotSpec) : total apply_state :=
  match spec with
  | SpecTimeSeries title scalars states styles =>
    let '(sp, report) := foldl (apply_scalar_path by_path) (ScalarPanel_new title, as_report st) scalars in
    let sp := foldl (apply_style by_path true) sp (hash_iter styles) in
    r ← registry_insert pf (as_registry st) (PScalar sp);
    let scalar_id := r.2 in
    if bool_decide (states = []) then
      mret (mkApplyState r.1 report (as_new_ids st ++ [Some scalar_id]) (as_companions st))
    else
      let '(chart, had_any, report) :=
        foldl (apply_state_path by_path) (LogicAnalyserPanel_new (title ++ str " (states)"), false, report) states in
      if had_any : bool then
        r' ← registry_insert pf r.1 (PLogicAnalyser chart);
        mret (mkApplyState r'.1 report (as_new_ids st ++ [Some scalar_id]) (as_companions st ++ [(scalar_id, r'.2)]))
      else mret (mkApplyState r.1 report (as_new_ids st ++ [Some scalar_id]) (as_companions st))
  | SpecScalar title paths styles =>
    let '(sp, report) := foldl (apply_scalar_path by_path) (ScalarPanel_new title, as_report st) paths in
    insert_plot pf st (PScalar (foldl (apply_style by_path false) sp (hash_iter styles))) report
  | SpecStateChart title lanes =>
    let '(p, _, report) :=
      foldl (apply_state_path by_path) (LogicAnalyserPanel_new title, false, as_report st) lanes in
    insert_plot pf st (PLogicAnalyser p) report
  | SpecLogicAnalyser title lanes =>
    let '(p, report) := foldl (apply_lane by_path) (LogicAnalyserPanel_new title, as_report st) lanes in
    insert_plot pf st (PLogicAnalyser p) report
  | SpecLogView title group visible_columns filters color_by priority_by max_rows =>
    insert_plot pf st
      (PLogView (apply_log_view channels by_path title group visible_columns filters color_by priority_by max_rows))
      (as_report st)
  | SpecXy title x y trail_ns => apply_xy pf by_path st title x y trail_ns
  end.

Fixpoint apply_specs (pf : profile) (channels : list ChannelInfo) (by_path : by_path_t) (specs : list PlotSpec)
    (st : apply_state) : total apply_state :=
  match specs with
  | [] => mret st
  | spec :: specs => st' ← apply_spec pf channels by_path st spec; apply_specs pf channels by_path specs st'
  end.

Definition insert_next_to (dock : DockState PlotId) (anchor extra : PlotId) : option (DockState PlotId) :=
  '(i, tabs) ← list_find (fun tabs => anchor ∈ tabs) (leaves dock);
  Some (set_leaf dock i (tabs ++ [extra])).

Definition fallback_dock (new_ids : list (option PlotId)) : DockState PlotId :=
  match omap id new_ids with [] => dock_new [0] | ids => dock_new ids end.

Definition build_dock (dock_value : Value) (new_ids : list (option PlotId)) : DockState PlotId :=
  match from_value dock_value with
  | None => fallback_dock new_ids
  | Some dock_usize =>
    let mapped := filter_map_tabs (fun i => mjoin (new_ids !! Z.to_nat i)) dock_usize in
    match iter_all_tabs mapped with [] => fallback_dock new_ids | _ => mapped end
  end.

Definition add_companion (dock : DockState PlotId) (pc : PlotId * PlotId) : DockState PlotId :=
  match insert_next_to dock pc.1 pc.2 with
  | Some dock => dock
  | None => push_to_focused_leaf dock pc.2
  end.

Definition apply (pf : profile) (layout : Layout) (channels : list ChannelInfo)
  : total (PlotRegistry * DockState PlotId * ApplyReport) :=
  let by_path := collect_map (map (fun c => (ci_path c, c)) channels) in
  st ← apply_specs pf channels by_path (ly_plots layout) (mkApplyState PlotRegistry_new ApplyReport_default [] []);
  let dock := build_dock (ly_dock layout) (as_new_ids st) in
  mret (as_registry st, foldl add_companion dock (as_companions st), as_report st).

(** ** The loading action of the application *)
Definition load_markers (pf : profile) (markers : MarkerSet) (layout : Layout) (channels : list ChannelInfo)
  : total MarkerSet :=
  restore pf markers (map (fun m => (mks_t_ns m, mks_label m, mks_color m)) (ly_markers layout))
    (map (fun l => (lks_a_index l, lks_b_index l, lks_y_frac l, signals_resolved l channels)) (ly_links layout)).

Definition channels_by_id (channels : list ChannelInfo) : gmap Z ChannelInfo :=
  collect_map (map (fun c => (ci_id c, c)) channels).

End layouts.

(** ** Renaming channels through their paths *)
Lemma foldl_omap_insert `{Countable K} {V X} (f : X -> option (K * V)) (l : list X) (m : gmap K V) :
  foldl (fun m x => match f x with Some kv => <[kv.1 := kv.2]> m | None => m end) m l =
  foldl (fun m kv => <[kv.1 := kv.2]> m) m (omap f l).
Proof. revert m. induction l as [|x l IH]; intros m; [done|]. cbn. destruct (f x) as [[k v]|]; cbn; apply IH. Qed.

Lemma NoDup_omap_keys {A B K} (key : B -> K) (f : A -> option B) (l : list A) :
  NoDup l -> (forall x y u v, x ∈ l -> y ∈ l -> f x = Some u -> f y = Some v -> key u = key v -> x = y) ->
  NoDup (map key (omap f l)).
Proof.
  induction 1 as [|x l Hx Hl IH]; intros Hinj; [constructor|].
  assert (IH' : NoDup (map key (omap f l))).
  { apply IH. intros a b u v Ha Hb. apply Hinj; by apply elem_of_cons; right. }
  cbn. destruct (f x) as [u|] eqn:E; [|done]. cbn. apply NoDup_cons. split; [|done].
  intros (v & Hk & Hv)%list_elem_of_fmap_1. apply list_elem_of_omap in Hv as (y & Hy & Hf).
  assert (x = y); [|by subst]. eapply (Hinj x y u v); [apply elem_of_cons; by left|apply elem_of_cons; by right|done..].
Qed.

(** Looking up a map collected from the renamed entries of another. *)
Lemma collect_omap_lookup `{HashOrder} `{Countable K} `{Countable K2} {V V2}
    (f : K * V -> option (K2 * V2)) (m : gmap K V) k w :
  (forall k1 v1 k2 v2 u1 u2, m !! k1 = Some v1 -> m !! k2 = Some v2 ->
     f (k1, v1) = Some u1 -> f (k2, v2) = Some u2 -> u1.1 = u2.1 -> k1 = k2) ->
  collect_map (omap f (hash_iter m)) !! k = Some w <-> exists k0 v, m !! k0 = Some v /\ f (k0, v) = Some (k, w).
Proof.
  intros Hinj. assert (Hn : NoDup (map fst (omap f (hash_iter m)))).
  { apply NoDup_omap_keys; [eapply NoDup_fmap_1, hash_iter_nodup|].
    intros [k1 v1] [k2 v2] u v Ha%elem_of_hash_iter Hb%elem_of_hash_iter Hu Hv He.
    assert (k1 = k2) as -> by eauto. by simplify_eq. }
  rewrite collect_map_list_to_map by done. rewrite <-elem_of_list_to_map by done.
  rewrite list_elem_of_omap. split.
  - intros ([k0 v] & Hm%elem_of_hash_iter & Hf). eauto.
  - intros (k0 & v & Hm & Hf). exists (k0, v). by rewrite elem_of_hash_iter.
Qed.

Section roundtrip.
Context `{HO : HashOrder} `{D : DockLib} `{DL : !DockLaws D}.
Context (channels : list ChannelInfo).
Context (Hids : NoDup (map ci_id channels)) (Hpaths : NoDup (map ci_path channels)).

Let by_id := channels_by_id channels.
Let by_path : gmap text ChannelInfo := collect_map (map (fun c => (ci_path c, c)) channels).

Lemma collect_key_spec `{Countable K} (key : ChannelInfo -> K) k c :
  NoDup (map key channels) ->
  (collect_map (map (fun c => (key c, c)) channels) : gmap K _) !! k = Some c <-> c ∈ channels /\ key c = k.
Proof.
  intros Hn. assert (Hm : map fst (map (fun c => (key c, c)) channels) = map key channels)
    by (by rewrite map_map).
  rewrite collect_map_list_to_map by (by rewrite Hm). rewrite <-elem_of_list_to_map by (by rewrite <-Hm in Hn).
  split.
  - intros (c' & [= -> ->] & Hc)%list_elem_of_fmap_1. done.
  - intros [Hc <-]. apply list_elem_of_fmap. by exists c.
Qed.

Lemma by_id_spec i c : by_id !! i = Some c <-> c ∈ channels /\ ci_id c = i.
Proof using Hids. by apply collect_key_spec. Qed.
Lemma by_path_spec q c : by_path !! q = Some c <-> c ∈ channels /\ ci_path c = q.
Proof using Hpaths. by apply collect_key_spec. Qed.

Lemma by_path_of_id i c : by_id !! i = Some c -> by_path !! ci_path c = Some c.
Proof using Hids Hpaths. intros [Hc _]%by_id_spec. by apply by_path_spec. Qed.

Lemma by_id_id i c : by_id !! i = Some c -> ci_id c = i.
Proof using Hids. by intros [_ ?]%by_id_spec. Qed.

Lemma channel_inj_path a b : a ∈ channels -> b ∈ channels -> ci_path a = ci_path b -> a = b.
Proof using Hpaths.
  intros Ha Hb He. assert (Hx : by_path !! ci_path a = Some a) by (by apply by_path_spec).
  assert (Hy : by_path !! ci_path a = Some b) by (by apply by_path_spec). congruence.
Qed.

(** Renaming a map's keys to paths and back gives the map back. *)
Lemma rename_roundtrip {V W} (ok : ChannelId -> bool) (g : V -> W) (h : W -> V) (m : gmap Z V) :
  (forall v, h (g v) = v) ->
  map_Forall (fun i _ => is_Some (by_id !! i) /\ ok i = true) m ->
  collect_map (omap (fun '(q, w) => info ← by_path !! q; if ok (ci_id info) then Some (ci_id info, h w) else None)
    (hash_iter (collect_map (omap (fun '(i, v) => (fun c => (ci_path c, g v)) <$> by_id !! i) (hash_iter m))))) = m.
Proof using Hids Hpaths.
  intros Hgh Hm. apply map_eq. intros i.
  assert (Hin : forall q w,
    (collect_map (omap (fun '(i, v) => (fun c => (ci_path c, g v)) <$> by_id !! i) (hash_iter m)) : gmap text W) !! q
      = Some w <-> exists i c v, m !! i = Some v /\ by_id !! i = Some c /\ ci_path c = q /\ w = g v).
  { intros q w. rewrite collect_omap_lookup.
    - split.
      + intros (k0 & v & Hk & Hf). apply fmap_Some in Hf as (c & Hc & [= -> ->]). eauto 10.
      + intros (k0 & c & v & Hk & Hc & <- & ->). exists k0, v. by rewrite Hc.
    - intros k1 v1 k2 v2 u1 u2 _ _ H1 H2 He. apply fmap_Some in H1 as (c1 & Hc1 & ->), H2 as (c2 & Hc2 & ->).
      cbn in He. pose proof (by_id_id _ _ Hc1). pose proof (by_id_id _ _ Hc2).
      apply by_id_spec in Hc1 as [Hc1 _], Hc2 as [Hc2 _].
      pose proof (channel_inj_path _ _ Hc1 Hc2 He). congruence. }
  set (mid := collect_map _) in Hin |- *. apply option_eq. intros v. rewrite collect_omap_lookup.
  - split.
    + intros (q & w & Hq & Hf). apply bind_Some in Hf as (c & Hc & Hf). destruct (ok (ci_id c)); [|done].
      injection Hf as <- <-. apply Hin in Hq as (j & c' & v' & Hj & Hc' & <- & ->).
      rewrite (by_path_of_id _ _ Hc') in Hc. injection Hc as ->. rewrite Hgh, (by_id_id _ _ Hc'). done.
    + intros Hi. destruct (Hm _ _ Hi) as [[c Hc] Hok]. exists (ci_path c), (g v). split.
      * apply Hin. eauto 10.
      * rewrite (by_path_of_id _ _ Hc). cbn. by rewrite (by_id_id _ _ Hc), Hok, Hgh.
  - intros q1 w1 q2 w2 u1 u2 _ _ H1 H2 He.
    apply bind_Some in H1 as (c1 & Hc1 & H1), H2 as (c2 & Hc2 & H2).
    destruct (ok (ci_id c1)), (ok (ci_id c2)); try done. injection H1 as <-. injection H2 as <-. cbn in He.
    apply by_path_spec in Hc1 as [Hc1 <-], Hc2 as [Hc2 <-].
    assert (Hx : by_id !! ci_id c1 = Some c1) by (by apply by_id_spec).
    assert (Hy : by_id !! ci_id c1 = Some c2) by (by apply by_id_spec). congruence.
Qed.

(** *** What a layout keeps of a plot *)

(** A channel of the session with a given property. *)
Definition known (P : ChannelInfo -> Prop) (i : ChannelId) : Prop := exists c, by_id !! i = Some c /\ P c.

(** The plots a layout can bring back in a session with these channels: they
    show channels the session has, of a kind they can show, and the columns of
    a log view are those of its group. *)
Definition restorable (k : PlotKind) : Prop :=
  match k with
  | PScalar p =>
    NoDup (sp_channels p) /\ Forall (known (fun c => ci_kind c = Scalar)) (sp_channels p) /\
    map_Forall (fun i _ => is_Some (by_id !! i)) (sp_styles p)
  | PLogicAnalyser p =>
    NoDup (map ll_ch (la_lanes p)) /\
    Forall (fun l => known (fun c => accepts_logic c = true /\ (ll_mode l = Named -> is_state (ci_kind c) = true))
                       (ll_ch l)) (la_lanes p)
  | PLogView p =>
    lv_columns p = group_columns (lv_group p) channels /\
    Forall (fun i => i < length (lv_columns p))%nat (lv_visible p) /\
    (lv_visible p = [] -> lv_columns p = []) /\
    map_Forall (fun i _ => i ∈ lv_columns p) (lv_filters p) /\
    (forall i, lv_color_by p = Some i -> i ∈ lv_columns p) /\
    (forall i, lv_priority_by p = Some i -> i ∈ lv_columns p) /\ (1 <= lv_max_rows p)%nat
  | PXY p => known (fun c => ci_kind c = Scalar) (xy_x p) /\ known (fun c => ci_kind c = Scalar) (xy_y p)
  end.

(** The selection of a scalar panel is not saved. *)
Definition persisted (k : PlotKind) : PlotKind :=
  match k with
  | PScalar p => PScalar (mkScalarPanel (sp_title p) (sp_channels p) (sp_styles p) ∅)
  | _ => k
  end.

Lemma scalars_restore title ids chans report :
  NoDup (chans ++ ids) -> Forall (known (fun c => ci_kind c = Scalar)) ids ->
  foldl (apply_scalar_path by_path) (mkScalarPanel title chans ∅ ∅, report) (paths_of by_id ids) =
  (mkScalarPanel title (chans ++ ids) ∅ ∅, report).
Proof using Hids Hpaths.
  intros Hn Hk. revert chans Hn. induction Hk as [|i ids (c & Hc & Hs) Hk IH]; intros chans Hn.
  - by rewrite app_nil_r.
  - unfold paths_of. cbn [omap list_omap]. rewrite Hc. cbn [fmap option_fmap option_map foldl].
    unfold apply_scalar_path at 2. rewrite (by_path_of_id _ _ Hc), bool_decide_eq_true_2 by done.
    cbn [fst snd]. unfold scalar_add. rewrite bool_decide_eq_true_2 by done. cbn [negb sp_channels sp_styles].
    rewrite (by_id_id _ _ Hc). rewrite bool_decide_eq_false_2.
    2: { apply NoDup_app in Hn as (_ & Hd & _). intros Hi. apply (Hd i Hi). apply elem_of_cons. by left. }
    replace (match head chans with Some first => _ | None => ∅ end) with (∅ : gmap Z SignalStyle)
      by (by destruct (head chans)).
    cbn [fst]. fold (paths_of by_id ids). rewrite IH; [by rewrite <-app_assoc|by rewrite <-app_assoc].
Qed.

Lemma apply_styles_eq p l :
  foldl (apply_style by_path false) p l =
  mkScalarPanel (sp_title p) (sp_channels p)
    (foldl (fun m kv => <[kv.1 := kv.2]> m) (sp_styles p)
       (omap (fun '(q, w) => info ← by_path !! q; if true then Some (ci_id info, w) else None) l))
    (sp_selected p).
Proof.
  revert p. induction l as [|[q w] l IH]; intros p; [by destruct p|]. cbn [foldl omap list_omap].
  unfold apply_style at 2. cbn [fst snd]. destruct (by_path !! q) as [info|]; cbn; by rewrite IH.
Qed.

Lemma scalar_roundtrip p :
  restorable (PScalar p) ->
  match spec_from_kind (PScalar p) by_id with
  | SpecScalar title paths styles => forall report,
    let '(sp, report') := foldl (apply_scalar_path by_path) (ScalarPanel_new title, report) paths in
    PScalar (foldl (apply_style by_path false) sp (hash_iter styles)) = persisted (PScalar p) /\ report' = report
  | _ => False
  end.
Proof using Hids Hpaths.
  intros (Hn & Hk & Hs). cbn [spec_from_kind]. intros report. unfold ScalarPanel_new.
  rewrite scalars_restore by done. split; [|done]. rewrite apply_styles_eq. cbn. do 2 f_equal.
  unfold styles_iter.
  transitivity (collect_map (omap (fun '(q, w) => info ← by_path !! q; if true then Some (ci_id info, id w) else None)
    (hash_iter (collect_map (omap (fun '(i, v) => (fun c => (ci_path c, id v)) <$> by_id !! i)
       (hash_iter (sp_styles p))))))).
  - unfold collect_map. do 3 f_equal. rewrite <-foldl_omap_insert. generalize (∅ : gmap text SignalStyle).
    induction (hash_iter (sp_styles p)) as [|[i st] l IH]; intros m; [done|]. cbn. rewrite IH. by destruct (by_id !! i).
  - apply (rename_roundtrip (fun _ => true)); [done|]. intros i st Hi. split; [by eapply Hs|done].
Qed.

Lemma update_lane_snoc i f lanes l :
  (i ∉ map ll_ch lanes) -> ll_ch l = i -> update_lane i f (lanes ++ [l]) = Some (lanes ++ [f l]).
Proof.
  intros Hi Hl. induction lanes as [|x lanes IH]; cbn.
  - by rewrite Hl, Z.eqb_refl.
  - cbn in Hi. apply not_elem_of_cons in Hi as [Hx Hi]. replace (ll_ch x =? i) with false by lia.
    by rewrite IH.
Qed.

Lemma accepts_acceptable c : accepts_logic c = true -> is_state (ci_kind c) || ci_integer_storage c = true.
Proof. unfold accepts_logic, is_state. destruct (ci_kind c); [by intros ->|done|done]. Qed.

Lemma apply_lane_restores title lanes l c report :
  by_id !! ll_ch l = Some c -> accepts_logic c = true -> (ll_mode l = Named -> is_state (ci_kind c) = true) ->
  (ll_ch l ∉ map ll_ch lanes) ->
  apply_lane by_path (mkLogicAnalyserPanel title lanes, report) (mkLogicLaneSpec (ci_path c) (ll_radix l) (ll_mode l)) =
  (mkLogicAnalyserPanel title (lanes ++ [l]), report).
Proof using Hids Hpaths.
  intros Hc Ha Hm Hn. unfold apply_lane. cbn [ls_ch_path ls_radix ls_mode fst snd].
  rewrite (by_path_of_id _ _ Hc), (accepts_acceptable _ Ha). unfold logic_add. rewrite Ha, existsb_lane. cbn [negb la_lanes].
  rewrite (by_id_id _ _ Hc), bool_decide_eq_false_2 by done. cbn [la_title].
  unfold radix_for_mut. cbn [la_lanes la_title]. rewrite update_lane_snoc by done.
  unfold mode_for_mut. cbn [fmap option_fmap option_map from_option id la_lanes la_title]. rewrite update_lane_snoc by done. cbn.
  unfold restored_mode. destruct l as [i m r]. cbn in *. destruct (bool_decide (m = Named)) eqn:E; [|done].
  apply bool_decide_eq_true in E. by rewrite (Hm E).
Qed.

Lemma lanes_restore title lanes done_lanes report :
  NoDup (map ll_ch (done_lanes ++ lanes)) ->
  Forall (fun l => known (fun c => accepts_logic c = true /\ (ll_mode l = Named -> is_state (ci_kind c) = true))
                     (ll_ch l)) lanes ->
  foldl (apply_lane by_path) (mkLogicAnalyserPanel title done_lanes, report)
    (omap (fun l => (fun c => mkLogicLaneSpec (ci_path c) (ll_radix l) (ll_mode l)) <$> by_id !! ll_ch l) lanes) =
  (mkLogicAnalyserPanel title (done_lanes ++ lanes), report).
Proof using Hids Hpaths.
  intros Hn Hk. revert done_lanes Hn. induction Hk as [|l lanes (c & Hc & Ha & Hm) Hk IH]; intros dl Hn.
  - by rewrite app_nil_r.
  - cbn [omap list_omap]. rewrite Hc. cbn [fmap option_fmap option_map foldl].
    rewrite apply_lane_restores by (try done; rewrite map_app in Hn; apply NoDup_app in Hn as (_ & Hd & _);
      intros Hi; apply (Hd _ Hi), elem_of_cons; by left).
    rewrite IH; by rewrite <-app_assoc.
Qed.

Lemma group_columns_known group i : i ∈ group_columns group channels -> is_Some (by_id !! i).
Proof using Hids.
  intros (c & -> & Hc)%list_elem_of_fmap_1. apply list_elem_of_In, filter_In in Hc as [Hc _].
  exists c. apply by_id_spec. by rewrite list_elem_of_In.
Qed.

Lemma group_columns_nodup group : NoDup (group_columns group channels).
Proof using Hids.
  unfold group_columns. eapply sublist_NoDup; [exact Hids|]. apply sublist_map.
  clear. induction channels as [|c l IH]; cbn; [constructor|]. destruct (in_group group c); by constructor.
Qed.

Lemma list_find_nodup (l : list Z) i x : NoDup l -> l !! i = Some x -> list_find (fun y => y = x) l = Some (i, x).
Proof.
  intros Hn Hi. apply list_find_Some. split_and!; [done|done|]. intros j y Hj Hlt ->.
  pose proof (NoDup_lookup _ _ _ _ Hn Hi Hj). lia.
Qed.

Lemma visible_restore columns visible :
  NoDup columns -> Forall (fun i => is_Some (by_id !! i)) columns -> Forall (fun i => i < length columns)%nat visible ->
  omap (fun path => info ← by_path !! path; fst <$> list_find (fun id => id = ci_id info) columns)
    (paths_of by_id (omap (fun idx => columns !! idx) visible)) = visible.
Proof using Hids Hpaths.
  intros Hn Hk Hv. induction Hv as [|i visible Hi Hv IH]; [done|]. cbn.
  apply lookup_lt_is_Some in Hi as [x Hx]. rewrite Hx. unfold paths_of in *. cbn.
  destruct (proj1 (Forall_forall _ _) Hk x) as [c Hc]; [by eapply list_elem_of_lookup_2|].
  rewrite Hc. cbn. rewrite (by_path_of_id _ _ Hc). cbn. rewrite (by_id_id _ _ Hc), (list_find_nodup _ _ _ Hn Hx).
  cbn. by rewrite IH.
Qed.

Lemma column_restore columns o :
  Forall (fun i => is_Some (by_id !! i)) columns -> (forall i, o = Some i -> i ∈ columns) ->
  column_of by_path columns (i ← o; ci_path <$> by_id !! i) = o.
Proof using Hids Hpaths.
  intros Hk Ho. destruct o as [i|]; [|done]. specialize (Ho i eq_refl).
  destruct (proj1 (Forall_forall _ _) Hk i Ho) as [c Hc]. cbn. rewrite Hc. cbn.
  rewrite (by_path_of_id _ _ Hc). cbn. rewrite (by_id_id _ _ Hc). by rewrite bool_decide_eq_true_2.
Qed.

Lemma filter_roundtrip f : to_filter (from_filter f) = f.
Proof.
  destruct f as [| |allowed]; [done..|]. cbn. f_equal. apply set_eq. intros x.
  rewrite elem_of_list_to_set. rewrite sort_by_perm. apply elem_of_elements.
Qed.

Lemma log_view_roundtrip p :
  restorable (PLogView p) ->
  match spec_from_kind (PLogView p) by_id with
  | SpecLogView title group visible filters color_by priority_by max_rows =>
    apply_log_view channels by_path title group visible filters color_by priority_by max_rows = p
  | _ => False
  end.
Proof using Hids Hpaths.
  intros (Hcol & Hv & Hv0 & Hf & Hc & Hp & Hr). cbn [spec_from_kind]. unfold apply_log_view.
  assert (Hk : Forall (fun i => is_Some (by_id !! i)) (lv_columns p)).
  { rewrite Hcol. apply Forall_forall. intros i. apply group_columns_known. }
  pose proof (group_columns_nodup (lv_group p)) as Hn. rewrite <-Hcol in *.
  rewrite !column_restore by done.
  pose proof (visible_restore _ _ Hn Hk Hv) as Hvis.
  destruct p as [ti gr cols vis fi co pr mr]. cbn [lv_title lv_group lv_columns lv_visible lv_filters lv_color_by lv_priority_by lv_max_rows] in *.
  f_equal; [| |lia].
  - destruct vis as [|i vis]; [by rewrite (Hv0 eq_refl)|]. destruct (paths_of by_id _); [done|exact Hvis].
  - pose (ok := fun i : ChannelId => bool_decide (i ∈ cols)).
    apply (rename_roundtrip ok from_filter to_filter); [apply filter_roundtrip|].
    intros i f Hi. pose proof (Hf _ _ Hi). split; [by apply (proj1 (Forall_forall _ _) Hk)|].
    by apply bool_decide_eq_true_2.
Qed.

(** Every restorable plot comes back from its specification. *)
Lemma spec_roundtrip pf st k :
  restorable k -> 0 <= pr_next_id (as_registry st) < u64_max ->
  apply_spec pf channels by_path st (spec_from_kind k by_id) =
  Ok (mkApplyState
        (mkPlotRegistry (<[pr_next_id (as_registry st) := persisted k]> (pr_plots (as_registry st)))
           (pr_next_id (as_registry st) + 1))
        (as_report st) (as_new_ids st ++ [Some (pr_next_id (as_registry st))]) (as_companions st)).
Proof using Hids Hpaths.
  intros Hk Hn. assert (Hins : forall kind report, insert_plot pf st kind report = Ok (mkApplyState
    (mkPlotRegistry (<[pr_next_id (as_registry st) := kind]> (pr_plots (as_registry st))) (pr_next_id (as_registry st) + 1))
    report (as_new_ids st ++ [Some (pr_next_id (as_registry st))]) (as_companions st))).
  { intros. unfold insert_plot, registry_insert, u64_max in *. by rewrite arith_ok by (unfold in_u; lia). }
  destruct k as [p|p|p|p].
  - pose proof (scalar_roundtrip p Hk) as H. cbn [spec_from_kind] in H |- *. unfold apply_spec.
    specialize (H (as_report st)). destruct (foldl _ _ _) as [sp report]. destruct H as [-> ->]. apply Hins.
  - destruct Hk as [H1 H2]. cbn [spec_from_kind apply_spec]. unfold LogicAnalyserPanel_new.
    rewrite lanes_restore by done. rewrite Hins. by destruct p.
  - pose proof (log_view_roundtrip p Hk) as H. cbn [spec_from_kind] in H |- *. cbn [apply_spec]. rewrite H. apply Hins.
  - destruct Hk as [(x & Hx & Hxs) (y & Hy & Hys)]. cbn [spec_from_kind apply_spec]. unfold apply_xy. rewrite Hx, Hy. cbn [fmap option_fmap option_map from_option id].
    rewrite (by_path_of_id _ _ Hx), (by_path_of_id _ _ Hy). rewrite !bool_decide_eq_true_2 by done. cbn [andb].
    rewrite Hins, (by_id_id _ _ Hx), (by_id_id _ _ Hy). by destruct p.
Qed.

(** The plots of a layout come back under consecutive ids. *)
Lemma specs_roundtrip pf ks st :
  Forall restorable ks -> 0 <= pr_next_id (as_registry st) -> pr_next_id (as_registry st) + blen ks < u64_max ->
  let n := pr_next_id (as_registry st) in
  exists reg, apply_specs pf channels by_path (map (fun k => spec_from_kind k by_id) ks) st =
      Ok (mkApplyState reg (as_report st) (as_new_ids st ++ map Some (seqZ n (blen ks))) (as_companions st)) /\
    forall j, pr_plots reg !! j =
      if decide (n <= j < n + blen ks) then persisted <$> ks !! Z.to_nat (j - n) else pr_plots (as_registry st) !! j.
Proof using Hids Hpaths.
  cbv zeta. intros Hk. revert st. induction Hk as [|k ks Hk Hks IH]; intros st Hn Hb; cbn [map apply_specs].
  - exists (as_registry st). split.
    + unfold blen. cbn. rewrite app_nil_r. by destruct st.
    + intros j. rewrite decide_False by (unfold blen; cbn; lia). done.
  - rewrite blen_cons in *. pose proof (blen_nonneg ks). rewrite spec_roundtrip by (done || lia).
    cbn [mbind res_bind]. set (st1 := mkApplyState _ _ _ _). destruct (IH st1) as (reg & E & Hreg); [cbn; lia|cbn; lia|].
    exists reg. split.
    + rewrite E. unfold st1. cbn [as_report as_new_ids as_companions as_registry pr_next_id].
      rewrite (seqZ_cons (pr_next_id (as_registry st))) by lia. cbn [map]. rewrite <-app_assoc. cbn [app].
      by replace (Z.pred (1 + blen ks)) with (blen ks) by lia.
    + intros j. rewrite Hreg. unfold st1. cbn [as_registry pr_next_id pr_plots].
      set (n := pr_next_id (as_registry st)) in *. destruct (decide (j = n)) as [->|Hj].
      * rewrite decide_False, decide_True by lia. rewrite lookup_insert_eq. by rewrite Z.sub_diag.
      * rewrite lookup_insert_ne by done. destruct (decide (n + 1 <= j < n + 1 + blen ks)).
        -- rewrite decide_True by lia. replace (Z.to_nat (j - n)) with (S (Z.to_nat (j - (n + 1)))) by lia. done.
        -- by rewrite decide_False by lia.
Qed.

(** *** The order of capture *)
Lemma see_inv l acc :
  NoDup acc.2 -> (forall x, x ∈ acc.1 <-> x ∈ acc.2) ->
  let r := foldl see acc l in
  NoDup r.2 /\ (forall x, x ∈ r.1 <-> x ∈ r.2) /\ forall x, x ∈ r.2 <-> x ∈ acc.2 \/ x ∈ l.
Proof.
  cbv zeta. revert acc. induction l as [|y l IH]; intros acc Hn He; cbn [foldl].
  - split_and!; [done|done|]. intros x. rewrite elem_of_nil. tauto.
  - unfold see at 2 4 6 8. case_bool_decide as Hy.
    + destruct (IH acc Hn He) as (H1 & H2 & H3). split_and!; [done|done|]. intros x. rewrite H3, elem_of_cons.
      apply He in Hy. split; [tauto|]. intros [?|[->|?]]; auto.
    + destruct (IH ({[y]} ∪ acc.1, acc.2 ++ [y])) as (H1 & H2 & H3); cbn [fst snd].
      * apply NoDup_app. split_and!; [done| |apply NoDup_singleton]. intros x Hx ->%list_elem_of_singleton.
        apply Hy. by apply He.
      * intros x. rewrite elem_of_union, elem_of_singleton, He, elem_of_app, list_elem_of_singleton. tauto.
      * split_and!; [done|done|]. intros x. rewrite H3. cbn [snd]. rewrite elem_of_app, list_elem_of_singleton, elem_of_cons. tauto.
Qed.

Lemma capture_order_spec plots (dock : DockState PlotId) :
  Forall (fun t => is_Some (pr_plots plots !! t)) (iter_all_tabs dock) ->
  NoDup (capture_order plots dock) /\ forall pid, pid ∈ capture_order plots dock <-> is_Some (pr_plots plots !! pid).
Proof.
  intros Ht. unfold capture_order. destruct (see_inv (iter_all_tabs dock) (∅, [])) as (H1 & H2 & H3).
  { constructor. } { intros x. cbn. by rewrite elem_of_empty, elem_of_nil. }
  destruct (see_inv (iter_ids plots) _ H1 H2) as (H4 & _ & H5). split; [done|]. intros pid. rewrite H5, H3.
  assert (Hi : pid ∈ iter_ids plots <-> is_Some (pr_plots plots !! pid)).
  { unfold iter_ids. split.
    - intros ([i k] & -> & Hk%elem_of_hash_iter)%list_elem_of_fmap_1. by eexists.
    - intros [k Hk]. apply list_elem_of_fmap. exists (pid, k). by rewrite elem_of_hash_iter. }
  rewrite Hi. cbn. split; [|tauto]. intros [[[]%elem_of_nil|Hx]|]; [|done]. by apply (proj1 (Forall_forall _ _) Ht).
Qed.

(** When every plot of the order exists, positions in the order and in the
    saved plots agree. *)
Lemma capture_steps plots order i0 acc kinds :
  Forall2 (fun pid k => pr_plots plots !! pid = Some k) order kinds -> NoDup order ->
  let r := foldl (capture_step plots by_id) acc (imap (fun i pid => ((i0 + i)%nat, pid)) order) in
  r.2 = acc.2 ++ map (fun k => spec_from_kind k by_id) kinds /\
  (forall i pid, order !! i = Some pid -> r.1 !! pid = Some (Z.of_nat (i0 + i))) /\
  forall pid, (pid ∉ order) -> r.1 !! pid = acc.1 !! pid.
Proof.
  cbv zeta. intros Hf. revert i0 acc. induction Hf as [|pid k order kinds Hk Hf IH]; intros i0 acc Hn.
  - cbn. by rewrite app_nil_r.
  - apply NoDup_cons in Hn as [Hpid Hn]. cbn [imap foldl]. unfold capture_step at 2 4 6, registry_get. cbn [fst snd].
    rewrite Hk. rewrite (imap_ext _ (fun i pid => ((S i0 + i)%nat, pid))) by (intros; cbn; f_equal; lia).
    destruct (IH (S i0) (<[pid := Z.of_nat (i0 + 0)]> acc.1, acc.2 ++ [spec_from_kind k by_id]) Hn) as (H1 & H2 & H3).
    split; [rewrite H1; cbn; by rewrite <-app_assoc|]. split.
    + intros [|i] x Hx; cbn in Hx.
      * injection Hx as <-. rewrite H3 by done. apply lookup_insert_eq.
      * rewrite (H2 i x Hx). f_equal. lia.
    + intros x [Hx Hx']%not_elem_of_cons. rewrite H3 by done. by apply lookup_insert_ne.
Qed.

(** The dock's tabs survive serialisation under their positions. *)
Lemma dock_roundtrip (dock : DockState PlotId) (order : list PlotId) (idx_of : gmap Z Z) v new_ids :
  NoDup order -> (forall i pid, order !! i = Some pid -> idx_of !! pid = Some (Z.of_nat i)) ->
  Forall (fun t => t ∈ order) (iter_all_tabs dock) -> iter_all_tabs dock <> [] ->
  blen order <= usize_max -> new_ids = map Some (seqZ 0 (blen order)) ->
  to_value (filter_tabs (fun i => negb (i =? usize_max)) (map_tabs (fun pid => default usize_max (idx_of !! pid)) dock)) = Some v ->
  Forall2 (fun pid j => exists i, order !! i = Some pid /\ j = Z.of_nat i)
    (iter_all_tabs dock) (iter_all_tabs (build_dock v new_ids)).
Proof using DL.
  intros Hn Hidx Htabs Hne Hlen -> Hv. set (dz := filter_tabs _ _) in Hv.
  destruct (value_tabs dz) as (v' & Hv' & Hfrom). assert (v' = v) as -> by congruence. clear Hv'.
  unfold build_dock. destruct (from_value v) as [d'|]; [|done]. cbn in Hfrom. injection Hfrom as Hfrom.
  assert (Hpos : Forall2 (fun pid j => exists i, order !! i = Some pid /\ j = Z.of_nat i /\ (i < length order)%nat)
    (iter_all_tabs dock) (iter_all_tabs d')).
  { rewrite Hfrom. unfold dz. rewrite filter_tabs_tabs, map_tabs_tabs. clear Hfrom Hv Hne dz.
    induction Htabs as [|t tabs Ht Htabs IH]; [constructor|]. cbn [map List.filter].
    apply list_elem_of_lookup in Ht as [i Hi]. rewrite (Hidx _ _ Hi). cbn [from_option].
    pose proof (lookup_lt_Some _ _ _ Hi). unfold blen in Hlen. cbn [id].
    replace (Z.of_nat i =? usize_max) with false by lia. cbn [negb]. constructor; [|done]. by exists i. }
  assert (Hmap : iter_all_tabs (filter_map_tabs (fun i => mjoin (map Some (seqZ 0 (blen order)) !! Z.to_nat i)) d') =
    iter_all_tabs d').
  { rewrite filter_map_tabs_tabs. clear -Hpos. induction Hpos as [|t j tabs js (i & Hi & -> & Hlt) Hpos IH]; [done|].
    cbn [omap list_omap]. rewrite list_lookup_fmap, Nat2Z.id.
    rewrite lookup_seqZ_lt by (unfold blen; lia). cbn. by rewrite IH. }
  cbv zeta. destruct (iter_all_tabs (filter_map_tabs _ d')) eqn:E; cycle 1.
  - rewrite E, Hmap. eapply Forall2_impl; [exact Hpos|]. intros t j (i & Hi & -> & _). by exists i.
  - rewrite <-Hmap in Hpos. inversion Hpos. congruence.
Qed.

End roundtrip.

(** ** Markers *)
Lemma find_path (channels : list ChannelInfo) c :
  NoDup (map ci_path channels) -> c ∈ channels ->
  exists j, list_find (fun x => ci_path x = ci_path c) channels = Some (j, c).
Proof.
  intros Hn (j & Hj)%list_elem_of_lookup. exists j. apply list_find_Some. split_and!; [done|done|].
  intros k x Hk Hlt Hx. assert (k = j); [|lia]. apply (NoDup_lookup (map ci_path channels) k j (ci_path c) Hn).
  - by rewrite list_lookup_fmap, Hk, <-Hx.
  - by rewrite list_lookup_fmap, Hj.
Qed.

Lemma signals_roundtrip channels sigs a b y :
  NoDup (map ci_id channels) -> NoDup (map ci_path channels) ->
  Forall (fun i => is_Some (channels_by_id channels !! i)) sigs ->
  signals_resolved (mkLinkSpec a b y (paths_of (channels_by_id channels) sigs)) channels = sigs.
Proof.
  intros Hids Hpaths Hs. unfold signals_resolved, paths_of. cbn [lks_signal_paths].
  induction Hs as [|i sigs [c Hc] Hs IH]; [done|]. cbn. rewrite Hc. cbn.
  apply (by_id_spec channels Hids) in Hc as [Hc Hi]. destruct (find_path channels c Hpaths Hc) as [j ->]. cbn.
  by rewrite Hi, IH.
Qed.

Lemma length_omap_le {A B} (f : A -> option B) l : (length (omap f l) <= length l)%nat.
Proof. induction l as [|x l IH]; [done|]. cbn [omap list_omap]. destruct (f x); cbn [length]; lia. Qed.

(** The position of each marker, as [capture] records it. *)
Lemma marker_index ms i m :
  ms_ok ms -> ms_markers ms !! i = Some m ->
  (collect_map (imap (fun i m => (mk_id m, i)) (ms_markers ms)) : gmap Z nat) !! mk_id m = Some i.
Proof.
  intros Hok Hi. assert (Hfst : map fst (imap (fun i m => (mk_id m, i)) (ms_markers ms)) = ids ms).
  { change (fst <$> imap (fun i m => (mk_id m, i)) (ms_markers ms) = ids ms). rewrite fmap_imap. unfold ids.
    generalize (ms_markers ms). intros l. apply list_eq. intros k. rewrite list_lookup_imap, list_lookup_fmap.
    by destruct (l !! k). }
  pose proof (ok_ids _ Hok) as Hn. rewrite <-Hfst in Hn. rewrite collect_map_list_to_map by done.
  apply elem_of_list_to_map; [done|]. apply list_elem_of_lookup. exists i. by rewrite list_lookup_imap, Hi.
Qed.

Lemma marker_at ms x : x ∈ ids ms -> exists i m, ms_markers ms !! i = Some m /\ mk_id m = x.
Proof. intros (m & -> & (i & Hi)%list_elem_of_lookup)%list_elem_of_fmap_1. eauto. Qed.

(** The link that [capture] writes and [restore] reads back draws what the
    original draws. *)
Lemma link_restored channels ms ms' l :
  NoDup (map ci_id channels) -> NoDup (map ci_path channels) -> ms_ok ms -> ms_ok ms' ->
  map marker_data (ms_markers ms') = map marker_data (ms_markers ms) -> l ∈ ms_links ms ->
  Forall (fun i => is_Some (channels_by_id channels !! i)) (lk_signals l) ->
  exists ls q d, link_spec (channels_by_id channels)
      (collect_map (imap (fun i m => (mk_id m, i)) (ms_markers ms))) l = Some ls /\
    (ia ← ids ms' !! lks_a_index ls; ib ← ids ms' !! lks_b_index ls;
     Some (ia, ib, lks_y_frac ls, signals_resolved ls channels)) = Some q /\
    quad_data ms' q = Some d /\ quad_data ms (link_quad l) = Some d.
Proof.
  intros Hids Hpaths Hok Hok' Hdata Hl Hsig. pose proof (proj1 (Forall_forall _ _) (ok_ends _ Hok) l Hl) as [Ha Hb].
  assert (Hat : forall x, x ∈ ids ms -> exists i m m', ms_markers ms !! i = Some m /\ mk_id m = x /\
    ms_markers ms' !! i = Some m' /\ marker_data m' = marker_data m).
  { intros x (i & m & Hi & Hx)%marker_at. pose proof (f_equal (fun l => l !! i) Hdata) as He. cbn in He.
    rewrite !list_lookup_fmap, Hi in He. apply fmap_Some in He as (m' & Hm' & He). by exists i, m, m'. }
  destruct (Hat _ Ha) as (i & ma & ma' & Hi & Hia & Hi' & Hda), (Hat _ Hb) as (j & mb & mb' & Hj & Hjb & Hj' & Hdb).
  unfold link_spec, link_quad, quad_data. rewrite <-Hia, <-Hjb, (marker_index _ _ _ Hok Hi), (marker_index _ _ _ Hok Hj).
  cbn [mbind option_bind].
  do 3 eexists. split_and!; [done| | |].
  - cbn [lks_a_index lks_b_index lks_y_frac]. unfold ids. rewrite !list_lookup_fmap, Hi', Hj'.
    cbn [fmap option_fmap option_map mbind option_bind]. by rewrite signals_roundtrip.
  - cbn. rewrite (get_lookup _ _ _ Hok' Hi'), (get_lookup _ _ _ Hok' Hj'). cbn. by rewrite Hda, Hdb.
  - rewrite (get_lookup _ _ _ Hok Hi), (get_lookup _ _ _ Hok Hj). done.
Qed.

Lemma lookup_all `{Countable K} {V} (m : gmap K V) (l : list K) :
  (forall k, k ∈ l -> is_Some (m !! k)) -> exists vs, Forall2 (fun k v => m !! k = Some v) l vs.
Proof.
  induction l as [|k l IH]; intros Hl; [by exists []|]. destruct (Hl k) as [v Hv]; [apply elem_of_cons; by left|].
  destruct IH as [vs Hvs]; [intros x Hx; apply Hl, elem_of_cons; by right|]. exists (v :: vs). by constructor.
Qed.

Lemma restored_lookup {V W} (m : gmap Z V) (f : V -> W) order kinds j :
  Forall2 (fun pid k => m !! pid = Some k) order kinds ->
  (if decide (0 <= j < 0 + blen order) then f <$> kinds !! Z.to_nat j else None) =
  (if decide (0 <= j) then pid ← order !! Z.to_nat j; f <$> m !! pid else None).
Proof.
  intros Hk. destruct (decide (0 <= j)) as [Hj|Hj]; [|by rewrite decide_False by lia].
  destruct (order !! Z.to_nat j) as [pid|] eqn:E; cbn [mbind option_bind].
  - pose proof (lookup_lt_Some _ _ _ E). rewrite decide_True by (unfold blen; lia).
    destruct (Forall2_lookup_l _ _ _ _ _ Hk E) as (k & -> & ->). done.
  - apply lookup_ge_None in E. by rewrite decide_False by (unfold blen; lia).
Qed.

(** ** File names *)
Definition safe_byte (b : byte) : bool :=
  let z := byte_z b in is_digit z || is_lower z || (z =? 95) || (z =? 45).

(** A safe file name: lower-case letters, digits, [_] and [-] only (so no
    separator and no dot), not empty, no dash at either end. *)
Definition slug_safe (s : text) : Prop :=
  s <> [] /\ Forall (fun b => safe_byte b = true) s /\ head s <> Some x2d /\ last s <> Some x2d.

Lemma lower_safe b : slug_byte b = true -> safe_byte (lower_byte b) = true.
Proof. destruct b; vm_compute; congruence. Qed.

Lemma safe_fixed b : safe_byte b = true -> slug_byte b = true /\ lower_byte b = b /\ (byte_z b <? 128) = true.
Proof. destruct b; vm_compute; intros H; first [discriminate H|auto]. Qed.

Lemma slug_loop_safe cs out d :
  Forall (fun b => safe_byte b = true) out -> Forall (fun b => safe_byte b = true) (slug_loop cs out d).
Proof.
  revert out d. induction cs as [|c cs IH]; intros out d Ho; [done|]. cbn [slug_loop].
  destruct (slug_char c) eqn:E.
  - apply IH, Forall_app. split; [done|]. destruct c as [|b [|]]; try done. cbn. constructor; [|done]. by apply lower_safe.
  - destruct (negb d); apply IH; [|done]. apply Forall_app. split; [done|]. by repeat constructor.
Qed.

Lemma trim_start_suffix b s : exists k, s = k ++ trim_start b s.
Proof.
  induction s as [|c s [k IH]]; [by exists []|]. cbn. case_bool_decide; [|by exists []].
  exists (c :: k). cbn. by f_equal.
Qed.
Lemma trim_start_head b s : head (trim_start b s) <> Some b.
Proof. induction s as [|c s IH]; [done|]. cbn. case_bool_decide as E; [done|]. cbn. congruence. Qed.
Lemma trim_start_id b s : head s <> Some b -> trim_start b s = s.
Proof. destruct s as [|c s]; [done|]. cbn. intros H. rewrite bool_decide_eq_false_2; [done|]. congruence. Qed.

Lemma trim_matches_ends b s : head (trim_matches b s) <> Some b /\ last (trim_matches b s) <> Some b.
Proof.
  unfold trim_matches. split; [|rewrite last_reverse; apply trim_start_head].
  set (u := trim_start b s). pose proof (trim_start_head b s) as Hu. fold u in Hu.
  destruct (trim_start_suffix b (reverse u)) as [k Hk]. apply (f_equal reverse) in Hk.
  rewrite reverse_involutive, reverse_app in Hk. intros Hh. destruct (reverse (trim_start b (reverse u))) as [|x r]; [done|].
  apply Hu. rewrite Hk. exact Hh.
Qed.

Lemma trim_matches_Forall (P : byte -> Prop) b s : Forall P s -> Forall P (trim_matches b s).
Proof.
  intros Hs. unfold trim_matches. apply Forall_reverse. destruct (trim_start_suffix b s) as [k Hk].
  rewrite Hk in Hs. apply Forall_app in Hs as [_ Hs]. apply Forall_reverse in Hs.
  destruct (trim_start_suffix b (reverse (trim_start b s))) as [k' Hk']. rewrite Hk' in Hs. by apply Forall_app in Hs as [_ Hs].
Qed.

Lemma slug_is_safe name : slug_safe (slug name).
Proof.
  unfold slug. case_bool_decide as E.
  - split_and!; [done|by repeat constructor|done|done].
  - split_and!; [done| |apply trim_matches_ends..]. apply trim_matches_Forall, slug_loop_safe. constructor.
Qed.

(** A safe name is its own slug. *)
Lemma slug_fixed s : slug_safe s -> slug s = s.
Proof.
  intros (Hne & Hs & Hh & Hl). unfold slug.
  assert (Hc : chars s = map (fun b => [b]) s).
  { unfold chars. rewrite ascii_chunks; [by rewrite map_map|]. unfold is_ascii. apply forallb_forall.
    intros b Hb%list_elem_of_In. apply (proj1 (Forall_forall _ _) Hs), safe_fixed in Hb as (_ & _ & ->). done. }
  assert (Hloop : forall l out d, Forall (fun b => safe_byte b = true) l -> slug_loop (map (fun b => [b]) l) out d = out ++ l).
  { induction l as [|b l IH]; intros out d Hf; cbn [map slug_loop]; [by rewrite app_nil_r|].
    apply Forall_cons in Hf as [(Hb & Hlow & _)%safe_fixed Hf]. cbn [slug_char]. rewrite Hb, IH by done.
    cbn. by rewrite Hlow, <-app_assoc. }
  rewrite Hc, Hloop by done. cbn [app]. unfold trim_matches. rewrite (trim_start_id _ s) by done.
  rewrite trim_start_id; [|by rewrite <-last_reverse, reverse_involutive]. rewrite reverse_involutive.
  by rewrite bool_decide_eq_false_2.
Qed.

Lemma path_extension name : extension (path_for name) = Some (str "json").
Proof.
  unfold extension, path_for. change (str ".json") with (x2e :: str "json").
  rewrite rsplit_once_last; [|apply (bool_decide_unpack _); vm_compute; exact I].
  destruct (slug_is_safe name) as [Hne _]. by destruct (slug name).
Qed.

Lemma path_for_inj a b : path_for a = path_for b <-> slug a = slug b.
Proof. unfold path_for. split; [apply app_inj_2; done|by intros ->]. Qed.

Lemma list_step_mono `{D : DockLib} from_slice fs names file n :
  n ∈ names -> n ∈ list_step from_slice fs names file.
Proof. intros Hn. unfold list_step. repeat case_match; try done. rewrite elem_of_app. by left. Qed.

Lemma list_fold_mono `{D : DockLib} from_slice fs files names n :
  n ∈ names -> n ∈ foldl (list_step from_slice fs) names files.
Proof. revert names. induction files as [|f l IH]; intros names Hn; [done|]. cbn. by apply IH, list_step_mono. Qed.

(** ** Properties *)

Lemma layout_restored `{HO : HashOrder} `{D : DockLib} `{DL : !DockLaws D} pf channels plots
    (dock : DockState PlotId) markers name :
  NoDup (map ci_id channels) -> NoDup (map ci_path channels) ->
  map_Forall (fun _ k => restorable channels k) (pr_plots plots) ->
  Forall (fun t => is_Some (pr_plots plots !! t)) (iter_all_tabs dock) -> iter_all_tabs dock <> [] ->
  blen (capture_order plots dock) < u64_max ->
  let order := capture_order plots dock in
  NoDup order /\ (forall pid, pid ∈ order <-> is_Some (pr_plots plots !! pid)) /\
  exists plots' dock',
    apply pf (capture name plots dock (channels_by_id channels) markers) channels =
      Ok (plots', dock', ApplyReport_default) /\
    (forall j, pr_plots plots' !! j =
       if decide (0 <= j) then pid ← order !! Z.to_nat j; persisted <$> pr_plots plots !! pid else None) /\
    Forall2 (fun pid j => exists i, order !! i = Some pid /\ j = Z.of_nat i) (iter_all_tabs dock) (iter_all_tabs dock').
Proof.
  intros Hids Hpaths Hk Htabs Hne Hlen order.
  destruct (capture_order_spec plots dock Htabs) as [Hn Ho]. fold order in Hn, Ho, Hlen.
  split; [done|]. split; [done|].
  destruct (lookup_all (pr_plots plots) order) as [kinds Hkinds]; [by intros pid ?%Ho|].
  destruct (capture_steps channels plots order 0 (∅, []) kinds Hkinds Hn) as (Hspecs & Hidx & _).
  assert (Hlk : blen kinds = blen order) by (unfold blen; by rewrite (Forall2_length _ _ _ Hkinds)).
  destruct (specs_roundtrip channels Hids Hpaths pf kinds (mkApplyState PlotRegistry_new ApplyReport_default [] []))
    as (reg & Hspec & Hreg).
  { apply Forall_forall. intros k (i & Hi)%list_elem_of_lookup.
    destruct (Forall2_lookup_r _ _ _ _ _ Hkinds Hi) as (pid & _ & Hpid). by eapply Hk. }
  { done. } { cbn. lia. }
  unfold apply, capture. fold order. change (imap pair order) with (imap (fun i pid => ((0 + i)%nat, pid)) order).
  destruct (foldl _ _ (imap _ order)) as [idx_of specs]. cbn [fst snd app] in Hspecs, Hidx. subst specs.
  cbn [ly_plots ly_dock]. rewrite Hspec. cbn [mbind res_bind mret res_ret as_registry as_companions as_report as_new_ids app foldl].
  destruct (value_tabs (filter_tabs (fun i => negb (i =? usize_max))
    (map_tabs (fun pid => default usize_max (idx_of !! pid)) dock))) as (v & Hv & _). rewrite Hv. cbn [from_option id].
  do 2 eexists. split; [done|]. split.
  - intros j. rewrite Hreg. cbn [as_registry pr_next_id PlotRegistry_new pr_plots]. rewrite lookup_empty, Z.sub_0_r, Hlk.
    by apply restored_lookup.
  - eapply dock_roundtrip; [done|exact Hidx| |done| |by rewrite Hlk|exact Hv].
    + eapply Forall_impl; [exact Htabs|]. intros t. apply Ho.
    + unfold usize_max, u64_max in *. lia.
Qed.

(** C15: Layouts round-trip.  Capturing a workspace whose plots show channels
    of the session and applying the layout in that session rebuilds it, in
    both build profiles: every plot comes back exactly once (only the transient
    selection of a scalar panel is lost) with its channels, styles, lanes,
    columns and filters resolved through their paths, every dock tab shows the
    plot it showed, and nothing is reported missing or dropped.  Plots are
    renumbered by their position in the capture order. *)
Theorem layout_roundtrip `{HO : HashOrder} `{D : DockLib} `{DL : !DockLaws D} pf channels plots
    (dock : DockState PlotId) markers name :
  NoDup (map ci_id channels) -> NoDup (map ci_path channels) ->
  map_Forall (fun _ k => restorable channels k) (pr_plots plots) ->
  Forall (fun t => is_Some (pr_plots plots !! t)) (iter_all_tabs dock) -> iter_all_tabs dock <> [] ->
  blen (capture_order plots dock) < u64_max ->
  let order := capture_order plots dock in
  NoDup order /\ (forall pid, pid ∈ order <-> is_Some (pr_plots plots !! pid)) /\
  exists plots' dock',
    apply pf (capture name plots dock (channels_by_id channels) markers) channels =
      Ok (plots', dock', ApplyReport_default) /\
    (forall j, pr_plots plots' !! j =
       if decide (0 <= j) then pid ← order !! Z.to_nat j; persisted <$> pr_plots plots !! pid else None) /\
    Forall2 (fun pid j => exists i, order !! i = Some pid /\ j = Z.of_nat i) (iter_all_tabs dock) (iter_all_tabs dock').
Proof. apply layout_restored. Qed.

Lemma markers_restored `{HO : HashOrder} `{D : DockLib} pf channels plots (dock : DockState PlotId) ms ms0 name :
  NoDup (map ci_id channels) -> NoDup (map ci_path channels) -> ms_ok ms ->
  Forall (fun l => Forall (fun i => is_Some (channels_by_id channels !! i)) (lk_signals l)) (ms_links ms) ->
  blen (ms_markers ms) < u64_max - 1 -> blen (ms_links ms) < u64_max - 1 ->
  exists ms', load_markers pf ms0 (capture name plots dock (channels_by_id channels) ms) channels = Ok ms' /\
    ms_ok ms' /\ map marker_data (ms_markers ms') = map marker_data (ms_markers ms) /\
    link_data ms' = link_data ms /\ ms_selected ms' = None.
Proof.
  intros Hids Hpaths Hok Hsig Hm Hl. unfold load_markers, capture, restore.
  destruct (foldl _ _ _) as [idx specs]. cbn [ly_markers ly_links]. rewrite map_map. cbn [mks_t_ns mks_label mks_color].
  change (map _ (ms_markers ms)) with (map marker_data (ms_markers ms)).
  destruct (restore_markers_ok pf (map marker_data (ms_markers ms)) MarkerSet_new []) as (ms1 & E1 & Hok1 & Hn1);
    [apply new_ok|done|unfold blen in *; rewrite length_map; cbn; lia|].
  change (mkMarkerSet [] [] None 1 1) with MarkerSet_new. rewrite E1. cbn [mbind res_bind fst snd].
  destruct (restore_markers_content _ _ _ _ _ _ E1) as (Hmk & Hlk & Hsel). cbn in Hmk, Hlk, Hsel.
  set (specs' := omap (link_spec _ _) (ms_links ms)).
  destruct (restore_links_ok pf (map (fun l => (lks_a_index l, lks_b_index l, lks_y_frac l, signals_resolved l channels))
    specs') ms1 (ids ms1)) as (ms2 & E2 & Hok2); [done|by apply Forall_forall| |].
  { rewrite Hn1. unfold blen in *. rewrite length_map. cbn.
    pose proof (length_omap_le (link_spec (channels_by_id channels) (collect_map (imap (fun i m => (mk_id m, i)) (ms_markers ms)))) (ms_links ms)).
    unfold specs'. lia. }
  exists ms2. split; [done|]. destruct (restore_links_content _ _ _ _ _ E2) as (Hmk2 & Hsel2 & Hlk2).
  assert (Hdata : map marker_data (ms_markers ms2) = map marker_data (ms_markers ms)) by congruence.
  split_and!; [done|done| |congruence]. unfold link_data. rewrite Hlk2, Hlk. cbn [map app].
  replace (ids ms1) with (ids ms2) by (unfold ids; by rewrite Hmk2). unfold specs'.
  assert (Hall : Forall (fun l => l ∈ ms_links ms) (ms_links ms)) by (by apply Forall_forall).
  revert Hsig Hall. generalize (ms_links ms) at 1 3 4 5. intros links Hsig Hall. induction links as [|l links IH]; [done|].
  apply Forall_cons in Hsig as [Hs Hsig], Hall as [Hin Hall].
  destruct (link_restored channels ms ms2 l) as (ls & q & d & H1 & H2 & H3 & H4); [done..|].
  cbn [omap list_omap map]. rewrite H1. cbn [map omap list_omap]. rewrite H2. cbn [omap list_omap]. rewrite H3, H4.
  f_equal. by apply IH.
Qed.

(** Markers and links round-trip.  Saving a consistent marker graph in a
    layout and restoring it, in any marker set and both build profiles, gives a
    consistent graph with the same markers in the same order and the same links
    between them, with the same position and the same signals (resolved through
    their paths); nothing is selected. *)
Theorem markers_roundtrip `{HO : HashOrder} `{D : DockLib} pf channels plots (dock : DockState PlotId) ms ms0 name :
  NoDup (map ci_id channels) -> NoDup (map ci_path channels) -> ms_ok ms ->
  Forall (fun l => Forall (fun i => is_Some (channels_by_id channels !! i)) (lk_signals l)) (ms_links ms) ->
  blen (ms_markers ms) < u64_max - 1 -> blen (ms_links ms) < u64_max - 1 ->
  exists ms', load_markers pf ms0 (capture name plots dock (channels_by_id channels) ms) channels = Ok ms' /\
    ms_ok ms' /\ map marker_data (ms_markers ms') = map marker_data (ms_markers ms) /\
    link_data ms' = link_data ms /\ ms_selected ms' = None.
Proof. apply markers_restored. Qed.

(** Layout files.  Whatever the display name, the file name is safe
    (only lower-case letters, digits, underscore and dash before [.json], so it
    stays in the layouts directory, and a safe name is its own slug).  A layout
    of the current version that is saved is listed, loads back unchanged under
    every name with the same slug, and leaves files of other slugs alone;
    deleting it removes it.  Names with the same slug share one file. *)
Theorem save_load_roundtrip `{HO : HashOrder} `{D : DockLib} to_vec_pretty from_slice fs layout fs' :
  (forall l bytes, to_vec_pretty l = Some bytes -> from_slice bytes = Some l) ->
  save to_vec_pretty fs layout = Ok fs' -> ly_version layout = SCHEMA_VERSION ->
  (forall name, slug_safe (slug name) /\ slug (slug name) = slug name) /\
  (forall name, load from_slice fs' name =
     if decide (slug name = slug (ly_name layout)) then Ok layout else load from_slice fs name) /\
  ly_name layout ∈ list_layouts from_slice fs' /\
  (forall name, load from_slice (delete_layout fs' (ly_name layout)) name =
     if decide (slug name = slug (ly_name layout)) then Err NotFound else load from_slice fs name).
Proof.
  intros Hserde Hsave Hver. unfold save in Hsave. destruct (to_vec_pretty layout) as [bytes|] eqn:Eb; [|done].
  injection Hsave as <-. pose proof (Hserde _ _ Eb) as Hparse.
  assert (Hver' : version_supported (ly_version layout) = true /\ (ly_version layout =? 4) = false) by (by rewrite Hver).
  destruct Hver' as [Hv1 Hv2]. split_and!.
  - intros name. pose proof (slug_is_safe name). split; [done|]. by apply slug_fixed.
  - intros name. unfold load. case_decide as E.
    + apply path_for_inj in E. rewrite E, lookup_insert_eq, Hparse, Hv1, Hv2. done.
    + rewrite lookup_insert_ne; [done|]. intros E'. by apply E, path_for_inj.
  - unfold list_layouts. rewrite sort_by_perm.
    assert (Hin : path_for (ly_name layout) ∈ map fst (hash_iter (<[path_for (ly_name layout) := bytes]> fs))).
    { apply list_elem_of_fmap. exists (path_for (ly_name layout), bytes). split; [done|].
      apply elem_of_hash_iter, lookup_insert_eq. }
    apply list_elem_of_split in Hin as (l1 & l2 & ->). rewrite foldl_app. cbn [foldl]. apply list_fold_mono.
    unfold list_step at 1. rewrite bool_decide_eq_true_2 by apply path_extension.
    rewrite lookup_insert_eq, Hparse, Hv1. rewrite elem_of_app, list_elem_of_singleton. by right.
  - intros name. unfold load, delete_layout. case_decide as E.
    + apply path_for_inj in E. by rewrite E, lookup_delete_eq.
    + assert (path_for (ly_name layout) <> path_for name) by (intros E'; by apply E, path_for_inj).
      by rewrite lookup_delete_ne, lookup_insert_ne by done.
Qed.

(** ** A dock of leaves, for the witnesses *)
#[local] Instance list_dock : DockLib := {|
  DockState A := list (list A);
  Value := list (list Z);
  Null := [];
  dock_new A l := [l];
  iter_all_tabs A d := concat d;
  map_tabs A B f d := map (map f) d;
  filter_tabs A f d := map (List.filter f) d;
  filter_map_tabs A B f d := map (omap f) d;
  push_to_focused_leaf A d x := match d with [] => [[x]] | l :: d => (l ++ [x]) :: d end;
  split_right A d l := d ++ [l];
  leaves A d := d;
  set_leaf A d i tabs := <[i := tabs]> d;
  to_value d := Some d;
  from_value v := Some v;
|}.

#[local] Instance list_dock_laws : DockLaws list_dock.
Proof.
  split; cbn; try done.
  - intros. apply app_nil_r.
  - intros. symmetry. apply concat_map.
  - intros A f d. induction d as [|l d IH]; [done|]. cbn. by rewrite List.filter_app, IH.
  - intros A B f d. induction d as [|l d IH]; [done|]. cbn. rewrite IH. symmetry. apply omap_app.
  - intros A [|l d] x; cbn; [done|]. rewrite <-app_assoc. symmetry. apply Permutation_middle.
  - intros A d l. rewrite concat_app. cbn. by rewrite app_nil_r.
  - intros d. by exists d.
Qed.

#[local] Existing Instance gmap_order.

Definition demo_channels : list ChannelInfo :=
  [mkChannelInfo 5 (str "imu.x") Scalar false; mkChannelInfo 9 (str "imu.flags") Scalar true].
Definition demo_plots : PlotRegistry :=
  mkPlotRegistry
    {[ 7 := PScalar (mkScalarPanel (str "P") [5] {[ 5 := SignalStyle_default ]} {[ 5 ]});
       3 := PLogicAnalyser (mkLogicAnalyserPanel (str "L") [mkLogicLane 9 Numeric Bin]) ]} 8.

Definition demo_dock : @DockState list_dock PlotId := [[7]; [3]].

Lemma layout_roundtrip_witness : exists plots' dock',
  apply Debug (capture (str "demo") demo_plots demo_dock (channels_by_id demo_channels)
    MarkerSet_new) demo_channels = Ok (plots', dock', ApplyReport_default).
Proof.
  destruct (layout_roundtrip Debug demo_channels demo_plots demo_dock MarkerSet_new (str "demo"))
    as (_ & _ & plots' & dock' & E & _).
  - apply (bool_decide_unpack _). vm_compute. exact I.
  - apply (bool_decide_unpack _). vm_compute. exact I.
  - unfold demo_plots. cbn [pr_plots]. apply map_Forall_insert_2; [|apply map_Forall_singleton].
    + split_and!; [apply NoDup_singleton|repeat constructor; by eexists|]. apply map_Forall_singleton. by eexists.
    + split; [apply NoDup_singleton|]. constructor; [|constructor]. eexists. split_and!; done.
  - repeat constructor; by eexists.
  - done.
  - vm_compute. reflexivity.
  - exists plots', dock'. exact E.
Defined.

Lemma markers_roundtrip_witness : exists ms',
  load_markers Debug MarkerSet_new (capture (str "demo") demo_plots demo_dock
    (channels_by_id demo_channels) demo_markers) demo_channels = Ok ms'.
Proof.
  destruct (markers_roundtrip Debug demo_channels demo_plots demo_dock demo_markers MarkerSet_new
    (str "demo")) as (ms' & E & _).
  - apply (bool_decide_unpack _). vm_compute. exact I.
  - apply (bool_decide_unpack _). vm_compute. exact I.
  - exact demo_markers_ok.
  - repeat constructor.
  - vm_compute. reflexivity.
  - vm_compute. reflexivity.
  - exists ms'. exact E.
Defined.

(** A serialiser that can be read back: one layout, one file. *)
Definition demo_layout : Layout := mkLayout _ 6 (str "My Rig!") [] [] [] [].
Definition demo_files : gmap text text := {[ str "my-rig.json" := str "{}" ]}.

Definition demo_to_vec (l : @Layout list_dock) : option text :=
  match l with
  | mkLayout _ v name [] [] [] [] => if bool_decide (v = 6 /\ name = str "My Rig!") then Some (str "{}") else None
  | _ => None
  end.
Definition demo_from_slice (b : text) : option (@Layout list_dock) :=
  if bool_decide (b = str "{}") then Some demo_layout else None.

Lemma demo_saved : save demo_to_vec ∅ demo_layout = Ok demo_files.
Proof.
  assert (E : path_for (ly_name demo_layout) = str "my-rig.json") by (vm_compute; reflexivity).
  assert (E' : demo_to_vec demo_layout = Some (str "{}")) by (vm_compute; reflexivity).
  unfold save. by rewrite E', E.
Qed.

Lemma save_load_roundtrip_witness : load demo_from_slice demo_files (str "my rig") = Ok demo_layout.
Proof.
  refine (proj1 (proj2 (save_load_roundtrip demo_to_vec demo_from_slice ∅ demo_layout demo_files _ _ _)) (str "my rig")).
  - intros [v n [|] [|] [|] [|]] bytes; try done. cbn. case_bool_decide as E; [|done]. destruct E as [-> ->].
    intros [= <-]. done.
  - exact demo_saved.
  - reflexivity.
Defined.

(** [capture] numbers plots by their position in the order although it skips
    tabs without a plot: with a stale tab in front, the first plot's tab comes
    back as the second plot (1) and the second plot's tab is lost. *)
Example capture_stale_tab :
  match apply Debug (capture (str "demo") demo_plots ([99] :: demo_dock : @DockState list_dock PlotId)
          (channels_by_id demo_channels) MarkerSet_new) demo_channels with
  | Ok (plots', dock', _) => (concat dock', plot_title <$> pr_plots plots' !! 1) = ([1], Some (str "L"))
  | _ => False
  end.
Proof. vm_compute. reflexivity. Qed.
