(* ===== verification/LayoutApply.v ===== *)
(** * btelem-viewer: what applying a layout gives, whatever the file says

    Layout.v shows that a captured layout is restored.  A layout file can also
    be old, edited by hand or made for another device; this file shows that
    [apply] (viewer/crates/btelem-viewer/src/layout.rs 585-903) still returns a
    well-formed workspace: a consistent registry, no tab without its plot, and a
    tab for every plot that a legacy specification was split into. *)

From S2P Require Import Prelude Slices Text Float64 Store ViewPanels ViewGroups ViewMarkers Layout.

(** ** Panels never list a channel twice *)
Lemma scalar_add_nodup p info : NoDup (sp_channels p) -> NoDup (sp_channels (scalar_add p info).1).
Proof.
  intros Hn. unfold scalar_add. case_bool_decide; cbn [negb]; [|done]. case_bool_decide; [done|]. cbn.
  apply NoDup_app. split_and!; [done| |apply NoDup_singleton]. by intros x Hx ->%list_elem_of_singleton.
Qed.

Lemma logic_add_nodup p info : NoDup (map ll_ch (la_lanes p)) -> NoDup (map ll_ch (la_lanes (logic_add p info).1)).
Proof.
  intros Hn. destruct (accepts_logic info) eqn:E.
  - rewrite logic_add_channels by done. case_bool_decide; [done|].
    apply NoDup_app. split_and!; [done| |apply NoDup_singleton]. by intros x Hx ->%list_elem_of_singleton.
  - unfold logic_add. by rewrite E.
Qed.

Lemma lane_update_nodup {X} (upd : LogicAnalyserPanel -> ChannelId -> X -> option LogicAnalyserPanel) p id f :
  (forall q, upd p id f = Some q -> map ll_ch (la_lanes q) = map ll_ch (la_lanes p)) ->
  map ll_ch (la_lanes (default p (upd p id f))) = map ll_ch (la_lanes p).
Proof. intros H. destruct (upd p id f) as [q|]; [by apply H|done]. Qed.

Lemma radix_channels p id f q : radix_for_mut p id f = Some q -> map ll_ch (la_lanes q) = map ll_ch (la_lanes p).
Proof. unfold radix_for_mut. intros (l & H & ->)%fmap_Some. cbn. eapply update_lane_channels; [|exact H]. done. Qed.
Lemma mode_channels p id f q : mode_for_mut p id f = Some q -> map ll_ch (la_lanes q) = map ll_ch (la_lanes p).
Proof. unfold mode_for_mut. intros (l & H & ->)%fmap_Some. cbn. eapply update_lane_channels; [|exact H]. done. Qed.

Section apply.
Context `{HO : HashOrder} `{D : DockLib}.

Lemma scalar_paths_nodup by_path acc paths : NoDup (sp_channels acc.1) ->
  NoDup (sp_channels (foldl (apply_scalar_path by_path) acc paths).1).
Proof.
  revert acc. induction paths as [|path paths IH]; intros acc Hn; [done|]. cbn. apply IH.
  unfold apply_scalar_path. destruct (_ !! path) as [info|]; [|done].
  case_bool_decide; [|done]. by apply scalar_add_nodup.
Qed.

Lemma apply_style_channels by_path b p l :
  sp_channels (foldl (apply_style by_path b) p l) = sp_channels p.
Proof.
  revert p. induction l as [|x l IH]; intros p; [done|]. cbn. rewrite IH. unfold apply_style.
  destruct (_ !! x.1); [|done]. by destruct (_ || _).
Qed.

Lemma state_paths_nodup by_path acc paths : NoDup (map ll_ch (la_lanes acc.1.1)) ->
  NoDup (map ll_ch (la_lanes (foldl (apply_state_path by_path) acc paths).1.1)).
Proof.
  revert acc. induction paths as [|path paths IH]; intros [[p b] r] Hn; [done|]. cbn [foldl]. apply IH.
  unfold apply_state_path. destruct (_ !! path) as [info|]; [|done].
  destruct (Layout.is_state _); [|done]. by apply logic_add_nodup.
Qed.

Lemma lanes_nodup by_path acc lanes : NoDup (map ll_ch (la_lanes acc.1)) ->
  NoDup (map ll_ch (la_lanes (foldl (apply_lane by_path) acc lanes).1)).
Proof.
  revert acc. induction lanes as [|l lanes IH]; intros acc Hn; [done|]. cbn [foldl]. apply IH.
  unfold apply_lane. destruct (_ !! _) as [info|]; [|done]. destruct (_ || _); [|done].
  pose proof (logic_add_nodup acc.1 info Hn) as Ha. destruct (logic_add acc.1 info) as [p []]; cbn [fst] in *; [|done].
  rewrite (lane_update_nodup mode_for_mut) by (intros; by eapply mode_channels).
  by rewrite (lane_update_nodup radix_for_mut) by (intros; by eapply radix_channels).
Qed.

(** ** One specification *)
Record apply_ok (st : apply_state) (n : Z) : Prop := {
  ao_registry : registry_ok (as_registry st);
  ao_next : 0 <= pr_next_id (as_registry st) <= n;
  ao_new : forall i, Some i ∈ as_new_ids st -> is_Some (pr_plots (as_registry st) !! i);
  ao_comp : forall c, c ∈ as_companions st -> is_Some (pr_plots (as_registry st) !! c.2);
  ao_anchor : forall c, c ∈ as_companions st -> Some c.1 ∈ as_new_ids st;
  ao_all : forall i, is_Some (pr_plots (as_registry st) !! i) -> Some i ∈ as_new_ids st \/ i ∈ map snd (as_companions st);
}.

Lemma insert_keeps {A} (m : gmap Z A) i k j : is_Some (m !! j) -> is_Some (<[i:=k]> m !! j).
Proof. destruct (decide (i = j)) as [->|]; [by rewrite lookup_insert_eq|by rewrite lookup_insert_ne]. Qed.

(** A plot that becomes the next entry. *)
Lemma insert_new_ok pf st n kind report :
  apply_ok st n -> n < u64_max -> NoDup (plot_channels kind) ->
  returns (registry_insert pf (as_registry st) kind) (fun r =>
    is_Some (pr_plots r.1 !! r.2) /\
    apply_ok (mkApplyState r.1 report (as_new_ids st ++ [Some r.2]) (as_companions st)) (n + 1)).
Proof.
  intros [Hr Hn H1 H2 Ha H3] Hm Hk.
  assert (Hnx : pr_next_id (as_registry st) < u64_max) by lia.
  destruct (registry_insert_fresh pf (as_registry st) kind Hr Hk ltac:(lia)) as (r' & E & Hr' & _ & Hp).
  exists (r', pr_next_id (as_registry st)). split; [done|]. cbn [fst snd]. rewrite Hp. split; [by rewrite lookup_insert_eq|].
  assert (Hnext : pr_next_id r' = pr_next_id (as_registry st) + 1).
  { unfold registry_insert in E. rewrite arith_ok in E by (unfold in_u, u64_max in *; lia). by injection E as <-. }
  split; cbn; rewrite ?Hp; [done|lia| | | |].
  - intros i Hi. apply elem_of_app in Hi as [Hi|[= ->]%list_elem_of_singleton]; [by apply insert_keeps, H1|by rewrite lookup_insert_eq].
  - intros c Hc. by apply insert_keeps, H2.
  - intros c Hc. apply elem_of_app. left. by apply Ha.
  - intros i. rewrite elem_of_app, list_elem_of_singleton. destruct (decide (pr_next_id (as_registry st) = i)) as [->|Hne].
    + intros _. left. by right.
    + rewrite lookup_insert_ne by done. intros Hi. destruct (H3 i Hi); tauto.
Qed.

(** A plot added next to another. *)
Lemma insert_companion_ok pf st n anchor kind :
  apply_ok st n -> n < u64_max -> NoDup (plot_channels kind) -> Some anchor ∈ as_new_ids st ->
  returns (registry_insert pf (as_registry st) kind) (fun r =>
    apply_ok (mkApplyState r.1 (as_report st) (as_new_ids st) (as_companions st ++ [(anchor, r.2)])) (n + 1)).
Proof.
  intros Hok Hm Hk Hanc. eapply returns_impl; [by apply (insert_new_ok pf st n kind (as_report st))|].
  intros r [Hi [Hr Hn H1 H2 _ H3]]. cbn in *. split; cbn; [done|done| | | |].
  - intros i Hin. apply H1, elem_of_app. by left.
  - intros c Hc. apply elem_of_app in Hc as [Hc|Hc]; [by apply H2|]. apply list_elem_of_singleton in Hc. by subst c.
  - intros c Hc. apply elem_of_app in Hc as [Hc|Hc]; [by apply (ao_anchor _ _ Hok)|]. apply list_elem_of_singleton in Hc. by subst c.
  - intros i Hin. rewrite map_app, elem_of_app. cbn. rewrite list_elem_of_singleton.
    destruct (H3 i Hin) as [Hx|Hx]; [|tauto]. apply elem_of_app in Hx as [Hx|Hx]; [tauto|].
    apply list_elem_of_singleton in Hx as [= ->]. tauto.
Qed.

Lemma insert_plot_ok pf st n kind report :
  apply_ok st n -> n < u64_max -> NoDup (plot_channels kind) ->
  returns (insert_plot pf st kind report) (fun st' => apply_ok st' (n + 1)).
Proof.
  intros Hok Hn Hk. unfold insert_plot. eapply returns_bind; [by apply (insert_new_ok pf st n kind report)|].
  intros r [_ Hr]. by apply returns_ret.
Qed.

Lemma apply_ok_more st n n' : apply_ok st n -> n <= n' -> apply_ok st n'.
Proof. intros [] ?. split; [done|lia|done|done|done|done]. Qed.

Lemma apply_spec_ok pf channels by_path st spec n :
  apply_ok st n -> n + 1 < u64_max ->
  returns (apply_spec pf channels by_path st spec) (fun st' => apply_ok st' (n + 2)).
Proof.
  intros Hok Hn.
  assert (Hone : forall kind report, NoDup (plot_channels kind) ->
    returns (insert_plot pf st kind report) (fun st' => apply_ok st' (n + 2))).
  { intros kind report Hk. eapply returns_impl; [apply insert_plot_ok; [done|lia|done]|]. intros st' H.
    eapply apply_ok_more; [exact H|lia]. }
  assert (Hdrop : forall report, returns (mret (mkApplyState (as_registry st) report (as_new_ids st ++ [None])
    (as_companions st)) : total apply_state) (fun st' => apply_ok st' (n + 2))).
  { intros report. apply returns_ret. destruct Hok as [Hr Hx H1 H2 Ha H3]. split; cbn; [done|lia| |done| |].
    - intros i Hi. apply elem_of_app in Hi as [Hi|Hi%list_elem_of_singleton]; [by apply H1|done].
    - intros c Hc. apply elem_of_app. left. by apply Ha.
    - intros i Hi. rewrite elem_of_app. destruct (H3 i Hi); tauto. }
  destruct spec as [title scalars states styles|title paths styles|title lanes|title lanes|title group vis fs cb pb mr|title x y trail];
    cbn [apply_spec].
  - destruct (foldl (apply_scalar_path by_path) _ scalars) as [sp report] eqn:E.
    assert (Hk : NoDup (plot_channels (PScalar (foldl (apply_style by_path true) sp (hash_iter styles))))).
    { cbn. rewrite apply_style_channels. change sp with ((sp, report).1). rewrite <-E.
      apply scalar_paths_nodup. constructor. }
    eapply returns_bind; [apply (insert_new_ok pf st n _ report Hok); [lia|exact Hk]|]. intros r [Hr Hok1].
    assert (Hret : forall report', returns (mret (mkApplyState r.1 report' (as_new_ids st ++ [Some r.2]) (as_companions st))
      : total apply_state) (fun st' => apply_ok st' (n + 2))).
    { intros report'. apply returns_ret. destruct Hok1 as [G1 G2 G3 G4 G5 G6]. split; cbn in *; [done|lia|done|done|done|done]. }
    case_bool_decide; [apply Hret|].
    destruct (foldl (apply_state_path by_path) _ states) as [[chart had] report'] eqn:E2.
    destruct had; [|apply Hret].
    eapply returns_bind.
    + apply (insert_companion_ok pf (mkApplyState r.1 report' (as_new_ids st ++ [Some r.2]) (as_companions st)) (n + 1) r.2
        (PLogicAnalyser chart)); [|lia| |].
      * destruct Hok1 as [G1 G2 G3 G4 G5 G6]. by split.
      * cbn. change chart with ((chart, true, report').1.1). rewrite <-E2. apply state_paths_nodup. constructor.
      * cbn. apply elem_of_app. right. by apply list_elem_of_singleton.
    + intros r' Hok2. apply returns_ret. cbn in Hok2. eapply apply_ok_more; [exact Hok2|lia].
  - destruct (foldl (apply_scalar_path by_path) _ paths) as [sp report] eqn:E. apply Hone. cbn.
    rewrite apply_style_channels. change sp with ((sp, report).1). rewrite <-E. apply scalar_paths_nodup. constructor.
  - destruct (foldl (apply_state_path by_path) _ lanes) as [[p b] report] eqn:E. apply Hone. cbn.
    change p with ((p, b, report).1.1). rewrite <-E. apply state_paths_nodup. constructor.
  - destruct (foldl (apply_lane by_path) _ lanes) as [p report] eqn:E. apply Hone. cbn.
    change p with ((p, report).1). rewrite <-E. apply lanes_nodup. constructor.
  - apply Hone. constructor.
  - unfold apply_xy. destruct (by_path !! x) as [xi|]; [|apply Hdrop]. destruct (by_path !! y) as [yi|]; [|apply Hdrop].
    destruct (_ && _); [apply Hone; constructor|apply Hdrop].
Qed.

Lemma apply_specs_ok pf channels by_path specs st n :
  apply_ok st n -> n + 2 * blen specs <= u64_max ->
  returns (apply_specs pf channels by_path specs st) (fun st' => apply_ok st' (n + 2 * blen specs)).
Proof.
  revert st n. induction specs as [|spec specs IH]; intros st n Hok Hn; cbn [apply_specs].
  - apply returns_ret. eapply apply_ok_more; [done|]. unfold blen. cbn. lia.
  - rewrite blen_cons in *. pose proof (blen_nonneg specs).
    eapply returns_bind; [apply (apply_spec_ok pf channels by_path st spec n Hok); lia|]. intros st' Hok'.
    eapply returns_impl; [apply (IH st' (n + 2) Hok'); lia|]. intros st'' H'. eapply apply_ok_more; [exact H'|lia].
Qed.

(** ** The dock *)
Context `{DL : !DockLaws D}.

Lemma build_dock_tabs v new_ids :
  omap id new_ids <> [] -> forall pid, pid ∈ iter_all_tabs (build_dock v new_ids) -> Some pid ∈ new_ids.
Proof using DL.
  intros Hne.
  assert (Hfb : forall pid, pid ∈ iter_all_tabs (fallback_dock new_ids) -> Some pid ∈ new_ids).
  { intros pid. unfold fallback_dock. destruct (omap id new_ids) as [|x l] eqn:E; [done|]. rewrite new_tabs, <-E.
    rewrite list_elem_of_omap. intros (o & Ho & Hid). cbn in Hid. by subst o. }
  intros pid. unfold build_dock. destruct (from_value v) as [du|]; [|apply Hfb].
  destruct (iter_all_tabs (filter_map_tabs _ du)) eqn:E; [apply Hfb|]. rewrite filter_map_tabs_tabs, list_elem_of_omap.
  intros (i & _ & Hi). apply bind_Some in Hi as (o & Ho & ->). by eapply list_elem_of_lookup_2.
Qed.

Lemma add_companion_tabs dock pc : iter_all_tabs (add_companion dock pc) ≡ₚ pc.2 :: iter_all_tabs dock.
Proof using DL.
  unfold add_companion. destruct (insert_next_to dock pc.1 pc.2) as [d|] eqn:E; [|apply push_tabs].
  unfold insert_next_to in E. apply bind_Some in E as ([i tabs] & Hf & [= <-]).
  apply list_find_Some in Hf as (Hi & _ & _). rewrite !leaf_tabs, set_leaf_leaves.
  rewrite insert_take_drop by (by eapply lookup_lt_Some).
  assert (E : concat (leaves dock) = (concat (take i (leaves dock)) ++ tabs) ++ concat (drop (S i) (leaves dock))).
  { rewrite <-(take_drop_middle _ _ _ Hi) at 1. rewrite concat_app, <-app_assoc. done. }
  rewrite E, concat_app. cbn [concat]. rewrite <-(app_assoc tabs), app_assoc. cbn [app]. by rewrite <-Permutation_middle.
Qed.

Lemma companions_tabs cs dock : iter_all_tabs (foldl add_companion dock cs) ≡ₚ map snd cs ++ iter_all_tabs dock.
Proof using DL.
  revert dock. induction cs as [|c cs IH]; intros dock; [done|]. cbn. rewrite IH, add_companion_tabs.
  by rewrite Permutation_middle.
Qed.

(** Applying any layout. *)
Lemma apply_wf pf layout channels : 2 * blen (ly_plots layout) <= u64_max ->
  returns (apply pf layout channels) (fun r =>
    let '(plots, dock, _) := r in
    registry_ok plots /\ 0 <= pr_next_id plots <= 2 * blen (ly_plots layout) /\
    (pr_plots plots <> ∅ -> forall pid, pid ∈ iter_all_tabs dock -> is_Some (pr_plots plots !! pid))).
Proof using DL.
  intros Hn. unfold apply.
  eapply returns_bind; [eapply (apply_specs_ok _ _ _ _ _ 0); [|lia]|].
  { split; cbn; try (by intros ? ?%not_elem_of_nil); [split; cbn; [apply map_Forall_empty|]|lia|];
      intros i; rewrite lookup_empty; by intros []%is_Some_None. }
  intros st [Hr Hx H1 H2 Ha H3]. apply returns_ret. split_and!; [done|lia|lia|].
  intros Hne pid. rewrite companions_tabs, elem_of_app. intros [Hc|Hd].
  - apply list_elem_of_fmap in Hc as (c & -> & Hc). by apply H2.
  - apply H1. eapply build_dock_tabs; [|exact Hd].
    assert (exists i, Some i ∈ as_new_ids st) as [i Hi].
    { destruct (map_choose _ Hne) as (i & k & Hi). destruct (H3 i ltac:(by eexists)) as [|Hs]; [by exists i|].
      apply list_elem_of_fmap in Hs as (c & -> & Hc). exists c.1. by apply Ha. }
    intros E. assert (i ∈ omap id (as_new_ids st)) as Hin by (apply list_elem_of_omap; by exists (Some i)).
    rewrite E in Hin. by apply not_elem_of_nil in Hin.
Qed.
End apply.
