(* ===== verification/LayoutV4.v ===== *)
(** * btelem-viewer: the chains of version 4 layouts

    [migrate_chains_to_links] of viewer/crates/btelem-viewer/src/layout.rs (modelled
    in Layout.v) against its specification: a chain becomes the links between each
    of its markers and the next. *)

From Stdlib Require Import Sorted.
From S2P Require Import Prelude Slices Text Float64 Store ViewPanels ViewMarkers Layout.

(** The markers of a chain, by position. *)
Definition in_chain (markers : list MarkerSpec) (c : Z) (i : nat) : Prop :=
  exists mk, markers !! i = Some mk /\ mks_chain mk = Some c.

(** [j] is the next marker of the chain after [i]. *)
Definition next_in_chain (markers : list MarkerSpec) (c : Z) (i j : nat) : Prop :=
  in_chain markers c i /\ in_chain markers c j /\ (i < j)%nat /\
  forall k, in_chain markers c k -> ~ (i < k < j)%nat.

(** ** Grouping *)
Lemma chain_groups_snoc markers mk :
  chain_groups (markers ++ [mk]) = chain_push (chain_groups markers) (length markers, mk).
Proof. unfold chain_groups. rewrite imap_app, foldl_app. cbn [imap foldl]. unfold compose. by rewrite Nat.add_0_r. Qed.

Lemma in_chain_snoc markers mk c i :
  in_chain (markers ++ [mk]) c i <-> in_chain markers c i \/ i = length markers /\ mks_chain mk = Some c.
Proof.
  unfold in_chain. split.
  - intros (x & [Hx|[? Hx]]%lookup_app_Some & Hc); [left; by exists x|].
    apply list_lookup_singleton_Some in Hx as [? <-]. right. split; [lia|done].
  - intros [(x & Hx & Hc)|[-> Hc]]; [exists x; split; [by apply lookup_app_l_Some|done]|].
    exists mk. split; [|done]. by apply list_lookup_middle.
Qed.

Lemma in_chain_lt markers c i : in_chain markers c i -> (i < length markers)%nat.
Proof. intros (x & Hx & _). by eapply lookup_lt_Some. Qed.

(** Each group holds the positions of its chain, once. *)
Lemma chain_groups_spec markers c :
  let l := default [] (chain_groups markers !! c) in
  NoDup l /\ forall i, i ∈ l <-> in_chain markers c i.
Proof.
  cbv zeta. revert c. induction markers as [|mk markers IH] using rev_ind; intros c.
  { split; [constructor|]. intros i. unfold in_chain. cbn. split; [by intros ?%elem_of_nil|by intros (x & Hx & _)]. }
  rewrite chain_groups_snoc. setoid_rewrite in_chain_snoc. destruct (IH c) as [Hnd Hin]. unfold chain_push. cbn [fst snd].
  destruct (mks_chain mk) as [c'|] eqn:Ec; [|split; [done|]; intros i; rewrite Hin; split; [tauto|by intros [?|[_ ?]]]].
  destruct (decide (c' = c)) as [->|Hne].
  - rewrite lookup_insert_eq. cbn [default from_option id]. split.
    + apply NoDup_app. split_and!; [done| |by apply NoDup_singleton].
      intros i Hi ->%list_elem_of_singleton. apply Hin, in_chain_lt in Hi. lia.
    + intros i. rewrite elem_of_app, list_elem_of_singleton, Hin. split; [intros [?| ->]; auto|intros [?|[-> _]]; auto].
  - rewrite lookup_insert_ne by done. split; [done|]. intros i. rewrite Hin. split; [tauto|]. intros [?|[_ ?]]; [done|congruence].
Qed.

(** ** Neighbours in a sorted list *)
Lemma windows2_spec l i j : StronglySorted lt l ->
  (i, j) ∈ windows2 l <-> i ∈ l /\ j ∈ l /\ (i < j)%nat /\ forall k, k ∈ l -> ~ (i < k < j)%nat.
Proof.
  unfold windows2. induction 1 as [|a l Hs IH Ha]; [cbn; rewrite !elem_of_nil; tauto|].
  rewrite Forall_forall in Ha. destruct l as [|b l]; cbn [tail zip zip_with] in *.
  { rewrite elem_of_nil, !list_elem_of_singleton. split; [done|]. intros (-> & -> & H & _). lia. }
  assert (Hb : forall k, k ∈ l -> (b < k)%nat) by (apply StronglySorted_inv in Hs as [_ Hf]; by rewrite Forall_forall in Hf).
  assert (Ha' : forall k, k = b \/ k ∈ l -> (a < k)%nat) by (intros k; rewrite <-elem_of_cons; apply Ha).
  rewrite elem_of_cons, IH. clear IH Ha Hs. pose proof (Ha' b (or_introl eq_refl)).
  assert (Hm : forall k, k ∈ a :: b :: l <-> k = a \/ k = b \/ k ∈ l) by (intros k; by rewrite !elem_of_cons).
  assert (Hm' : forall k, k ∈ b :: l <-> k = b \/ k ∈ l) by (intros k; by rewrite elem_of_cons).
  setoid_rewrite Hm. setoid_rewrite Hm'. clear Hm Hm'. split.
  - intros [[= -> ->]|(H1 & H2 & H3 & H4)].
    + split_and!; [by left|right; by left|done|]. intros k [->|[->|Hk]]; [lia|lia|]. specialize (Hb k Hk). lia.
    + split_and!; [by right|by right|done|]. intros k [->|Hk]; [|by apply H4]. apply Ha' in H1. lia.
  - intros (H1 & H2 & H3 & H4). destruct H1 as [->|H1].
    + left. destruct H2 as [->|[->|H2]]; [lia|done|]. exfalso. apply (H4 b); [right; by left|]. specialize (Hb j H2). lia.
    + right. destruct H2 as [->|H2]; [apply Ha' in H1; lia|]. split_and!; [done|done|done|]. intros k Hk. apply H4. by right.
Qed.

Lemma sort_strict l : NoDup l -> StronglySorted lt (sort_by Nat.leb l).
Proof.
  intros Hnd. assert (Hs : StronglySorted (fun a b => Nat.leb a b = true) (sort_by Nat.leb l)).
  { apply sort_by_sorted; [intros a b|intros a b c]; rewrite !Nat.leb_le; lia. }
  assert (Hd : NoDup (sort_by Nat.leb l)) by (by rewrite sort_by_perm).
  induction Hs as [|a k Hs IH Ha]; [constructor|]. apply NoDup_cons in Hd as [Hn Hd]. constructor; [by apply IH|].
  rewrite Forall_forall in Ha |- *. intros x Hx. specialize (Ha x Hx). rewrite Nat.leb_le in Ha.
  assert (a <> x) by (by intros ->). lia.
Qed.

Section migrate.
Context `{HO : HashOrder} (markers : list MarkerSpec).

Lemma chain_links_spec c l : chain_groups markers !! c = Some l ->
  NoDup (chain_links l) /\
  forall x, x ∈ chain_links l <-> exists i j, x = mkLinkSpec i j y_half [] /\ next_in_chain markers c i j.
Proof.
  intros Hc. pose proof (chain_groups_spec markers c) as H. rewrite Hc in H. cbv zeta in H. cbn [default from_option id] in H.
  destruct H as [Hnd Hin]. pose proof (sort_strict l Hnd) as Hs.
  assert (Hm : forall i, i ∈ sort_by Nat.leb l <-> in_chain markers c i) by (intros i; by rewrite sort_by_perm).
  split.
  - unfold chain_links. apply NoDup_fmap_2; [|apply NoDup_zip_l; by rewrite sort_by_perm].
    intros [a b] [a' b'] E. cbn in E. congruence.
  - intros x. unfold chain_links. rewrite list_elem_of_fmap. unfold next_in_chain. setoid_rewrite <-Hm. split.
    + intros ([i j] & -> & Hw). exists i, j. split; [done|]. by apply windows2_spec.
    + intros (i & j & -> & Hw). exists (i, j). split; [done|]. by apply windows2_spec.
Qed.

Lemma in_chain_inj c c' i : in_chain markers c i -> in_chain markers c' i -> c = c'.
Proof. intros (x & Hx & Hc) (x' & Hx' & Hc'). congruence. Qed.

Lemma chain_links_disjoint L : NoDup (map fst L) -> (forall c l, (c, l) ∈ L -> chain_groups markers !! c = Some l) ->
  NoDup (concat (map (fun '(_, l) => chain_links l) L)).
Proof.
  induction L as [|[c l] L IH]; intros Hnd HL; cbn [map concat fst] in *; [constructor|].
  apply NoDup_cons in Hnd as [Hc Hnd]. destruct (chain_links_spec c l (HL c l ltac:(left))) as [H1 H2].
  apply NoDup_app. split_and!; [done| |apply IH; [done|intros ? ? ?; apply HL; by right]].
  intros x Hx Hx'. apply list_elem_of_In, in_concat in Hx' as (ls & Hls & Hx').
  apply list_elem_of_In in Hls, Hx'. apply list_elem_of_fmap in Hls as ([c' l'] & -> & HL').
  destruct (chain_links_spec c' l' (HL c' l' ltac:(by right))) as [_ H2'].
  apply H2 in Hx as (i & j & -> & Hn & _). apply H2' in Hx' as (i' & j' & [= <- <-] & Hn' & _).
  apply Hc. rewrite (in_chain_inj c c' i) by done. apply (list_elem_of_fmap_2 fst L (c', l')). exact HL'.
Qed.
End migrate.

(** Migration of a version 4 file.  Loading it keeps its markers and gives it one
    link for every two consecutive markers of a chain, in the middle of the plot
    and without signals, each once, whatever the order in which the chains are
    visited; markers of different chains, or of none, are not linked. *)
Theorem load_migrates_chains `{HO : HashOrder} `{D : DockLib} from_slice fs name bytes layout :
  fs !! path_for name = Some bytes -> from_slice bytes = Some layout -> ly_version layout = 4 -> ly_links layout = [] ->
  exists layout', load from_slice fs name = Ok layout' /\ ly_version layout' = SCHEMA_VERSION /\
    ly_markers layout' = ly_markers layout /\ ly_plots layout' = ly_plots layout /\ NoDup (ly_links layout') /\
    forall x, x ∈ ly_links layout' <-> exists c i j, x = mkLinkSpec i j y_half [] /\ next_in_chain (ly_markers layout) c i j.
Proof.
  intros Hf Hb Hv Hl. unfold load. rewrite Hf, Hb, Hv, Hl. cbn. eexists. split; [done|]. cbn. split_and!; [done|done|done| |].
  - apply (chain_links_disjoint (ly_markers layout)); [apply hash_iter_nodup|]. intros c l. apply elem_of_hash_iter.
  - intros x. unfold migrate_chains_to_links. rewrite list_elem_of_In, in_concat. split.
    + intros (ls & Hls & Hx). apply list_elem_of_In in Hls, Hx. apply list_elem_of_fmap in Hls as ([c l] & -> & Hc).
      apply elem_of_hash_iter in Hc. apply (chain_links_spec (ly_markers layout) c l Hc) in Hx as (i & j & -> & Hn). by exists c, i, j.
    + intros (c & i & j & -> & Hn). pose proof (chain_groups_spec (ly_markers layout) c) as [_ Hin].
      destruct (chain_groups (ly_markers layout) !! c) as [l|] eqn:Hc.
      * exists (chain_links l). split; [|apply list_elem_of_In, (chain_links_spec _ c l Hc); by exists i, j].
        apply list_elem_of_In, list_elem_of_fmap. exists (c, l). split; [done|by apply elem_of_hash_iter].
      * destruct Hn as [Hi _]. apply Hin in Hi. by apply elem_of_nil in Hi.
Qed.

(** Two chains of three and two markers, one marker without. *)
Definition demo_chain (t : Z) (c : option Z) : MarkerSpec := mkMarkerSpec t (str "m") (0, 0, 0) c.
Definition demo_chains : list MarkerSpec :=
  [demo_chain 1 (Some 7); demo_chain 2 (Some 9); demo_chain 3 (Some 7); demo_chain 4 None; demo_chain 5 (Some 9); demo_chain 6 (Some 7)].

Example demo_migrated :
  let pairs := map (fun l => (lks_a_index l, lks_b_index l)) (@migrate_chains_to_links gmap_order demo_chains) in
  sort_by (fun x y => Nat.leb x.1 y.1) pairs = [(0, 2); (1, 4); (2, 5)]%nat.
Proof. vm_compute. reflexivity. Qed.
