(* ===== verification/LogView.v ===== *)
(** * btelem-viewer: the log view

    Models the log-view part of viewer/crates/btelem-viewer/src/
    plot_renderers.rs (lines 275-900 and 2398-2431): building rows from a store,
    filtering them, truncating them to the display budget, and the editors of
    the panel.  The store is any instance of the [Store] class.  What a widget
    did in a frame is an argument: the edited value of a text field, the boxes
    ticked, the rows clicked. *)

From Stdlib Require Import SpecFloat Sorted.
From S2P Require Import Prelude Slices BTree Text Float64 Decimal Store MockStore ViewPanels ViewCamera ViewGroups.

(** ** Cells and rows *)
Inductive FilterKind := FkText | FkNumeric | FkEnum (labels : list text).

Definition FilterKind_from_channel (kind : ChannelKind) : FilterKind :=
  match kind with Text => FkText | Scalar => FkNumeric | State labels => FkEnum labels end.

Record LogColumn := mkLogColumn { lc_id : ChannelId; lc_label : text; lc_is_text : bool }.
Record LogCell := mkLogCell { cell_display : text; cell_raw : option f64 }.
Record LogRow := mkLogRow { row_t : Timestamp; row_cells : gmap Z LogCell }.

Definition LOG_SCAN_MAX : nat := Z.to_nat 200000.

Inductive ColSource :=
| Values (m : list (Z * LogCell))
| States (runs : list StateRun) (labels : list text).

(** ** Values as text *)

(** [while s.contains('.') && s.ends_with('0') { s.pop() }], on the reversed
    string. *)
Fixpoint pop_zeros (r : text) : text :=
  match r with
  | b :: r' => if bool_decide (b = x30) && existsb (fun c => bool_decide (c = x2e)) r then pop_zeros r' else r
  | [] => []
  end.

Definition format_scalar_value (v : f64) : text :=
  let r := pop_zeros (reverse (fmt_fixed 6 v)) in
  reverse (match r with b :: r' => if bool_decide (b = x2e) then r' else r | [] => [] end).

Definition state_value_text (value : Z) (labels : list text) : text :=
  default (fmt_dec value) (labels !! Z.to_nat value).

Definition state_value_at (runs : option (list StateRun)) (t : Z) : total (option Z) :=
  match runs with
  | None => mret None
  | Some runs =>
    if bool_decide (runs = []) then mret None
    else
      let idx := partition_point (fun r => t_start r <=? t) runs in
      if (idx =? 0)%nat then mret None
      else
        run ← index runs (Z.of_nat idx - 1);
        mret (if (t <? t_end run) || (t_end run =? u64_max) then Some (run_value run) else None)
  end.

(** ** Building rows *)
Section rows.
Context {S : Type} `{Store S} (s : S) (by_id : gmap Z ChannelInfo).

Definition col_source (ch : ChannelId) (kind : ChannelKind) (t0 t1 : Z) : total ColSource :=
  match kind with
  | Scalar =>
    samples ← query_raw s ch t0 t1 LOG_SCAN_MAX;
    mret (Values (bt_collect (map (fun '(t, v) => (t, mkLogCell (format_scalar_value v) (Some v))) samples)))
  | Text =>
    samples ← query_text s ch t0 t1 LOG_SCAN_MAX;
    mret (Values (bt_collect (map (fun '(t, v) => (t, mkLogCell v None)) samples)))
  | State labels =>
    runs ← query_state s ch t0 t1;
    mret (States runs labels)
  end.

Fixpoint col_sources (columns : list ChannelId) (t0 t1 : Z) (acc : gmap Z ColSource) : total (gmap Z ColSource) :=
  match columns with
  | [] => mret acc
  | ch :: columns =>
    match by_id !! ch with
    | None => col_sources columns t0 t1 acc
    | Some info =>
      src ← col_source ch (ci_kind info) t0 t1;
      col_sources columns t0 t1 (<[ch := src]> acc)
    end
  end.

(** The first text column, else the first column. *)
Definition log_anchor (columns : list ChannelId) : option ChannelId :=
  match list_find (fun ch => ci_kind <$> by_id !! ch = Some Text) columns with
  | Some (_, ch) => Some ch
  | None => head columns
  end.

Definition anchor_times (source : option ColSource) : list Timestamp :=
  match source with
  | Some (Values m) => map fst m
  | Some (States runs _) => map t_start runs
  | None => []
  end.

(** The value a column shows at [t]: the nearest prior one. *)
Definition source_cell (source : ColSource) (t : Z) : total (option LogCell) :=
  match source with
  | Values m => mret (option_map snd (bt_last_le t m))
  | States runs labels =>
    v ← state_value_at (Some runs) t;
    mret (option_map (fun value => mkLogCell (state_value_text value labels) (Some (f64_of_Z value))) v)
  end.

Fixpoint row_cells_at (sources : gmap Z ColSource) (columns : list ChannelId) (t : Z) (cells : gmap Z LogCell)
  : total (gmap Z LogCell) :=
  match columns with
  | [] => mret cells
  | ch :: columns =>
    match sources !! ch with
    | None => row_cells_at sources columns t cells
    | Some source =>
      c ← source_cell source t;
      row_cells_at sources columns t (match c with Some cell => <[ch := cell]> cells | None => cells end)
    end
  end.

Fixpoint rows_at (sources : gmap Z ColSource) (columns : list ChannelId) (ts : list Timestamp) : total (list LogRow) :=
  match ts with
  | [] => mret []
  | t :: ts =>
    cells ← row_cells_at sources columns t ∅;
    rows ← rows_at sources columns ts;
    mret (mkLogRow t cells :: rows)
  end.

Definition build_log_rows (columns : list ChannelId) (t0 t1 : Z) : total (list LogRow) :=
  match log_anchor columns with
  | None => mret []
  | Some anchor =>
    sources ← col_sources columns t0 t1 ∅;
    rows_at sources columns (anchor_times (sources !! anchor))
  end.
End rows.

(** ** Filtering *)
Definition cell_value (c : LogCell) : FilterValue :=
  match cell_raw c with Some n => FvNum n | None => FvText (cell_display c) end.

Definition row_passes_filters `{HashOrder} (row : LogRow) (filters : gmap Z ColumnFilter) : bool :=
  forallb (fun '(ch, f) => if negb (filter_is_active f) then true
                           else filter_accepts f (cell_value <$> row_cells row !! ch)) (hash_iter filters).

(** ** Truncation *)
Section truncation.
Context (p : profile).

(** The loop over the rows; [last] is [last_bucket]. *)
Fixpoint bucket_rows (t_first span : Z) (n : nat) (last : Z) (rows : list LogRow) : total (list LogRow) :=
  match rows with
  | [] => mret []
  | r :: rows =>
    d ← arith p 64 (row_t r - t_first);
    x ← arith p 128 (d * Z.of_nat n);
    let bucket := wrap 64 (x / span) in
    if negb (bucket =? last) then
      out ← bucket_rows t_first span n bucket rows;
      mret (r :: out)
    else bucket_rows t_first span n last rows
  end.

Definition sample_even_over_time (rows : list LogRow) (n : nat) : total (list LogRow) :=
  if (n =? 0)%nat then mret []
  else if (length rows <=? n)%nat then mret rows
  else
    let t_first := default 0 (row_t <$> head rows) in
    let t_last := default 0 (row_t <$> last rows) in
    if t_last =? t_first then
      let stride := Nat.max (div_ceil (length rows) n) 1 in
      mret (take n (step_by stride rows))
    else
      d ← arith p 64 (t_last - t_first);
      let span := d + 1 in
      bucket_rows t_first span n u64_max rows.

(** A missing value is the lowest tier, [i64::MIN]. *)
Definition row_score (pch : ChannelId) (r : LogRow) : Z :=
  match row_cells r !! pch with
  | Some c => match cell_raw c with Some n => f64_to_i64 n | None => - 2 ^ 63 end
  | None => - 2 ^ 63
  end.

(** Whole tiers while they fit, then a sample of the first that does not. *)
Fixpoint fill_tiers (max_rows : nat) (tiers : list (Z * list LogRow)) (out : list LogRow) : total (list LogRow) :=
  match tiers with
  | [] => mret out
  | (_, tier) :: tiers =>
    remaining ← arith p 64 (Z.of_nat max_rows - Z.of_nat (length out));
    if remaining =? 0 then mret out
    else if Z.of_nat (length tier) <=? remaining then fill_tiers max_rows tiers (out ++ tier)
    else
      sampled ← sample_even_over_time tier (Z.to_nat remaining);
      mret (out ++ sampled)
  end.

Definition truncate_rows (rows : list LogRow) (priority_by : option ChannelId) (max_rows : nat)
  : total (list LogRow * nat) :=
  let total := length rows in
  if (total <=? max_rows)%nat then mret (rows, total)
  else match priority_by with
  | None => out ← sample_even_over_time rows max_rows; mret (out, total)
  | Some pch =>
    out ← fill_tiers max_rows (reverse (bt_group (row_score pch) rows)) [];
    mret (sort_by (fun a b => row_t a <=? row_t b) out, total)
  end.

(** The pipeline of [render_log_view]: build, filter, truncate; with the counts
    of its status line. *)
Definition log_view_rows {S} `{Store S} `{HashOrder} (s : S) (by_id : gmap Z ChannelInfo) (panel : LogViewPanel)
    (t0 t1 : Z) : total (list LogRow * nat * nat) :=
  all_rows ← build_log_rows s by_id (lv_columns panel) t0 t1;
  let matched := List.filter (fun row => row_passes_filters row (lv_filters panel)) all_rows in
  r ← truncate_rows matched (lv_priority_by panel) (lv_max_rows panel);
  mret (r.1, length matched, length all_rows).
End truncation.

(** ** The panel's editors *)

(** What the widgets of a filter editor did in a frame. *)
Record editor_ui := mkEditorUi {
  eu_text : text * bool -> text * bool;
  eu_range : bool * f64 * bool * f64 -> bool * f64 * bool * f64;
  eu_all : bool;
  eu_none : bool;
  eu_toggled : nat -> bool;
}.

Definition set_filters (p : LogViewPanel) (filters : gmap Z ColumnFilter) : LogViewPanel :=
  mkLogViewPanel (lv_title p) (lv_group p) (lv_columns p) (lv_visible p) filters (lv_color_by p)
    (lv_priority_by p) (lv_max_rows p).

Definition edit_text_filter (ui : editor_ui) (current : option ColumnFilter) : option ColumnFilter :=
  let init := match current with Some (CfText needle case_sensitive) => (needle, case_sensitive) | _ => ([], false) end in
  let '(needle, case_sensitive) := eu_text ui init in
  if trim_is_empty needle then None else Some (CfText needle case_sensitive).

Definition edit_range_filter (ui : editor_ui) (current : option ColumnFilter) : option ColumnFilter :=
  let zero := S754_zero false in
  let init := match current with
              | Some (CfRange min max) =>
                (bool_decide (is_Some min), default zero min, bool_decide (is_Some max), default zero max)
              | _ => (false, zero, false, zero)
              end in
  let '(has_min, min_v, has_max, max_v) := eu_range ui init in
  let min := if has_min : bool then Some min_v else None in
  let max := if has_max : bool then Some max_v else None in
  match min, max with None, None => None | _, _ => Some (CfRange min max) end.

Definition all_values (labels : list text) : gset Z := list_to_set (seqZ 0 (wrap 32 (blen labels))).

Definition toggle_label (ui : editor_ui) (allowed : gset Z) (i : nat) : gset Z :=
  let v := wrap 32 (Z.of_nat i) in
  if eu_toggled ui i then if bool_decide (v ∈ allowed) then allowed ∖ {[v]} else {[v]} ∪ allowed else allowed.

Definition edit_enum_filter (ui : editor_ui) (labels : list text) (current : option ColumnFilter) : option ColumnFilter :=
  let all := all_values labels in
  let allowed := match current with Some (CfEnumSet allowed) => allowed | _ => all end in
  let allowed := if eu_all ui then all else allowed in
  let allowed := if eu_none ui then ∅ else allowed in
  let allowed := foldl (toggle_label ui) allowed (seq 0 (length labels)) in
  if bool_decide (allowed = all) then None else Some (CfEnumSet allowed).

Definition render_column_filter_editor (ui : editor_ui) (p : LogViewPanel) (col : ChannelId) (kind : option FilterKind)
  : LogViewPanel :=
  let current := lv_filters p !! col in
  let reconcile f := set_filters p (match f with None => delete col (lv_filters p) | Some f => <[col := f]> (lv_filters p) end) in
  match kind with
  | Some FkText => reconcile (edit_text_filter ui current)
  | Some FkNumeric => reconcile (edit_range_filter ui current)
  | Some (FkEnum labels) => reconcile (edit_enum_filter ui labels current)
  | None => p
  end.

(** The columns menu: ticking or unticking the box of a column. *)
Definition toggle_column (p : LogViewPanel) (idx : nat) : LogViewPanel :=
  mkLogViewPanel (lv_title p) (lv_group p) (lv_columns p)
    (if bool_decide (idx ∈ lv_visible p) then filter (fun i => i <> idx) (lv_visible p) else lv_visible p ++ [idx])
    (lv_filters p) (lv_color_by p) (lv_priority_by p) (lv_max_rows p).

Definition pick_color_by (p : LogViewPanel) (ch : option ChannelId) : LogViewPanel :=
  mkLogViewPanel (lv_title p) (lv_group p) (lv_columns p) (lv_visible p) (lv_filters p) ch
    (lv_priority_by p) (lv_max_rows p).

(** Text columns are not offered as a score. *)
Definition pick_priority_by (col_kind : gmap Z FilterKind) (p : LogViewPanel) (ch : option ChannelId) : LogViewPanel :=
  if match ch with Some c => match col_kind !! c with Some FkText => true | _ => false end | None => false end then p
  else mkLogViewPanel (lv_title p) (lv_group p) (lv_columns p) (lv_visible p) (lv_filters p) (lv_color_by p)
         ch (lv_max_rows p).

Definition set_max_rows (p : LogViewPanel) (maxr : Z) : LogViewPanel :=
  mkLogViewPanel (lv_title p) (lv_group p) (lv_columns p) (lv_visible p) (lv_filters p) (lv_color_by p)
    (lv_priority_by p) (Z.to_nat (Z.max maxr 1)).

Definition column_meta (by_id : gmap Z ChannelInfo) (columns : list ChannelId) : list (nat * ChannelId * text) :=
  omap (fun '(idx, ch) => (fun info => (idx, ch, strip_group_prefix (ci_path info))) <$> by_id !! ch)
    (imap pair columns).

Definition col_kinds (by_id : gmap Z ChannelInfo) (columns : list ChannelId) : gmap Z FilterKind :=
  collect_map (omap (fun '(_, ch, _) => (fun info => (ch, FilterKind_from_channel (ci_kind info))) <$> by_id !! ch)
    (column_meta by_id columns)).

Definition visible_cols (by_id : gmap Z ChannelInfo) (p : LogViewPanel) : list LogColumn :=
  omap (fun idx => ch ← lv_columns p !! idx; info ← by_id !! ch;
          Some (mkLogColumn ch (strip_group_prefix (ci_path info)) (bool_decide (ci_kind info = Text))))
    (lv_visible p).

(** A click on a row toggles its highlight; a double click highlights it and
    moves the camera. *)
Definition row_clicked (highlights : gset Z) (cam : Camera) (t : Timestamp) (clicked double_clicked : bool)
    (fallback_bounds : f64 * f64) : gset Z * Camera :=
  let selected := bool_decide (t ∈ highlights) in
  let highlights := if clicked then if selected then highlights ∖ {[t]} else {[t]} ∪ highlights else highlights in
  if double_clicked then ({[t]} ∪ highlights, jump_to cam t fallback_bounds) else (highlights, cam).

(** ** Sampling rows over time *)

(** The time bucket of a row. *)
Definition time_bucket (t_first span : Z) (n : nat) (r : LogRow) : Z :=
  (row_t r - t_first) * Z.of_nat n / span.

Lemma time_bucket_range t_first span n r :
  0 <= row_t r - t_first < span -> 0 <= time_bucket t_first span n r /\
  (time_bucket t_first span n r < Z.of_nat n \/ n = 0%nat).
Proof.
  intros Hr. unfold time_bucket. split; [apply Z.div_pos; nia|].
  destruct n as [|n]; [by right|]. left. apply Z.div_lt_upper_bound; nia.
Qed.

Lemma time_bucket_mono t_first span n r q :
  0 < span -> row_t r <= row_t q -> time_bucket t_first span n r <= time_bucket t_first span n q.
Proof. intros Hs Hrq. apply Z.div_le_mono; nia. Qed.

Lemma bucket_rows_cons p t_first span n last r rows :
  span <= 2 ^ 64 -> (1 <= n)%nat -> Z.of_nat n <= u64_max -> 0 <= row_t r - t_first < span ->
  let b := time_bucket t_first span n r in
  bucket_rows p t_first span n last (r :: rows) =
  if negb (b =? last) then out ← bucket_rows p t_first span n b rows; mret (r :: out)
  else bucket_rows p t_first span n last rows.
Proof.
  intros Hspan Hn1 Hn Hr. unfold u64_max in *. cbn [bucket_rows].
  destruct (time_bucket_range t_first span n r Hr) as [H0 [H1|H1]]; [|lia].
  rewrite arith_ok by (unfold in_u; lia). cbn [mbind res_bind].
  rewrite arith_ok by (unfold in_u; nia). cbn [mbind res_bind]. fold (time_bucket t_first span n r).
  unfold wrap. rewrite Z.mod_small by lia. done.
Qed.

(** Room left for the buckets after [last]. *)
Definition room_after (n : nat) (last : Z) : Z := Z.of_nat n - (if last =? u64_max then 0 else last + 1).

Lemma bucket_rows_spec p t_first span n rows last :
  0 < span <= 2 ^ 64 -> (1 <= n)%nat -> Z.of_nat n <= u64_max -> sorted_by row_t rows ->
  Forall (fun r => 0 <= row_t r - t_first < span /\ (last = u64_max \/ last <= time_bucket t_first span n r)) rows ->
  0 <= room_after n last ->
  returns (bucket_rows p t_first span n last rows) (fun out =>
    out `sublist_of` rows /\
    Forall (fun r => time_bucket t_first span n r = last \/
              exists q, q ∈ out /\ time_bucket t_first span n q = time_bucket t_first span n r) rows /\
    Z.of_nat (length out) <= room_after n last).
Proof.
  intros Hspan Hn1 Hn. revert last. induction rows as [|r rows IH]; intros last Hs Hr Hroom.
  - exists []. split_and!; [done|done|constructor|done].
  - apply sorted_by_cons_inv in Hs as [Hle Hs]. apply Forall_cons in Hr as [[Hr Hlast] Hrs].
    rewrite bucket_rows_cons by (done || lia). cbv zeta. set (b := time_bucket t_first span n r) in *.
    destruct (time_bucket_range t_first span n r Hr) as [Hb0 [Hb1|]]; [|lia]. fold b in Hb0, Hb1.
    destruct (b =? last) eqn:E; cbn [negb].
    + eapply returns_impl; [by apply IH|]. intros out (H1 & H2 & H3). split_and!; [by constructor| |done].
      constructor; [left; lia|done].
    + assert (Hb : (b =? u64_max) = false) by (unfold u64_max in *; lia).
      eapply returns_bind; [apply (IH b Hs)|].
      * rewrite Forall_forall in Hle, Hrs |- *. intros q Hq. split; [by apply Hrs|]. right.
        apply time_bucket_mono; [lia|]. by apply Hle.
      * unfold room_after. rewrite Hb. lia.
      * intros out (H1 & H2 & H3). apply returns_ret. split_and!; [by constructor| |].
        -- constructor; [right; exists r; split; [apply elem_of_cons; by left|done]|].
           eapply Forall_impl; [exact H2|]. intros q [Hq|(q' & Hq' & Hq)]; right.
           ++ exists r. split; [apply elem_of_cons; by left|done].
           ++ exists q'. split; [apply elem_of_cons; by right|done].
        -- cbn [length]. unfold room_after in *. rewrite Hb in H3. destruct (last =? u64_max); lia.
Qed.

(** The time between the first and the last row, in nanoseconds, plus one. *)
Definition row_span (rows : list LogRow) : Z :=
  default 0 (row_t <$> last rows) - default 0 (row_t <$> head rows) + 1.

Lemma same_bucket_close t_first span n r q :
  0 < span -> time_bucket t_first span n r = time_bucket t_first span n q ->
  Z.abs (row_t r - row_t q) * Z.of_nat n < span.
Proof.
  unfold time_bucket. intros Hs He.
  set (a := (row_t r - t_first) * Z.of_nat n) in *. set (b := (row_t q - t_first) * Z.of_nat n) in *.
  pose proof (Z.div_mod a span ltac:(lia)). pose proof (Z.mod_pos_bound a span ltac:(lia)).
  pose proof (Z.div_mod b span ltac:(lia)). pose proof (Z.mod_pos_bound b span ltac:(lia)).
  assert (Z.abs (a - b) < span) by nia.
  replace (Z.abs (row_t r - row_t q) * Z.of_nat n) with (Z.abs (a - b)); [done|].
  replace (a - b) with ((row_t r - row_t q) * Z.of_nat n) by (unfold a, b; lia). rewrite Z.abs_mul. lia.
Qed.

(** Sorted rows lie between the first and the last. *)
Lemma row_between rows r : sorted_by row_t rows -> r ∈ rows ->
  0 <= row_t r - default 0 (row_t <$> head rows) < row_span rows.
Proof.
  intros Hs (i & Hi)%list_elem_of_lookup. unfold row_span. pose proof (lookup_lt_Some _ _ _ Hi) as Hlt.
  rewrite last_lookup. destruct (lookup_lt_is_Some_2 rows (pred (length rows))) as [z Hz]; [lia|].
  destruct rows as [|x rows]; [done|]. rewrite Hz. cbn [head fmap option_fmap option_map from_option id].
  pose proof (Hs 0%nat i x r ltac:(lia) eq_refl Hi).
  pose proof (Hs i (pred (length (x :: rows))) r z ltac:(lia) Hi Hz). lia.
Qed.

Lemma head_time rows : rows <> [] -> exists x, x ∈ rows /\ default 0 (row_t <$> head rows) = row_t x.
Proof. destruct rows as [|x rows]; [done|]. intros _. exists x. split; [apply elem_of_cons; by left|done]. Qed.

(** Sampling keeps an in-order selection within the budget, and no row is
    further than one [n]th of the span from a kept one. *)
Lemma sample_even_spec p rows n :
  Z.of_nat n <= u64_max -> sorted_by row_t rows -> Forall (fun r => in_u 64 (row_t r)) rows ->
  returns (sample_even_over_time p rows n) (fun out =>
    out `sublist_of` rows /\ (length out <= n)%nat /\ ((length rows <= n)%nat -> out = rows) /\
    ((1 <= n)%nat -> Forall (fun r => exists q, q ∈ out /\
       Z.abs (row_t r - row_t q) * Z.of_nat n < row_span rows) rows)).
Proof.
  intros Hn Hs Hr. unfold sample_even_over_time.
  assert (Hself : Forall (fun r => exists q, q ∈ rows /\ Z.abs (row_t r - row_t q) * Z.of_nat n < row_span rows) rows).
  { apply Forall_forall. intros r Hin. exists r. split; [done|]. pose proof (row_between rows r Hs Hin).
    rewrite Z.sub_diag. cbn. lia. }
  destruct (n =? 0)%nat eqn:En.
  { apply Nat.eqb_eq in En as ->. exists []. split_and!; [done|apply sublist_nil_l|cbn; lia| |lia].
    intros H. destruct rows; [done|cbn in H; lia]. }
  apply Nat.eqb_neq in En. destruct (length rows <=? n)%nat eqn:El.
  { apply Nat.leb_le in El. exists rows. by split_and!. }
  apply Nat.leb_gt in El. assert (Hne : rows <> []) by (intros ->; cbn in El; lia).
  destruct (_ =? _) eqn:Et.
  - set (stride := Nat.max _ 1). exists (take n (step_by stride rows)). split; [done|]. split_and!.
    + etrans; [apply sublist_take|apply step_by_sublist].
    + rewrite length_take. lia.
    + lia.
    + intros _. apply Forall_forall. intros r Hin. destruct rows as [|x rows]; [done|]. exists x. split.
      * unfold step_by. cbn [step_by_aux]. destruct n; [done|]. cbn [take]. apply elem_of_cons. by left.
      * pose proof (row_between _ r Hs Hin) as Hb. unfold row_span in *. cbn in Et, Hb |- *.
        assert (Heq : row_t r = row_t x) by lia. rewrite Heq, Z.sub_diag. cbn. lia.
  - destruct (head_time rows Hne) as (x & Hx & Hhx).
    assert (0 < row_span rows) by (pose proof (row_between rows x Hs Hx); lia).
    assert (row_span rows <= 2 ^ 64).
    { unfold row_span. rewrite Hhx. pose proof (proj1 (Forall_forall _ _) Hr x Hx) as Hx0. unfold in_u in Hx0.
      rewrite last_lookup. destruct (rows !! pred (length rows)) as [z|] eqn:Ez; cbn; [|lia].
      pose proof (proj1 (Forall_forall _ _) Hr z (list_elem_of_lookup_2 _ _ _ Ez)) as Hz0. unfold in_u in Hz0. cbn in *. lia. }
    rewrite arith_ok by (unfold in_u; unfold row_span in *; lia). cbn [mbind res_bind]. fold (row_span rows).
    eapply returns_impl; [apply bucket_rows_spec; [lia|lia|done|done| |unfold room_after; rewrite Z.eqb_refl; lia]|].
    + apply Forall_forall. intros r Hin. split; [by apply row_between|by left].
    + intros out (H1 & H2 & H3). unfold room_after in H3. rewrite Z.eqb_refl in H3. split_and!; [done|lia|lia|].
      intros _. rewrite Forall_forall in H2 |- *. intros r Hin. destruct (H2 r Hin) as [Hb|(q & Hq & Hb)].
      * destruct (time_bucket_range _ _ n r (row_between rows r Hs Hin)). unfold u64_max in *. lia.
      * exists q. split; [done|]. eapply same_bucket_close; [lia|]. by rewrite Hb.
Qed.

(** ** Truncation by tiers *)
(** Groups of distinct keys, put together, are the elements with these keys. *)
Lemma groups_concat {A} (key : A -> Z) (l : list A) ks :
  NoDup ks -> concat (map (fun k => filter (fun x => key x = k) l) ks) ≡ₚ filter (fun x => key x ∈ ks) l.
Proof.
  induction 1 as [|k ks Hk Hks IH]; cbn [map concat].
  - symmetry. rewrite filter_none; [done|]. apply Forall_forall. intros x _. apply not_elem_of_nil.
  - rewrite IH. rewrite <-filter_or_perm by (intros x <- ?; done).
    rewrite (list_filter_iff _ (fun x => key x ∈ k :: ks)); [done|]. intros x. by rewrite elem_of_cons.
Qed.

Definition tier_ok (t : Z * list LogRow) : Prop := sorted_by row_t t.2 /\ Forall (fun r => in_u 64 (row_t r)) t.2.

Lemma fill_tiers_spec p max_rows tiers out :
  Z.of_nat max_rows <= u64_max -> (length out <= max_rows)%nat -> Forall tier_ok tiers ->
  returns (fill_tiers p max_rows tiers out) (fun r => (length r <= max_rows)%nat /\
    exists k sampled, r = out ++ concat (map snd (take k tiers)) ++ sampled /\
      (sampled = [] \/ exists tier, tiers !! k = Some tier /\ sampled `sublist_of` tier.2)).
Proof.
  intros Hmax. revert out. induction tiers as [|[sc tier] tiers IH]; intros out Hout Hok.
  - exists out. split_and!; [done|done|]. exists 0%nat, []. split; [by rewrite app_nil_r|by left].
  - apply Forall_cons in Hok as [[Hs Hr] Hok]. cbn [fill_tiers]. unfold u64_max in *.
    rewrite arith_ok by (unfold in_u; lia). cbn [mbind res_bind].
    destruct (_ =? 0) eqn:E0; [|destruct (_ <=? _) eqn:E1].
    + exists out. split_and!; [done|done|]. exists 0%nat, []. split; [by rewrite app_nil_r|by left].
    + eapply returns_impl; [apply IH; [rewrite length_app; lia|done]|].
      intros r (Hlen & k & sampled & -> & Hsam). split; [done|]. exists (S k), sampled. split; [|done].
      cbn [take map concat snd]. by rewrite <-!app_assoc.
    + eapply returns_bind; [apply sample_even_spec; [unfold u64_max; lia|exact Hs|exact Hr]|].
      intros sampled (H1 & H2 & _ & _). apply returns_ret. split; [rewrite length_app; lia|].
      exists 0%nat, sampled. split; [done|]. right. by exists (sc, tier).
Qed.

Lemma strongly_NoDup {A} (R : A -> A -> Prop) l : (forall x, ~ R x x) -> StronglySorted R l -> NoDup l.
Proof.
  intros Hi. induction 1 as [|x l Hl IH Hx]; [constructor|]. apply NoDup_cons. split; [|done].
  intros Hin. apply (Hi x). by apply (proj1 (Forall_forall _ _) Hx).
Qed.

Lemma sorted_by_strongly {A} (key : A -> Z) l :
  StronglySorted (fun a b => (key a <=? key b) = true) l -> sorted_by key l.
Proof.
  induction 1 as [|x l Hl IH Hx]; [apply sorted_by_nil|]. apply sorted_by_cons; [|done].
  eapply Forall_impl; [exact Hx|]. cbn. lia.
Qed.

(** The tiers of the code, highest score first. *)
Lemma tiers_spec score (rows : list LogRow) :
  let tiers := reverse (bt_group score rows) in
  StronglySorted (fun a b => b < a) (map fst tiers) /\
  map snd tiers = map (fun k => filter (fun r => score r = k) rows) (map fst tiers) /\
  forall r, r ∈ rows -> score r ∈ map fst tiers.
Proof.
  cbv zeta. destruct (bt_group_spec score rows) as [Hok Hget]. set (m := bt_group score rows) in *. split_and!.
  - clear Hget. induction Hok as [|kv m Hm IH Hk]; [constructor|]. rewrite reverse_cons, map_app. cbn [map].
    clear Hm. revert IH. assert (Hk' : Forall (fun x => kv.1 < x) (map fst (reverse m))).
    { apply Forall_map, Forall_reverse. done. }
    induction (map fst (reverse m)) as [|x l IHl]; intros Hs; [repeat constructor|]. cbn.
    apply Forall_cons in Hk' as [Hx Hk']. apply StronglySorted_inv in Hs as [Hs Hxl]. constructor; [by apply IHl|].
    apply Forall_app. split; [done|]. by repeat constructor.
  - rewrite map_map. apply map_ext_in. intros [k g] Hin%list_elem_of_In. rewrite elem_of_reverse in Hin.
    apply (bt_get_elem _ _ _ Hok) in Hin. rewrite Hget in Hin. cbn. by destruct (filter _ rows); simplify_eq.
  - intros r Hr. specialize (Hget (score r)).
    assert (Hne : r ∈ filter (fun x => score x = score r) rows) by (by apply list_elem_of_filter).
    destruct (filter _ rows) as [|x g]; [by apply elem_of_nil in Hne|]. apply (bt_get_elem _ _ _ Hok) in Hget.
    apply list_elem_of_fmap. exists (score r, x :: g). split; [done|]. by apply elem_of_reverse.
Qed.

(** Scores above the first tier that did not fit are exactly those of the tiers
    before it. *)
Lemma above_cut ks k c x :
  StronglySorted (fun a b => b < a) ks -> x ∈ ks -> ks !! k = Some c -> x ∈ take k ks <-> c < x.
Proof.
  intros Hs Hx Hc. revert k Hc. induction Hs as [|y ks Hs IH Hy]; [by apply elem_of_nil in Hx|].
  rewrite Forall_forall in Hy. intros [|k] Hc; cbn in Hc |- *.
  - injection Hc as ->. rewrite elem_of_nil. apply elem_of_cons in Hx as [->|Hx]; [split; [done|lia]|].
    specialize (Hy x Hx). split; [done|lia].
  - rewrite elem_of_cons. assert (c < y) by (apply Hy; by eapply list_elem_of_lookup_2).
    apply elem_of_cons in Hx as [->|Hx]; [tauto|]. rewrite <-(IH Hx k Hc). split; [|by right].
    intros [->|?]; [|done]. specialize (Hy y Hx). lia.
Qed.

Lemma lower_bound (ks : list Z) : exists c, Forall (fun x => c < x) ks.
Proof.
  induction ks as [|x ks [c IH]]; [by exists 0|]. exists (Z.min c (x - 1)). constructor; [lia|].
  eapply Forall_impl; [exact IH|]. cbn. lia.
Qed.

(** Whole tiers [hi] above a cut and a selection of the tier at the cut. *)
Lemma cut_spec score (rows hi sampled : list LogRow) cut :
  hi ≡ₚ filter (fun r => cut < score r) rows -> sampled `sublist_of` filter (fun r => score r = cut) rows ->
  hi ++ sampled ⊆+ rows /\
  filter (fun r => cut < score r) (hi ++ sampled) ≡ₚ filter (fun r => cut < score r) rows /\
  Forall (fun r => cut <= score r) (hi ++ sampled).
Proof.
  intros Hhi Hs.
  assert (Hsc : Forall (fun r => score r = cut) sampled).
  { eapply sublist_Forall; [exact Hs|]. apply Forall_forall. by intros r [? _]%list_elem_of_filter. }
  assert (Hhc : Forall (fun r => cut < score r) hi).
  { rewrite Hhi. apply Forall_forall. by intros r [? _]%list_elem_of_filter. }
  split_and!.
  - transitivity (filter (fun r => cut < score r \/ score r = cut) rows).
    + rewrite filter_or_perm by lia. apply submseteq_app; [by apply Permutation_submseteq|by apply sublist_submseteq].
    + apply sublist_submseteq, sublist_filter.
  - rewrite filter_app, (filter_all _ _ Hhc). rewrite (filter_none _ sampled), app_nil_r; [done|].
    eapply Forall_impl; [exact Hsc|]. cbn. lia.
  - apply Forall_app. split; (eapply Forall_impl; [eassumption|]); cbn; lia.
Qed.

(** What the tiers keep: every row above some score, none below it. *)
Lemma fill_tiers_cut score (rows sampled : list LogRow) k :
  let tiers := reverse (bt_group score rows) in
  let out := concat (map snd (take k tiers)) ++ sampled in
  (sampled = [] \/ exists tier, tiers !! k = Some tier /\ sampled `sublist_of` tier.2) ->
  out ⊆+ rows /\
  exists cut, filter (fun r => cut < score r) out ≡ₚ filter (fun r => cut < score r) rows /\
    Forall (fun r => cut <= score r) out.
Proof.
  cbv zeta. destruct (tiers_spec score rows) as (Hdesc & Hgrp & Hall). set (tiers := reverse _) in *.
  set (ks := map fst tiers) in *. intros Hsam.
  assert (Hnd : NoDup ks) by (apply (strongly_NoDup (fun a b => b < a)); [intros x; lia|done]).
  assert (Htake : concat (map snd (take k tiers)) ≡ₚ filter (fun r => score r ∈ take k ks) rows).
  { rewrite <-groups_concat by (eapply sublist_NoDup; [exact Hnd|apply sublist_take]).
    rewrite <-!firstn_map in *. by rewrite Hgrp. }
  set (hi := concat _) in *.
  assert (Hgo : forall cut, (forall r, r ∈ rows -> score r ∈ take k ks <-> cut < score r) ->
    sampled `sublist_of` filter (fun r => score r = cut) rows ->
    hi ++ sampled ⊆+ rows /\ exists cut, filter (fun r => cut < score r) (hi ++ sampled) ≡ₚ
      filter (fun r => cut < score r) rows /\ Forall (fun r => cut <= score r) (hi ++ sampled)).
  { intros cut Hcut Hs. destruct (cut_spec score rows hi sampled cut) as (H1 & H2 & H3); [|done|eauto].
    rewrite Htake. by rewrite (filter_ext_elem _ (fun r => cut < score r)). }
  destruct (tiers !! k) as [[c g]|] eqn:Ek.
  - assert (Hc : ks !! k = Some c) by (unfold ks; by rewrite list_lookup_fmap, Ek).
    apply (Hgo c); [intros r Hr; apply above_cut; [done|by apply Hall|done]|].
    destruct Hsam as [->|(tier & [= <-] & Hs)]; [apply sublist_nil_l|].
    assert (Hg : map snd tiers !! k = Some g) by (by rewrite list_lookup_fmap, Ek).
    rewrite Hgrp, list_lookup_fmap, Hc in Hg. cbn in Hg. by injection Hg as ->.
  - destruct Hsam as [->|(tier & ? & _)]; [|done]. destruct (lower_bound ks) as [c Hc].
    apply (Hgo c); [|apply sublist_nil_l]. intros r Hr. rewrite take_ge.
    + split; [intros ?; by apply (proj1 (Forall_forall _ _) Hc)|intros _; by apply Hall].
    + unfold ks. rewrite length_map. by apply lookup_ge_None.
Qed.

(** A tier is a selection of the rows, so in order of time. *)
Lemma tiers_ok score (rows : list LogRow) :
  sorted_by row_t rows -> Forall (fun r => in_u 64 (row_t r)) rows ->
  Forall tier_ok (reverse (bt_group score rows)).
Proof.
  intros Hs Hr. destruct (tiers_spec score rows) as (_ & Hgrp & _). apply Forall_forall. intros tier Hin.
  assert (Ht : tier.2 ∈ map snd (reverse (bt_group score rows))) by (apply list_elem_of_fmap; eauto).
  rewrite Hgrp in Ht. apply list_elem_of_fmap in Ht as (k & Hk & _). unfold tier_ok. rewrite Hk. split.
  - eapply sorted_by_sublist_of; [apply sublist_filter|done].
  - eapply sublist_Forall; [apply sublist_filter|done].
Qed.

(** What [truncate_rows] keeps of the rows, by the priority column or evenly
    over time. *)
Definition kept_rows (priority_by : option ChannelId) (max_rows : nat) (rows out : list LogRow) : Prop :=
  match priority_by with
  | Some pch => exists cut,
      filter (fun r => cut < row_score pch r) out ≡ₚ filter (fun r => cut < row_score pch r) rows /\
      Forall (fun r => cut <= row_score pch r) out
  | None => (1 <= max_rows)%nat ->
      Forall (fun r => exists q, q ∈ out /\ Z.abs (row_t r - row_t q) * Z.of_nat max_rows < row_span rows) rows
  end.

Lemma kept_all pr max_rows rows : sorted_by row_t rows -> kept_rows pr max_rows rows rows.
Proof.
  intros Hs. destruct pr as [pch|]; cbn.
  - destruct (lower_bound (map (row_score pch) rows)) as [c Hc]. exists c. split; [done|].
    rewrite Forall_map in Hc. eapply Forall_impl; [exact Hc|]. cbn. lia.
  - intros _. apply Forall_forall. intros r Hr. exists r. split; [done|].
    pose proof (row_between rows r Hs Hr). rewrite Z.sub_diag. cbn. lia.
Qed.

(** What the display budget promises of the rows it keeps. *)
Record truncated (pr : option ChannelId) (max_rows : nat) (rows out : list LogRow) : Prop := {
  tr_sorted : sorted_by row_t out;
  tr_sub : out ⊆+ rows;
  tr_budget : (length out <= max_rows)%nat;
  tr_all : (length rows <= max_rows)%nat -> out = rows;
  tr_kept : kept_rows pr max_rows rows out;
}.

Lemma truncate_rows_ok p rows pr max_rows :
  Z.of_nat max_rows <= u64_max -> sorted_by row_t rows -> Forall (fun r => in_u 64 (row_t r)) rows ->
  returns (truncate_rows p rows pr max_rows) (fun r => r.2 = length rows /\ truncated pr max_rows rows r.1).
Proof.
  intros Hmax Hs Hr. unfold truncate_rows. cbv zeta. destruct (length rows <=? max_rows)%nat eqn:E.
  { apply Nat.leb_le in E. apply returns_ret. split; [done|]. split; [done|done|done|done|by apply kept_all]. }
  apply Nat.leb_gt in E. destruct pr as [pch|].
  - eapply returns_bind; [apply fill_tiers_spec; [done|cbn; lia|by apply tiers_ok]|].
    intros out (Hlen & k & sampled & -> & Hsam). apply returns_ret. split; [done|]. cbn [app] in *.
    destruct (fill_tiers_cut (row_score pch) rows sampled k Hsam) as (Hsub & cut & Hcut & Hlow).
    set (out := concat _ ++ sampled) in *. pose proof (sort_by_perm (fun a b => row_t a <=? row_t b) out) as Hp.
    cbn [fst]. split; [|by rewrite Hp|by rewrite Hp|lia|exists cut; by rewrite Hp].
    apply sorted_by_strongly, sort_by_sorted; intros; lia.
  - eapply returns_bind; [by apply sample_even_spec|]. intros out (H1 & H2 & _ & H4). apply returns_ret.
    split; [done|]. split; cbn; [by eapply sorted_by_sublist_of|by apply sublist_submseteq|done|lia|done].
Qed.

(** ** What the rows show *)

(** The value of a queried state channel at [t]: the run in force there. *)
Lemma state_value_at_spec t1 rs t :
  runs_view t1 rs -> returns (state_value_at (Some rs) t) (fun v =>
    match v with
    | Some v => exists r, r ∈ rs /\ run_value r = v /\ t_start r <= t /\ (t < t_end r \/ t_end r = u64_max)
    | None => Forall (fun r => ~ t_start r <= t < t_end r) rs
    end).
Proof.
  intros [Hs Hr Hlink]. unfold state_value_at. case_bool_decide as E; [subst; by apply returns_ret|]. cbv zeta.
  rewrite (partition_point_filter t_start) by done. set (fl := filter (fun r => t_start r <= t) rs).
  destruct (length fl =? 0)%nat eqn:E0.
  { apply Nat.eqb_eq, length_zero_iff_nil in E0. apply returns_ret, Forall_forall. intros r Hin [Hle _].
    assert (Hf : r ∈ fl) by (by apply list_elem_of_filter). rewrite E0 in Hf. by apply elem_of_nil in Hf. }
  apply Nat.eqb_neq in E0. destruct (lookup_lt_is_Some_2 fl (pred (length fl))) as [r Hi]; [lia|].
  assert (Hrt : t_start r <= t) by (apply list_elem_of_lookup_2, list_elem_of_filter in Hi; tauto).
  unfold fl in Hi. rewrite filter_prefix_lookup in Hi by (done || (fold fl; lia)). fold fl in Hi.
  unfold index. replace (Z.to_nat (Z.of_nat (length fl) - 1)) with (pred (length fl)) by lia. rewrite Hi.
  cbn [mbind res_bind]. apply returns_ret. destruct ((t <? t_end r) || (t_end r =? u64_max)) eqn:Ee.
  - apply orb_true_iff in Ee. exists r. split_and!; [by eapply list_elem_of_lookup_2|done|done|lia].
  - apply orb_false_iff in Ee as [Ee _]. apply Forall_lookup_2. intros j q Hq [Hqs Hqe].
    destruct (decide (j = pred (length fl))) as [->|Hj]; [simplify_eq; lia|].
    destruct (decide (j < pred (length fl))%nat) as [Hlt|Hge].
    + destruct (lookup_lt_is_Some_2 rs (S j)) as [n Hn]; [apply lookup_lt_Some in Hi; lia|].
      rewrite (Hlink _ _ _ Hq Hn) in Hqe. pose proof (Hs (S j) (pred (length fl)) n r ltac:(lia) Hn Hi). lia.
    + destruct (sorted_split_lt t_start rs (t + 1) Hs) as (Eq & _ & F2).
      assert (Hf : filter (fun x => t_start x < t + 1) rs = fl) by (apply list_filter_iff; lia).
      rewrite Eq, Hf, lookup_app_r in Hq by lia. apply (Forall_lookup_1 _ _ _ _ F2) in Hq. lia.
Qed.

Section rows_spec.
Context {S : Type} `{StoreLaws S wf} (s : S) (by_id : gmap Z ChannelInfo) (columns : list ChannelId) (t0 t1 : Z).
Hypothesis Hwf : wf s.
Hypothesis Ht1 : in_u 64 t1.
(** [by_id] is the store's channel list, by identifier. *)
Hypothesis Hby : forall ch info, by_id !! ch = Some info -> channels s !! Z.to_nat ch = Some info.

(** The cell a column should show in the row at [t]: its latest value at or
    before [t], and nothing where it has none. *)
Definition cell_spec (ch : ChannelId) (kind : ChannelKind) (t : Z) (c : option LogCell) : Prop :=
  match kind with
  | Scalar => exists l, query_raw s ch t0 t1 LOG_SCAN_MAX = Ok l /\
      c = (fun x => mkLogCell (format_scalar_value x.2) (Some x.2)) <$> last (filter (fun x => x.1 <= t) l)
  | Text => exists l, query_text s ch t0 t1 LOG_SCAN_MAX = Ok l /\
      c = (fun x => mkLogCell x.2 None) <$> last (filter (fun x => x.1 <= t) l)
  | State labels =>
      match c with
      | Some c => exists v, sample_at s ch t = Ok (Some (f64_of_Z v)) /\
                   c = mkLogCell (state_value_text v labels) (Some (f64_of_Z v))
      | None => sample_at s ch t = Ok None
      end
  end.

(** The times the anchor column gives the rows. *)
Definition times_spec (anchor : ChannelId) (kind : ChannelKind) (ts : list Z) : Prop :=
  match kind with
  | Scalar => exists l, query_raw s anchor t0 t1 LOG_SCAN_MAX = Ok l /\
      StronglySorted Z.lt ts /\ forall t, t ∈ ts <-> t ∈ map fst l
  | Text => exists l, query_text s anchor t0 t1 LOG_SCAN_MAX = Ok l /\
      StronglySorted Z.lt ts /\ forall t, t ∈ ts <-> t ∈ map fst l
  | State _ => exists rs, query_state s anchor t0 t1 = Ok rs /\ ts = map t_start rs
  end.

Lemma col_source_ok ch kind : exists src, col_source s ch kind t0 t1 = Ok src.
Proof using Type*.
  destruct kind; cbn.
  - destruct (law_raw_total s ch t0 t1 LOG_SCAN_MAX Hwf) as [l ->]. by eexists.
  - destruct (law_state_total s ch t0 t1 Hwf) as [l ->]. by eexists.
  - destruct (law_text_total s ch t0 t1 LOG_SCAN_MAX Hwf) as [l ->]. by eexists.
Qed.

(** A map of values answers as the list it was built from. *)
Lemma values_cell {V} (f : V -> LogCell) (l : list (Z * V)) t : sorted_by fst l ->
  option_map snd (bt_last_le t (bt_collect (map (fun '(t, v) => (t, f v)) l))) =
  (fun x => f x.2) <$> last (filter (fun x => x.1 <= t) l).
Proof.
  intros Hs. set (g := fun '(t, v) => _). assert (Hg : forall x, (g x).1 = x.1 /\ (g x).2 = f x.2) by (by intros []).
  rewrite bt_collect_last_le.
  2:{ apply sorted_by_map. intros i j x y Hij Hx Hy. cbn. rewrite !(proj1 (Hg _)). by apply (Hs i j). }
  clear Hs. induction l as [|x l IH] using rev_ind; [done|]. rewrite map_app, !filter_app. cbn [map].
  rewrite !filter_cons, !filter_nil, (proj1 (Hg x)). destruct (decide (x.1 <= t)).
  - rewrite !last_snoc. cbn. by rewrite (proj2 (Hg x)).
  - by rewrite !app_nil_r.
Qed.

Lemma values_times {V} (f : V -> LogCell) (l : list (Z * V)) :
  let ts := map fst (bt_collect (map (fun '(t, v) => (t, f v)) l)) in
  StronglySorted Z.lt ts /\ forall t, t ∈ ts <-> t ∈ map fst l.
Proof.
  cbv zeta. split.
  - pose proof (bt_collect_ok (map (fun '(t, v) => (t, f v)) l)) as Hok. revert Hok.
    generalize (bt_collect (map (fun '(t, v) => (t, f v)) l)). induction 1 as [|x m Hm IH Hx]; constructor; [done|].
    by apply Forall_map.
  - intros t. rewrite bt_collect_keys, map_map. by rewrite (map_ext _ fst) by (by intros []).
Qed.

Lemma source_cell_ok ch info src t :
  by_id !! ch = Some info -> col_source s ch (ci_kind info) t0 t1 = Ok src ->
  returns (source_cell src t) (fun c => t0 <= t < t1 -> cell_spec ch (ci_kind info) t c).
Proof using Type*.
  intros Hch Hsrc. destruct (ci_kind info) as [|labels|] eqn:Hk; cbn in Hsrc.
  - destruct (query_raw s ch t0 t1 LOG_SCAN_MAX) as [l| |] eqn:E; [|done..]. injection Hsrc as <-. apply returns_ret.
    intros _. exists l. split; [done|]. apply (values_cell (fun v => mkLogCell (format_scalar_value v) (Some v))).
    by apply law_raw_window in E as (_ & ? & _).
  - destruct (query_state s ch t0 t1) as [rs| |] eqn:E; [|done..]. injection Hsrc as <-.
    eapply returns_bind; [eapply state_value_at_spec; by eapply law_state_window|].
    intros v Hv. apply returns_ret. intros Ht.
    assert (Hst : is_state s ch) by (exists labels, info; split; [by apply Hby|done]).
    unfold in_u, u64_max in *. destruct v as [v|]; cbn.
    + destruct Hv as (r & Hr & <- & Hrs & Hre). exists (run_value r). split; [|done].
      eapply law_state_sample; [done|done|done|exact Ht|done|lia|done].
    + destruct (law_sample_total s ch t Hwf) as [[x|] Hx]; [|done]. exfalso.
      destruct (law_state_covers s ch t0 t1 rs t x Hwf E Ht Ht1 Hst Hx) as (r & Hr & Hrt).
      by apply (proj1 (Forall_forall _ _) Hv r Hr).
  - destruct (query_text s ch t0 t1 LOG_SCAN_MAX) as [l| |] eqn:E; [|done..]. injection Hsrc as <-. apply returns_ret.
    intros _. exists l. split; [done|]. apply (values_cell (fun v => mkLogCell v None)).
    by apply law_text_window in E as (_ & ? & _).
Qed.

(** The sources answer for exactly the known columns. *)
Definition sources_for (cols : list ChannelId) (m : gmap Z ColSource) : Prop :=
  forall ch src, m !! ch = Some src <->
    ch ∈ cols /\ exists info, by_id !! ch = Some info /\ col_source s ch (ci_kind info) t0 t1 = Ok src.

Lemma col_sources_ok cols done acc :
  sources_for done acc ->
  returns (col_sources s by_id cols t0 t1 acc) (sources_for (done ++ cols)).
Proof using Type*.
  revert done acc. induction cols as [|ch cols IH]; intros dn acc Hacc; cbn [col_sources].
  { rewrite app_nil_r. by apply returns_ret. }
  replace (dn ++ ch :: cols) with ((dn ++ [ch]) ++ cols) by (by rewrite <-app_assoc).
  destruct (by_id !! ch) as [info|] eqn:Hch.
  - destruct (col_source_ok ch (ci_kind info)) as [src Hsrc]. rewrite Hsrc. cbn [mbind res_bind]. apply IH.
    intros c x. rewrite lookup_insert_Some, elem_of_app, list_elem_of_singleton, (Hacc c x).
    destruct (decide (ch = c)) as [<-|Hne].
    + split; [intros [[_ <-]|[? _]]; [split; [by right|eauto]|done]|]. intros (_ & i & Hi & Hx). rewrite Hch in Hi. simplify_eq. left. split; congruence.
    + split; [intros [[? _]|(_ & ? & ?)]; [done|split; [by left|done]]|]. intros ([?|?] & Hx); [auto|congruence].
  - apply IH. intros c x. rewrite (Hacc c x), elem_of_app, list_elem_of_singleton.
    split; [intros [? ?]; split; [by left|done]|]. intros ([?| ->] & i & Hi & Hx); [eauto|congruence].
Qed.

(** The cells of one row are the columns' own answers. *)
Definition cells_from (sources : gmap Z ColSource) (t : Z) (cells : gmap Z LogCell) : Prop :=
  forall ch c, cells !! ch = Some c -> exists src, sources !! ch = Some src /\ source_cell src t = Ok (Some c).

Lemma row_cells_ok sources cols t acc :
  (forall ch src, sources !! ch = Some src -> exists c, source_cell src t = Ok c) -> cells_from sources t acc ->
  returns (row_cells_at sources cols t acc) (fun m => cells_from sources t m /\ acc ⊆ m /\
    forall ch src c, ch ∈ cols -> sources !! ch = Some src -> source_cell src t = Ok (Some c) -> m !! ch = Some c).
Proof.
  intros Hok. revert acc. induction cols as [|ch cols IH]; intros acc Hacc; cbn [row_cells_at].
  { apply returns_ret. split_and!; [done|done|]. by intros ch src c ?%elem_of_nil. }
  destruct (sources !! ch) as [src|] eqn:Hs.
  - destruct (Hok ch src Hs) as [c Hc]. rewrite Hc. cbn [mbind res_bind].
    set (acc' := match c with Some cell => <[ch := cell]> acc | None => acc end).
    assert (Hsub : acc ⊆ acc').
    { unfold acc'. destruct c as [cell|]; [|done]. destruct (acc !! ch) as [d|] eqn:Ed; [|by apply insert_subseteq].
      destruct (Hacc ch d Ed) as (src' & ? & ?). assert (cell = d) as -> by congruence. by rewrite insert_id. }
    eapply returns_impl; [apply (IH acc')|].
    + intros k d. unfold acc'. destruct c as [cell|]; [|apply Hacc]. intros [[<- <-]|[_ ?]]%lookup_insert_Some; eauto.
    + intros m (H1 & H2 & H3). split_and!; [done|by etrans|]. intros k src' d Hk Hsrc Hd.
      apply elem_of_cons in Hk as [->|Hk]; [|by eapply H3]. assert (c = Some d) as -> by congruence.
      eapply lookup_weaken; [|exact H2]. apply lookup_insert_eq.
  - eapply returns_impl; [by apply IH|]. intros m (H1 & H2 & H3). split_and!; [done|done|].
    intros k src d Hk Hsrc Hd. apply elem_of_cons in Hk as [->|Hk]; [congruence|by eapply H3].
Qed.

Lemma rows_at_ok sources cols ts (P : LogRow -> Prop) :
  Forall (fun t => returns (row_cells_at sources cols t ∅) (fun cells => P (mkLogRow t cells))) ts ->
  returns (rows_at sources cols ts) (fun rows => map row_t rows = ts /\ Forall P rows).
Proof.
  induction 1 as [|t ts Ht Hts IH]; cbn [rows_at]; [by apply returns_ret|].
  eapply returns_bind; [exact Ht|]. intros cells Hc. eapply returns_bind; [exact IH|].
  intros rows [<- Hr]. apply returns_ret. split; [done|]. by constructor.
Qed.

(** One cell of a row, for a column in the panel and any other channel. *)
Definition row_ok (r : LogRow) : Prop :=
  forall ch, match (if decide (ch ∈ columns) then by_id !! ch else None) with
             | Some info => t0 <= row_t r < t1 -> cell_spec ch (ci_kind info) (row_t r) (row_cells r !! ch)
             | None => row_cells r !! ch = None
             end.

Lemma row_at_ok sources t : sources_for columns sources ->
  returns (row_cells_at sources columns t ∅) (fun cells => row_ok (mkLogRow t cells)).
Proof using Type*.
  intros Hsrc.
  assert (Hok : forall ch src, sources !! ch = Some src -> exists info, by_id !! ch = Some info /\
    exists c, source_cell src t = Ok c /\ (t0 <= t < t1 -> cell_spec ch (ci_kind info) t c)).
  { intros ch src (_ & info & Hi & Hc)%Hsrc. exists info. split; [done|]. by apply source_cell_ok. }
  eapply returns_impl; [apply row_cells_ok|].
  - intros ch src (info & _ & c & Hc & _)%Hok. by exists c.
  - intros ch c. by rewrite lookup_empty.
  - intros m (Hm & _ & Hall) ch. cbn [row_t row_cells]. case_decide as Hin.
    + destruct (by_id !! ch) as [info|] eqn:Hi.
      * destruct (col_source_ok ch (ci_kind info)) as [src Hs].
        assert (Hch : sources !! ch = Some src) by (apply Hsrc; eauto).
        destruct (Hok ch src Hch) as (info' & Hi' & c & Hc & Hspec). rewrite Hi in Hi'. simplify_eq. intros Ht.
        destruct c as [c|]; [rewrite (Hall ch src c Hin Hch Hc); by apply Hspec|].
        destruct (m !! ch) as [d|] eqn:Ed; [|by apply Hspec]. apply Hm in Ed as (src' & ? & ?). congruence.
      * destruct (m !! ch) as [d|] eqn:Ed; [|done]. apply Hm in Ed as (src' & (_ & info & ? & _)%Hsrc & _). congruence.
    + destruct (m !! ch) as [d|] eqn:Ed; [|done]. apply Hm in Ed as (src' & (? & _)%Hsrc & _). done.
Qed.

(** What the window's rows are: in order, at the anchor's times, each cell the
    column's latest value. *)
Definition rows_spec (rows : list LogRow) : Prop :=
  sorted_by row_t rows /\ Forall (fun r => 0 <= row_t r < t1) rows /\ Forall row_ok rows /\
  match log_anchor by_id columns with
  | None => rows = []
  | Some anchor =>
    match by_id !! anchor with
    | None => rows = []
    | Some info => times_spec anchor (ci_kind info) (map row_t rows)
    end
  end.

Lemma anchor_times_ok anchor info src :
  0 <= t0 -> col_source s anchor (ci_kind info) t0 t1 = Ok src ->
  times_spec anchor (ci_kind info) (anchor_times (Some src)) /\
  sorted_by (fun t => t) (anchor_times (Some src)) /\ Forall (fun t => 0 <= t < t1) (anchor_times (Some src)).
Proof using Type*.
  intros Ht0 Hsrc.
  assert (Hlt : forall (ts l : list Z), StronglySorted Z.lt ts -> (forall t, t ∈ ts <-> t ∈ l) ->
    Forall (fun t => t0 <= t < t1) l -> sorted_by (fun t => t) ts /\ Forall (fun t => 0 <= t < t1) ts).
  { intros ts l Hss Hin Hl. split.
    - clear Hin. induction Hss as [|x m Hm IH Hx]; [apply sorted_by_nil|]. apply sorted_by_cons; [|done].
      eapply Forall_impl; [exact Hx|]. cbn. lia.
    - rewrite Forall_forall in Hl |- *. intros t Ht%Hin%Hl. lia. }
  destruct (ci_kind info) as [|labels|]; cbn in Hsrc.
  - destruct (query_raw _ _ _ _ _) as [l| |] eqn:E; [|done..]. injection Hsrc as <-. cbn [anchor_times].
    destruct (values_times (fun v => mkLogCell (format_scalar_value v) (Some v)) l) as [Hss Hin]. cbv zeta in *.
    split; [by exists l|]. eapply Hlt; [exact Hss|exact Hin|].
    apply law_raw_window in E as (_ & _ & ?); [by apply Forall_map|done].
  - destruct (query_state _ _ _ _) as [rs| |] eqn:E; [|done..]. injection Hsrc as <-. cbn [anchor_times].
    split; [by exists rs|]. apply law_state_window in E as [Hs Hr _]; [|done].
    split; [by apply (sorted_by_map (fun t => t))|]. apply Forall_map. eapply Forall_impl; [exact Hr|]. cbn. tauto.
  - destruct (query_text _ _ _ _ _) as [l| |] eqn:E; [|done..]. injection Hsrc as <-. cbn [anchor_times].
    destruct (values_times (fun v => mkLogCell v None) l) as [Hss Hin]. cbv zeta in *.
    split; [by exists l|]. eapply Hlt; [exact Hss|exact Hin|].
    apply law_text_window in E as (_ & _ & ?); [by apply Forall_map|done].
Qed.

Lemma build_log_rows_ok : 0 <= t0 -> returns (build_log_rows s by_id columns t0 t1) rows_spec.
Proof using Type*.
  intros Ht0. unfold build_log_rows, rows_spec. destruct (log_anchor by_id columns) as [anchor|] eqn:Ea.
  2:{ apply returns_ret. split_and!; [apply sorted_by_nil|constructor..|done]. }
  assert (Hin : anchor ∈ columns).
  { unfold log_anchor in Ea. destruct (list_find _ _) as [[i ch]|] eqn:Ef.
    - simplify_eq. apply list_find_Some in Ef as (Hi & _). by eapply list_elem_of_lookup_2.
    - destruct columns; simplify_eq/=. apply elem_of_cons. by left. }
  eapply returns_bind; [apply (col_sources_ok columns [] ∅)|].
  { intros ch src. rewrite lookup_empty. split; [done|]. by intros [?%elem_of_nil _]. }
  intros sources Hsrc. cbn [app] in Hsrc.
  eapply returns_impl; [apply (rows_at_ok _ _ _ row_ok); apply Forall_forall; intros t _; by apply row_at_ok|].
  intros rows [Hts Hrows].
  assert (Hgo : sorted_by (fun t => t) (map row_t rows) -> Forall (fun t => 0 <= t < t1) (map row_t rows) ->
    sorted_by row_t rows /\ Forall (fun r => 0 <= row_t r < t1) rows).
  { intros H1 H2. rewrite Forall_map in H2. split; [by apply (sorted_by_map (fun t => t))|done]. }
  destruct (by_id !! anchor) as [info|] eqn:Hi.
  - destruct (col_source_ok anchor (ci_kind info)) as [src Hs].
    rewrite (proj2 (Hsrc anchor src)) in Hts by eauto.
    destruct (anchor_times_ok anchor info src Ht0 Hs) as (T1 & T2 & T3). rewrite <-Hts in *.
    destruct (Hgo T2 T3). done.
  - assert (Hn : sources !! anchor = None).
    { destruct (sources !! anchor) as [src|] eqn:E; [|done]. apply Hsrc in E as (_ & i & ? & _). congruence. }
    rewrite Hn in Hts. cbn in Hts. destruct rows; [|done]. split_and!; [apply sorted_by_nil|constructor..|done].
Qed.
End rows_spec.

(** ** The log view *)

(** A row passes the filters when every active one accepts the cell of its
    column, whatever the order the map is iterated in. *)
Definition row_matches (filters : gmap Z ColumnFilter) (row : LogRow) : Prop :=
  forall ch f, filters !! ch = Some f -> filter_is_active f = true ->
    filter_accepts f (cell_value <$> row_cells row !! ch) = true.

Lemma row_passes_iff `{HashOrder} row filters : row_passes_filters row filters = true <-> row_matches filters row.
Proof.
  unfold row_passes_filters, row_matches. rewrite forallb_forall. split.
  - intros Hall ch f Hf%elem_of_hash_iter Ha. specialize (Hall (ch, f) (proj1 (list_elem_of_In _ _) Hf)).
    cbn in Hall. by rewrite Ha in Hall.
  - intros Hall [ch f] Hin%list_elem_of_In. apply elem_of_hash_iter in Hin.
    destruct (filter_is_active f) eqn:Ea; [by apply Hall|done].
Qed.

(** The rows a log view keeps within its display budget come back in order
    of time, each one a row of the input, at most [max_rows] of them and all of
    them when they fit.  With a priority column there is a score such that
    every row above it is kept and no row below it is; without one every row
    is within one [max_rows]th of the whole time span of a kept one.  No build
    profile overflows. *)
Theorem truncate_rows_spec p rows pr max_rows :
  Z.of_nat max_rows <= u64_max -> sorted_by row_t rows -> Forall (fun r => in_u 64 (row_t r)) rows ->
  exists out, truncate_rows p rows pr max_rows = Ok (out, length rows) /\ truncated pr max_rows rows out.
Proof.
  intros Hmax Hs Hr. destruct (truncate_rows_ok p rows pr max_rows Hmax Hs Hr) as ([out n] & H & Hn & Ht).
  cbn in *. subst. eauto.
Qed.

(** The pipeline runs, and each of its stages is what its name says. *)
Lemma log_view_rows_ok {S} `{StoreLaws S wf} `{HashOrder} p (s : S) by_id panel t0 t1 :
  wf s -> in_u 64 t0 -> in_u 64 t1 ->
  (forall ch info, by_id !! ch = Some info -> channels s !! Z.to_nat ch = Some info) ->
  Z.of_nat (lv_max_rows panel) <= u64_max ->
  exists all shown, build_log_rows s by_id (lv_columns panel) t0 t1 = Ok all /\
    let matched := List.filter (fun row => row_passes_filters row (lv_filters panel)) all in
    log_view_rows p s by_id panel t0 t1 = Ok (shown, length matched, length all) /\
    rows_spec s by_id (lv_columns panel) t0 t1 all /\ matched `sublist_of` all /\
    truncated (lv_priority_by panel) (lv_max_rows panel) matched shown.
Proof.
  intros Hwf Ht0 Ht1 Hby Hmax.
  destruct (build_log_rows_ok s by_id (lv_columns panel) t0 t1 Hwf Ht1 Hby) as (all & Hall & Hspec).
  { unfold in_u in Ht0. lia. }
  unfold log_view_rows. rewrite Hall. cbn [mbind res_bind]. cbv zeta.
  set (matched := List.filter _ all).
  assert (Hsub : matched `sublist_of` all).
  { unfold matched. clear. induction all as [|r all IH]; [done|]. cbn [List.filter].
    destruct (row_passes_filters r _); by constructor. }
  destruct (truncate_rows_ok p matched (lv_priority_by panel) (lv_max_rows panel) Hmax) as ([shown n] & Htr & Hn & Hsh).
  { eapply sorted_by_sublist_of; [exact Hsub|apply Hspec]. }
  { eapply sublist_Forall; [exact Hsub|]. destruct Hspec as (_ & Hr & _).
    eapply Forall_impl; [exact Hr|]. unfold in_u in *. cbn. lia. }
  rewrite Htr. cbn in *. exists all, shown. by split_and!.
Qed.

(** C17: The log view of any lawful store shows what it should: its rows are at
    the times of the anchor column in the window, in order; every cell of a row
    is the latest value of its column at or before the row; the matched rows
    are exactly those every active filter accepts; and the shown ones are the
    matched ones within the display budget. *)
Theorem log_view_shows {S} `{StoreLaws S wf} `{HashOrder} p (s : S) by_id panel t0 t1 :
  wf s -> in_u 64 t0 -> in_u 64 t1 ->
  (forall ch info, by_id !! ch = Some info -> channels s !! Z.to_nat ch = Some info) ->
  Z.of_nat (lv_max_rows panel) <= u64_max ->
  exists all matched shown,
    log_view_rows p s by_id panel t0 t1 = Ok (shown, length matched, length all) /\
    rows_spec s by_id (lv_columns panel) t0 t1 all /\
    matched `sublist_of` all /\ (forall r, r ∈ matched <-> r ∈ all /\ row_matches (lv_filters panel) r) /\
    truncated (lv_priority_by panel) (lv_max_rows panel) matched shown.
Proof.
  intros Hwf Ht0 Ht1 Hby Hmax.
  destruct (log_view_rows_ok p s by_id panel t0 t1 Hwf Ht0 Ht1 Hby Hmax) as (all & shown & _ & E & Hspec & Hsub & Htr).
  exists all, (List.filter (fun row => row_passes_filters row (lv_filters panel)) all), shown. split_and!; [done..| |done].
  intros r. rewrite list_elem_of_In, List.filter_In, <-list_elem_of_In, row_passes_iff. done.
Qed.

(** ** Witnesses *)
Definition log_row (t v : Z) : LogRow := mkLogRow t {[ 0 := mkLogCell (fmt_dec v) (Some (f64_of_Z v)) ]}.

Lemma truncate_rows_spec_witness :
  exists out, truncate_rows Release [log_row 1 0; log_row 2 5; log_row 3 0; log_row 4 5] (Some 0) 2 = Ok (out, 4%nat) /\
    map row_t out = [2; 4].
Proof.
  destruct (truncate_rows_spec Release [log_row 1 0; log_row 2 5; log_row 3 0; log_row 4 5] (Some 0) 2) as (out & H & _).
  - vm_compute. discriminate.
  - apply sorted_by_strongly. repeat constructor.
  - rewrite !Forall_cons, Forall_nil. split_and!; apply in_ub_spec || exact I; reflexivity.
  - exists out. split; [exact H|]. vm_compute in H. injection H as <-. reflexivity.
Defined.

(** Fewer rows than the budget allows: four rows, three of them at one time. *)
Example sample_under_budget :
  truncate_rows Release [log_row 1 0; log_row 1 0; log_row 1 0; log_row 9 0] None 3 =
  Ok ([log_row 1 0; log_row 9 0], 4%nat).
Proof. vm_compute. reflexivity. Qed.

Definition demo_by_id : gmap Z ChannelInfo := collect_map (map (fun c => (ci_id c, c)) (in_channels demo_store)).
Definition demo_panel : LogViewPanel :=
  mkLogViewPanel (str "log") (str "g") [0; 1] [0%nat; 1%nat] {[ 1 := CfEnumSet {[ 0 ]} ]} None None 10.

(** Rows at 10, 20 and 30; the state column shows 0 until 25, so two match. *)
Lemma log_view_shows_witness :
  exists shown, log_view_rows (H := mock_store Debug) (H0 := gmap_order) Debug demo_store demo_by_id demo_panel 0 100 =
    Ok (shown, 2%nat, 3%nat) /\ map row_t shown = [10; 20].
Proof.
  destruct (log_view_shows (H := mock_store Debug) (H0 := mock_store_laws Debug) (H1 := gmap_order) Debug demo_store demo_by_id demo_panel 0 100) as (all & matched & shown & H & _).
  - exact demo_wf.
  - apply in_ub_spec; reflexivity.
  - apply in_ub_spec; reflexivity.
  - intros ch info Hc. apply elem_of_map_to_list in Hc.
    assert (Hall : Forall (fun kv => channels (Store := mock_store Debug) demo_store !! Z.to_nat kv.1 = Some kv.2)
      (map_to_list demo_by_id)) by (vm_compute; repeat constructor).
    exact (proj1 (Forall_forall _ _) Hall _ Hc).
  - vm_compute. discriminate.
  - exists shown. vm_compute in H. injection H as <- _ _. split; vm_compute; reflexivity.
Defined.

(** With a state column as the anchor, the run in force at the window's start
    gives a row before the window. *)
Example state_anchor_before_window :
  (rows ← build_log_rows (H := mock_store Debug) demo_store demo_by_id [1] 12 100; mret (map row_t rows) : total (list Z))
  = Ok [10; 25].
Proof. vm_compute. reflexivity. Qed.
