(* ===== verification/Colours.v ===== *)
(** * btelem-viewer: colours and value labels

    Models the pure drawing helpers of viewer/crates/btelem-viewer/src/
    plot_renderers.rs: the palette and its seeds, the state colours, the
    heat-map gradient (lines 2433-2517), line widths (1246-1253) and the
    formatting of logic values (2070-2088). *)

From Stdlib Require Import SpecFloat.
From S2P Require Import Prelude Slices Text Float64 Float32 Store ViewPanels ViewGroups.

Record Color32 := mkColor { col_r : Z; col_g : Z; col_b : Z }.
#[global] Instance Color32_eq_dec : EqDecision Color32.
Proof. solve_decision. Defined.

Definition BLACK : Color32 := mkColor 0 0 0.
Definition WHITE : Color32 := mkColor 255 255 255.

(** ** Palette *)
Definition PALETTE : list Color32 :=
  [mkColor 76 114 176; mkColor 221 132 82; mkColor 85 168 104; mkColor 196 78 82; mkColor 129 114 179;
   mkColor 147 120 96; mkColor 218 139 195; mkColor 140 140 140; mkColor 204 185 116; mkColor 100 182 205].

Definition palette (i : Z) : total Color32 := index PALETTE (i mod blen PALETTE).

(** FNV-1a of the leaf name. *)
Definition name_seed (path : text) : Z :=
  foldl (fun h b => wrap 64 (Z.lxor h (byte_z b) * 1099511628211)) 1469598103934665603 (strip_group_prefix path).

Definition palette_for_name (path : text) : total Color32 := palette (name_seed path mod 10).

Definition state_colour (channel_idx value : Z) : Color32 :=
  let h := wrap 32 (wrap 32 (wrap 32 channel_idx * 2654435761) + wrap 32 (value * 40503)) in
  let r := Z.land (Z.shiftr h 16) 255 in
  let g := Z.land (Z.shiftr h 8) 255 in
  let b := Z.land h 255 in
  mkColor ((r + 96) / 2) ((g + 96) / 2) ((b + 96) / 2).

(** ** Contrast and gradient *)
Definition luminance (bg : Color32) : f32 :=
  f32_add (f32_add (f32_mul (lit32 299 1000) (f32_of_Z (col_r bg))) (f32_mul (lit32 587 1000) (f32_of_Z (col_g bg))))
    (f32_mul (lit32 114 1000) (f32_of_Z (col_b bg))).
Definition contrast_text_colour (bg : Color32) : Color32 :=
  if f64_lt (f32_of_Z 140) (luminance bg) then BLACK else WHITE.

Definition ANCHORS : list Color32 :=
  [mkColor 68 1 84; mkColor 59 82 139; mkColor 33 145 140; mkColor 94 201 98; mkColor 253 231 37].

Definition lerp (f : f32) (x y : Z) : Z :=
  let v := f32_add (f32_of_Z x) (f32_mul (f32_sub (f32_of_Z y) (f32_of_Z x)) f) in
  f32_to_u8 (f64_clamp (f32_round v) (f32_of_Z 0) (f32_of_Z 255)).

Definition heatmap_color (t : f32) : total Color32 :=
  let t := f64_clamp t (f32_of_Z 0) (f32_of_Z 1) in
  let n := blen ANCHORS - 1 in
  let scaled := f32_mul t (f32_of_Z n) in
  let i := Z.min (f32_to_usize (f32_floor scaled)) (n - 1) in
  let f := f32_sub scaled (f32_of_Z i) in
  a ← index ANCHORS i;
  b ← index ANCHORS (i + 1);
  mret (mkColor (lerp f (col_r a) (col_r b)) (lerp f (col_g a) (col_g b)) (lerp f (col_b a) (col_b b))).

(** ** Names, widths, values *)

(** [p.rsplit('.').next()]: the text after the last dot. *)
Definition short_name (p : text) : text := match rsplit_once dot p with Some (_, leaf) => leaf | None => p end.

Definition width_px (w : LineWidth) : f32 :=
  match w with Thin => f32_of_Z 1 | Medium => lit32 3 2 | Thick => f32_of_Z 3 end.

Definition format_logic_value (p : profile) (v : Z) (radix : LabelRadix) : total text :=
  match radix with
  | Dec => mret (fmt_dec v)
  | Hex => if v <? 0 then n ← arith_i p 64 (- v); mret (str "-0x" ++ fmt_radix 16 (wrap 64 n))
           else mret (str "0x" ++ fmt_radix 16 v)
  | Bin => if v <? 0 then n ← arith_i p 64 (- v); mret (str "-0b" ++ fmt_radix 2 (wrap 64 n))
           else mret (str "0b" ++ fmt_radix 2 v)
  end.

(** ** Properties *)
Lemma index_elem {E A} (l : list A) i : 0 <= i < blen l -> exists x, @index E A l i = Ok x /\ x ∈ l.
Proof.
  intros Hi. unfold index, blen in *. destruct (lookup_lt_is_Some_2 l (Z.to_nat i)) as [x Hx]; [lia|].
  rewrite Hx. exists x. split; [done|]. by eapply list_elem_of_lookup_2.
Qed.

Lemma palette_ok i : exists c, palette i = Ok c /\ c ∈ PALETTE.
Proof. apply index_elem. apply Z.mod_pos_bound. reflexivity. Qed.

Definition colour_ok (c : Color32) : Prop := in_u 8 (col_r c) /\ in_u 8 (col_g c) /\ in_u 8 (col_b c).

Lemma lerp_range f x y : in_u 8 (lerp f x y).
Proof.
  unfold lerp, f32_to_u8, in_u. cbv zeta. set (v := f64_clamp _ _ _).
  pose proof (f64_cast_range 0 255 v). lia.
Qed.

(** The gradient is defined for every input, NaN and infinities included. *)
Lemma heatmap_ok t : returns (heatmap_color t) colour_ok.
Proof.
  unfold heatmap_color. cbv zeta. set (i := Z.min _ _).
  assert (Hi : 0 <= i <= 3).
  { unfold i, f32_to_usize. change (blen ANCHORS) with 5. set (x := f32_floor _).
    pose proof (f64_cast_range 0 (2 ^ 64 - 1) x). lia. }
  destruct (index_elem (E := Empty_set) ANCHORS i) as (a & -> & _); [change (blen ANCHORS) with 5; lia|].
  destruct (index_elem (E := Empty_set) ANCHORS (i + 1)) as (b & Hb & _); [change (blen ANCHORS) with 5; lia|].
  cbn [mbind res_bind]. rewrite Hb. cbn [mbind res_bind]. apply returns_ret.
  split_and!; apply lerp_range.
Qed.

(** The gradient meets its anchors. *)
Example heatmap_anchors :
  map (fun i => heatmap_color (lit32 i 4)) [0; 1; 2; 3; 4] = map Ok ANCHORS /\
  heatmap_color S754_nan = Ok (mkColor 0 0 0).
Proof. vm_compute. done. Qed.

(** State colours are muted: every component between 48 and 175. *)
Lemma state_colour_muted idx v :
  let c := state_colour idx v in
  48 <= col_r c <= 175 /\ 48 <= col_g c <= 175 /\ 48 <= col_b c <= 175.
Proof.
  cbv zeta. unfold state_colour. cbn [col_r col_g col_b]. set (h := wrap 32 _).
  assert (Hb : forall x, 0 <= Z.land x 255 <= 255).
  { intros x. change (Z.land x 255) with (Z.land x (Z.ones 8)). rewrite Z.land_ones by lia. pose proof (Z.mod_pos_bound x (2 ^ 8) eq_refl). lia. }
  assert (Hc : forall x, 48 <= (Z.land x 255 + 96) / 2 <= 175).
  { intros x. specialize (Hb x). split; [apply Z.div_le_lower_bound|apply Z.lt_succ_r, Z.div_lt_upper_bound]; lia. }
  by split_and!; apply Hc.
Qed.

(** The most negative value has no [i64] negation. *)
Example format_min : format_logic_value Debug (- 2 ^ 63) Hex = Panic /\
  format_logic_value Release (- 2 ^ 63) Hex = Ok (str "-0x8000000000000000").
Proof. vm_compute. done. Qed.

Lemma format_logic_value_ok p v radix : - 2 ^ 63 < v < 2 ^ 63 -> exists s, format_logic_value p v radix = Ok s.
Proof.
  intros Hv. destruct radix; cbn [format_logic_value]; [by eexists|..]; (destruct (v <? 0); [|by eexists]);
    rewrite arith_i_ok by lia; by eexists.
Qed.
