(* ===== verification/Lanes.v ===== *)
(** * btelem-viewer: lanes of the logic analyser

    Models the lane part of viewer/crates/btelem-viewer/src/plot_renderers.rs
    (lines 41-78, 131-272, 914-936, 1486-2068): the runs a lane draws, the bars
    and labels made of them, the order of the lanes and the context menus.  What
    is handed to egui_plot is returned as data ([LaneFrame]); the pixels per
    second of the plot transform and the width of the panel are arguments. *)

From Stdlib Require Import SpecFloat Sorted.
From S2P Require Import Prelude Slices Text Float64 Float32 Store MockStore ViewPanels ViewCamera ViewGroups LogView Colours.

Definition PX_PER_CHAR : f64 := f64_of_Z 7.
Definition Y_AXIS_GUTTER : f32 := f32_of_Z 48.
Definition GROUP_GUTTER : f32 := f32_of_Z 16.
Definition MOVE_MENU_TITLE_CHARS : nat := 24.

(** One bar of a lane and the text over it. *)
Record Bar := mkBar { bar_mid : f64; bar_width : f64; bar_name : text; bar_fill : Color32 }.
Record LaneText := mkLaneText { lt_mid : f64; lt_text : text; lt_colour : Color32 }.
Record LaneFrame := mkLaneFrame {
  lf_bars : list Bar;
  lf_texts : list LaneText;
  lf_title : text;
  lf_heatmap_note : bool;
  lf_no_samples : bool;
}.

(** The label that fits over a bar of [w] seconds. *)
Definition lane_text (px_per_sec w mid : f64) (label : text) (fill : Color32) : option LaneText :=
  let bar_px := f64_mul w px_per_sec in
  let chars := Z.to_nat (Z.max (f64_to_i64 (f64_floor (f64_div bar_px PX_PER_CHAR))) 0) in
  let fitted := fit_label label chars in
  if is_nil fitted then None else Some (mkLaneText mid fitted (contrast_text_colour fill)).

(** A run's place on the time axis, clipped to the window. *)
Definition clip_run (t0 t1 start stop : Z) : f64 * f64 := (ns_to_s (Z.max start t0), ns_to_s (Z.min stop t1)).
Definition bar_mid_width (s e : f64) : f64 * f64 :=
  (f64_div (f64_add s e) (f64_of_Z 2), f64_max (f64_sub e s) (lit 1 (10 ^ 9))).

(** ** State lanes *)
Definition extend_last (t1 : Z) (runs : list StateRun) : list StateRun :=
  match last runs with
  | Some r => if t_end r <? t1 then take (pred (length runs)) runs ++ [mkStateRun (t_start r) t1 (run_value r)] else runs
  | None => runs
  end.

Definition lane_mode (runs : list StateRun) : StateLaneMode :=
  state_lane_mode (size (list_to_set (map run_value runs) : gset Z)).

Section state_lane.
Context (p : profile) {S : Type} `{Store S} (s : S) (by_id : gmap Z ChannelInfo).

Definition state_lane_runs (ch : ChannelId) (t0 t1 : Z) : total (list StateRun) :=
  runs ← query_state s ch t0 t1;
  runs ← (if bool_decide (runs = []) then
            v ← sample_at s ch t0;
            mret (match v with Some v => [mkStateRun t0 t1 (f64_to_u32 v)] | None => [] end)
          else mret runs);
  mret (extend_last t1 runs).

Definition state_lane_bounds (ch : ChannelId) (runs : list StateRun) : total (Z * Z) :=
  match lane_mode runs with
  | Heatmap =>
    if bool_decide (runs = []) then mret (0, 0)
    else
      vb ← value_bounds s ch;
      mret (match vb with
            | Some (lo, hi) => (f64_to_u32 lo, f64_to_u32 hi)
            | None => foldl (fun '(lo, hi) r => (if run_value r <? lo then run_value r else lo,
                                                 if hi <? run_value r then run_value r else hi)) (2 ^ 32 - 1, 0) runs
            end)
  | Labels => mret (0, 0)
  end.

Definition state_fill (path : text) (mode : StateLaneMode) (vmin vmax value : Z) : total Color32 :=
  match mode with
  | Labels => mret (state_colour (name_seed path) value)
  | Heatmap =>
    frac ← (if vmin <? vmax then
              a ← arith p 32 (value - vmin);
              b ← arith p 32 (vmax - vmin);
              mret (f32_div (f32_of_Z a) (f32_of_Z b))
            else mret (lit32 1 2));
    heatmap_color frac
  end.

Definition state_bar (info : ChannelInfo) (labels : list text) (mode : StateLaneMode) (vmin vmax : Z)
    (px_per_sec : f64) (t0 t1 : Z) (r : StateRun) : total (Bar * option LaneText) :=
  let '(s, e) := clip_run t0 t1 (t_start r) (t_end r) in
  let '(mid, w) := bar_mid_width s e in
  let label := state_value_text (run_value r) labels in
  fill ← state_fill (ci_path info) mode vmin vmax (run_value r);
  mret (mkBar mid w (ci_path info ++ str ": " ++ label) fill,
        match mode with Labels => lane_text px_per_sec w mid label fill | Heatmap => None end).

Definition render_state_lane (ch : ChannelId) (t0 t1 : Z) (px_per_sec : f64) : total (option LaneFrame) :=
  match by_id !! ch with
  | None => mret None
  | Some info =>
    match ci_kind info with
    | State labels =>
      runs ← state_lane_runs ch t0 t1;
      let mode := lane_mode runs in
      bounds ← state_lane_bounds ch runs;
      drawn ← mapM (state_bar info labels mode bounds.1 bounds.2 px_per_sec t0 t1) runs;
      mret (Some (mkLaneFrame (map fst drawn) (omap snd drawn) (strip_group_prefix (ci_path info))
                    (match mode with Heatmap => true | Labels => false end) (bool_decide (runs = []))))
    | _ => mret None
    end
  end.
End state_lane.

(** ** Logic lanes *)
Record LogicRun := mkLogicRun { lr_start : Z; lr_end : Z; lr_value : Z }.
#[global] Instance LogicRun_eq_dec : EqDecision LogicRun.
Proof. solve_decision. Defined.

(** Replace the end of the last run. *)
Definition set_last_end (t : Z) (runs : list LogicRun) : list LogicRun :=
  match last runs with
  | Some r => take (pred (length runs)) runs ++ [mkLogicRun (lr_start r) t (lr_value r)]
  | None => runs
  end.

(** One sample: it ends the last run, and opens a new one unless the value is
    the same. *)
Definition logic_push (out : list LogicRun) (x : Timestamp * f64) : list LogicRun :=
  let '(t, v_f) := x in
  let v := f64_to_i64 v_f in
  match last out with
  | Some r => if lr_value r =? v then set_last_end t out else set_last_end t out ++ [mkLogicRun t t v]
  | None => out ++ [mkLogicRun t t v]
  end.

(** The leading edge: from the window's start to the first sample. *)
Definition lead_in (t0 : Z) (held : option Z) (out : list LogicRun) : list LogicRun :=
  match out with
  | first :: rest =>
    if t0 <? lr_start first then
      match held with
      | Some v => if negb (v =? lr_value first) then mkLogicRun t0 (lr_start first) v :: out
                  else mkLogicRun t0 (lr_end first) (lr_value first) :: rest
      | None => mkLogicRun t0 (lr_end first) (lr_value first) :: rest
      end
    else out
  | [] => []
  end.

Section logic_lane.
Context (p : profile) {S : Type} `{Store S} (s : S) (by_id : gmap Z ChannelInfo).

Definition logic_max_samples (available_width : f32) : total nat :=
  n ← arith p 64 (Z.max (f32_to_usize available_width) 64 * 8);
  mret (Z.to_nat n).

Definition scalar_lane_runs (ch : ChannelId) (t0 t1 : Z) (max_samples : nat) : total (list LogicRun) :=
  samples ← query_raw s ch t0 t1 max_samples;
  let out := set_last_end t1 (foldl logic_push [] samples) in
  out ← (match out with
         | first :: _ =>
           if t0 <? lr_start first then
             held ← sample_at s ch t0;
             mret (lead_in t0 (f64_to_i64 <$> held) out)
           else mret out
         | [] => mret out
         end);
  if bool_decide (out = []) then
    match time_bounds s with
    | Some (_, latest) =>
      v ← sample_at s ch latest;
      mret (match v with Some v => [mkLogicRun t0 t1 (f64_to_i64 v)] | None => [] end)
    | None => mret []
    end
  else mret out.

Definition held_lane_runs (ch : ChannelId) (t0 t1 : Z) : total (list LogicRun) :=
  rs ← query_state s ch t0 t1;
  let runs := map (fun r => mkLogicRun (t_start r) (t_end r) (run_value r)) rs in
  runs ← (if bool_decide (runs = []) then
            v ← sample_at s ch t0;
            mret (match v with Some v => [mkLogicRun t0 t1 (f64_to_i64 v)] | None => [] end)
          else mret runs);
  mret (match last runs with Some r => if lr_end r <? t1 then set_last_end t1 runs else runs | None => runs end).

Definition logic_lane_runs (ch : ChannelId) (kind : ChannelKind) (t0 t1 : Z) (available_width : f32)
  : total (list LogicRun) :=
  match kind with
  | State _ => held_lane_runs ch t0 t1
  | Scalar => n ← logic_max_samples available_width; scalar_lane_runs ch t0 t1 n
  | Text => Panic
  end.

(** The range of the gradient. *)
Definition logic_lane_bounds (ch : ChannelId) (runs : list LogicRun) : total (Z * Z) :=
  vb ← value_bounds s ch;
  mret (match vb with
        | Some (lo, hi) => (f64_to_i64 lo, f64_to_i64 hi)
        | None => foldl (fun '(lo, hi) r => (Z.min lo (lr_value r), Z.max hi (lr_value r))) (2 ^ 63 - 1, - 2 ^ 63) runs
        end).

Definition logic_bar (path : text) (radix : LabelRadix) (vmin : Z) (span : f32) (px_per_sec : f64) (t0 t1 : Z)
    (r : LogicRun) : total (option (Bar * option LaneText)) :=
  let '(s, e) := clip_run t0 t1 (lr_start r) (lr_end r) in
  if f64_le e s then mret None
  else
    let '(mid, w) := bar_mid_width s e in
    frac ← (if f64_lt (f32_of_Z 0) span then d ← arith_i p 64 (lr_value r - vmin); mret (f32_div (f32_of_Z d) span)
            else mret (lit32 1 2));
    fill ← heatmap_color frac;
    label ← format_logic_value p (lr_value r) radix;
    mret (Some (mkBar mid w (path ++ str ": " ++ label) fill,
                if f64_le (f64_of_Z 20) (f64_mul w px_per_sec) then lane_text px_per_sec w mid label fill else None)).

Definition render_logic_lane (ch : ChannelId) (radix : LabelRadix) (t0 t1 : Z) (px_per_sec : f64) (available_width : f32)
  : total (option LaneFrame) :=
  match by_id !! ch with
  | None => mret None
  | Some info =>
    if bool_decide (ci_kind info = Text) then mret None
    else
      runs ← logic_lane_runs ch (ci_kind info) t0 t1 available_width;
      bounds ← logic_lane_bounds ch runs;
      d ← arith_i p 64 (bounds.2 - bounds.1);
      let span := f32_of_Z (Z.max d 0) in
      drawn ← mapM (logic_bar (ci_path info) radix bounds.1 span px_per_sec t0 t1) runs;
      mret (Some (mkLaneFrame (map fst (omap id drawn)) (omap snd (omap id drawn)) (strip_group_prefix (ci_path info))
                    false (bool_decide (runs = []))))
  end.

(** A lane is drawn by its mode. *)
Definition render_lane_dispatch (lane : LogicLane) (t0 t1 : Z) (px_per_sec : f64) (available_width : f32)
  : total (option LaneFrame) :=
  match ll_mode lane with
  | Named => render_state_lane p s by_id (ll_ch lane) t0 t1 px_per_sec
  | Numeric => render_logic_lane (ll_ch lane) (ll_radix lane) t0 t1 px_per_sec available_width
  end.
End logic_lane.

(** ** The panel *)

(** Consecutive entries with the same key. *)
Definition group_push (out : list (text * list nat)) (x : nat * text) : list (text * list nat) :=
  let '(idx, key) := x in
  match last out with
  | Some g => if bool_decide (g.1 = key) then take (pred (length out)) out ++ [(g.1, g.2 ++ [idx])]
              else out ++ [(key, [idx])]
  | None => out ++ [(key, [idx])]
  end.
Definition collapse_groups (order : list (nat * text)) : list (text * list nat) := foldl group_push [] order.

(** A lane's group and path; lanes of unknown channels come last. *)
Definition resolve_lane (by_id : gmap Z ChannelInfo) (l : LogicLane) : option text * text :=
  match by_id !! ll_ch l with
  | Some i => (Some (channel_group (ci_path i)), ci_path i)
  | None => (None, [])
  end.

Definition lane_groups (by_id : gmap Z ChannelInfo) (panel : LogicAnalyserPanel) : list (text * list nat) :=
  collapse_groups (group_then_name_order (map (resolve_lane by_id) (la_lanes panel))).

Definition lane_height (available_height item_spacing : f32) (lane_count group_count : nat) : f32 :=
  let lanes := f32_of_Z (Z.of_nat lane_count) in
  let divider_budget := f32_mul (f32_of_Z (Z.of_nat (group_count - 1))) (f32_add item_spacing (f32_of_Z 1)) in
  let spacing := f32_mul (f64_max (f32_sub lanes (f32_of_Z 1)) (f32_of_Z 0)) item_spacing in
  f64_clamp (f32_div (f32_sub (f32_sub available_height spacing) divider_budget) lanes) (f32_of_Z 20) (f32_of_Z 60).

(** The lanes of a panel, group by group, in drawing order; a group's lanes are
    looked up by index. *)
Definition panel_lanes (by_id : gmap Z ChannelInfo) (panel : LogicAnalyserPanel) : total (list (text * list LogicLane)) :=
  mapM (fun '(key, indices) =>
          lanes ← mapM (fun i => index (la_lanes panel) (Z.of_nat i)) indices;
          mret (key, lanes)) (lane_groups by_id panel).

Section panel.
Context (p : profile) {S : Type} `{Store S} (s : S) (by_id : gmap Z ChannelInfo).

(** [None]: nothing to draw yet. *)
Definition render_logic_analyser (panel : LogicAnalyserPanel) (view : option (Z * Z)) (px_per_sec : f64)
    (available_width : f32) : total (option (list (text * list (option LaneFrame)))) :=
  match view with
  | None => mret None
  | Some (t0, t1) =>
    if logic_is_empty panel then mret (Some [])
    else
      groups ← panel_lanes by_id panel;
      drawn ← mapM (fun '(key, lanes) =>
                      frames ← mapM (fun lane => render_lane_dispatch p s by_id lane t0 t1 px_per_sec available_width) lanes;
                      mret (key, frames)) groups;
      mret (Some drawn)
  end.
End panel.

(** ** Menus *)

(** The plots a channel may be moved to, in order of their ids. *)
Definition move_targets `{HashOrder} (plots : PlotRegistry) (self_id : PlotId) (info : ChannelInfo)
  : list (PlotId * text) :=
  sort_by (fun a b => a.1 <=? b.1)
    (omap (fun '(id, plot) =>
             if (id =? self_id) || negb (plot_accepts plot info) then None
             else Some (id, fit_label (plot_title plot) MOVE_MENU_TITLE_CHARS)) (registry_iter plots)).

(** What was clicked in the context menu of a lane or a signal. *)
Inductive MenuClick :=
| MoveTo (target : PlotId)
| RenderAs (mode : LaneMode)
| SetRadix (radix : LabelRadix)
| RemoveFromPlot.

Definition update_logic (plots : PlotRegistry) (pid : PlotId) (f : LogicAnalyserPanel -> LogicAnalyserPanel) : PlotRegistry :=
  registry_get_mut plots pid (fun k => match k with PLogicAnalyser p => PLogicAnalyser (f p) | k => k end).

(** A click on a target that is not offered does not happen; [Named] is offered
    only for channels with labels. *)
Definition lane_menu `{HashOrder} (plots : PlotRegistry) (pid : PlotId) (ch : ChannelId) (info : option ChannelInfo)
    (radix : option LabelRadix) (click : MenuClick) : PlotRegistry :=
  match click with
  | MoveTo tid =>
    match info with
    | Some info => if bool_decide (tid ∈ map fst (move_targets plots pid info))
                   then (try_move_channel plots pid tid ch info radix).1 else plots
    | None => plots
    end
  | RenderAs m =>
    if requires_labels m && negb (match info with Some i => channel_has_labels i | None => false end) then plots
    else update_logic plots pid (fun p => default p (mode_for_mut p ch (fun _ => m)))
  | SetRadix r => update_logic plots pid (fun p => default p (radix_for_mut p ch (fun _ => r)))
  | RemoveFromPlot => update_logic plots pid (fun p => logic_remove p ch)
  end.

(** The style submenu of a signal: opening it stores the style it shows. *)
Definition signal_style_menu `{HashOrder} (plots : PlotRegistry) (pid : PlotId) (ch : ChannelId)
    (info : option ChannelInfo) (edit : SignalStyle -> SignalStyle) (move : option PlotId) (remove : bool) : PlotRegistry :=
  match registry_get plots pid with
  | Some (PScalar _) =>
    let plots := registry_get_mut plots pid
                   (fun k => match k with PScalar p => PScalar (style_for_mut p ch edit) | k => k end) in
    let plots := match info, move with
                 | Some info, Some tid => if bool_decide (tid ∈ map fst (move_targets plots pid info))
                                          then (try_move_channel plots pid tid ch info None).1 else plots
                 | _, _ => plots
                 end in
    if remove then registry_get_mut plots pid
                     (fun k => match k with PScalar p => PScalar (scalar_remove p ch) | k => k end) else plots
  | _ => plots
  end.

(** ** State lanes show the store's values *)
Lemma extend_last_id t1 rs : (forall r, last rs = Some r -> t1 <= t_end r) -> extend_last t1 rs = rs.
Proof.
  intros H. unfold extend_last. destruct (last rs) as [r|]; [|done]. specialize (H r eq_refl).
  by replace (t_end r <? t1) with false by lia.
Qed.

(** The runs of a lane cover exactly the times of the window where the channel
    has a value, with that value. *)
Definition lane_exact {S} `{Store S} (s : S) (ch : ChannelId) (t0 t1 : Z) (rs : list StateRun) : Prop :=
  forall t, t0 <= t < t1 ->
    (exists r, r ∈ rs /\ t_start r <= t < t_end r /\ sample_at s ch t = Ok (Some (f64_of_Z (run_value r)))) \/
    (sample_at s ch t = Ok None /\ Forall (fun r => ~ t_start r <= t < t_end r) rs).

Lemma query_state_exact {S} `{StoreLaws S wf} (s : S) ch t0 t1 rs :
  wf s -> is_state s ch -> in_u 64 t1 -> query_state s ch t0 t1 = Ok rs -> lane_exact s ch t0 t1 rs.
Proof.
  intros Hwf Hst Ht1 Hq t Ht. destruct (law_sample_total s ch t Hwf) as [[v|] Hv].
  - left. destruct (law_state_covers s ch t0 t1 rs t v Hwf Hq Ht Ht1 Hst Hv) as (r & Hr & Hrt).
    exists r. split_and!; [done|lia..|]. by eapply law_state_sample.
  - right. split; [done|]. apply Forall_forall. intros r Hr Hrt.
    rewrite (law_state_sample s ch t0 t1 rs r t Hwf Hq Hr Ht Ht1 Hrt Hst) in Hv. done.
Qed.

Lemma state_lane_runs_ok p s ch t0 t1 :
  mock_wf s -> is_state (H := mock_store p) s ch -> 0 <= t0 < t1 -> in_u 64 t1 ->
  returns (state_lane_runs (H := mock_store p) s ch t0 t1) (fun rs =>
    query_state (Store := mock_store p) s ch t0 t1 = Ok rs /\ lane_exact (H := mock_store p) s ch t0 t1 rs).
Proof.
  intros Hwf Hst Ht Ht1. unfold state_lane_runs.
  destruct (law_state_total (H := mock_store p) (StoreLaws := mock_store_laws p) s ch t0 t1 Hwf) as [rs Hrs].
  pose proof (query_state_exact (H := mock_store p) s ch t0 t1 rs Hwf Hst Ht1 Hrs) as Hex.
  rewrite Hrs. cbn [mbind res_bind]. case_bool_decide as E.
  - subst rs. destruct (Hex t0 ltac:(lia)) as [(r & ?%elem_of_nil & _)|[Hn _]]; [done|].
    rewrite Hn. by apply returns_ret.
  - apply returns_ret. rewrite extend_last_id; [done|]. intros r Hr.
    eapply query_state_held; [exact Hwf|exact Hrs|exact Hr|]. unfold in_u, u64_max in *. lia.
Qed.

(** ** Logic lanes tile the window *)

(** Runs from [a] to [b], each starting where the one before ends. *)
Fixpoint tiles (a b : Z) (rs : list LogicRun) : Prop :=
  match rs with
  | [] => a = b
  | r :: rs => lr_start r = a /\ a <= lr_end r /\ tiles (lr_end r) b rs
  end.

Lemma tiles_snoc a b rs r : tiles a b (rs ++ [r]) <-> exists m, tiles a m rs /\ lr_start r = m /\ m <= lr_end r /\ lr_end r = b.
Proof.
  revert a. induction rs as [|x rs IH]; intros a; cbn [app tiles].
  - split.
    + intros (<- & ? & ?). eauto.
    + by intros (m & <- & ? & ? & ?).
  - rewrite IH. split.
    + intros (<- & ? & m & ? & ?). eauto.
    + intros (m & (? & ? & ?) & ?). eauto.
Qed.

Lemma tiles_le a b rs : tiles a b rs -> a <= b.
Proof. revert a. induction rs as [|r rs IH]; intros a; cbn [tiles]; [lia|]. intros (_ & H & ?%IH). lia. Qed.

(** Every time between [a] and [b] is in some run. *)
Lemma tiles_cover a b rs t : tiles a b rs -> a <= t < b -> exists r, r ∈ rs /\ lr_start r <= t < lr_end r.
Proof.
  revert a. induction rs as [|x rs IH]; intros a; cbn [tiles]; [lia|]. intros (Hs & He & Hr) Ht.
  destruct (Z_lt_le_dec t (lr_end x)).
  - exists x. rewrite elem_of_cons. split; [by left|lia].
  - destruct (IH _ Hr) as (r & Hin & Hrt); [lia|]. exists r. rewrite elem_of_cons. auto.
Qed.

(** The value a lane should hold at [t]: that of the latest sample. *)
Definition lane_value (l : list (Timestamp * f64)) (t : Z) : option Z :=
  (fun x => f64_to_i64 x.2) <$> last (filter (fun x => x.1 <= t) l).

Definition shows (l : list (Timestamp * f64)) (r : LogicRun) : Prop :=
  forall t, lr_start r <= t < lr_end r -> lane_value l t = Some (lr_value r).

Lemma set_last_end_snoc t rs r : set_last_end t (rs ++ [r]) = rs ++ [mkLogicRun (lr_start r) t (lr_value r)].
Proof.
  unfold set_last_end. rewrite last_snoc, length_app. cbn [length].
  replace (pred (length rs + 1)) with (length rs) by lia. by rewrite take_app_length.
Qed.

(** What the loop has built after the samples [l]. *)
Definition pushed (l : list (Timestamp * f64)) (out : list LogicRun) : Prop :=
  match head l, last l with
  | Some x, Some y => exists rs r, out = rs ++ [r] /\ tiles x.1 y.1 out /\ lr_value r = f64_to_i64 y.2 /\ Forall (shows l) out
  | _, _ => out = []
  end.

Lemma lane_value_snoc l x t : lane_value (l ++ [x]) t = if decide (x.1 <= t) then Some (f64_to_i64 x.2) else lane_value l t.
Proof. unfold lane_value. rewrite last_filter_snoc. by case_decide. Qed.

Lemma lane_value_last l y t : sorted_by fst l -> last l = Some y -> y.1 <= t -> lane_value l t = Some (f64_to_i64 y.2).
Proof.
  intros Hs [k ->]%last_Some Hy. rewrite lane_value_snoc. by rewrite decide_True.
Qed.

(** Moving the end of the last run past the last sample keeps the lane true. *)
Lemma shows_extend l rs r y t :
  sorted_by fst l -> last l = Some y -> Forall (shows l) (rs ++ [r]) -> lr_end r = y.1 -> lr_value r = f64_to_i64 y.2 ->
  Forall (shows l) (rs ++ [mkLogicRun (lr_start r) t (lr_value r)]).
Proof.
  intros Hs Hy [Hrs Hr]%Forall_app He Hv. apply Forall_app. split; [done|]. constructor; [|done].
  intros u Hu. cbn in *. apply Forall_cons in Hr as [Hr _]. destruct (Z_lt_le_dec u (lr_end r)); [apply Hr; lia|].
  rewrite Hv. apply lane_value_last; [done|done|lia].
Qed.

(** A later sample does not change what earlier runs show. *)
Lemma shows_later l x a b rs : tiles a b rs -> b <= x.1 -> Forall (shows l) rs -> Forall (shows (l ++ [x])) rs.
Proof.
  intros Ht Hb Hl. assert (He : Forall (fun r => lr_end r <= b) rs).
  { clear Hl Hb. revert a Ht. induction rs as [|r rs IH]; intros a; cbn [tiles]; [constructor|].
    intros (_ & _ & Hr). constructor; [by eapply tiles_le|by eapply IH]. }
  rewrite Forall_forall in *. intros r Hr t Hrt. specialize (He r Hr). rewrite lane_value_snoc, decide_False by lia.
  by apply Hl.
Qed.

Lemma foldl_push_ok l : sorted_by fst l -> pushed l (foldl logic_push [] l).
Proof.
  induction l as [|[t v] l IH] using rev_ind; [done|]. intros Hs. pose proof Hs as Hs'.
  apply sorted_by_app in Hs as (Hl & _ & Hle). specialize (IH Hl). rewrite foldl_app. cbn [foldl].
  unfold pushed in *. rewrite last_snoc. destruct (last l) as [y|] eqn:Ey.
  2:{ apply last_None in Ey as ->. cbn. exists [], (mkLogicRun t t (f64_to_i64 v)).
      split_and!; [done|cbn; lia|done|done|done|]. constructor; [|done]. intros u Hu. cbn in Hu. lia. }
  destruct (head l) as [x|] eqn:Ex; [|destruct l; [done|discriminate]].
  destruct IH as (rs & r & -> & Htl & Hv & Hsh). pose proof Ey as Ey'. apply last_Some in Ey' as [l' ->].
  assert (Hyt : y.1 <= t).
  { apply (Hle y (t, v)); [|by apply list_elem_of_singleton]. apply elem_of_app. right. by apply list_elem_of_singleton. }
  assert (Hh : head ((l' ++ [y]) ++ [(t, v)]) = Some x) by (destruct l'; [done|exact Ex]).
  rewrite Hh. unfold logic_push. rewrite last_snoc, set_last_end_snoc.
  assert (Hr : lr_end r = y.1) by (apply tiles_snoc in Htl as (m & _ & _ & _ & ?); done).
  assert (Htl' : tiles x.1 t (rs ++ [mkLogicRun (lr_start r) t (lr_value r)])).
  { apply tiles_snoc in Htl as (m & ? & ? & ? & ?). apply tiles_snoc. exists m. cbn. split_and!; [done|done|lia|done]. }
  assert (Hsh' : Forall (shows ((l' ++ [y]) ++ [(t, v)])) (rs ++ [mkLogicRun (lr_start r) t (lr_value r)])).
  { eapply shows_later; [exact Htl'|done|]. eapply shows_extend; [done|by rewrite last_snoc|done..]. }
  destruct (lr_value r =? f64_to_i64 v) eqn:Ev.
  - exists rs, (mkLogicRun (lr_start r) t (lr_value r)). split_and!; [done|done|cbn; lia|done].
  - exists (rs ++ [mkLogicRun (lr_start r) t (lr_value r)]), (mkLogicRun t t (f64_to_i64 v)). split_and!; [done| |done|].
    + apply tiles_snoc. exists t. cbn. split_and!; [done|done|lia|done].
    + apply Forall_app. split; [done|]. constructor; [|done]. intros u Hu. cbn in Hu. lia.
Qed.

(** What a logic lane should hold at [t]: the latest sample in the window, and
    before the first one the value held at the window's start. *)
Definition logic_value (l : list (Timestamp * f64)) (held : option f64) (t : Z) : option Z :=
  match lane_value l t with
  | Some v => Some v
  | None => match held with Some h => Some (f64_to_i64 h) | None => (fun x => f64_to_i64 x.2) <$> head l end
  end.

Lemma lane_value_before l t : sorted_by fst l -> (forall x, head l = Some x -> t < x.1) -> lane_value l t = None.
Proof.
  intros Hs Hh. unfold lane_value. rewrite filter_none; [done|]. destruct l as [|x l]; [constructor|].
  apply sorted_by_cons_inv in Hs as [Hx _]. specialize (Hh x eq_refl). constructor; [lia|].
  eapply Forall_impl; [exact Hx|]. cbn. lia.
Qed.

(** The first run has the first sample's value. *)
Lemma pushed_head l x out : sorted_by fst l -> head l = Some x -> foldl logic_push [] l = out ->
  exists first rest, out = first :: rest /\ lr_start first = x.1 /\ lr_value first = f64_to_i64 x.2.
Proof.
  intros Hs Hx <-. destruct l as [|y l]; [done|]. injection Hx as ->. cbn [foldl].
  replace (logic_push [] x) with [mkLogicRun x.1 x.1 (f64_to_i64 x.2)] by (by destruct x).
  clear Hs. enough (Hgo : forall out, (exists first rest, out = first :: rest /\ lr_start first = x.1 /\ lr_value first = f64_to_i64 x.2) ->
    exists first rest, foldl logic_push out l = first :: rest /\ lr_start first = x.1 /\ lr_value first = f64_to_i64 x.2).
  { apply Hgo. eexists _, []. done. }
  induction l as [|[t v] l IH]; [done|]. intros out (first & rest & -> & H1 & H2). cbn [foldl]. apply IH.
  destruct (last (first :: rest)) as [z|] eqn:E; [|by apply last_None in E].
  apply last_Some in E as [k Ek]. rewrite Ek. cbn [logic_push]. rewrite last_snoc, !set_last_end_snoc.
  destruct k as [|f k]; cbn in Ek; injection Ek as -> Ek; destruct (_ =? _); cbn; by eexists _, _.
Qed.

Lemma lead_in_ok l t0 t1 held first rest x :
  sorted_by fst l -> head l = Some x -> t0 <= x.1 -> tiles x.1 t1 (first :: rest) -> Forall (shows l) (first :: rest) ->
  lr_value first = f64_to_i64 x.2 ->
  let out := lead_in t0 (f64_to_i64 <$> held) (first :: rest) in
  tiles t0 t1 out /\
  Forall (fun r => forall t, lr_start r <= t < lr_end r -> logic_value l held t = Some (lr_value r)) out.
Proof.
  intros Hs Hx Ht0 Htl Hsh Hv. pose proof Htl as (Hst & Hle & Hrest).
  assert (Hlv : forall rs, Forall (shows l) rs -> Forall (fun r => forall t, lr_start r <= t < lr_end r ->
    logic_value l held t = Some (lr_value r)) rs).
  { intros rs Hrs. eapply Forall_impl; [exact Hrs|]. intros r Hr t Ht. unfold logic_value. by rewrite (Hr t Ht). }
  assert (Hbefore : forall t, t < x.1 -> lane_value l t = None).
  { intros t Ht. apply lane_value_before; [done|]. intros y Hy. congruence. }
  cbv zeta. unfold lead_in. destruct (t0 <? lr_start first) eqn:E0.
  2:{ replace t0 with x.1 by lia. split; [done|by apply Hlv]. }
  assert (Hext : forall v, lr_value first = v -> (forall t, t0 <= t < x.1 -> logic_value l held t = Some v) ->
    tiles t0 t1 (mkLogicRun t0 (lr_end first) (lr_value first) :: rest) /\
    Forall (fun r => forall t, lr_start r <= t < lr_end r -> logic_value l held t = Some (lr_value r))
      (mkLogicRun t0 (lr_end first) (lr_value first) :: rest)).
  { intros v <- Hlow. apply Forall_cons in Hsh as [Hf Hrs]. split; [cbn; split_and!; [done|lia|done]|].
    constructor; [|by apply Hlv]. cbn. intros t Ht. destruct (Z_lt_le_dec t x.1); [apply Hlow; lia|].
    unfold logic_value. rewrite (Hf t); [done|lia]. }
  destruct held as [h|]; cbn [fmap option_fmap option_map]; [destruct (negb _) eqn:En|].
  - split; [cbn; split_and!; [done|lia|done|lia|done]|]. constructor; [|by apply Hlv]. cbn. intros t Ht.
    unfold logic_value. by rewrite Hbefore by lia.
  - apply negb_false_iff in En. apply (Hext (f64_to_i64 h)); [lia|]. intros t Ht. unfold logic_value. by rewrite Hbefore by lia.
  - apply (Hext (f64_to_i64 x.2)); [done|]. intros t Ht. unfold logic_value. rewrite Hbefore, Hx by lia. done.
Qed.

Lemma scalar_lane_runs_ok {S} `{StoreLaws S wf} (s : S) ch t0 t1 n l :
  wf s -> 0 <= t0 < t1 -> query_raw s ch t0 t1 n = Ok l -> l <> [] ->
  exists held, sample_at s ch t0 = Ok held /\
  returns (scalar_lane_runs s ch t0 t1 n) (fun rs => tiles t0 t1 rs /\
    Forall (fun r => forall t, lr_start r <= t < lr_end r -> logic_value l held t = Some (lr_value r)) rs).
Proof.
  intros Hwf Ht Hq Hne. destruct (law_sample_total s ch t0 Hwf) as [held Hh]. exists held. split; [done|].
  destruct (law_raw_window s ch t0 t1 n l Hwf Hq) as (_ & Hs & Hw).
  destruct l as [|x l']; [done|]. set (l := x :: l') in *. destruct (last l) as [y|] eqn:Ey; [|by apply last_None in Ey].
  pose proof (foldl_push_ok l Hs) as Hp. unfold pushed in Hp. rewrite Ey in Hp. cbn [head] in Hp.
  destruct Hp as (rs & r & Hout & Htl & Hv & Hsh).
  unfold scalar_lane_runs. rewrite Hq. cbn [mbind res_bind]. rewrite Hout, set_last_end_snoc.
  assert (Hy : t0 <= y.1 < t1).
  { apply (proj1 (Forall_forall _ _) Hw). apply last_Some in Ey as [k ->]. apply elem_of_app. right. by apply list_elem_of_singleton. }
  assert (Hx0 : t0 <= x.1) by (apply Forall_cons in Hw as [? _]; lia).
  assert (Htl' : tiles x.1 t1 (rs ++ [mkLogicRun (lr_start r) t1 (lr_value r)])).
  { rewrite Hout in Htl. apply tiles_snoc in Htl as (m & ? & ? & ? & ?). apply tiles_snoc. exists m. cbn. split_and!; [done|done|lia|done]. }
  assert (Hsh' : Forall (shows l) (rs ++ [mkLogicRun (lr_start r) t1 (lr_value r)])).
  { rewrite Hout in Htl, Hsh. apply tiles_snoc in Htl as (m & _ & _ & _ & ?). by eapply shows_extend. }
  destruct (pushed_head l x _ Hs eq_refl eq_refl) as (first & rest & Hf & Hf1 & Hf2). rewrite Hout in Hf.
  destruct (rs ++ [mkLogicRun (lr_start r) t1 (lr_value r)]) as [|first' rest'] eqn:Eo; [by destruct rs|].
  assert (Hfv : lr_value first' = f64_to_i64 x.2 /\ lr_start first' = x.1).
  { destruct rs as [|z rs]; cbn in Hf, Eo; injection Hf as <- _; injection Eo as <- _; done. }
  destruct Hfv as [Hfv Hfs].
  destruct (lead_in_ok l t0 t1 held first' rest' x Hs eq_refl Hx0 Htl' Hsh' Hfv) as [Hlt Hll].
  set (out := lead_in t0 (f64_to_i64 <$> held) (first' :: rest')) in *.
  assert (Hone : out <> []). { intros E. rewrite E in Hlt. cbn in Hlt. lia. }
  assert (Hres : (if t0 <? lr_start first' then held ← sample_at s ch t0; mret (lead_in t0 (f64_to_i64 <$> held) (first' :: rest'))
                  else mret (first' :: rest')) = (Ok out : total _)).
  { unfold out. destruct (t0 <? lr_start first') eqn:E0; [by rewrite Hh|]. unfold lead_in. by rewrite E0. }
  rewrite Hres. cbn [mbind res_bind]. rewrite bool_decide_eq_false_2 by done. by apply returns_ret.
Qed.

(** ** Every lane is drawn once, in its group *)
Lemma group_leb_antisym a b : group_leb a b = true -> group_leb b a = true -> a = b.
Proof.
  unfold group_leb. destruct (is_nil a) eqn:Ea, (is_nil b) eqn:Eb; try done; intros; by apply text_leb_antisym.
Qed.

Lemma group_name_leb_total a b : group_name_leb a b = true \/ group_name_leb b a = true.
Proof.
  destruct a as [[ia ga] pa], b as [[ib gb] pb]. unfold group_name_leb.
  destruct (group_leb_total ga gb) as [H|H], (group_leb ga gb) eqn:E1, (group_leb gb ga) eqn:E2; cbn; try (by auto); try done;
    apply text_leb_total.
Qed.

Lemma group_name_leb_trans a b c : group_name_leb a b = true -> group_name_leb b c = true -> group_name_leb a c = true.
Proof.
  destruct a as [[ia ga] pa], b as [[ib gb] pb], c as [[ic gc] pc]. unfold group_name_leb.
  destruct (group_leb ga gb) eqn:E1; cbn [negb]; [|done]. destruct (group_leb gb gc) eqn:E2; cbn [negb]; [|by destruct (negb _)].
  rewrite (group_leb_trans ga gb gc) by done. cbn [negb]. destruct (group_leb gc ga) eqn:E3; cbn [negb]; [|done].
  rewrite (group_leb_trans gb gc ga), (group_leb_trans gc ga gb) by done. cbn [negb]. intros H1 H2. by eapply text_leb_trans.
Qed.

(** Grouping loses nothing and keeps the order. *)
Lemma collapse_flat order :
  concat (map (fun g => map (fun i => (i, g.1)) g.2) (collapse_groups order)) = order /\
  Forall (fun g => g.2 <> []) (collapse_groups order) /\
  fst <$> last (collapse_groups order) = snd <$> last order.
Proof.
  unfold collapse_groups. induction order as [|[i k] order (IH1 & IH2 & IH3)] using rev_ind; [done|].
  rewrite foldl_app. cbn [foldl]. set (out := foldl group_push [] order) in *. unfold group_push. rewrite last_snoc.
  assert (Hnew : concat (map (fun g => map (fun i => (i, g.1)) g.2) (out ++ [(k, [i])])) = order ++ [(i, k)] /\
    Forall (fun g => g.2 <> []) (out ++ [(k, [i])]) /\ fst <$> last (out ++ [(k, [i])]) = Some k).
  { rewrite map_app, concat_app, IH1, last_snoc. split_and!; [done| |done]. apply Forall_app. split; [done|]. by constructor. }
  destruct (last out) as [g|] eqn:El; [|exact Hnew]. case_bool_decide as Eg; [|exact Hnew].
  apply last_Some in El as [k' El]. rewrite El in *. rewrite length_app. cbn [length].
  replace (pred (length k' + 1)) with (length k') by lia. rewrite take_app_length.
  rewrite map_app, concat_app in *. apply Forall_app in IH2 as [IH2 _]. split_and!.
  - rewrite <-IH1. cbn [map concat fst snd]. rewrite map_app, !app_nil_r, <-app_assoc. cbn [map]. by rewrite Eg.
  - apply Forall_app. split; [done|]. constructor; [|done]. cbn. by destruct g.2.
  - rewrite last_snoc. cbn. by rewrite Eg.
Qed.

Lemma collapse_keys order k : k ∈ map fst (collapse_groups order) -> k ∈ map snd order.
Proof.
  destruct (collapse_flat order) as (Hf & Hne & _). intros (g & -> & Hg)%list_elem_of_fmap.
  pose proof (proj1 (Forall_forall _ _) Hne g Hg) as Hg2. destruct g as [k [|i ids]]; [done|]. cbn.
  apply list_elem_of_fmap. exists (i, k). split; [done|]. rewrite <-Hf. apply list_elem_of_In, in_concat.
  exists ((i, k) :: map (fun j => (j, k)) ids). split; [|by left]. apply in_map_iff. exists (k, i :: ids).
  split; [done|]. by apply list_elem_of_In.
Qed.

(** In sorted order every group appears once. *)
Lemma collapse_nodup order :
  StronglySorted (fun a b => group_leb a.2 b.2 = true) order -> NoDup (map fst (collapse_groups order)).
Proof.
  induction order as [|[i k] order IH] using rev_ind; [constructor|]. intros Hs.
  assert (Hsp : StronglySorted (fun a b => group_leb a.2 b.2 = true) order /\
    Forall (fun a => group_leb a.2 k = true) order).
  { clear IH. induction order as [|a order IHo]; [repeat constructor|]. cbn in Hs. apply StronglySorted_inv in Hs as [Hs Ha].
    destruct (IHo Hs) as [H1 H2]. apply Forall_app in Ha as [Ha Hk]. apply Forall_cons in Hk as [Hk _].
    split; constructor; done. }
  destruct Hsp as [Hs' Hk]. specialize (IH Hs'). pose proof (collapse_keys order) as Hkeys.
  destruct (collapse_flat order) as (_ & _ & Hlast).
  unfold collapse_groups in *. rewrite foldl_app. cbn [foldl]. set (out := foldl group_push [] order) in *.
  unfold group_push. destruct (last out) as [g|] eqn:El.
  - case_bool_decide as Eg.
    + apply last_Some in El as [k' El]. rewrite El in *. rewrite length_app. cbn [length].
      replace (pred (length k' + 1)) with (length k') by lia. rewrite take_app_length. by rewrite map_app in *.
    + rewrite map_app. apply NoDup_app. split_and!; [done| |by apply NoDup_singleton].
      intros x Hx ->%list_elem_of_singleton. apply Eg. cbn in Hlast. destruct (last order) as [[j kl]|] eqn:Eo; [|done].
      cbn in Hlast. injection Hlast as ->. apply Hkeys in Hx. apply last_Some in Eo as [o' ->].
      apply group_leb_antisym.
      * apply Forall_app in Hk as [_ Hk]. by apply Forall_cons in Hk as [? _].
      * clear -Hx Hs'. cbn in Hx. rewrite map_app, elem_of_app in Hx. destruct Hx as [(a & -> & Ha)%list_elem_of_fmap|Hx].
        -- induction o' as [|b o' IHo]; [by apply elem_of_nil in Ha|]. cbn in Hs'. apply StronglySorted_inv in Hs' as [Hs' Hb].
           apply elem_of_cons in Ha as [->|Ha]; [|by apply IHo]. apply Forall_app in Hb as [_ Hb]. by apply Forall_cons in Hb as [? _].
        -- cbn in Hx. apply list_elem_of_singleton in Hx as ->. destruct (group_leb_total kl kl); done.
  - apply last_None in El. rewrite El. cbn. by apply NoDup_singleton.
Qed.

(** The order of the lanes: a permutation of them, sorted by group. *)
Lemma lane_order_ok (resolved : list (option text * text)) :
  let order := group_then_name_order resolved in
  order ≡ₚ imap (fun i x => (i, default [] x.1)) resolved /\
  StronglySorted (fun a b => group_leb a.2 b.2 = true) order.
Proof.
  cbv zeta. unfold group_then_name_order. split.
  - rewrite sort_by_perm. change (map ?f ?l) with (f <$> l). rewrite fmap_imap. apply reflexive_eq, imap_ext. by intros i [g q] _.
  - pose proof (sort_by_sorted group_name_leb (imap (fun i '(g, p) => (i, default [] g, p)) resolved)
      group_name_leb_total group_name_leb_trans) as Hs.
    induction Hs as [|[[i g] q] l Hs IH Hx]; cbn [map]; constructor; [done|]. apply Forall_map.
    eapply Forall_impl; [exact Hx|]. intros [[j h] u]. unfold group_name_leb. cbn. by destruct (group_leb g h).
Qed.

(** Looking up every index of a list gives the list back, in the order of the
    indices. *)
Lemma omap_lookup_seq {A} (l pre : list A) : omap (fun i => (pre ++ l) !! i) (seq (length pre) (length l)) = l.
Proof.
  revert pre. induction l as [|x l IH]; intros pre; [done|]. cbn. rewrite lookup_app_r, Nat.sub_diag by lia. cbn. f_equal.
  specialize (IH (pre ++ [x])). rewrite length_app, <-app_assoc in IH. cbn in IH. by rewrite Nat.add_1_r in IH.
Qed.

Lemma mapM_index_all {A} (l k : list A) ids :
  ids ≡ₚ seq 0 (length l) -> Forall2 (fun i x => l !! i = Some x) ids k -> k ≡ₚ l.
Proof.
  intros Hp Hk. assert (Ek : k = omap (fun i => l !! i) ids).
  { clear Hp. induction Hk as [|i x ids k Hix Hk IH]; [done|]. cbn. by rewrite Hix, <-IH. }
  rewrite Ek, Hp. apply reflexive_eq, (omap_lookup_seq l []).
Qed.

Definition lane_key (by_id : gmap Z ChannelInfo) (l : LogicLane) : text := default [] (resolve_lane by_id l).1.

Lemma panel_lanes_ok by_id panel :
  exists gs, panel_lanes by_id panel = Ok gs /\
    concat (map snd gs) ≡ₚ la_lanes panel /\ NoDup (map fst gs) /\
    Forall (fun g => g.2 <> [] /\ Forall (fun l => lane_key by_id l = g.1) g.2) gs.
Proof.
  destruct (lane_order_ok (map (resolve_lane by_id) (la_lanes panel))) as [Hperm Hsort].
  set (order := group_then_name_order _) in *. destruct (collapse_flat order) as (Hflat & Hne & _).
  assert (Hord : forall i k, (i, k) ∈ order -> exists l, la_lanes panel !! i = Some l /\ lane_key by_id l = k).
  { intros i k Hin. rewrite Hperm in Hin. apply elem_of_lookup_imap_1 in Hin as (j & x & [= -> ->] & Hx).
    rewrite list_lookup_fmap in Hx. apply fmap_Some in Hx as (l & Hl & ->). by exists l. }
  assert (Hg : forall g i, g ∈ collapse_groups order -> i ∈ g.2 -> (i, g.1) ∈ order).
  { intros g i Hg Hi. rewrite <-Hflat. apply list_elem_of_In, in_concat. exists (map (fun i => (i, g.1)) g.2).
    split; [apply in_map_iff; exists g; split; [done|by apply list_elem_of_In]|].
    apply in_map_iff. exists i. split; [done|by apply list_elem_of_In]. }
  destruct (returns_mapM (E := Empty_set) (fun '(key, indices) =>
      lanes ← mapM (fun i => index (la_lanes panel) (Z.of_nat i)) indices; mret (key, lanes))
      (fun g h => h.1 = g.1 /\ Forall2 (fun i l => la_lanes panel !! i = Some l) g.2 h.2) (collapse_groups order))
    as (gs & Hgs & HF).
  { intros [key ids] Hin. eapply returns_bind; [apply (returns_mapM _ (fun i l => la_lanes panel !! i = Some l))|].
    - intros i Hi. destruct (Hord i key (Hg (key, ids) i Hin Hi)) as (l & Hl & _). unfold index. rewrite Nat2Z.id, Hl.
      by apply returns_ret.
    - intros ls Hls. by apply returns_ret. }
  exists gs. split; [exact Hgs|]. split_and!.
  - apply (mapM_index_all (la_lanes panel) _ (map fst order)).
    + change (map fst order) with (fst <$> order). rewrite Hperm, fmap_imap. apply reflexive_eq.
      replace (length (la_lanes panel)) with (length (map (resolve_lane by_id) (la_lanes panel))) by apply length_map.
      rewrite (imap_ext _ (fun i _ => i)) by done. clear. set (l := map _ _). clearbody l.
      enough (H : forall n, imap (fun i _ => (n + i)%nat) l = seq n (length l)) by apply (H 0%nat).
      induction l as [|x l IH]; intros n; [done|]. cbn. f_equal; [lia|]. rewrite <-IH. apply imap_ext. intros; cbn; lia.
    + rewrite <-Hflat. clear -HF. induction HF as [|g h gs hs [_ Hgh] HF IH]; [constructor|].
      cbn [map concat]. rewrite map_app. apply Forall2_app; [|done].
      rewrite map_map. cbn. by rewrite map_id.
  - replace (map fst gs) with (map fst (collapse_groups order)); [by apply collapse_nodup|].
    clear -HF. induction HF as [|g h gs hs [Hk _] HF IH]; [done|]. cbn. by rewrite Hk, IH.
  - apply Forall_forall. intros h Hh. apply list_elem_of_lookup in Hh as [j Hj].
    destruct (Forall2_lookup_r _ _ _ _ _ HF Hj) as (g & Hgj & Hk & Hgh). apply list_elem_of_lookup_2 in Hgj.
    split.
    + intros E. rewrite E in Hgh. apply Forall2_nil_inv_r in Hgh. by apply (proj1 (Forall_forall _ _) Hne g Hgj).
    + apply Forall_forall. intros l Hl. apply list_elem_of_lookup in Hl as [i Hi].
      destruct (Forall2_lookup_r _ _ _ _ _ Hgh Hi) as (ix & Hix & Hl). apply list_elem_of_lookup_2 in Hix.
      destruct (Hord _ _ (Hg g ix Hgj Hix)) as (l' & Hl' & Hkey). simplify_eq. by rewrite Hk.
Qed.

(** A logic-analyser panel draws every one of its lanes exactly once, never
    an index out of range, under the name of its own group, each group once and
    none empty. *)
Theorem panel_lanes_spec by_id panel :
  exists gs, panel_lanes by_id panel = Ok gs /\
    concat (map snd gs) ≡ₚ la_lanes panel /\ NoDup (map fst gs) /\
    Forall (fun g => g.2 <> [] /\ Forall (fun l => lane_key by_id l = g.1) g.2) gs.
Proof. apply panel_lanes_ok. Qed.

(** ** Menus keep the registry well formed *)
Lemma update_logic_ok plots pid f :
  registry_ok plots -> (forall p, NoDup (map ll_ch (la_lanes p)) -> NoDup (map ll_ch (la_lanes (f p)))) ->
  registry_ok (update_logic plots pid f).
Proof.
  intros Hr Hf. apply registry_get_mut_ok; [done|]. intros k _ Hk. destruct k as [q|q|q|q]; try done. by apply Hf.
Qed.

Lemma lane_menu_ok `{HashOrder} plots pid ch info radix click :
  registry_ok plots -> (forall i, info = Some i -> ci_id i = ch) ->
  registry_ok (lane_menu plots pid ch info radix click).
Proof.
  intros Hr Hi. destruct click as [tid|m|r|]; cbn [lane_menu].
  - destruct info as [i|]; [|done]. case_bool_decide; [|done]. apply try_move_ok; [done|by apply Hi].
  - destruct (_ && _); [done|]. apply update_logic_ok; [done|]. intros p Hp. unfold mode_for_mut.
    destruct (update_lane _ _ _) as [lanes|] eqn:E; [|done]. cbn.
    apply update_lane_channels in E; [|done]. by rewrite E.
  - apply update_logic_ok; [done|]. intros p Hp. unfold radix_for_mut.
    destruct (update_lane _ _ _) as [lanes|] eqn:E; [|done]. cbn.
    apply update_lane_channels in E; [|done]. by rewrite E.
  - apply update_logic_ok; [done|]. intros p Hp. cbn. rewrite map_filter_ch. by apply NoDup_filter.
Qed.

Lemma signal_style_menu_ok `{HashOrder} plots pid ch info edit move remove :
  registry_ok plots -> (forall i, info = Some i -> ci_id i = ch) ->
  registry_ok (signal_style_menu plots pid ch info edit move remove).
Proof.
  intros Hr Hi. unfold signal_style_menu. destruct (registry_get plots pid) as [[]|]; try done. cbv zeta.
  set (r1 := registry_get_mut plots pid _).
  assert (H1 : registry_ok r1) by (apply registry_get_mut_ok; [done|by intros [] _ ?]).
  set (r2 := match info with Some _ => _ | None => _ end).
  assert (H2 : registry_ok r2).
  { unfold r2. destruct info as [i|], move as [tid|]; try done. case_bool_decide; [|done].
    apply try_move_ok; [done|by apply Hi]. }
  destruct remove; [|done]. apply registry_get_mut_ok; [done|]. intros [] _ ?; try done. cbn. by apply NoDup_filter.
Qed.

(** The move menu offers exactly the other plots that accept the channel. *)
Lemma move_targets_spec `{HashOrder} plots pid info tid :
  tid ∈ map fst (move_targets plots pid info) <->
  tid <> pid /\ exists k, pr_plots plots !! tid = Some k /\ plot_accepts k info = true.
Proof.
  unfold move_targets, registry_iter. change (map fst ?l) with (fst <$> l). rewrite sort_by_perm, list_elem_of_fmap. split.
  - intros ([id title] & -> & ([id' k] & Hin & Hk)%list_elem_of_omap). apply elem_of_hash_iter in Hin.
    destruct (id' =? pid) eqn:E1; cbn in Hk; [done|]. destruct (plot_accepts k info) eqn:E2; cbn in Hk; [|done].
    simplify_eq. split; [cbn; lia|by exists k].
  - intros (Hne & k & Hk & Ha). exists (tid, fit_label (plot_title k) MOVE_MENU_TITLE_CHARS). split; [done|].
    apply list_elem_of_omap. exists (tid, k). split; [by apply elem_of_hash_iter|].
    replace (tid =? pid) with false by lia. by rewrite Ha.
Qed.

(** ** Drawing lanes *)
Lemma state_fill_ok p path mode vmin vmax value :
  (mode = Heatmap -> vmin <= value <= vmax /\ in_u 32 vmin /\ in_u 32 vmax) ->
  exists c, state_fill p path mode vmin vmax value = Ok c.
Proof.
  intros Hv. destruct mode; cbn [state_fill]; [by eexists|]. destruct (Hv eq_refl) as (Hr & H1 & H2). unfold in_u in *.
  assert (Hf : exists f : f32, (if vmin <? vmax then
      a ← arith p 32 (value - vmin); b ← arith p 32 (vmax - vmin); mret (f32_div (f32_of_Z a) (f32_of_Z b))
    else mret (lit32 1 2)) = (Ok f : total f32)).
  { destruct (vmin <? vmax); [|by eexists]. rewrite !arith_ok by (unfold in_u; lia). by eexists. }
  destruct Hf as [f ->]. cbn [mbind res_bind]. destruct (heatmap_ok f) as (c & Hc & _). by exists c.
Qed.

(** The bounds used by the gradient enclose every run shown. *)
Definition bounds_ok (mode : StateLaneMode) (rs : list StateRun) (b : Z * Z) : Prop :=
  mode = Heatmap -> in_u 32 b.1 /\ in_u 32 b.2 /\ Forall (fun r => b.1 <= run_value r <= b.2) rs.

Lemma state_lane_bounds_ok p s ch t0 t1 a b rs :
  mock_wf s -> in_scalars s !! Z.to_nat ch = Some [] -> mock_time_bounds s = Some (a, b) -> a <= t0 < t1 -> in_u 64 t1 ->
  mock_query_state s ch t0 t1 = Ok rs ->
  returns (state_lane_bounds (H := mock_store p) s ch rs) (bounds_ok (lane_mode rs) rs).
Proof.
  intros Hwf Hsc Htb Ht Ht1 Hq. unfold state_lane_bounds, bounds_ok. destruct (lane_mode rs) eqn:Em; [by apply returns_ret|].
  case_bool_decide as E; [by subst|].
  destruct (value_bounds_runs p s ch t0 t1 a b rs Hwf Hsc Htb Ht Ht1 Hq E) as (lo & hi & -> & Hlo & Hhi & Hall).
  cbn [mbind res_bind]. unfold in_u, f64_to_u32 in *. rewrite !f64_cast_of_Z by lia.
  apply returns_ret. intros _. done.
Qed.

(** A state lane draws the channel as the store holds it: over a window that
    starts within the recorded time, drawing returns in both build profiles (the
    gradient never underflows), the runs cover exactly the times at which the
    channel has a value, with that value, and there is one bar per run, labelled
    with the run's value. *)
Theorem state_lane_spec p s by_id ch info labels t0 t1 px a b :
  mock_wf s -> by_id !! ch = Some info -> in_channels s !! Z.to_nat ch = Some info -> ci_kind info = State labels ->
  in_scalars s !! Z.to_nat ch = Some [] -> mock_time_bounds s = Some (a, b) -> a <= t0 < t1 -> in_u 64 t1 ->
  exists runs frame,
    state_lane_runs (H := mock_store p) s ch t0 t1 = Ok runs /\ lane_exact (H := mock_store p) s ch t0 t1 runs /\
    render_state_lane (H := mock_store p) p s by_id ch t0 t1 px = Ok (Some frame) /\
    map bar_name (lf_bars frame) = map (fun r => ci_path info ++ str ": " ++ state_value_text (run_value r) labels) runs /\
    lf_no_samples frame = bool_decide (runs = []).
Proof.
  intros Hwf Hby Hch Hk Hsc Htb Ht Ht1. pose proof (time_bounds_encloses s Hwf) as Henc. rewrite Htb in Henc.
  assert (Ha : 0 <= a).
  { destruct Henc as (Ha & _). pose proof (proj1 (Forall_forall _ _) (all_times_range s Hwf) a Ha) as H. unfold in_u in H. lia. }
  assert (Hst : is_state (H := mock_store p) s ch) by (by exists labels, info).
  destruct (state_lane_runs_ok p s ch t0 t1 Hwf Hst ltac:(lia) Ht1) as (runs & Hr & Hq & Hex).
  destruct (state_lane_bounds_ok p s ch t0 t1 a b runs Hwf Hsc Htb Ht Ht1 Hq) as (bounds & Hb & Hbok).
  unfold render_state_lane. rewrite Hby, Hk, Hr. cbn [mbind res_bind]. rewrite Hb. cbn [mbind res_bind].
  destruct (returns_mapM (state_bar p info labels (lane_mode runs) bounds.1 bounds.2 px t0 t1)
    (fun r d => bar_name d.1 = ci_path info ++ str ": " ++ state_value_text (run_value r) labels) runs) as (drawn & Hd & HF).
  { intros r Hin. unfold state_bar. destruct (clip_run _ _ _ _) as [s0 e0]. destruct (bar_mid_width s0 e0) as [mid w].
    destruct (state_fill_ok p (ci_path info) (lane_mode runs) bounds.1 bounds.2 (run_value r)) as [c ->].
    - intros Hm. destruct (Hbok Hm) as (H1 & H2 & H3). split_and!; try done; by apply (proj1 (Forall_forall _ _) H3).
    - by apply returns_ret. }
  rewrite Hd. cbn [mbind res_bind]. eexists runs, _. split_and!; [done|done|done| |done]. cbn [lf_bars].
  clear -HF. induction HF as [|r d rs ds Hrd HF IH]; [done|]. cbn. by rewrite Hrd, IH.
Qed.

Lemma state_lane_spec_witness :
  exists frame, render_state_lane (H := mock_store Debug) Debug demo_store demo_by_id 1 12 30 (f64_of_Z 100) = Ok (Some frame) /\
    length (lf_bars frame) = 2%nat.
Proof.
  destruct (state_lane_spec Debug demo_store demo_by_id 1 (default (mkChannelInfo 0 [] Text false) (in_channels demo_store !! 1%nat))
    (match ci_kind <$> in_channels demo_store !! 1%nat with Some (State l) => l | _ => [] end) 12 30 (f64_of_Z 100) 10 30)
    as (runs & frame & H1 & H2 & H3 & H4 & H5).
  - exact demo_wf.
  - vm_compute. reflexivity.
  - vm_compute. reflexivity.
  - vm_compute. reflexivity.
  - vm_compute. reflexivity.
  - vm_compute. reflexivity.
  - lia.
  - apply in_ub_spec. reflexivity.
  - exists frame. split; [exact H3|]. vm_compute in H1. injection H1 as <-. rewrite <-(length_map bar_name), H4. reflexivity.
Defined.

(** A logic lane of a numeric channel with samples in the window tiles the
    window: its runs follow each other without gap or overlap from [t0] to
    [t1], every instant of the window is in one of them, and the run holds the
    integer value of the latest sample at that instant (before the first
    sample, the value sampled at the window's start, or else the first one). *)
Theorem scalar_lane_tiles {S} `{StoreLaws S wf} (s : S) ch t0 t1 n l :
  wf s -> 0 <= t0 < t1 -> query_raw s ch t0 t1 n = Ok l -> l <> [] ->
  exists held rs, sample_at s ch t0 = Ok held /\ scalar_lane_runs s ch t0 t1 n = Ok rs /\ tiles t0 t1 rs /\
    forall t, t0 <= t < t1 ->
      exists r, r ∈ rs /\ lr_start r <= t < lr_end r /\ logic_value l held t = Some (lr_value r).
Proof.
  intros Hwf Ht Hq Hne. destruct (scalar_lane_runs_ok s ch t0 t1 n l Hwf Ht Hq Hne) as (held & Hh & rs & Hrs & Htl & Hv).
  exists held, rs. split_and!; [done..|]. intros t Htt. destruct (tiles_cover _ _ _ t Htl Htt) as (r & Hr & Hrt).
  exists r. split; [done|]. split; [done|]. by apply (proj1 (Forall_forall _ _) Hv r Hr).
Qed.

Lemma scalar_lane_tiles_witness :
  exists rs, scalar_lane_runs (H := mock_store Debug) demo_store 0 5 40 100 = Ok rs /\ tiles 5 40 rs.
Proof.
  destruct (scalar_lane_tiles (H := mock_store Debug) (H0 := mock_store_laws Debug) demo_store 0 5 40 100
    [(10, f64_of_Z 1); (20, f64_of_Z 5); (30, f64_of_Z (-2))]) as (held & rs & _ & H & Ht & _).
  - exact demo_wf.
  - lia.
  - vm_compute. reflexivity.
  - discriminate.
  - exact (ex_intro _ rs (conj H Ht)).
Defined.

(** The lane of the demonstration store: one run per value, the first stretched
    back to the window's start. *)
Example scalar_lane_demo :
  scalar_lane_runs (H := mock_store Debug) demo_store 0 5 40 100 =
  Ok [mkLogicRun 5 20 1; mkLogicRun 20 30 5; mkLogicRun 30 40 (-2)].
Proof. vm_compute. reflexivity. Qed.

(** ** Corner cases *)

(** A numeric lane of a channel without samples subtracts [i64::MAX] from
    [i64::MIN]. *)
Definition two_channels : Inner :=
  after_ops Debug [AddScalarInt (str "g.a"); AddScalarInt (str "g.b"); PushScalar 1 10 (f64_of_Z 1); PushScalar 0 90 (f64_of_Z 7)].
Definition two_by_id (s : Inner) : gmap Z ChannelInfo := collect_map (map (fun c => (ci_id c, c)) (in_channels s)).

Example empty_lane_overflows :
  let s := after_ops Debug [AddScalarInt (str "g.a"); AddScalarInt (str "g.b"); PushScalar 1 10 (f64_of_Z 1)] in
  render_logic_lane (H := mock_store Debug) Debug s (two_by_id s) 0 Hex 0 20 (f64_of_Z 1) (f32_of_Z 100) = Panic /\
  exists f, render_logic_lane (H := mock_store Release) Release s (two_by_id s) 0 Hex 0 20 (f64_of_Z 1) (f32_of_Z 100) = Ok (Some f).
Proof. split; [vm_compute; reflexivity|]. eexists. vm_compute. reflexivity. Qed.

(** Past a channel's last sample the lane blanks when another channel has newer
    data, although its last value should be held. *)
Example lane_not_held :
  scalar_lane_runs (H := mock_store Debug) two_channels 1 20 80 100 = Ok [] /\
  scalar_lane_runs (H := mock_store Debug) two_channels 0 91 95 100 = Ok [mkLogicRun 91 95 7].
Proof. split; vm_compute; reflexivity. Qed.

(** A run of no length at the very start of the data is outside the bounds the
    store reports: over a window that starts before it the gradient
    underflows. *)
Definition instant_change : Inner :=
  after_ops Debug (AddState (str "g.mode") [] :: PushState 0 10 0 ::
    map (fun i => PushState 0 (9 + i) i) (seqZ 1 18)).
Example state_lane_underflows :
  render_state_lane (H := mock_store Debug) Debug instant_change (two_by_id instant_change) 0 5 100 (f64_of_Z 1) = Panic.
Proof. vm_compute. reflexivity. Qed.
