(* ===== verification/Interact.v ===== *)
(** * btelem-viewer: mouse interaction with plots

    Models viewer/crates/btelem-viewer/src/plot_renderers.rs lines 2095-2396:
    panning and zooming the camera, placing, dragging, linking and selecting
    markers, and the hit tests.  What egui reports of a frame is the argument
    [Input] and [Response]; egui_plot's mapping between screen and plot is the
    argument [Transform], and the exponential of the platform's math library
    the argument [exp]: nothing is assumed of them.  Consuming the scroll delta
    is returned as the new delta. *)

From Stdlib Require Import SpecFloat.
From S2P Require Import Prelude Slices Text Float64 Float32 Store ViewCamera ViewMarkers Colours.

(** ** What the toolkit reports *)
Record Pos2 := mkPos2 { pos_x : f32; pos_y : f32 }.

Record Input := mkInput {
  in_hover : option Pos2;
  in_primary_down : bool;
  in_shift : bool;
  in_ctrl : bool;
  in_scroll_y : f32;
}.

Record Response := mkResponse {
  rs_hover : option Pos2;
  rs_interact : option Pos2;
  rs_min_x : f32;
  rs_width : f32;
  rs_contains : Pos2 -> bool;
  rs_middle_dragged : bool;
  rs_primary_dragged : bool;
  rs_primary_drag_started : bool;
  rs_primary_clicked : bool;
  rs_drag_dx : f32;
}.

Record Transform := mkTransform {
  tr_bounds_x : f64 * f64;
  tr_value : Pos2 -> f64 * f64;
  tr_x : f64 -> f32;
  tr_y : f64 -> f32;
}.

Definition fneg (x : spec_float) : spec_float := SFopp x.

(** ** Camera *)
Section camera.
Context (exp : f64 -> f64).

(** Seconds per pixel of the drawn region. *)
Definition px_scale (cur : f64 * f64) (width : f32) : f64 :=
  f64_div (f64_sub cur.2 cur.1) (f64_of_f32 (f64_max width (f32_of_Z 1))).

Definition pointer_in (r : Response) (hover : option Pos2) : bool :=
  match hover with Some p => rs_contains r p | None => false end.

(** The zoom of a scroll, shared by plots and lanes; the delta is consumed. *)
Definition scroll_zoom (cam : Camera) (r : Response) (cur : f64 * f64) (hover : option Pos2) (scroll : f64) : Camera * f32 :=
  let factor := exp (f64_mul (fneg scroll) (lit 15 10000)) in
  let cam :=
    if cam_follow cam then zoom_window cam factor None
    else
      let pivot_s :=
        match hover with
        | Some p =>
          let frac := f64_clamp (f64_div (f64_of_f32 (f32_sub (pos_x p) (rs_min_x r)))
                                   (f64_of_f32 (f64_max (rs_width r) (f32_of_Z 1)))) (f64_of_Z 0) (f64_of_Z 1) in
          f64_add cur.1 (f64_mul frac (f64_sub cur.2 cur.1))
        | None => f64_mul (f64_add cur.1 cur.2) half
        end in
      zoom_x cam factor pivot_s cur in
  (cam, S754_zero false).

Definition handle_camera (cam : Camera) (inp : Input) (r : Response) (tr : Transform)
    (interactive primary_drag_available : bool) : Camera * f32 :=
  let cur := tr_bounds_x tr in
  let drag_dx :=
    if interactive && (rs_middle_dragged r ||
         (primary_drag_available && negb (cam_follow cam) && rs_primary_dragged r))
    then f64_of_f32 (rs_drag_dx r) else f64_of_Z 0 in
  let cam := if f64_lt (f64_of_Z 0) (fabs drag_dx)
             then pan_x cam (f64_mul (fneg drag_dx) (px_scale cur (rs_width r))) cur else cam in
  let scroll := f64_of_f32 (in_scroll_y inp) in
  if pointer_in r (in_hover inp) && f64_lt half (fabs scroll) then scroll_zoom cam r cur (in_hover inp) scroll
  else (cam, in_scroll_y inp).

Definition drag_pan_x (cam : Camera) (r : Response) (cur_s : f64 * f64) (primary_drag_available : bool) : Camera :=
  if cam_follow cam then cam
  else if negb (rs_middle_dragged r || (primary_drag_available && rs_primary_dragged r)) then cam
  else
    let dx := f64_of_f32 (rs_drag_dx r) in
    if f64_eq (fabs dx) (f64_of_Z 0) then cam
    else pan_x cam (f64_mul (fneg dx) (px_scale cur_s (rs_width r))) cur_s.

Definition scroll_zoom_x (cam : Camera) (inp : Input) (r : Response) (cur_s : f64 * f64) : Camera * f32 :=
  if negb (pointer_in r (in_hover inp)) then (cam, in_scroll_y inp)
  else
    let scroll := f64_of_f32 (in_scroll_y inp) in
    if f64_le (fabs scroll) half then (cam, in_scroll_y inp) else scroll_zoom cam r cur_s (in_hover inp) scroll.
End camera.

(** ** Hit tests *)

(** Keep the nearest candidate; the first one wins a tie. *)
Definition nearer (best : option (Z * f32)) (id : Z) (d : f32) : option (Z * f32) :=
  match best with
  | Some (_, d0) => if f64_lt d d0 then Some (id, d) else best
  | None => Some (id, d)
  end.

Definition marker_dx (tr : Transform) (x : f32) (m : Marker) : f32 :=
  fabs (f32_sub (tr_x tr (ns_to_s (mk_t_ns m))) x).

Definition hit_marker (ms : MarkerSet) (tr : Transform) (pointer_x : f32) : option marker_id :=
  fst <$> foldl (fun best m =>
    let dx := marker_dx tr pointer_x m in
    if f64_le dx (f32_of_Z 8) then nearer best (mk_id m) dx else best) None (ms_markers ms).

Definition THRESHOLD_PX : f32 := f32_of_Z 6.

Definition hit_delta_line (ms : MarkerSet) (tr : Transform) (pointer : Pos2) (ylo yhi : f64) : option Z :=
  fst <$> foldl (fun best '(a, b, link) =>
    let xa := tr_x tr (ns_to_s (mk_t_ns a)) in
    let xb := tr_x tr (ns_to_s (mk_t_ns b)) in
    let '(xmin, xmax) := if f64_lt xa xb then (xa, xb) else (xb, xa) in
    if f64_lt (pos_x pointer) (f32_sub xmin THRESHOLD_PX) || f64_lt (f32_add xmax THRESHOLD_PX) (pos_x pointer) then best
    else
      let y_plot := f64_add ylo (f64_mul (f64_of_f32 (lk_y_frac link)) (f64_sub yhi ylo)) in
      let dy := fabs (f32_sub (tr_y tr y_plot) (pos_y pointer)) in
      if f64_le dy THRESHOLD_PX then nearer best (lk_id link) dy else best) None (link_pairs ms).

(** ** Markers *)
Record DragState := mkDrag {
  dg_markers : MarkerSet;
  dg_marker : option marker_id;
  dg_link : option Z;
}.

Definition or_else {A} (a b : option A) : option A := match a with Some _ => a | None => b end.

(** [(t_s.max(0.0) * 1e9) as u64] at a screen position. *)
Definition pointer_ns (tr : Transform) (p : Pos2) : Z := s_to_ns (tr_value tr p).1.

Section marker_interaction.
Context (pf : profile) (inp : Input) (r : Response) (tr : Transform) (selected_signals : list ChannelId) (ylo yhi : f64).

(** Pressing on a marker or a delta line takes hold of it. *)
Definition begin_drag (st : DragState) : DragState :=
  if rs_primary_drag_started r then
    match rs_hover r with
    | Some p =>
      match hit_marker (dg_markers st) tr (pos_x p) with
      | Some id => mkDrag (dg_markers st) (Some id) (dg_link st)
      | None =>
        match hit_delta_line (dg_markers st) tr p ylo yhi with
        | Some lid => mkDrag (dg_markers st) (dg_marker st) (Some lid)
        | None => st
        end
      end
    | None => st
    end
  else st.

Definition drag_marker (st : DragState) : DragState :=
  match dg_marker st, or_else (rs_hover r) (rs_interact r) with
  | Some id, Some p =>
    mkDrag (get_mut (dg_markers st) id (fun m => mkMarker (mk_id m) (pointer_ns tr p) (mk_label m) (mk_color m)))
      (dg_marker st) (dg_link st)
  | _, _ => st
  end.

Definition drag_link (st : DragState) : DragState :=
  match dg_link st, or_else (rs_hover r) (rs_interact r) with
  | Some lid, Some p =>
    let y := (tr_value tr p).2 in
    let span := f64_sub yhi ylo in
    if f64_lt (lit 1 (10 ^ 12)) (fabs span) then
      let frac := f32_of_f64 (f64_clamp (f64_div (f64_sub y ylo) span) (f64_of_Z 0) (f64_of_Z 1)) in
      mkDrag (get_link_mut (dg_markers st) lid (fun l => mkLink (lk_id l) (lk_a l) (lk_b l) frac (lk_signals l)))
        (dg_marker st) (dg_link st)
    else st
  | _, _ => st
  end.

Definition release_drag (st : DragState) : DragState :=
  if negb (in_primary_down inp) then mkDrag (dg_markers st) None None else st.

Definition next_colour (ms : MarkerSet) : total color :=
  index MARKER_PALETTE (blen (ms_markers ms) mod blen MARKER_PALETTE).

(** A click in marker mode on empty space. *)
Definition place_marker (ms : MarkerSet) (p : Pos2) : total MarkerSet :=
  let t_ns := pointer_ns tr p in
  colour ← next_colour ms;
  if in_shift inp then
    let anchor := or_else (ms_selected ms) (mk_id <$> last (ms_markers ms)) in
    a ← (match anchor with
         | Some a => x ← add_linked_to pf ms a t_ns colour selected_signals; mret (x.1, fst <$> x.2)
         | None => mret (ms, None)
         end);
    x ← (match a.2 with Some id => mret (a.1, id) | None => marker_add pf a.1 t_ns colour end);
    mret (select x.1 (Some x.2))
  else
    x ← marker_add pf ms t_ns colour;
    mret (select x.1 (Some x.2)).

(** Any other click. *)
Definition click_marker (ms : MarkerSet) (hit : option marker_id) (pos : option Pos2) : total MarkerSet :=
  match in_shift inp, ms_selected ms, hit, pos with
  | true, Some sel, None, Some p =>
    colour ← next_colour ms;
    x ← add_linked_to pf ms sel (pointer_ns tr p) colour selected_signals;
    mret (match x.2 with Some (new_id, _) => select x.1 (Some new_id) | None => x.1 end)
  | true, Some sel, Some id, _ =>
    if id =? sel then mret ms else x ← link pf ms sel id selected_signals; mret x.1
  | false, _, Some id, _ => mret (select ms (Some id))
  | false, _, None, _ => mret (select ms None)
  | _, _, _, _ => mret ms
  end.

Definition handle_marker_interaction (marker_mode : bool) (st : DragState) : total DragState :=
  let st := release_drag (drag_link (drag_marker (begin_drag st))) in
  if rs_primary_clicked r then
    let ms := dg_markers st in
    let pos := or_else (rs_interact r) (rs_hover r) in
    let hit := p ← pos; hit_marker ms tr (pos_x p) in
    if marker_mode && bool_decide (hit = None) then
      match pos with
      | Some p => ms ← place_marker ms p; mret (mkDrag ms (dg_marker st) (dg_link st))
      | None => mret st
      end
    else ms ← click_marker ms hit pos; mret (mkDrag ms (dg_marker st) (dg_link st))
  else mret st.
End marker_interaction.

(** ** The camera stays valid *)

(** A follow window of at least one nanosecond that fits its type. *)
Definition cam_ok (c : Camera) : Prop := 1 <= cam_window_ns c < 2 ^ 64.

Lemma zoom_window_ok c f m : cam_ok (zoom_window c f m).
Proof.
  unfold cam_ok, zoom_window. cbn [cam_window_ns]. set (x := f64_clamp _ _ _). pose proof (f64_to_u64_range x) as H.
  unfold in_u in H. lia.
Qed.
Lemma zoom_x_window c f v b : cam_window_ns (zoom_x c f v b) = cam_window_ns c.
Proof. unfold zoom_x. by destruct (default _ _). Qed.
Lemma pan_x_window c d b : cam_window_ns (pan_x c d b) = cam_window_ns c.
Proof. unfold pan_x. by destruct (default _ _). Qed.

Lemma scroll_zoom_ok exp c r cur hover scroll : cam_ok c -> cam_ok (scroll_zoom exp c r cur hover scroll).1.
Proof.
  intros Hc. unfold scroll_zoom. cbn [fst]. destruct (cam_follow c); [apply zoom_window_ok|].
  unfold cam_ok. by rewrite zoom_x_window.
Qed.

Lemma handle_camera_ok exp c inp r tr i a : cam_ok c -> cam_ok (handle_camera exp c inp r tr i a).1.
Proof.
  intros Hc. unfold handle_camera. cbv zeta. set (c1 := if f64_lt _ _ then _ else c).
  assert (H1 : cam_ok c1).
  { unfold c1. destruct (f64_lt _ _); [|done]. unfold cam_ok. by rewrite pan_x_window. }
  destruct (pointer_in _ _ && _); [by apply scroll_zoom_ok|done].
Qed.

Lemma drag_pan_ok c r cur a : cam_ok c -> cam_ok (drag_pan_x c r cur a).
Proof.
  intros Hc. unfold drag_pan_x. destruct (cam_follow c); [done|]. destruct (negb _); [done|].
  destruct (f64_eq _ _); [done|]. unfold cam_ok. by rewrite pan_x_window.
Qed.

Lemma scroll_zoom_x_ok exp c inp r cur : cam_ok c -> cam_ok (scroll_zoom_x exp c inp r cur).1.
Proof.
  intros Hc. unfold scroll_zoom_x. destruct (negb _); [done|]. cbv zeta. destruct (f64_le _ _); [done|].
  by apply scroll_zoom_ok.
Qed.

(** ** Hit tests find the nearest *)

(** The fold of a hit test over candidates with their distances. *)
Lemma nearest_fold {A} (key : A -> Z) (d : A -> f32) (ok : A -> bool) (l : list A) best :
  (forall x, x ∈ l -> ok x = true -> is_nan (d x) = false) ->
  (forall i e, best = Some (i, e) -> is_nan e = false) ->
  let r := foldl (fun b x => if ok x then nearer b (key x) (d x) else b) best l in
  match r with
  | None => best = None /\ Forall (fun x => ok x = false) l
  | Some (i, e) =>
    (best = Some (i, e) \/ exists x, x ∈ l /\ ok x = true /\ key x = i /\ d x = e) /\ is_nan e = false /\
    (forall j e', best = Some (j, e') -> f64_le e e' = true) /\
    Forall (fun x => ok x = true -> f64_le e (d x) = true) l
  end.
Proof.
  intros Hn. revert best. induction l as [|x l IH]; intros best Hb; cbn [foldl].
  - cbv zeta. destruct best as [[i e]|]; [|by split]. specialize (Hb i e eq_refl). split_and!; [by left|done| |constructor].
    intros j e' [= <- <-]. by apply f64_le_refl.
  - assert (Hn' : forall y, y ∈ l -> ok y = true -> is_nan (d y) = false) by (intros y Hy; apply Hn; apply elem_of_cons; by right).
    specialize (IH Hn'). destruct (ok x) eqn:Ex.
    + assert (Hx : is_nan (d x) = false) by (apply Hn; [apply elem_of_cons; by left|done]).
      assert (Hbest : exists i e, nearer best (key x) (d x) = Some (i, e) /\ is_nan e = false /\
        (best = Some (i, e) \/ (i = key x /\ e = d x)) /\ f64_le e (d x) = true /\
        (forall j e', best = Some (j, e') -> f64_le e e' = true)).
      { unfold nearer. destruct best as [[i e]|].
        - specialize (Hb i e eq_refl). destruct (f64_lt (d x) e) eqn:El.
          + exists (key x), (d x). split_and!; [done|done|by right|by apply f64_le_refl|].
            intros j e' [= <- <-]. by apply f64_lt_le.
          + exists i, e. split_and!; [done|done|by left|by apply f64_nlt_le|]. intros j e' [= <- <-]. by apply f64_le_refl.
        - exists (key x), (d x). split_and!; [done|done|by right|by apply f64_le_refl|done]. }
      destruct Hbest as (i & e & -> & He & Hfrom & Hex & Hbb).
      specialize (IH (Some (i, e)) ltac:(by intros ?? [= <- <-])). cbv zeta in *. destruct (foldl _ _ _) as [[i' e']|]; [|by destruct IH].
      destruct IH as (I1 & I2 & I3 & I4). specialize (I3 i e eq_refl). split_and!; [|done| |].
      * destruct I1 as [[= <- <-]|(y & Hy & I1)].
        -- destruct Hfrom as [?|[-> ->]]; [by left|]. right. exists x. split; [apply elem_of_cons; by left|done].
        -- right. exists y. split; [apply elem_of_cons; by right|done].
      * intros j ej Hj. eapply f64_le_trans; [exact I3|by eapply Hbb].
      * constructor; [|done]. intros _. by eapply f64_le_trans.
    + specialize (IH best Hb). cbv zeta in *. destruct (foldl _ _ _) as [[i' e']|].
      * destruct IH as (I1 & I2 & I3 & I4). split_and!; [|done|done|constructor; [by rewrite Ex|done]].
        destruct I1 as [?|(y & Hy & I1)]; [by left|]. right. exists y. split; [apply elem_of_cons; by right|done].
      * destruct IH as [-> IH]. split; [done|]. by constructor.
Qed.

(** What a hit test should answer: the nearest marker within reach. *)
Definition nearest_marker (ms : MarkerSet) (tr : Transform) (x : f32) (hit : option marker_id) : Prop :=
  match hit with
  | Some id => exists m, m ∈ ms_markers ms /\ mk_id m = id /\ f64_le (marker_dx tr x m) (f32_of_Z 8) = true /\
      Forall (fun q => f64_le (marker_dx tr x q) (f32_of_Z 8) = true ->
                       f64_le (marker_dx tr x m) (marker_dx tr x q) = true) (ms_markers ms)
  | None => Forall (fun q => f64_le (marker_dx tr x q) (f32_of_Z 8) = false) (ms_markers ms)
  end.

Lemma hit_marker_ok ms tr x : nearest_marker ms tr x (hit_marker ms tr x).
Proof.
  pose proof (nearest_fold mk_id (marker_dx tr x) (fun m => f64_le (marker_dx tr x m) (f32_of_Z 8)) (ms_markers ms) None) as H.
  unfold nearest_marker, hit_marker. cbv zeta in *. destruct (foldl _ _ _) as [[i e]|]; cbn.
  - destruct H as ([?|(m & Hm & Hok & Hid & <-)] & _ & _ & Hall); [intros y _ Hy; by apply f64_le_nan in Hy as [? _]|done|done|].
    by exists m.
  - apply H; [intros y _ Hy; by apply f64_le_nan in Hy as [? _]|done].
Qed.

(** The hit test of the mouse returns the marker nearest to the pointer among
    those within 8 pixels, and none only if there is none, whatever the
    transform (even one that yields NaN). *)
Theorem hit_marker_nearest ms tr x : nearest_marker ms tr x (hit_marker ms tr x).
Proof. apply hit_marker_ok. Qed.

(** ** The marker graph stays consistent *)

(** The effect of a frame on the marker set: nothing is lost, at most one marker
    and one link are added. *)
Record grows (ms ms' : MarkerSet) : Prop := {
  gr_ok : ms_ok ms';
  gr_ids : exists new, ids ms' = ids ms ++ new /\ (length new <= 1)%nat;
  gr_links : exists new, link_ids ms' = link_ids ms ++ new /\ (length new <= 1)%nat;
  gr_next : ms_next_id ms' <= ms_next_id ms + 1 /\ ms_next_link_id ms' <= ms_next_link_id ms + 1;
}.

Lemma grows_refl ms : ms_ok ms -> grows ms ms.
Proof. intros H. split; [done|exists []; rewrite app_nil_r; split; [done|cbn; lia]..|lia]. Qed.

Lemma grows_same ms ms' : ms_ok ms' -> ids ms' = ids ms -> link_ids ms' = link_ids ms ->
  ms_next_id ms' = ms_next_id ms -> ms_next_link_id ms' = ms_next_link_id ms -> grows ms ms'.
Proof. intros H H1 H2 H3 H4. split; [done|exists []; rewrite app_nil_r; split; [done|cbn; lia]..|lia]. Qed.

Lemma select_ok ms id : ms_ok ms -> ms_ok (select ms id).
Proof. intros H. destruct (run_marker_ok Debug ms (MSelect id) H I) as (ms' & E & Hok). injection E as <-. done. Qed.

Lemma grows_select ms ms' id : grows ms ms' -> grows ms (select ms' id).
Proof. intros [H1 H2 H3 H4]. split; [by apply select_ok|done|done|done]. Qed.

Lemma add_marker_grows pf ms t c : ms_ok ms -> fresh_room ms ->
  exists ms', marker_add pf ms t c = Ok (ms', ms_next_id ms) /\ grows ms ms'.
Proof.
  intros Hok [Hn Hl]. rewrite marker_add_eq by done. eexists. split; [done|]. split; [by apply with_marker_ok| | |cbn; lia].
  - exists [ms_next_id ms]. unfold ids, with_marker. cbn. rewrite map_app. split; [done|cbn; lia].
  - exists []. rewrite app_nil_r. split; [done|cbn; lia].
Qed.

Lemma add_linked_grows pf ms a t c sigs : ms_ok ms -> fresh_room ms ->
  exists ms' r, add_linked_to pf ms a t c sigs = Ok (ms', r) /\ grows ms ms' /\ (r = None -> ms' = ms).
Proof.
  intros Hok [Hn Hl]. destruct (add_linked_ok pf ms a t c sigs Hok (conj Hn Hl)) as (ms' & r & E & Hok').
  exists ms', r. split; [done|]. unfold add_linked_to in E. destruct (get ms a) as [m|] eqn:Eg.
  2:{ injection E as <- <-. split; [by apply grows_refl|done]. }
  rewrite marker_add_eq in E by done. cbn [mbind res_bind fst snd] in E.
  assert (Ha : a ∈ ids ms) by (apply get_elem; by eexists).
  pose proof (proj1 (Forall_forall _ _) (ok_ids_range _ Hok) _ Ha) as Hr. cbn beta in Hr.
  rewrite link_eq in E; [|by apply with_marker_ok|done|lia]. injection E as <- <-. split; [|done]. split; [done| | |cbn; lia].
  - exists [ms_next_id ms]. unfold ids. cbn. rewrite map_app. split; [done|cbn; lia].
  - exists [ms_next_link_id ms]. unfold link_ids. cbn. rewrite map_app. split; [done|cbn; lia].
Qed.

Lemma next_colour_ok ms : exists c, next_colour ms = Ok c.
Proof. destruct (index_elem (E := Empty_set) MARKER_PALETTE (blen (ms_markers ms) mod blen MARKER_PALETTE)) as (c & Hc & _);
  [apply Z.mod_pos_bound; reflexivity|by exists c]. Qed.

Lemma place_marker_ok pf inp tr sigs ms p : ms_ok ms -> fresh_room ms ->
  returns (place_marker pf inp tr sigs ms p) (grows ms).
Proof.
  intros Hok Hfr. unfold place_marker. cbv zeta. destruct (next_colour_ok ms) as [c ->]. cbn [mbind res_bind].
  destruct (add_marker_grows pf ms (pointer_ns tr p) c Hok Hfr) as (ms1 & E1 & G1).
  destruct (in_shift inp); [|rewrite E1; cbn [mbind res_bind]; apply returns_ret; by apply grows_select].
  destruct (or_else _ _) as [a|]; cbn [mbind res_bind].
  - destruct (add_linked_grows pf ms a (pointer_ns tr p) c sigs Hok Hfr) as (ms2 & r & -> & G2 & Hnone).
    cbn [mbind res_bind fst snd]. destruct r as [[id lid]|]; cbn.
    + apply returns_ret. by apply grows_select.
    + rewrite (Hnone eq_refl), E1. cbn [mbind res_bind]. apply returns_ret. by apply grows_select.
  - cbn. rewrite E1. cbn. apply returns_ret. by apply grows_select.
Qed.

Lemma click_marker_ok pf inp tr sigs ms hit pos : ms_ok ms -> fresh_room ms ->
  (forall id, hit = Some id -> id ∈ ids ms) -> returns (click_marker pf inp tr sigs ms hit pos) (grows ms).
Proof.
  intros Hok Hfr Hhit. unfold click_marker.
  assert (Hsel : forall i, returns (mret (select ms i) : total MarkerSet) (grows ms)).
  { intros i. apply returns_ret. by apply grows_select, grows_refl. }
  destruct (in_shift inp); [|destruct hit; apply Hsel].
  destruct (ms_selected ms) as [sel|] eqn:Esel; [|apply returns_ret; by apply grows_refl].
  destruct hit as [id|].
  - destruct (id =? sel) eqn:E; [apply returns_ret; by apply grows_refl|].
    assert (Hs : sel ∈ ids ms) by (by apply (ok_selected _ Hok)). specialize (Hhit id eq_refl).
    destruct Hfr as [Hn Hl]. rewrite link_eq by (done || lia). cbn [mbind res_bind]. apply returns_ret.
    split; [by apply with_link_ok| | |cbn; lia].
    + exists []. rewrite app_nil_r. split; [done|cbn; lia].
    + exists [ms_next_link_id ms]. unfold link_ids. cbn. rewrite map_app. split; [done|cbn; lia].
  - destruct pos as [p|]; [|apply returns_ret; by apply grows_refl].
    destruct (next_colour_ok ms) as [c ->]. cbn [mbind res_bind].
    destruct (add_linked_grows pf ms sel (pointer_ns tr p) c sigs Hok Hfr) as (ms2 & r & -> & G2 & Hnone).
    cbn [mbind res_bind fst snd]. apply returns_ret. destruct r as [[id lid]|]; [by apply grows_select|done].
Qed.

(** Dragging moves a marker or a line; it changes no identity. *)
Record kept (ms ms' : MarkerSet) : Prop := {
  kp_ok : ms_ok ms';
  kp_ids : ids ms' = ids ms;
  kp_links : link_ids ms' = link_ids ms;
  kp_next : ms_next_id ms' = ms_next_id ms;
  kp_next_link : ms_next_link_id ms' = ms_next_link_id ms;
}.

Lemma kept_grows ms ms' ms'' : kept ms ms' -> grows ms' ms'' -> grows ms ms''.
Proof.
  intros [_ H1 H2 H3 H4] [G1 G2 G3 G4]. rewrite H1 in G2. rewrite H2 in G3. split; [done|done|done|lia].
Qed.

Lemma drag_phase_ok inp r tr ylo yhi st :
  ms_ok (dg_markers st) ->
  kept (dg_markers st)
    (dg_markers (release_drag inp (drag_link r tr ylo yhi (drag_marker r tr (begin_drag r tr ylo yhi st))))).
Proof.
  intros Hok. set (st1 := begin_drag r tr ylo yhi st).
  assert (H1 : dg_markers st1 = dg_markers st).
  { unfold st1, begin_drag. destruct (rs_primary_drag_started r); [|done]. destruct (rs_hover r); [|done].
    destruct (hit_marker _ _ _); [done|]. by destruct (hit_delta_line _ _ _ _ _). }
  set (st2 := drag_marker r tr st1).
  assert (H2 : kept (dg_markers st) (dg_markers st2)).
  { unfold st2, drag_marker. destruct (dg_marker st1) as [id|]; [|by rewrite H1]. destruct (or_else _ _) as [p|]; [|by rewrite H1].
    cbn [dg_markers]. rewrite H1. set (f := fun m => _).
    destruct (run_marker_ok Debug (dg_markers st) (MEdit id f) Hok) as (ms' & E & Hok'); [done|]. injection E as <-.
    split; [done| |done|done|done]. by apply update_first_map. }
  set (st3 := drag_link r tr ylo yhi st2).
  assert (H3 : kept (dg_markers st) (dg_markers st3)).
  { unfold st3, drag_link. destruct (dg_link st2) as [lid|]; [|done].
    destruct (or_else _ _) as [p|]; [|done]. cbv zeta. destruct (f64_lt _ _); [|done]. cbn [dg_markers].
    destruct H2 as [Hok2 Hi Hl Hn Hnl]. set (f := fun l => _).
    destruct (run_marker_ok Debug (dg_markers st2) (MEditLink lid f) Hok2) as (ms' & E & Hok'); [done|]. injection E as <-.
    split; [done|done| |done|done]. rewrite <-Hl. by apply update_first_map. }
  unfold release_drag. by destruct (negb _).
Qed.

Lemma marker_interaction_ok pf inp r tr sigs ylo yhi marker_mode st :
  ms_ok (dg_markers st) -> fresh_room (dg_markers st) ->
  returns (handle_marker_interaction pf inp r tr sigs ylo yhi marker_mode st) (fun st' =>
    grows (dg_markers st) (dg_markers st') /\
    (in_primary_down inp = false -> dg_marker st' = None /\ dg_link st' = None)).
Proof.
  intros Hok Hfr. unfold handle_marker_interaction. cbv zeta.
  pose proof (drag_phase_ok inp r tr ylo yhi st Hok) as Hk. set (st2 := release_drag _ _) in *.
  assert (Hok2 : ms_ok (dg_markers st2)) by apply Hk.
  assert (Hfr2 : fresh_room (dg_markers st2)) by (destruct Hk, Hfr; split; lia).
  assert (Hrel : in_primary_down inp = false -> dg_marker st2 = None /\ dg_link st2 = None).
  { intros E. unfold st2, release_drag. by rewrite E. }
  assert (Hstay : returns (mret st2 : total DragState) (fun st' => grows (dg_markers st) (dg_markers st') /\
    (in_primary_down inp = false -> dg_marker st' = None /\ dg_link st' = None))).
  { apply returns_ret. split; [|done]. eapply kept_grows; [exact Hk|by apply grows_refl]. }
  assert (Hgo : forall m, returns m (grows (dg_markers st2)) ->
    returns (ms ← m; mret (mkDrag ms (dg_marker st2) (dg_link st2)) : total DragState) (fun st' =>
      grows (dg_markers st) (dg_markers st') /\ (in_primary_down inp = false -> dg_marker st' = None /\ dg_link st' = None))).
  { intros m Hm. eapply returns_bind; [exact Hm|]. intros ms' G. apply returns_ret. split; [|done].
    by eapply kept_grows. }
  destruct (rs_primary_clicked r); [|exact Hstay].
  destruct (marker_mode && _).
  - destruct (or_else _ _) as [p|]; [apply Hgo; by apply place_marker_ok|exact Hstay].
  - apply Hgo. apply click_marker_ok; [done|done|]. intros id Hid. destruct (or_else _ _) as [p|]; [|done]. cbn in Hid.
    pose proof (hit_marker_ok (dg_markers st2) tr (pos_x p)) as Hn. rewrite Hid in Hn.
    destruct Hn as (m & Hm & <- & _). by apply list_elem_of_fmap_2.
Qed.


(** A click at 3 s in marker mode with nothing selected. *)
Definition demo_input (shift : bool) : Input := mkInput None false shift false (S754_zero false).
Definition demo_response : Response :=
  mkResponse None (Some (mkPos2 (f32_of_Z 50) (f32_of_Z 5))) (f32_of_Z 0) (f32_of_Z 100) (fun _ => true) false false false true
    (S754_zero false).
Definition demo_transform : Transform :=
  mkTransform (f64_of_Z 0, f64_of_Z 10) (fun _ => (f64_of_Z 3, f64_of_Z 0)) (fun x => f32_of_f64 (f64_mul x (f64_of_Z 10)))
    (fun y => f32_of_f64 y).

