(* ===== verification/Plots.v ===== *)
(** * btelem-viewer: scalar and XY plots

    Models viewer/crates/btelem-viewer/src/plot_renderers.rs lines 939-1075,
    1092-1133, 1235-1481: the data a scalar plot draws (signals, vertical range,
    polylines, markers, link deltas), the choice of the signal under the
    pointer, and the points of an XY plot.  What is handed to egui_plot is
    returned as data. *)

From Stdlib Require Import SpecFloat.
From S2P Require Import Prelude Slices Text Float64 Float32 Decimal Store ViewPanels ViewCamera ViewGroups ViewMarkers Colours Interact.

Definition SCATTER_THRESHOLD : nat := 40.
Definition XY_MAX_POINTS : nat := Z.to_nat 50000.

(** [(t, min, max)] in plot units. *)
Abbreviation point3 := (f64 * f64 * f64)%type.

Record SignalData := mkSignal {
  sg_ch : ChannelId;
  sg_name : text;
  sg_colour : Color32;
  sg_points : list point3;
  sg_style : SignalStyle;
  sg_selected : bool;
}.

Definition midpoint (lo hi : f64) : f64 := f64_mul (f64_add lo hi) half.

(** ** Signals and the vertical range *)
Definition INFINITY : f64 := S754_infinity false.
Definition NEG_INFINITY : f64 := S754_infinity true.

Definition widen_y (y : f64 * f64) (b : Bucket) : f64 * f64 :=
  (if f64_lt (bk_min b) y.1 then bk_min b else y.1, if f64_lt y.2 (bk_max b) then bk_max b else y.2).

Section scalar_section.
Context {S : Type} `{Store S} (s : S) (by_id : gmap Z ChannelInfo).

Definition max_buckets (available_width : f32) : nat :=
  Z.to_nat (Z.max (f32_to_usize (f64_max available_width (f32_of_Z 64))) 64).

Fixpoint scalar_signals (panel : ScalarPanel) (t0 t1 : Z) (n : nat) (i : nat) (channels : list ChannelId)
    (signals : list SignalData) (y : f64 * f64) : total (list SignalData * (f64 * f64)) :=
  match channels with
  | [] => mret (signals, y)
  | ch :: channels =>
    bs ← query_scalar s ch t0 t1 n;
    if bool_decide (bs = []) then scalar_signals panel t0 t1 n (i + 1)%nat channels signals y
    else
      let y := foldl widen_y y bs in
      let pts := map (fun b => (ns_to_s (bk_t b), bk_min b, bk_max b)) bs in
      colour ← palette (Z.of_nat i);
      let sig := mkSignal ch (default [] (ci_path <$> by_id !! ch)) colour pts (style_for panel ch)
                   (bool_decide (ch ∈ sp_selected panel)) in
      scalar_signals panel t0 t1 n (i + 1)%nat channels (signals ++ [sig]) y
  end.

Definition is_finite (x : f64) : bool := match x with S754_zero _ | S754_finite _ _ _ => true | _ => false end.

(** The range with a 5% margin. *)
Definition y_range (y : f64 * f64) : f64 * f64 :=
  let '(ymin, ymax) := y in
  if is_finite ymin && is_finite ymax && f64_le ymin ymax then
    let pad := if f64_lt ymin ymax then f64_mul (f64_sub ymax ymin) (lit 5 100)
               else f64_mul (f64_max (fabs ymin) (f64_of_Z 1)) (lit 5 100) in
    (f64_sub ymin pad, f64_add ymax pad)
  else (f64_of_Z (-1), f64_of_Z 1).

Definition scalar_data (panel : ScalarPanel) (t0 t1 : Z) (available_width : f32)
  : total (list SignalData * (f64 * f64)) :=
  r ← scalar_signals panel t0 t1 (max_buckets available_width) 0 (sp_channels panel) [] (INFINITY, NEG_INFINITY);
  mret (r.1, y_range r.2).

(** ** XY plots *)
Fixpoint xy_collect (y : ChannelId) (bs : list Bucket) : total (list (f64 * f64)) :=
  match bs with
  | [] => mret []
  | b :: bs =>
    yv ← sample_at s y (bk_t b);
    rest ← xy_collect y bs;
    mret (match yv with Some yv => (midpoint (bk_min b) (bk_max b), yv) :: rest | None => rest end)
  end.

Definition render_xy (xy : XYPlot) (view : option (Z * Z)) : total (option (list (f64 * f64))) :=
  match view with
  | None => mret None
  | Some (t0, t1) =>
    bs_x ← query_scalar s (xy_x xy) t0 t1 XY_MAX_POINTS;
    points ← xy_collect (xy_y xy) bs_x;
    mret (Some points)
  end.

(** ** Link deltas *)
Record LinkDelta := mkLinkDelta {
  ld_line : (f64 * f64) * (f64 * f64);
  ld_colour : color;
  ld_text : text;
  ld_signals : list ((f64 * f64) * (f64 * f64) * text);
}.

Definition delta_t : text := [xce; x94; x74; x3d].
Definition delta_space : text := [x20; xce; x94].

Fixpoint link_signals (signals : list SignalData) (xa xb : f64) (ta tb : Z) (sigs : list ChannelId)
  : total (list ((f64 * f64) * (f64 * f64) * text)) :=
  match sigs with
  | [] => mret []
  | ch :: sigs =>
    va ← sample_at s ch ta;
    match va with
    | None => link_signals signals xa xb ta tb sigs
    | Some va =>
      vb ← sample_at s ch tb;
      match vb with
      | None => link_signals signals xa xb ta tb sigs
      | Some vb =>
        let dy := f64_sub vb va in
        let sig_name := match list_find (fun g => sg_ch g = ch) signals with
                        | Some (_, g) => short_name (sg_name g) | None => str "?" end in
        rest ← link_signals signals xa xb ta tb sigs;
        mret ((xa, va, (xb, vb), delta_space ++ sig_name ++ str "=" ++ fmt_fixed_plus 4 dy) :: rest)
      end
    end
  end.

Definition link_delta (signals : list SignalData) (ylo yhi : f64) (l : Marker * Marker * Link) : total LinkDelta :=
  let '(a, b, link) := l in
  let xa := ns_to_s (mk_t_ns a) in
  let xb := ns_to_s (mk_t_ns b) in
  let dt := f64_sub xb xa in
  let y := f64_add ylo (f64_mul (f64_of_f32 (lk_y_frac link)) (f64_sub yhi ylo)) in
  sigs ← link_signals signals xa xb (mk_t_ns a) (mk_t_ns b) (lk_signals link);
  mret (mkLinkDelta ((xa, y), (xb, y)) (mk_color a) (delta_t ++ fmt_fixed_plus 4 dt ++ str "s") sigs).

Definition render_link_deltas (ms : MarkerSet) (signals : list SignalData) (ylo yhi : f64) : total (list LinkDelta) :=
  mapM (link_delta signals ylo yhi) (link_pairs ms).
End scalar_section.

(** ** Polylines *)
Fixpoint stairs (prev_v : f64) (points : list point3) : list (f64 * f64) :=
  match points with
  | [] => []
  | (t, lo, hi) :: points => let v := midpoint lo hi in (t, prev_v) :: (t, v) :: stairs v points
  end.

Definition step_polyline (points : list point3) : list (f64 * f64) :=
  match points with
  | [] => []
  | (t, lo, hi) :: rest => let v := midpoint lo hi in (t, v) :: stairs v rest
  end.

(** What is drawn of a signal: the envelope, the line with its width, the
    dots. *)
Record DrawnSignal := mkDrawn {
  dr_envelope : option (list (f64 * f64) * list (f64 * f64));
  dr_line : option (list (f64 * f64) * f32);
  dr_dots : option (list (f64 * f64));
  dr_dots_named : bool;
}.

Definition draw_signal (sig : SignalData) : DrawnSignal :=
  let style := sg_style sig in
  let base_w := width_px (sty_width style) in
  let main_w := if sg_selected sig then f32_add base_w (lit32 3 2) else base_w in
  let mids := map (fun '(t, lo, hi) => (t, midpoint lo hi)) (sg_points sig) in
  mkDrawn
    (if sty_envelope style then Some (map (fun '(t, lo, _) => (t, lo)) (sg_points sig), map (fun '(t, _, hi) => (t, hi)) (sg_points sig))
     else None)
    (match sty_line style with
     | Step => Some (step_polyline (sg_points sig), main_w)
     | Line | PointsLine => Some (mids, main_w)
     | Points => None
     end)
    (if match sty_line style with
        | Points | PointsLine => true
        | Line | Step => (length (sg_points sig) <? SCATTER_THRESHOLD)%nat
        end
     then Some mids else None)
    (match sty_line style with Points => true | _ => false end).

(** Marker lines: place, colour, width, label; highlighted log rows. *)
Definition render_markers (ms : MarkerSet) : list (f64 * color * f32 * text) :=
  map (fun m => (ns_to_s (mk_t_ns m), mk_color m,
                 if bool_decide (Some (mk_id m) = ms_selected ms) then f32_of_Z 3 else lit32 3 2, mk_label m)) (ms_markers ms).
(** A hash set in iteration order. *)
Definition hash_set_iter `{HashOrder} (s : gset Z) : list Z := map fst (hash_iter (gset_to_gmap tt s)).
Definition render_log_highlights `{HashOrder} (highlights : gset Z) : list f64 := map ns_to_s (hash_set_iter highlights).

(** Everything drawn in a scalar plot, with its bounds. *)
Record ScalarFrame := mkScalarFrame {
  sf_bounds : (f64 * f64) * (f64 * f64);
  sf_signals : list DrawnSignal;
  sf_links : list LinkDelta;
  sf_markers : list (f64 * color * f32 * text);
  sf_highlights : list f64;
}.

Definition scalar_frame {S} `{Store S} `{HashOrder} (s : S) (ms : MarkerSet) (highlights : gset Z) (signals : list SignalData)
    (t0 t1 : Z) (ylo yhi : f64) : total ScalarFrame :=
  links ← render_link_deltas s ms signals ylo yhi;
  mret (mkScalarFrame ((ns_to_s t0, ylo), (ns_to_s t1, yhi)) (map draw_signal signals) links (render_markers ms)
          (render_log_highlights highlights)).

(** ** The signal under the pointer *)
Definition signal_dy (t y : f64) (sig : SignalData) : total f64 :=
  let idx := Nat.min (partition_point (fun pt => f64_lt pt.1.1 t) (sg_points sig)) (length (sg_points sig) - 1) in
  pt ← index (sg_points sig) (Z.of_nat idx);
  mret (fabs (f64_sub (midpoint pt.1.2 pt.2) y)).

Fixpoint nearest_signal_loop (t y : f64) (best : option (ChannelId * f64)) (signals : list SignalData)
  : total (option (ChannelId * f64)) :=
  match signals with
  | [] => mret best
  | sig :: signals =>
    if bool_decide (sg_points sig = []) then nearest_signal_loop t y best signals
    else
      dy ← signal_dy t y sig;
      nearest_signal_loop t y (nearer best (sg_ch sig) dy) signals
  end.

Definition nearest_signal (signals : list SignalData) (t y : f64) : total (option ChannelId) :=
  r ← nearest_signal_loop t y None signals;
  mret (option_map fst r).

Definition update_scalar (plots : PlotRegistry) (pid : PlotId) (f : ScalarPanel -> ScalarPanel) : PlotRegistry :=
  registry_get_mut plots pid (fun k => match k with PScalar p => PScalar (f p) | k => k end).
Definition set_selected (sel : gset Z) (p : ScalarPanel) : ScalarPanel :=
  mkScalarPanel (sp_title p) (sp_channels p) (sp_styles p) sel.

(** A click on a scalar plot outside marker mode: with Ctrl or Shift it selects
    the signal under the pointer, plain it clears the selection unless it hits a
    marker. *)
Definition click_signals (plots : PlotRegistry) (pid : PlotId) (ms : MarkerSet) (inp : Input) (r : Response) (tr : Transform)
    (marker_mode : bool) (signals : list SignalData) : total PlotRegistry :=
  let pos := or_else (rs_interact r) (rs_hover r) in
  if negb (rs_primary_clicked r) then mret plots
  else if (in_ctrl inp || in_shift inp) && negb marker_mode then
    match pos with
    | Some p =>
      let v := tr_value tr p in
      closest ← nearest_signal signals v.1 v.2;
      mret (match closest with
            | Some ch => update_scalar plots pid (fun panel =>
                set_selected (if in_ctrl inp && bool_decide (ch ∈ sp_selected panel) then sp_selected panel ∖ {[ch]}
                              else {[ch]} ∪ sp_selected panel) panel)
            | None => plots
            end)
    | None => mret plots
    end
  else if negb marker_mode then
    let hit := p ← pos; hit_marker ms tr (pos_x p) in
    mret (if bool_decide (hit = None) then update_scalar plots pid (set_selected ∅) else plots)
  else mret plots.

(** ** Properties *)

(** The range encloses every bucket bound that is a number. *)
Lemma widen_y_encloses bs y :
  is_nan y.1 = false -> is_nan y.2 = false ->
  let y' := foldl widen_y y bs in
  is_nan y'.1 = false /\ is_nan y'.2 = false /\ f64_le y'.1 y.1 = true /\ f64_le y.2 y'.2 = true /\
  Forall (fun b => (is_nan (bk_min b) = false -> f64_le y'.1 (bk_min b) = true) /\
                   (is_nan (bk_max b) = false -> f64_le (bk_max b) y'.2 = true)) bs.
Proof.
  revert y. induction bs as [|b bs IH]; intros y H1 H2; cbn [foldl].
  { cbv zeta. split_and!; [done|done|by apply f64_le_refl|by apply f64_le_refl|constructor]. }
  assert (Hw : is_nan (widen_y y b).1 = false /\ is_nan (widen_y y b).2 = false /\
    f64_le (widen_y y b).1 y.1 = true /\ f64_le y.2 (widen_y y b).2 = true /\
    (is_nan (bk_min b) = false -> f64_le (widen_y y b).1 (bk_min b) = true) /\
    (is_nan (bk_max b) = false -> f64_le (bk_max b) (widen_y y b).2 = true)).
  { unfold widen_y. cbn [fst snd].
    assert (Hlo : forall lo (x : f64), is_nan lo = false -> let m := if f64_lt x lo then x else lo in
      is_nan m = false /\ f64_le m lo = true /\ (is_nan x = false -> f64_le m x = true)).
    { intros lo x Hl. destruct (f64_lt x lo) eqn:E; cbv zeta.
      - apply f64_lt_le in E. pose proof (f64_le_nan _ _ E) as [? _]. split_and!; [done|done|by apply f64_le_refl].
      - split_and!; [done|by apply f64_le_refl|]. intros Hx. by apply f64_nlt_le. }
    assert (Hhi : forall hi (x : f64), is_nan hi = false -> let m := if f64_lt hi x then x else hi in
      is_nan m = false /\ f64_le hi m = true /\ (is_nan x = false -> f64_le x m = true)).
    { intros hi x Hl. destruct (f64_lt hi x) eqn:E; cbv zeta.
      - apply f64_lt_le in E. pose proof (f64_le_nan _ _ E) as [_ ?]. split_and!; [done|done|by apply f64_le_refl].
      - split_and!; [done|by apply f64_le_refl|]. intros Hx. by apply f64_nlt_le. }
    destruct (Hlo y.1 (bk_min b) H1) as (A1 & A2 & A3), (Hhi y.2 (bk_max b) H2) as (B1 & B2 & B3). by split_and!. }
  destruct Hw as (W1 & W2 & W3 & W4 & W5 & W6). specialize (IH (widen_y y b) W1 W2). cbv zeta in *.
  set (y' := foldl widen_y (widen_y y b) bs) in *. destruct IH as (I1 & I2 & I3 & I4 & I5).
  split_and!; [done|done|by eapply f64_le_trans|by eapply f64_le_trans|]. constructor; [|done].
  split; intros Hn; eapply f64_le_trans; eauto.
Qed.

(** A scalar plot of a lawful store can always be drawn. *)
Lemma scalar_signals_ok {S} `{StoreLaws S wf} (s : S) by_id panel t0 t1 n :
  wf s -> in_u 64 t0 -> in_u 64 t1 ->
  forall channels i signals y, exists r, scalar_signals s by_id panel t0 t1 n i channels signals y = Ok r.
Proof.
  intros Hwf H0' H1'. induction channels as [|ch cs IH]; intros i signals y; cbn [scalar_signals]; [by eexists|].
  destruct (law_scalar_total s ch t0 t1 n Hwf H0' H1') as [bs ->]. cbn [mbind res_bind].
  case_bool_decide; [apply IH|]. destruct (palette_ok (Z.of_nat i)) as (c & -> & _). apply IH.
Qed.

Lemma xy_collect_ok {S} `{StoreLaws S wf} (s : S) y bs :
  wf s -> returns (xy_collect s y bs) (fun pts => (length pts <= length bs)%nat).
Proof.
  intros Hwf. induction bs as [|b bs IH]; cbn [xy_collect]; [by apply returns_ret|].
  destruct (law_sample_total s y (bk_t b) Hwf) as [v ->]. cbn [mbind res_bind].
  eapply returns_bind; [exact IH|]. intros pts Hp. apply returns_ret. cbn beta in *. destruct v; cbn [length]; lia.
Qed.

Lemma stairs_length v pts : length (stairs v pts) = (2 * length pts)%nat.
Proof. revert v. induction pts as [|[[t lo] hi] pts IH]; intros v; [done|]. cbn [stairs length]. rewrite IH. lia. Qed.

(** A staircase has twice the vertices of its points, less one. *)
Lemma step_polyline_length pts : length (step_polyline pts) = (2 * length pts - 1)%nat.
Proof. destruct pts as [|[[t lo] hi] pts]; [done|]. cbn [step_polyline length]. rewrite stairs_length. lia. Qed.

(** ** The nearest signal *)
Lemma signal_dy_ok t y sig : sg_points sig <> [] -> exists d, signal_dy t y sig = Ok d.
Proof.
  intros Hne. unfold signal_dy. cbv zeta. set (idx := Nat.min _ _).
  assert (Hl : length (sg_points sig) <> 0%nat) by (intros E; by apply length_zero_iff_nil in E).
  destruct (index_elem (E := Empty_set) (sg_points sig) (Z.of_nat idx)) as (pt & -> & _); [unfold blen; lia|]. by eexists.
Qed.

Lemma nearest_signal_fold t y signals best :
  exists r, nearest_signal_loop t y best signals = Ok r /\
    r = foldl (fun b sg => if negb (bool_decide (sg_points sg = [])) then
                 match signal_dy t y sg with Ok d => nearer b (sg_ch sg) d | _ => b end else b) best signals.
Proof.
  revert best. induction signals as [|sg l IH]; intros best; cbn [nearest_signal_loop foldl]; [by eexists|].
  case_bool_decide as E; cbn [negb]; [apply IH|]. destruct (signal_dy_ok t y sg E) as [d Hd]. rewrite Hd.
  cbn [mbind res_bind]. apply IH.
Qed.

(** Clicking never panics and keeps the registry well formed. *)
Lemma click_signals_ok plots pid ms inp r tr mode signals :
  registry_ok plots -> returns (click_signals plots pid ms inp r tr mode signals) registry_ok.
Proof.
  intros Hr. assert (Hu : forall f, registry_ok (update_scalar plots pid (fun q => set_selected (f q) q))).
  { intros f. apply registry_get_mut_ok; [done|]. by intros [] _ ?. }
  unfold click_signals. cbv zeta. destruct (negb (rs_primary_clicked r)); [by apply returns_ret|].
  destruct (_ && negb mode); [destruct (or_else _ _) as [q|]; [|by apply returns_ret]|destruct (negb mode); [|by apply returns_ret]].
  - unfold nearest_signal. destruct (nearest_signal_fold (tr_value tr q).1 (tr_value tr q).2 signals None) as (best & -> & _).
    cbn [mbind res_bind]. apply returns_ret. destruct (option_map fst best); [apply Hu|done].
  - apply returns_ret. case_bool_decide; [|done]. apply (Hu (fun _ => ∅)).
Qed.

(** A signal whose value is not a number keeps the selection to itself. *)
Example nan_signal_wins :
  let sg ch v := mkSignal ch [] BLACK [(f64_of_Z 0, v, v)] SignalStyle_default false in
  nearest_signal [sg 1 S754_nan; sg 2 (f64_of_Z 5)] (f64_of_Z 0) (f64_of_Z 5) = Ok (Some 1).
Proof. vm_compute. reflexivity. Qed.
