(* ===== verification/Drawn.v ===== *)
(** * btelem-viewer: drawing returns

    In a release build nothing that is computed to draw a plot panics, whatever
    the window and the panel, over any store whose channels have their vectors: log views, lanes of
    both kinds, scalar plots with their links, XY plots. *)

From S2P Require Import Prelude Slices BTree Text Float64 Float32 Store MockStore Robust ViewPanels ViewCamera ViewGroups ViewMarkers LogView Colours Lanes Interact Plots.

(** A computation that returns something. *)
Definition draws {A} (m : total A) : Prop := returns m (fun _ => True).

Lemma draws_ret {A} (x : A) : draws (mret x).
Proof. by apply returns_ret. Qed.
Lemma draws_bind {A B} (m : total A) (f : A -> total B) : draws m -> (forall x, draws (f x)) -> draws (x ← m; f x).
Proof. intros Hm Hf. eapply returns_bind; [exact Hm|]. intros x _. apply Hf. Qed.
Lemma draws_mapM {A B} (f : A -> total B) l : (forall x, draws (f x)) -> draws (mapM f l).
Proof. intros Hf. eapply returns_impl; [apply (returns_mapM f (fun _ _ => True)); intros x _; apply Hf|done]. Qed.
Lemma draws_arith w z : draws (arith Release w z).
Proof. unfold arith. destruct (in_ub w z); by eexists. Qed.
Lemma draws_arith_i w z : draws (arith_i Release w z).
Proof. unfold arith_i. case_match; by eexists. Qed.
Lemma draws_of {A} (m : total A) : (exists x, m = Ok x) -> draws m.
Proof. intros [x ->]. by eexists. Qed.

Create HintDb draws.
#[export] Hint Resolve draws_ret draws_arith draws_arith_i : draws.

Ltac draw_step :=
  match goal with
  | |- draws (mbind _ _) => apply draws_bind; [|intros ?]
  | |- draws (mapM _ _) => apply draws_mapM; intros ?
  | |- draws (if ?b then _ else _) => destruct b
  | |- draws (match ?x with _ => _ end) => destruct x
  | |- _ => solve [eauto with draws]
  end.
Ltac draw := repeat draw_step.

Lemma draws_heatmap t : draws (heatmap_color t).
Proof. destruct (heatmap_ok t) as (c & -> & _). by eexists. Qed.
Lemma draws_palette i : draws (palette i).
Proof. destruct (palette_ok i) as (c & -> & _). by eexists. Qed.
Lemma draws_format v radix : draws (format_logic_value Release v radix).
Proof. unfold format_logic_value. draw. Qed.
#[export] Hint Resolve draws_heatmap draws_palette draws_format : draws.

(** ** Log rows *)
Lemma draws_state_value runs t : draws (state_value_at runs t).
Proof.
  unfold state_value_at. destruct runs as [runs|]; [|draw]. case_bool_decide; [draw|]. cbv zeta.
  set (idx := partition_point _ runs). destruct (idx =? 0)%nat eqn:E; [draw|].
  apply draws_bind; [|draw].
  assert (Hle : (idx <= length runs)%nat) by (unfold idx; apply (partition_point_mono (fun r => t_start r <=? t) (fun r => t_start r <=? t) runs); done).
  apply Nat.eqb_neq in E. clearbody idx.
  destruct (index_elem (E := Empty_set) runs (Z.of_nat idx - 1)) as (r & -> & _); [unfold blen; lia|]. by eexists.
Qed.
#[export] Hint Resolve draws_state_value : draws.

Lemma draws_truncate rows pr max_rows : draws (truncate_rows Release rows pr max_rows).
Proof.
  assert (Hb : forall a b n last l, draws (bucket_rows Release a b n last l)).
  { intros a b n last l. revert last. induction l as [|r l IH]; intros last; cbn [bucket_rows]; draw. }
  assert (Hs : forall l n, draws (sample_even_over_time Release l n)) by (intros l n; unfold sample_even_over_time; draw).
  assert (Hf : forall ts out, draws (fill_tiers Release max_rows ts out)).
  { induction ts as [|[k t] ts IH]; intros out; cbn [fill_tiers]; draw. }
  unfold truncate_rows. draw.
Qed.
#[export] Hint Resolve draws_truncate : draws.

(** ** Over a store *)
Section store.
Context (s : MockStore.Inner) (Hal : aligned s) (by_id : gmap Z ChannelInfo) (t0 t1 : Z).
Local Abbreviation st := (mock_store Release).

Lemma draws_scalar ch n : draws (query_scalar (Store := st) s ch t0 t1 n).
Proof using. apply draws_of, scalar_returns. Qed.
Lemma draws_state ch : draws (query_state (Store := st) s ch t0 t1).
Proof using. apply draws_of, state_returns. Qed.
Lemma draws_sample ch t : draws (sample_at (Store := st) s ch t).
Proof using Hal. by apply draws_of, sample_returns. Qed.
Lemma draws_raw ch n : draws (query_raw (Store := st) s ch t0 t1 n).
Proof using. apply draws_of, strided_returns. Qed.
Lemma draws_text ch n : draws (query_text (Store := st) s ch t0 t1 n).
Proof using. apply draws_of, strided_returns. Qed.
Lemma draws_bounds ch : draws (value_bounds (H := st) s ch).
Proof using. apply draws_of, bounds_returns. Qed.
#[local] Hint Resolve draws_scalar draws_state draws_sample draws_raw draws_text draws_bounds : draws.

Lemma draws_log_rows `{HashOrder} panel : draws (log_view_rows (H := st) Release s by_id panel t0 t1).
Proof using Hal.
  assert (Hsrc : forall cols acc, draws (col_sources (H := st) s by_id cols t0 t1 acc)).
  { induction cols as [|ch cols IH]; intros acc; cbn [col_sources]; [draw|]. destruct (by_id !! ch) as [info|]; [|apply IH].
    apply draws_bind; [|intros; apply IH]. unfold col_source. draw. }
  assert (Hcells : forall srcs cols t cells, draws (row_cells_at srcs cols t cells)).
  { intros srcs cols t. induction cols as [|ch cols IH]; intros cells; cbn [row_cells_at]; [draw|].
    destruct (srcs !! ch) as [src|]; [|apply IH]. apply draws_bind; [|intros; apply IH]. unfold source_cell. draw. }
  assert (Hrows : forall srcs cols ts, draws (rows_at srcs cols ts)).
  { intros srcs cols ts. induction ts as [|t ts IH]; cbn [rows_at]; draw. }
  unfold log_view_rows, build_log_rows. draw.
Qed.

Lemma draws_state_lane ch px : draws (render_state_lane (H := st) Release s by_id ch t0 t1 px).
Proof using Hal.
  unfold render_state_lane, state_lane_runs, state_lane_bounds, state_bar, state_fill. draw.
Qed.

Lemma draws_logic_lane ch radix px w : draws (render_logic_lane (H := st) Release s by_id ch radix t0 t1 px w).
Proof using Hal.
  unfold render_logic_lane. destruct (by_id !! ch) as [info|]; [|draw]. case_bool_decide as E; [draw|].
  apply draws_bind.
  - unfold logic_lane_runs, held_lane_runs, scalar_lane_runs, logic_max_samples. destruct (ci_kind info); [draw|draw|done].
  - intros runs. unfold logic_lane_bounds, logic_bar. draw.
Qed.

Lemma draws_lane lane px w : draws (render_lane_dispatch (H := st) Release s by_id lane t0 t1 px w).
Proof using Hal. unfold render_lane_dispatch. destruct (ll_mode lane); [apply draws_state_lane|apply draws_logic_lane]. Qed.

Lemma draws_scalar_data panel w : draws (scalar_data (H := st) s by_id panel t0 t1 w).
Proof using Hal.
  unfold scalar_data. apply draws_bind; [|draw].
  assert (H : forall chs n i sg y, draws (scalar_signals (H := st) s by_id panel t0 t1 n i chs sg y)).
  { induction chs as [|ch chs IH]; intros n i sg y; cbn [scalar_signals]; draw. }
  apply H.
Qed.

Lemma draws_links ms signals ylo yhi : draws (render_link_deltas (H := st) s ms signals ylo yhi).
Proof using Hal.
  assert (H : forall sigs xa xb ta tb, draws (link_signals (H := st) s signals xa xb ta tb sigs)).
  { induction sigs as [|ch sigs IH]; intros xa xb ta tb; cbn [link_signals]; draw. }
  unfold render_link_deltas, link_delta. draw.
Qed.

Lemma draws_scalar_frame `{HashOrder} ms hl signals ylo yhi : draws (scalar_frame (H := st) s ms hl signals t0 t1 ylo yhi).
Proof using Hal. unfold scalar_frame. apply draws_bind; [apply draws_links|draw]. Qed.

Lemma draws_xy xy : draws (render_xy (H := st) s xy (Some (t0, t1))).
Proof using Hal.
  unfold render_xy. apply draws_bind; [apply draws_scalar|]. intros bs. apply draws_bind; [|draw].
  induction bs as [|b bs IH]; cbn [xy_collect]; draw.
Qed.
End store.
