(* ===== verification/Screen.v ===== *)
(** * btelem-viewer: what the panels show

    Models the display side of viewer/crates/btelem-viewer/src/plot_renderers.rs
    that the other files leave out: the log table with its header, status line and
    row colours (lines 745-760, 772-780, 816-897), the header of a scalar plot
    (106-130), the labels of an XY plot (957-975), the legend of the style menu
    (1155-1175), the place of a group label (82-103), and the titles of the tabs
    (app.rs 1595-1601).  The toolkit's colours with transparency are parameters. *)

From Stdlib Require Import SpecFloat.
From S2P Require Import Prelude Slices Text Float64 Float32 Decimal Store ViewPanels ViewCamera ViewGroups ViewMarkers LogView Colours Lanes Interact Plots.

(** ** Titles and labels *)
Definition TimeBase_label (b : TimeBase) : text := match b with Follow => str "follow" | Pan => str "pan" end.

(** The title of a tab; the [Debug] form of the id when the plot is gone. *)
Definition tab_title (plots : PlotRegistry) (tab : PlotId) : text :=
  match registry_get plots tab with
  | Some k => plot_title k
  | None => str "[PlotId(" ++ fmt_dec tab ++ str ")]"
  end.

Record ScalarHeader := mkScalarHeader { sh_title : text; sh_mode : text; sh_height : f32 }.
Definition scalar_header (panel : ScalarPanel) (mode : TimeBase) (available_height item_spacing : f32) (view : option (Z * Z))
  : option ScalarHeader :=
  match view with
  | None => None
  | Some _ => Some (mkScalarHeader (sp_title panel) (str "[" ++ TimeBase_label mode ++ str "]")
                      (f64_max (f32_sub available_height item_spacing) (f32_of_Z 80)))
  end.

(** The entries of the style menu. *)
Definition bullet : text := [xe2; x97; x8f; x20].
Definition legend (signals : list SignalData) : list (ChannelId * text * Color32) :=
  map (fun s => (sg_ch s, bullet ++ short_name (sg_name s), sg_colour s)) signals.

(** The corner from which a group label of size [w] by [h] is written upwards. *)
Definition group_label_pos (centre_x centre_y w h : f32) (label : text) : option (f32 * f32) :=
  match label with
  | [] => None
  | _ => Some (f32_sub centre_x (f32_mul h (lit32 1 2)), f32_add centre_y (f32_mul w (lit32 1 2)))
  end.

(** ** XY plots *)
Record XyScreen := mkXyScreen {
  xs_title : text; xs_x : text; xs_y : text;
  xs_line : option (list (f64 * f64) * Color32 * text);
}.
Definition axis_name (by_id : gmap Z ChannelInfo) (ch : ChannelId) : text := default (str "?") (ci_path <$> by_id !! ch).
Definition xy_screen {S} `{Store S} (s : S) (by_id : gmap Z ChannelInfo) (xy : XYPlot) (view : option (Z * Z))
  : total (option XyScreen) :=
  r ← render_xy s xy view;
  match r with
  | None => mret None
  | Some points =>
    let xname := axis_name by_id (xy_x xy) in
    let yname := axis_name by_id (xy_y xy) in
    colour ← palette 0;
    mret (Some (mkXyScreen (xy_title xy) xname yname
      (match points with [] => None | _ => Some (points, colour, xname ++ str " vs " ++ yname) end)))
  end.

(** ** The log table *)
Definition compact_w : f32 := f32_of_Z 100.
Definition text_col_w (avail : f32) (cols : list LogColumn) : f32 :=
  let text_col_count := f32_of_Z (blen (List.filter lc_is_text cols)) in
  let compact_total :=
    f32_mul compact_w (f32_add (f32_of_Z 1) (f32_of_Z (blen (List.filter (fun c => negb (lc_is_text c)) cols)))) in
  if f64_lt (S754_zero false) text_col_count
  then f64_max (f32_div (f32_sub avail compact_total) text_col_count) compact_w else compact_w.
Definition col_w (avail : f32) (cols : list LogColumn) (c : LogColumn) : f32 :=
  if lc_is_text c then text_col_w avail cols else compact_w.

(** A star marks the columns with an active filter. *)
Definition arrow : text := [x20; xe2; x8f; xb7].
Definition header_label (panel : LogViewPanel) (c : LogColumn) : text :=
  lc_label c ++ arrow ++
  (if default false (filter_is_active <$> lv_filters panel !! lc_id c) then str "*" else []).

Definition truncated_note : text := [x20; xe2; x80; x94; x20] ++ str "truncated".
Definition status_text (shown matched in_window : nat) : text :=
  str "showing " ++ fmt_dec (Z.of_nat shown) ++ str " of " ++ fmt_dec (Z.of_nat matched) ++ str " matched (" ++
  fmt_dec (Z.of_nat in_window) ++ str " in window)" ++ (if (shown <? matched)%nat then truncated_note else []).

Section table.
Context {Fill : Type} `{EqDecision Fill} (TRANSPARENT : Fill) (gamma_multiply : Color32 -> f32 -> Fill).
Context (from_rgba_unmultiplied : Z -> Z -> Z -> Z -> Fill) (rgb : Fill -> Color32).

Record TableRow := mkTableRow {
  tw_fill : Fill;
  tw_text : option Color32;
  tw_time : text;
  tw_cells : list (text * f32);
}.

Inductive LogScreen :=
| ScWaiting
| ScDropHere
| ScNoColumns
| ScTable (header : list (text * f32)) (status : text) (rows : list TableRow). (* no rows: "no rows match" *)

Definition row_fill (panel : LogViewPanel) (highlights : gset Z) (row : LogRow) : Fill :=
  if bool_decide (row_t row ∈ highlights) then from_rgba_unmultiplied 100 160 255 60
  else match (ch ← lv_color_by panel; row_cells row !! ch) with
       | Some cell =>
         match cell_display cell with
         | [] => TRANSPARENT
         | value => gamma_multiply (state_colour (name_seed value) 0) (lit32 1 4)
         end
       | None => TRANSPARENT
       end.

Definition table_row (panel : LogViewPanel) (highlights : gset Z) (avail : f32) (cols : list LogColumn) (row : LogRow) : TableRow :=
  let fill := row_fill panel highlights row in
  mkTableRow fill
    (if bool_decide (fill = TRANSPARENT) then None else Some (contrast_text_colour (rgb fill)))
    (fmt_fixed 6 (ns_to_s (row_t row)))
    (map (fun c => (default [] (cell_display <$> row_cells row !! lc_id c), col_w avail cols c)) cols).

(** The screen of [render_log_view]; [panel] before and [panel'] after the header's
    filter editors. *)
Definition log_screen {S} `{Store S} `{HashOrder} (p : profile) (s : S) (by_id : gmap Z ChannelInfo) (panel panel' : LogViewPanel)
    (view : option (Z * Z)) (avail : f32) (highlights : gset Z) : total LogScreen :=
  match view with
  | None => mret ScWaiting
  | Some (t0, t1) =>
    match lv_columns panel with
    | [] => mret ScDropHere
    | _ =>
      match visible_cols by_id panel with
      | [] => mret ScNoColumns
      | cols =>
        r ← log_view_rows p s by_id panel' t0 t1;
        let '(shown, matched, in_window) := r in
        mret (ScTable ((str "t [s]", compact_w) :: map (fun c => (header_label panel c, col_w avail cols c)) cols)
                (status_text (length shown) matched in_window)
                (map (table_row panel' highlights avail cols) shown))
      end
    end
  end.

(** ** Properties *)

(** What the table says about itself is true: it shows rows of the window that pass
    the filters, each with a cell for every column under the header; the status
    line has their number, that of all matching rows and that of the window; and
    when it does not say "truncated", no matching row is missing. *)
Theorem log_screen_truthful {S} `{StoreLaws S wf} `{HashOrder} p (s : S) by_id panel panel' t0 t1 avail highlights :
  wf s -> in_u 64 t0 -> in_u 64 t1 ->
  (forall ch info, by_id !! ch = Some info -> channels s !! Z.to_nat ch = Some info) ->
  Z.of_nat (lv_max_rows panel') <= u64_max -> lv_columns panel <> [] -> visible_cols by_id panel <> [] ->
  exists header all shown,
    build_log_rows s by_id (lv_columns panel') t0 t1 = Ok all /\
    let matched := List.filter (fun row => row_passes_filters row (lv_filters panel')) all in
    let rows := map (table_row panel' highlights avail (visible_cols by_id panel)) shown in
    log_screen p s by_id panel panel' (Some (t0, t1)) avail highlights =
      Ok (ScTable header (status_text (length shown) (length matched) (length all)) rows) /\
    Forall (fun r => length header = (1 + length (tw_cells r))%nat) rows /\
    shown ⊆+ matched /\ (length shown <= length matched <= length all)%nat /\
    ((length shown < length matched)%nat \/ shown ≡ₚ matched).
Proof.
  intros Hwf Ht0 Ht1 Hby Hmax Hc Hv.
  destruct (log_view_rows_ok p s by_id panel' t0 t1 Hwf Ht0 Ht1 Hby Hmax) as (all & shown & Hall & E & _ & Hsub & Htr).
  cbv zeta in *. set (cols := visible_cols by_id panel) in *.
  exists ((str "t [s]", compact_w) :: map (fun c => (header_label panel c, col_w avail cols c)) cols), all, shown.
  pose proof (tr_sub _ _ _ _ Htr) as Hs. pose proof (submseteq_length _ _ Hs). apply sublist_length in Hsub.
  split_and!; [done| | |done|lia|lia|].
  - unfold log_screen. fold cols. rewrite E. destruct (lv_columns panel); [done|]. by destruct cols.
  - apply Forall_map, Forall_true. intros row. cbn. by rewrite !length_map.
  - destruct (decide (length (List.filter (fun row => row_passes_filters row (lv_filters panel')) all) <= length shown)%nat); [|left; lia].
    right. by apply submseteq_length_Permutation.
Qed.
End table.

(** ** A concrete table *)
#[local] Existing Instance gmap_order.
Example demo_table :
  match log_screen (Fill := option (Z * Z * Z * Z)) None (fun c _ => Some (col_r c, col_g c, col_b c, 64)) (fun r g b a => Some (r, g, b, a))
    (fun f => match f with Some (r, g, b, _) => mkColor r g b | None => BLACK end)
    (H := MockStore.mock_store Debug) Debug MockStore.demo_store demo_by_id demo_panel demo_panel (Some (0, 100)) (f32_of_Z 600) {[ 20 ]} with
  | Ok (ScTable header status rows) =>
    length header = 3%nat /\ status = str "showing 2 of 2 matched (3 in window)" /\ map tw_fill rows = [None; Some (100, 160, 255, 60)]
  | _ => False
  end.
Proof. vm_compute. repeat split; reflexivity. Qed.
