(* ===== verification/AppText.v ===== *)
(** * btelem-viewer: paths and messages of the application

    Models the free functions at the end of viewer/crates/btelem-viewer/src/
    app.rs (1820-1917): compact counts and sizes, the path of the layout that
    accompanies a capture, the summary of a restored layout and of the capture
    ring.  [Path] is a Unix path: the file name is the last component that is
    neither empty nor [.]. *)

From Stdlib Require Import SpecFloat.
From S2P Require Import Prelude Slices Text Float64 Decimal Capture ViewGroups Layout.

(** ** Counts and sizes *)
Definition scaled (n unit : Z) : f64 := f64_div (f64_of_Z n) (f64_of_Z unit).

Definition fmt_count (n : Z) : text :=
  let K := 1000 in
  let M := 1000000 in
  let G := 1000000000 in
  if n <? K then fmt_dec n
  else if n <? M then fmt_fixed 1 (scaled n K) ++ str "k"
  else if n <? G then fmt_fixed 1 (scaled n M) ++ str "M"
  else fmt_fixed 1 (scaled n G) ++ str "G".

Definition fmt_bytes (n : Z) : text :=
  let K := 1024 in
  let M := K * 1024 in
  let G := M * 1024 in
  if n <? K then fmt_dec n ++ str " B"
  else if n <? M then fmt_fixed 1 (scaled n K) ++ str " KiB"
  else if n <? G then fmt_fixed 1 (scaled n M) ++ str " MiB"
  else fmt_fixed 2 (scaled n G) ++ str " GiB".

(** ** Paths *)
Definition slash : byte := x2f.

(** What precedes the file name, and the file name ([Path::file_name]); each
    round removes a component, so the length of the path is enough. *)
Fixpoint file_split (fuel : nat) (path : text) : option (text * text) :=
  match fuel with
  | O => None
  | S fuel =>
    let '(dir, above, name) :=
      match rsplit_once slash path with
      | Some (d, n) => (d ++ [slash], Some d, n)
      | None => ([], None, path)
      end in
    if bool_decide (name = [] \/ name = str ".") then
      match above with Some d => file_split fuel d | None => None end
    else if bool_decide (name = str "..") then None
    else Some (dir, name)
  end.
Definition path_split (path : text) : option (text * text) := file_split (S (length path)) path.

Definition file_name (path : text) : option text := snd <$> path_split path.

(** [Path::file_stem] of a file name. *)
Definition stem (file : text) : text :=
  match rsplit_once x2e file with
  | Some ([], _) | None => file
  | Some (before, _) => before
  end.
Definition file_stem (path : text) : option text := stem <$> file_name path.
Definition path_extension (path : text) : option text := file_name path ≫= extension.

(** [PathBuf::set_extension] with a non-empty extension. *)
Definition set_extension (path ext : text) : text :=
  match path_split path with
  | Some (dir, name) => dir ++ stem name ++ str "." ++ ext
  | None => path
  end.

Definition layout_sidecar_path (btlm_path : text) : text := set_extension btlm_path (str "layout.json").

(** ** Summaries *)
Fixpoint join (sep : text) (l : list text) : text :=
  match l with
  | [] => []
  | [x] => x
  | x :: l => x ++ sep ++ join sep l
  end.

Definition format_apply_suffix (report : ApplyReport) (opening close : text) : text :=
  let missing := missing_count report in
  if (missing =? 0)%nat && (ar_dropped_plots report =? 0)%nat then []
  else
    let body :=
      if (0 <? missing)%nat then
        let names := take 3 (ar_missing_paths report) in
        let extra := (missing - 3)%nat in
        let tail := if (0 <? extra)%nat then str ", +" ++ fmt_dec (Z.of_nat extra) ++ str " more" else [] in
        fmt_dec (Z.of_nat missing) ++ str " unknown channel(s): " ++ join (str ", ") names ++ tail
      else [] in
    let body :=
      if (0 <? ar_dropped_plots report)%nat then
        body ++ (if is_nil body then [] else str "; ") ++
        fmt_dec (Z.of_nat (ar_dropped_plots report)) ++ str " plot(s) dropped"
      else body in
    opening ++ body ++ close.

(** The separator of a summary's parts, U+00B7 between spaces. *)
Definition middot : text := [x20; xc2; xb7; x20].

Definition fmt_capture_stats (p : profile) (s : CaptureStats) : total text :=
  let mins := f64_to_u64 (f64_floor (f64_div (cs_age_secs s) (f64_of_Z 60))) in
  whole ← arith p 64 (mins * 60);
  let secs := f64_to_u64 (f64_floor (f64_sub (cs_age_secs s) (f64_of_Z whole))) in
  let dropped :=
    if 0 <? cs_packets_dropped s then middot ++ fmt_count (cs_packets_dropped s) ++ str " dropped (ring full)" else [] in
  mret (fmt_count (cs_packets s) ++ str " packets" ++ middot ++ fmt_bytes (cs_bytes s) ++ middot ++
        fmt_pad 2 mins ++ str ":" ++ fmt_pad 2 secs ++ dropped).

(** ** The unit tests of the module, and limits of the rendering *)
Example fmt_count_small : map fmt_count [0; 42; 999] = map str ["0"; "42"; "999"]%string.
Proof. vm_compute. reflexivity. Qed.
Example fmt_count_suffixes :
  map fmt_count [1500; 2300000; 4500000000] = map str ["1.5k"; "2.3M"; "4.5G"]%string.
Proof. vm_compute. reflexivity. Qed.
(** Rounding comes after the choice of the unit. *)
Example fmt_count_rounds_up : fmt_count 999999 = str "1000.0k".
Proof. vm_compute. reflexivity. Qed.
Example fmt_bytes_units :
  map fmt_bytes [1023; 1536; 268435456; 3221225472] = map str ["1023 B"; "1.5 KiB"; "256.0 MiB"; "3.00 GiB"]%string.
Proof. vm_compute. reflexivity. Qed.
Example sidecar_examples :
  map layout_sidecar_path (map str ["foo.btlm"; "/d.x/foo"; "a/b.tar.btlm/"; ".."; "/d/.btlm"]%string) =
  map str ["foo.layout.json"; "/d.x/foo.layout.json"; "a/b.tar.layout.json"; ".."; "/d/.btlm.layout.json"]%string.
Proof. vm_compute. reflexivity. Qed.
Example capture_summary :
  fmt_capture_stats Debug (mkCaptureStats 1500 4096 2000 500 None None (f64_of_Z 75) true) =
  Ok (str "1.5k packets" ++ middot ++ str "4.0 KiB" ++ middot ++ str "01:15" ++ middot ++ str "500 dropped (ring full)").
Proof. vm_compute. reflexivity. Qed.

(** ** Lemmas on paths *)
(** The split covers the path up to trailing separators, and the name is a
    plain component. *)
Lemma file_split_prefix fuel path dir name :
  file_split fuel path = Some (dir, name) ->
  slash ∉ name /\ name <> [] /\ exists k, path = dir ++ name ++ k /\ (k = [] \/ head k = Some slash).
Proof.
  revert path. induction fuel as [|fuel IH]; intros path H; [done|]. cbn [file_split] in H.
  destruct (rsplit_once slash path) as [[d n]|] eqn:E.
  - pose proof (rsplit_once_app _ _ _ _ E) as Hp. pose proof (rsplit_once_tail _ _ _ _ E) as Hs.
    case_bool_decide as Hn.
    + destruct (IH _ H) as (? & ? & k & Hk & Hh). split_and!; [done|done|]. exists (k ++ slash :: n).
      split; [by rewrite Hp, Hk, <-!app_assoc|]. right. by destruct k; [|destruct Hh].
    + case_bool_decide; [done|]. injection H as <- <-. split_and!; [done|tauto|]. exists [].
      split; [|by left]. by rewrite Hp, app_nil_r, <-app_assoc.
  - case_bool_decide as Hn; [done|]. case_bool_decide; [done|]. injection H as <- <-.
    split_and!; [by apply rsplit_once_absent|tauto|]. exists []. split; [by rewrite app_nil_r|by left].
Qed.

(** A file called [stem.ext] in a directory. *)
Lemma path_split_file dir st ext :
  (dir = [] \/ exists d, dir = d ++ [slash]) -> slash ∉ st ++ str "." ++ ext -> x2e ∉ ext -> st <> [] -> ext <> [] ->
  path_split (dir ++ st ++ str "." ++ ext) = Some (dir, st ++ str "." ++ ext).
Proof.
  intros Hdir Hs Hd Hst Hext. unfold path_split. cbn [file_split].
  set (name := st ++ str "." ++ ext) in *.
  assert (Hlen : (3 <= length name)%nat).
  { unfold name. rewrite !length_app. destruct st; [done|]. destruct ext; [done|]. cbn. lia. }
  assert (Hn1 : ~ (name = [] \/ name = str ".")) by (intros [E|E]; rewrite E in Hlen; cbn in Hlen; lia).
  assert (Hn2 : name <> str "..") by (intros E; rewrite E in Hlen; cbn in Hlen; lia).
  destruct Hdir as [->|[d ->]].
  - cbn [app]. rewrite rsplit_once_None by done. by rewrite (bool_decide_eq_false_2 _ Hn1), (bool_decide_eq_false_2 _ Hn2).
  - rewrite <-app_assoc. cbn [app]. rewrite rsplit_once_last by done.
    by rewrite (bool_decide_eq_false_2 _ Hn1), (bool_decide_eq_false_2 _ Hn2).
Qed.

Lemma layout_sidecar_file dir st ext :
  (dir = [] \/ exists d, dir = d ++ [slash]) -> slash ∉ st ++ str "." ++ ext -> x2e ∉ ext -> st <> [] -> ext <> [] ->
  layout_sidecar_path (dir ++ st ++ str "." ++ ext) = dir ++ st ++ str ".layout.json".
Proof.
  intros Hdir Hs Hd Hst Hext. unfold layout_sidecar_path, set_extension. rewrite path_split_file by done.
  unfold stem. change (st ++ str "." ++ ext) with (st ++ x2e :: ext). rewrite rsplit_once_last by done.
  by destruct st.
Qed.

(** The sidecar never replaces the capture it accompanies. *)
Lemma layout_sidecar_other path : is_Some (file_name path) -> layout_sidecar_path path <> path.
Proof.
  unfold layout_sidecar_path, set_extension, file_name.
  destruct (path_split path) as [[dir name]|] eqn:E; [|by intros []%is_Some_None].
  intros _ Heq. destruct (file_split_prefix _ _ _ _ E) as (_ & _ & k & Hk & Hh).
  rewrite Hk in Heq. apply app_inv_head in Heq. unfold stem in Heq.
  assert (Hno : forall pre, name = pre -> pre ++ str "." ++ str "layout.json" = name ++ k -> False).
  { intros pre -> H%app_inv_head. subst k. by destruct Hh. }
  destruct (rsplit_once x2e name) as [[[|b before] ext]|] eqn:Es; [by eapply Hno| |by eapply Hno].
  pose proof (rsplit_once_tail _ _ _ _ Es) as Hext.
  rewrite (rsplit_once_app _ _ _ _ Es), <-app_assoc in Heq. apply app_inv_head in Heq.
  cbn in Heq. injection Heq as Heq.
  assert (Hin : x2e ∈ ext ++ k) by (rewrite <-Heq; apply (bool_decide_unpack _); vm_compute; exact I).
  apply elem_of_app in Hin as [|Hin]; [done|]. destruct Hh as [->|Hh]; [by apply not_elem_of_nil in Hin|].
  assert (Hs : slash ∈ ext ++ k) by (apply elem_of_app; right; destruct k; [done|]; injection Hh as ->; apply elem_of_cons; by left).
  rewrite <-Heq in Hs. revert Hs. apply (bool_decide_unpack _). vm_compute. exact I.
Qed.
