(* ===== verification/AppTree.v ===== *)
(** * btelem-viewer: the channel tree

    Models the channel tree of viewer/crates/btelem-viewer/src/app.rs: the
    visible order of the rows, the selection by clicks ([update_selection],
    1785-1818), the payload a row drags and the group menu ([tree_panel],
    1205-1335), and the sample counts of the group headers
    ([refresh_group_counts], 689-711).  What the user did in a frame (the query,
    the headers that are open, the rows clicked, the modifier keys) is
    [TreeInput]. *)

From S2P Require Import Prelude Slices Text Float64 Store ViewPanels ViewGroups AppText.

(** ** Selection *)
Definition position (x : ChannelId) (l : list ChannelId) : option nat := fst <$> list_find (fun y => y = x) l.

(** [visible[lo..=hi]] *)
Definition inclusive (lo hi : nat) (l : list ChannelId) : list ChannelId := take (S hi - lo) (drop lo l).

Definition update_selection (selection : gset Z) (anchor : option ChannelId) (visible : list ChannelId)
    (clicked : ChannelId) (ctrl shift : bool) : gset Z * option ChannelId :=
  let click :=
    if ctrl then
      (if bool_decide (clicked ∈ selection) then selection ∖ {[clicked]} else {[clicked]} ∪ selection, Some clicked)
    else ({[clicked]}, Some clicked) in
  if shift then
    let a := default clicked anchor in
    match position a visible, position clicked visible with
    | Some ia, Some ib =>
      let '(lo, hi) := if (ia <=? ib)%nat then (ia, ib) else (ib, ia) in
      (list_to_set (inclusive lo hi visible), match anchor with None => Some clicked | Some _ => anchor end)
    | _, _ => click
    end
  else click.

(** ** Rows *)
Record TreeState := mkTree {
  tr_query : text;
  tr_selection : gset Z;
  tr_anchor : option ChannelId;
  tr_pending_log_view : option DragPayload;
}.
Record TreeInput := mkTreeInput {
  ti_ctrl : bool;
  ti_shift : bool;
  ti_open : text -> bool;
  ti_clicked : ChannelId -> bool;
  ti_log_view : text -> bool;
}.

(** The rows that match the query, in display order. *)
Definition visible_rows (chs : list ChannelInfo) (query : text) : list ChannelId :=
  map ci_id (List.filter (fun c => matches_query (ci_path c) query) (concat (map snd (group_by_struct chs)))).

(** Selections that point at channels that no longer exist are dropped. *)
Definition retain_alive (chs : list ChannelInfo) (st : TreeState) : TreeState :=
  let alive : gset Z := list_to_set (map ci_id chs) in
  mkTree (tr_query st) (tr_selection st ∩ alive)
    (match tr_anchor st with Some a => if bool_decide (a ∈ alive) then Some a else None | None => None end)
    (tr_pending_log_view st).

Definition icon (k : ChannelKind) : text :=
  match k with
  | Scalar => [xf0; x9f; x93; x88]
  | State _ => [xe2; x96; xae]
  | Text => [xf0; x9f; x93; x9d]
  end.

Record TreeRow := mkTreeRow { row_id : ChannelId; row_label : text; row_selected : bool; row_payload : DragPayload }.

Definition row_drag (shift : bool) (visible : list ChannelId) (selection : gset Z) (c : ChannelInfo) : DragPayload :=
  if shift && bool_decide (ci_kind c = Scalar) && (size selection <=? 1)%nat then DragXYSeed (ci_id c)
  else if bool_decide (ci_id c ∈ selection) && (1 <? size selection)%nat then
    DragChannels (filter (fun id => id ∈ selection) visible)
  else DragChannel (ci_id c).

Definition tree_row (inp : TreeInput) (visible : list ChannelId) (st : TreeState) (c : ChannelInfo) : TreeState * TreeRow :=
  let leaf := strip_group_prefix (ci_path c) in
  let row := mkTreeRow (ci_id c) (icon (ci_kind c) ++ str " " ++ leaf)
               (bool_decide (ci_id c ∈ tr_selection st)) (row_drag (ti_shift inp) visible (tr_selection st) c) in
  if ti_clicked inp (ci_id c) then
    let '(sel, anchor) :=
      update_selection (tr_selection st) (tr_anchor st) visible (ci_id c) (ti_ctrl inp) (ti_shift inp) in
    (mkTree (tr_query st) sel anchor (tr_pending_log_view st), row)
  else (st, row).

Fixpoint tree_items (inp : TreeInput) (visible : list ChannelId) (st : TreeState) (items : list ChannelInfo)
  : TreeState * list TreeRow :=
  match items with
  | [] => (st, [])
  | c :: items =>
    if negb (matches_query (ci_path c) (tr_query st)) then tree_items inp visible st items
    else
      let '(st, row) := tree_row inp visible st c in
      let '(st, rows) := tree_items inp visible st items in
      (st, row :: rows)
  end.

(** One header: skipped when nothing in it matches; a search opens it. *)
Definition tree_group (inp : TreeInput) (visible : list ChannelId) (st : TreeState) (g : text * list ChannelInfo)
  : TreeState * list TreeRow :=
  let '(head, items) := g in
  if negb (existsb (fun c => matches_query (ci_path c) (tr_query st)) items) then (st, [])
  else
    let drag_payload := DragGroup head (map ci_id items) in
    let opened := if is_nil (tr_query st) then ti_open inp head else true in
    let '(st, rows) := if opened then tree_items inp visible st items else (st, []) in
    (if ti_log_view inp head then mkTree (tr_query st) (tr_selection st) (tr_anchor st) (Some drag_payload) else st, rows).

Fixpoint tree_groups (inp : TreeInput) (visible : list ChannelId) (st : TreeState) (gs : list (text * list ChannelInfo))
  : TreeState * list TreeRow :=
  match gs with
  | [] => (st, [])
  | g :: gs =>
    let '(st, rows) := tree_group inp visible st g in
    let '(st, rows') := tree_groups inp visible st gs in
    (st, rows ++ rows')
  end.

Definition tree_panel (inp : TreeInput) (chs : list ChannelInfo) (st : TreeState) : TreeState * list TreeRow :=
  let groups := group_by_struct chs in
  let visible := visible_rows chs (tr_query st) in
  tree_groups inp visible (retain_alive chs st) groups.

(** ** Group counts *)
Definition group_header (counts : gmap text Z) (head : text) : text :=
  head ++ str "  (" ++ fmt_count (default 0 (counts !! head)) ++ str ")".

Section counts.
Context (p : profile) (count : ChannelId -> Z).

(** [*counts.entry(group).or_default() += n], channel by channel. *)
Fixpoint count_groups (chs : list ChannelInfo) (counts : gmap text Z) : total (gmap text Z) :=
  match chs with
  | [] => mret counts
  | c :: chs =>
    let group := channel_group (ci_path c) in
    n ← arith p 64 (default 0 (counts !! group) + count (ci_id c));
    count_groups chs (<[group := n]> counts)
  end.

(** At most once a second; [now] and [last] in nanoseconds, and a clock that
    went back counts as no time. *)
Definition refresh_group_counts (now : Z) (chs : list ChannelInfo) (st : gmap text Z * option Z)
  : total (gmap text Z * option Z) :=
  let stale := match st.2 with Some last => negb (sat_sub now last <? 1000000000) | None => true end in
  if stale then counts ← count_groups chs ∅; mret (counts, Some now) else mret st.
End counts.

(** ** Lemmas *)
Lemma position_lookup x l i : position x l = Some i -> l !! i = Some x.
Proof.
  unfold position. intros ([j y] & H & ->)%fmap_Some. by apply list_find_Some in H as (? & -> & _).
Qed.
Lemma position_elem x l : x ∈ l -> exists i, position x l = Some i.
Proof.
  intros H. destruct (list_find_elem_of (fun y => y = x) l x H eq_refl) as [[i y] E].
  exists i. unfold position. by rewrite E.
Qed.
Lemma position_nodup x l i : NoDup l -> l !! i = Some x -> position x l = Some i.
Proof.
  intros Hn Hi. destruct (position_elem x l) as [j Hj]; [by eapply list_elem_of_lookup_2|].
  rewrite Hj. f_equal. eapply NoDup_lookup; [done| |exact Hi]. by apply position_lookup.
Qed.

Lemma elem_of_inclusive lo hi l x :
  x ∈ inclusive lo hi l <-> exists k, (lo <= k <= hi)%nat /\ l !! k = Some x.
Proof.
  unfold inclusive. rewrite list_elem_of_lookup. split.
  - intros [i Hi]. apply lookup_take_Some in Hi as [Hi Hlt]. rewrite lookup_drop in Hi. exists (lo + i)%nat. by split; [lia|].
  - intros (k & Hk & E). exists (k - lo)%nat. rewrite lookup_take_lt by lia. rewrite lookup_drop.
    by replace (lo + (k - lo))%nat with k by lia.
Qed.

Lemma update_selection_within sel anchor visible clicked ctrl shift (A : gset Z) :
  clicked ∈ A -> sel ⊆ A -> Forall (fun x => x ∈ A) visible -> (forall a, anchor = Some a -> a ∈ A) ->
  let r := update_selection sel anchor visible clicked ctrl shift in
  r.1 ⊆ A /\ forall a, r.2 = Some a -> a ∈ A.
Proof.
  intros Hc Hs Hv Ha. cbv zeta.
  assert (Hclick : let r := if ctrl then
      (if bool_decide (clicked ∈ sel) then sel ∖ {[clicked]} else {[clicked]} ∪ sel, Some clicked)
    else ({[clicked]}, Some clicked) in r.1 ⊆ A /\ forall a, r.2 = Some a -> a ∈ A).
  { destruct ctrl; [case_bool_decide|]; cbn; (split; [set_solver|by intros ? [= <-]]). }
  unfold update_selection. destruct shift; [|exact Hclick].
  destruct (position _ _) as [ia|]; [|exact Hclick]. destruct (position clicked visible) as [ib|]; [|exact Hclick].
  destruct (if (ia <=? ib)%nat then _ else _) as [lo hi]. cbn. split.
  - intros x Hx. apply elem_of_list_to_set, elem_of_inclusive in Hx as (k & _ & Hk).
    by apply (Forall_lookup_1 _ _ _ _ Hv Hk).
  - intros a. destruct anchor; [apply Ha|by intros [= <-]].
Qed.

Lemma visible_alive chs query : Forall (fun x => x ∈ (list_to_set (map ci_id chs) : gset Z)) (visible_rows chs query).
Proof.
  apply Forall_forall. intros x Hx. apply elem_of_list_to_set. unfold visible_rows in Hx.
  apply list_elem_of_fmap in Hx as (c & -> & Hc). apply list_elem_of_In, filter_In in Hc as [Hc _].
  apply list_elem_of_In in Hc. apply list_elem_of_fmap. exists c. split; [done|]. by apply group_by_struct_elem.
Qed.

(** What a row drags, given the rows that are visible. *)
Definition payload_ok (chs : list ChannelInfo) (visible : list ChannelId) (r : TreeRow) : Prop :=
  match row_payload r with
  | DragChannel c => c = row_id r
  | DragXYSeed c => c = row_id r /\ exists info, info ∈ chs /\ ci_id info = c /\ ci_kind info = Scalar
  | DragChannels l => row_id r ∈ l /\ l `sublist_of` visible
  | DragGroup _ _ => False
  end.

(** The selection and the anchor refer to channels of the store. *)
Definition tree_alive (chs : list ChannelInfo) (st : TreeState) : Prop :=
  tr_selection st ⊆ list_to_set (map ci_id chs) /\
  forall a, tr_anchor st = Some a -> a ∈ (list_to_set (map ci_id chs) : gset Z).

Section rows.
Context (inp : TreeInput) (chs : list ChannelInfo) (q : text).
#[local] Abbreviation visible := (visible_rows chs q).
#[local] Abbreviation matching items := (List.filter (fun c => matches_query (ci_path c) q) items).

Record shows (st : TreeState) (ids : list ChannelId) (r : TreeState * list TreeRow) : Prop := {
  sh_query : tr_query r.1 = tr_query st;
  sh_alive : tree_alive chs r.1;
  sh_rows : map row_id r.2 = ids;
  sh_payload : Forall (payload_ok chs visible) r.2;
}.

Lemma tree_row_ok st c : tree_alive chs st -> c ∈ chs -> ci_id c ∈ visible ->
  let r := tree_row inp visible st c in
  tr_query r.1 = tr_query st /\ tree_alive chs r.1 /\ row_id r.2 = ci_id c /\ payload_ok chs visible r.2.
Proof.
  intros [Hs Ha] Hc Hv. unfold tree_row.
  pose proof (update_selection_within (tr_selection st) (tr_anchor st) visible (ci_id c) (ti_ctrl inp) (ti_shift inp)
    (list_to_set (map ci_id chs)) (proj1 (Forall_forall _ _) (visible_alive chs q) _ Hv) Hs (visible_alive chs q) Ha) as Hu.
  assert (Hp : forall st row sel lab, row = mkTreeRow (ci_id c) lab sel (row_drag (ti_shift inp) visible (tr_selection st) c) ->
    payload_ok chs visible row).
  { intros st0 row sel lab ->. unfold payload_ok, row_drag. cbn [row_payload row_id].
    destruct (ti_shift inp && _ && _) eqn:E1.
    - apply andb_true_iff in E1 as [[_ E]%andb_true_iff _]. apply bool_decide_eq_true_1 in E. split; [done|]. by exists c.
    - destruct (bool_decide _ && _) eqn:E2; [|done]. apply andb_true_iff in E2 as [E _]. apply bool_decide_eq_true_1 in E.
      split; [by apply list_elem_of_filter|]. apply sublist_filter. }
  destruct (ti_clicked inp (ci_id c)); cbn.
  - destruct (update_selection _ _ _ _ _ _) as [sel anchor]. cbn in *. split_and!; [done|done|done|by eapply Hp].
  - split_and!; [done|done|done|by eapply Hp].
Qed.

Lemma tree_items_ok st items : tr_query st = q -> tree_alive chs st -> Forall (fun c => c ∈ chs) items ->
  (forall c, c ∈ matching items -> ci_id c ∈ visible) ->
  shows st (map ci_id (matching items)) (tree_items inp visible st items).
Proof.
  revert st. induction items as [|c items IH]; intros st Hq Hst Hin Hvis; cbn [tree_items List.filter].
  - by split.
  - apply Forall_cons in Hin as [Hc Hin]. rewrite Hq. cbn [List.filter] in Hvis.
    destruct (matches_query (ci_path c) q) eqn:E; cbn [negb].
    + pose proof (tree_row_ok st c Hst Hc) as Hr.
      destruct (tree_row inp visible st c) as [st1 row]. cbn in Hr.
      destruct Hr as (H1 & H2 & H3 & H4); [apply Hvis, elem_of_cons; by left|].
      destruct (IH st1) as [I1 I2 I3 I4]; [congruence|done|done|intros; apply Hvis, elem_of_cons; by right|].
      destruct (tree_items inp visible st1 items) as [st2 rows]. cbn in *.
      split; cbn; [congruence|done|by rewrite H3, I3|by constructor].
    + by apply IH.
Qed.

Lemma tree_group_ok st g : tr_query st = q -> tree_alive chs st -> Forall (fun c => c ∈ chs) g.2 ->
  (forall c, c ∈ matching g.2 -> ci_id c ∈ visible) ->
  shows st (if is_nil q && negb (ti_open inp g.1) then [] else map ci_id (matching g.2)) (tree_group inp visible st g).
Proof.
  intros Hq Hst Hin Hvis. destruct g as [head items]. cbn [fst snd] in *. unfold tree_group. rewrite Hq.
  destruct (existsb _ items) eqn:E; cbn [negb].
  - pose proof (tree_items_ok st items Hq Hst Hin Hvis) as Hi.
    destruct (tree_items inp visible st items) as [st1 rows]. destruct Hi as [I1 I2 I3 I4]. cbn in *.
    destruct (is_nil q), (ti_open inp head), (ti_log_view inp head); cbn; by split.
  - assert (matching items = []) as ->.
    { clear -E. induction items as [|c items IH]; [done|]. cbn in *. apply orb_false_iff in E as [-> E]. by apply IH. }
    destruct (is_nil q && _); by split.
Qed.

Lemma tree_groups_ok st gs : tr_query st = q -> tree_alive chs st ->
  Forall (fun g => Forall (fun c => c ∈ chs) g.2 /\ forall c, c ∈ matching g.2 -> ci_id c ∈ visible) gs ->
  shows st (concat (map (fun g => if is_nil q && negb (ti_open inp g.1) then [] else map ci_id (matching g.2)) gs))
    (tree_groups inp visible st gs).
Proof.
  revert st. induction gs as [|g gs IH]; intros st Hq Hst Hg; cbn [tree_groups map concat]; [by split|].
  apply Forall_cons in Hg as [[Hg1 Hg2] Hg]. pose proof (tree_group_ok st g Hq Hst Hg1 Hg2) as [G1 G2 G3 G4].
  destruct (tree_group inp visible st g) as [st1 rows]. cbn in *.
  destruct (IH st1) as [I1 I2 I3 I4]; [congruence|done|done|].
  destruct (tree_groups inp visible st1 gs) as [st2 rows']. cbn in *.
  split; cbn; [congruence|done|by rewrite map_app, G3, I3|by apply Forall_app].
Qed.
End rows.

Lemma concat_sublist {A B} (f : A -> list B) (sel : A -> bool) l :
  concat (map (fun x => if sel x then [] else f x) l) `sublist_of` concat (map f l).
Proof.
  induction l as [|x l IH]; [done|]. cbn. apply sublist_app; [|done]. destruct (sel x); [apply sublist_nil_l|done].
Qed.

Lemma filter_concat {A} (f : A -> bool) (l : list (list A)) :
  List.filter f (concat l) = concat (map (List.filter f) l).
Proof. induction l as [|x l IH]; [done|]. cbn. by rewrite List.filter_app, IH. Qed.

(** ** Properties *)

(** Clicking a row of the tree.  A plain click selects the row alone; a
    control click toggles it and leaves the rest, so that a second one restores
    the selection; a shift click selects exactly the visible rows between the
    anchor and the row, both included and whichever comes first, and keeps the
    anchor; without an anchor it selects the row, and with an anchor that a
    filter hides it acts as if shift were not held. *)
Theorem update_selection_spec sel anchor visible clicked ctrl :
  NoDup visible -> clicked ∈ visible ->
  let shift := update_selection sel anchor visible clicked ctrl true in
  update_selection sel anchor visible clicked false false = ({[clicked]}, Some clicked) /\
  (let toggled := update_selection sel anchor visible clicked true false in
   (forall x, x ∈ toggled.1 <-> if decide (x = clicked) then x ∉ sel else x ∈ sel) /\
   toggled.2 = Some clicked /\ (update_selection toggled.1 toggled.2 visible clicked true false).1 = sel) /\
  match anchor with
  | None => shift = ({[clicked]}, Some clicked)
  | Some a =>
    (forall i j, visible !! i = Some a -> visible !! j = Some clicked ->
       shift.2 = anchor /\
       forall x, x ∈ shift.1 <-> exists k, (Nat.min i j <= k <= Nat.max i j)%nat /\ visible !! k = Some x) /\
    (a ∉ visible -> shift = update_selection sel anchor visible clicked ctrl false)
  end.
Proof.
  intros Hn Hc. cbv zeta. split_and!; [done| | | |].
  - intros x. cbn. repeat case_bool_decide; case_decide; set_solver.
  - done.
  - cbn. destruct (decide (clicked ∈ sel)) as [Hs|Hs].
    + rewrite (bool_decide_eq_true_2 _ Hs). rewrite bool_decide_eq_false_2 by set_solver.
      apply set_eq. intros x. destruct (decide (x = clicked)); set_solver.
    + rewrite (bool_decide_eq_false_2 _ Hs). rewrite bool_decide_eq_true_2 by set_solver. set_solver.
  - apply list_elem_of_lookup in Hc as [j Hj]. unfold update_selection. destruct anchor as [a|].
    + change (default clicked (Some a)) with a. split.
      * intros i j' Hi Hj'. rewrite (position_nodup a visible i), (position_nodup clicked visible j') by done.
        destruct (Nat.leb_spec i j'); cbn [fst snd]; (split; [done|]); intros x; rewrite elem_of_list_to_set, elem_of_inclusive;
          split; intros (k & ? & ?); exists k; (split; [|done]); lia.
      * intros Ha. destruct (position a visible) as [i|] eqn:E; [|done].
        apply position_lookup in E. destruct Ha. by eapply list_elem_of_lookup_2.
    + change (default clicked None) with clicked. rewrite (position_nodup clicked visible j) by done.
      rewrite Nat.leb_refl. f_equal.
      apply set_eq. intros x. rewrite elem_of_list_to_set, elem_of_inclusive, elem_of_singleton. split.
      * intros (k & ? & Hk). assert (k = j) as -> by lia. congruence.
      * intros ->. exists j. by split; [lia|].
Qed.

Lemma update_selection_spec_witness :
  [12; 13; 14] ⊆ elements (update_selection {[10]} (Some 14) [10; 11; 12; 13; 14] 12 false true).1.
Proof.
  destruct (update_selection_spec {[10]} (Some 14) [10; 11; 12; 13; 14] 12 false) as (_ & _ & H & _).
  - apply (bool_decide_unpack _). vm_compute. exact I.
  - apply (bool_decide_unpack _). vm_compute. exact I.
  - destruct (H 4%nat 2%nat eq_refl eq_refl) as [_ Hx]. intros x Hin. apply elem_of_elements, Hx.
    apply list_elem_of_In in Hin. destruct Hin as [<-|[<-|[<-|[]]]].
    + exists 2%nat. by split; [lia|].
    + exists 3%nat. by split; [lia|].
    + exists 4%nat. by split; [lia|].
Defined.

Lemma tree_panel_ok inp chs st :
  let r := tree_panel inp chs st in
  let visible := visible_rows chs (tr_query st) in
  tree_alive chs r.1 /\ tr_query r.1 = tr_query st /\
  map row_id r.2 `sublist_of` visible /\
  ((is_nil (tr_query st) = false \/ forall head, ti_open inp head = true) -> map row_id r.2 = visible) /\
  Forall (payload_ok chs visible) r.2.
Proof.
  cbv zeta. unfold tree_panel. set (q := tr_query st).
  destruct (tree_groups_ok inp chs q (retain_alive chs st) (group_by_struct chs)) as [H1 H2 H3 H4]; [done| | |].
  - split; cbn; [set_solver|]. intros a. destruct (tr_anchor st); [|done]. case_bool_decide; [|done]. by intros [= <-].
  - apply Forall_forall. intros g Hg.
    assert (Hin : forall c, c ∈ g.2 -> c ∈ concat (map snd (group_by_struct chs))).
    { intros c Hc. apply list_elem_of_In, in_concat. exists g.2. split; [|by apply list_elem_of_In].
      apply in_map, list_elem_of_In, Hg. }
    split.
    + apply Forall_forall. intros c Hc. by apply group_by_struct_elem, Hin.
    + intros c Hc. apply list_elem_of_In, filter_In in Hc as [Hc Hm]. apply list_elem_of_In, Hin, list_elem_of_In in Hc.
      apply list_elem_of_fmap. exists c. split; [done|]. by apply list_elem_of_In, filter_In.
  - cbn [tr_query retain_alive] in H1. fold q in H1.
    assert (Hvis : visible_rows chs q =
      concat (map (fun g => map ci_id (List.filter (fun c => matches_query (ci_path c) q) g.2)) (group_by_struct chs))).
    { unfold visible_rows. rewrite filter_concat, concat_map, !map_map. done. }
    split_and!; [done|done| | |done].
    + rewrite H3, Hvis. apply concat_sublist.
    + intros Hop. rewrite H3, Hvis. f_equal. apply map_ext. intros g.
      destruct Hop as [->|Hop]; [done|]. by rewrite Hop, andb_false_r.
Qed.


(** The header of a group shows the samples of its channels, and the sums do
    not overflow unless a group holds 2^64 samples. *)
Definition samples_of (count : ChannelId -> Z) (g : text) (chs : list ChannelInfo) : Z :=
  foldr (fun c n => if decide (channel_group (ci_path c) = g) then count (ci_id c) + n else n) 0 chs.

Lemma samples_of_cons count g c chs :
  samples_of count g (c :: chs) =
  (if decide (channel_group (ci_path c) = g) then count (ci_id c) else 0) + samples_of count g chs.
Proof. cbn. by case_decide. Qed.

Lemma samples_of_nonneg count g chs : (forall c, 0 <= count c) -> 0 <= samples_of count g chs.
Proof.
  intros Hc. induction chs as [|c chs IH]; [done|]. rewrite samples_of_cons. specialize (Hc (ci_id c)). case_decide; lia.
Qed.

Lemma count_groups_ok p count chs m :
  (forall c, 0 <= count c) -> (forall g, 0 <= default 0 (m !! g)) ->
  (forall g, default 0 (m !! g) + samples_of count g chs < 2 ^ 64) ->
  returns (count_groups p count chs m) (fun m' => forall g, default 0 (m' !! g) = default 0 (m !! g) + samples_of count g chs).
Proof.
  intros Hc. revert m. induction chs as [|c chs IH]; intros m Hm Hb; cbn [count_groups].
  - apply returns_ret. intros g. cbn [samples_of foldr]. lia.
  - set (k := channel_group (ci_path c)).
    assert (Hb1 := Hb k). rewrite samples_of_cons in Hb1. fold k in Hb1. rewrite decide_True in Hb1 by done.
    pose proof (samples_of_nonneg count k chs Hc). pose proof (Hm k). pose proof (Hc (ci_id c)).
    rewrite arith_ok by (unfold in_u; lia). cbn [mbind res_bind].
    assert (Hi : forall g, default 0 (<[k:=default 0 (m !! k) + count (ci_id c)]> m !! g) =
      default 0 (m !! g) + if decide (k = g) then count (ci_id c) else 0).
    { intros g. case_decide as E; [subst; by rewrite lookup_insert_eq|rewrite lookup_insert_ne by done; lia]. }
    eapply returns_impl; [apply IH|].
    + intros g. rewrite Hi. specialize (Hm g). case_decide; lia.
    + intros g. rewrite Hi. specialize (Hb g). rewrite samples_of_cons in Hb. fold k in Hb. case_decide; lia.
    + intros m' Hm' g. rewrite Hm', Hi, samples_of_cons. fold k. case_decide; lia.
Qed.

Lemma refresh_group_counts_ok p count now chs st :
  (forall c, 0 <= count c) -> (forall g, samples_of count g chs < 2 ^ 64) ->
  returns (refresh_group_counts p count now chs st) (fun st' =>
    st' = st \/ (st'.2 = Some now /\ forall g, default 0 (st'.1 !! g) = samples_of count g chs)).
Proof.
  intros Hc Hb. unfold refresh_group_counts. destruct (match st.2 with Some _ => _ | None => _ end); [|apply returns_ret; by left].
  eapply returns_bind; [apply (count_groups_ok p count chs ∅ Hc)|].
  - intros g. by rewrite lookup_empty.
  - intros g. rewrite lookup_empty. cbn. apply Hb.
  - intros counts Hk. apply returns_ret. right. split; [done|]. intros g. cbn. rewrite Hk, lookup_empty. cbn. lia.
Qed.
