(* ===== verification/AppState.v ===== *)
(** * btelem-viewer: the application's state and actions

    Models [ViewerApp] of viewer/crates/btelem-viewer/src/app.rs (64-1204): its
    fields, grouped into the data source ([Live]), the workspace ([Work]), the
    pointer and the dialogs, and the actions on them: connecting, clearing,
    opening and saving captures and layouts, the dialogs, the keyboard and the
    top bar.  What egui reports of a frame (clicks, edited text, keys) is the
    argument of each handler; files chosen by the user are a map from paths to
    contents, the layouts directory one from file names to contents.  Messages
    are values that carry what the text interpolates.  An [Instant] is a count of
    nanoseconds. *)

From S2P Require Import Prelude Slices Text Float64 Wire WireSchema Store MockStore Capture Mapper Tcp Source Reopen ViewPanels ViewCamera ViewGroups ViewMarkers Layout Interact AppText AppTree.

Abbreviation files := (gmap text text).

(** ** Messages *)
Inductive SidecarNote :=
| NoteParseFailed
| NoteVersion (v : Z)
| NoteApplied (name suffix : text)
| NoteSerialiseFailed
| NoteSaved (path : text).

Inductive Status :=
| StEmpty
| StConnected (pretty : text)
| StFailed (e : IngestError)
| StNotImplemented (label : text)
| StLoaded (file : text) (pkts : Z).

Inductive Flash :=
| FlCleared
| FlOpenFailed (e : OpenError)
| FlOpened (pkts entries skipped : Z) (note : option SidecarNote)
| FlLayoutMissing
| FlLayoutParse
| FlLayoutVersion (v : Z)
| FlLayoutLoaded (name suffix : text)
| FlLayoutLoadFailed (name : text) (e : Layout.IoError)
| FlNothingToSave
| FlSaved (r : SaveReport) (path : text) (note : option SidecarNote)
| FlSaveFailed (e : CaptureError)
| FlLayoutSaved (name : text) (path : option text)
| FlLayoutSaveFailed (e : Layout.IoError)
| FlDeleted (name : text).

(** ** State *)
Section state.
Context `{D : DockLib}.

Record Live := mkLive {
  d_store : MockStore.Inner;
  d_capture : Capture.Inner;
  d_handle : option SourceHandle;
  d_connection : Connection;
  d_status : Status;
  d_last_revision : Z;
  d_rate : RateEstimator;
}.

Record Work := mkWork {
  w_dock : DockState PlotId;
  w_plots : PlotRegistry;
  w_next_plot_num : Z;
  w_cam : Camera;
  w_drag : DragState;
  w_layout_name : option text;
  w_layout_path : option text;
}.

Record Pointer := mkPointer {
  c_t : option Z;
  c_last_set : option Z;
  c_pending_g : option Z;
  c_marker_mode : bool;
  c_xy : XYDragAccumulator;
  c_highlights : gset Z;
}.

Record Dialogs := mkDialogs {
  g_save_as : option text;
  g_delete : option text;
  g_conn_open : bool;
  g_pending_conn : Connection;
  g_clear_open : bool;
  g_rename : option (PlotId * text);
}.

Record ViewerApp := mkApp {
  a_live : Live;
  a_work : Work;
  a_ptr : Pointer;
  a_dlg : Dialogs;
  a_tree : TreeState;
  a_counts : gmap text Z * option Z;
  a_flash : option (Z * Flash);
  a_pending_file : option text;
  a_pending_layout : option text;
}.

(** Assignments to the parts. *)
Definition set_live (v : Live) (a : ViewerApp) : ViewerApp :=
  mkApp v (a_work a) (a_ptr a) (a_dlg a) (a_tree a) (a_counts a) (a_flash a) (a_pending_file a) (a_pending_layout a).
Definition set_work (v : Work) (a : ViewerApp) : ViewerApp :=
  mkApp (a_live a) v (a_ptr a) (a_dlg a) (a_tree a) (a_counts a) (a_flash a) (a_pending_file a) (a_pending_layout a).
Definition set_ptr (v : Pointer) (a : ViewerApp) : ViewerApp :=
  mkApp (a_live a) (a_work a) v (a_dlg a) (a_tree a) (a_counts a) (a_flash a) (a_pending_file a) (a_pending_layout a).
Definition set_dlg (v : Dialogs) (a : ViewerApp) : ViewerApp :=
  mkApp (a_live a) (a_work a) (a_ptr a) v (a_tree a) (a_counts a) (a_flash a) (a_pending_file a) (a_pending_layout a).
Definition set_tree (v : TreeState) (a : ViewerApp) : ViewerApp :=
  mkApp (a_live a) (a_work a) (a_ptr a) (a_dlg a) v (a_counts a) (a_flash a) (a_pending_file a) (a_pending_layout a).
Definition set_counts (v : gmap text Z * option Z) (a : ViewerApp) : ViewerApp :=
  mkApp (a_live a) (a_work a) (a_ptr a) (a_dlg a) (a_tree a) v (a_flash a) (a_pending_file a) (a_pending_layout a).
Definition set_flash (v : option (Z * Flash)) (a : ViewerApp) : ViewerApp :=
  mkApp (a_live a) (a_work a) (a_ptr a) (a_dlg a) (a_tree a) (a_counts a) v (a_pending_file a) (a_pending_layout a).
Definition set_pending (file layout : option text) (a : ViewerApp) : ViewerApp :=
  mkApp (a_live a) (a_work a) (a_ptr a) (a_dlg a) (a_tree a) (a_counts a) (a_flash a) file layout.

Definition w_set_cam (c : Camera) (w : Work) : Work :=
  mkWork (w_dock w) (w_plots w) (w_next_plot_num w) c (w_drag w) (w_layout_name w) (w_layout_path w).
Definition w_set_plots (p : PlotRegistry) (w : Work) : Work :=
  mkWork (w_dock w) p (w_next_plot_num w) (w_cam w) (w_drag w) (w_layout_name w) (w_layout_path w).
Definition w_set_drag (d : DragState) (w : Work) : Work :=
  mkWork (w_dock w) (w_plots w) (w_next_plot_num w) (w_cam w) d (w_layout_name w) (w_layout_path w).
Definition w_set_markers (ms : MarkerSet) (w : Work) : Work :=
  w_set_drag (mkDrag ms (dg_marker (w_drag w)) (dg_link (w_drag w))) w.
Definition w_set_name (n : option text) (w : Work) : Work :=
  mkWork (w_dock w) (w_plots w) (w_next_plot_num w) (w_cam w) (w_drag w) n (w_layout_path w).
Definition w_set_path (n : option text) (w : Work) : Work :=
  mkWork (w_dock w) (w_plots w) (w_next_plot_num w) (w_cam w) (w_drag w) (w_layout_name w) n.

Definition flash (now : Z) (msg : Flash) (a : ViewerApp) : ViewerApp := set_flash (Some (now, msg)) a.

(** [RateEstimator::new(2.0)] *)
Definition fresh_rate : RateEstimator := RateEstimator_new (f64_of_Z 2).

(** The channels the store offers. *)
Definition app_channels (a : ViewerApp) : list ChannelInfo := in_channels (d_store (a_live a)).

Section actions.
Context `{HO : HashOrder} (pf : profile) (now : Z).
Context (to_vec_pretty : Layout -> option text) (from_slice : text -> option Layout).

(** ** The default workspace *)
Definition make_default_dock (plots : PlotRegistry) : total (PlotRegistry * DockState PlotId) :=
  s ← registry_insert pf plots (PScalar (ScalarPanel_new (str "scalar 1")));
  l ← registry_insert pf s.1 (PLogicAnalyser (LogicAnalyserPanel_new (str "logic 2")));
  mret (l.1, split_right (dock_new [s.2]) [l.2]).

(** ** The data source *)

(** Where the code assigns [None] to the handle it drops it: the receiver thread
    is stopped and joined, which leaves the store and the capture as they are
    ([wind_down_now] of Source.v). *)
Definition reconnect (addrs : nat) (conns : list (option stream)) (a : ViewerApp) : total ViewerApp :=
  let v := a_live a in
  if negb (bool_decide (cn_protocol (d_connection v) = ViewGroups.Tcp)) then
    mret (set_live (mkLive (d_store v) (d_capture v) (d_handle v) (d_connection v)
                      (StNotImplemented (Protocol_label (cn_protocol (d_connection v)))) (d_last_revision v) (d_rate v)) a)
  else
    r ← source_connect pf now addrs conns (mkSinks (mock_clear (d_store v)) (Some (Capture.clear (d_capture v))));
    let '(k, res) := r in
    let capture := default (Capture.clear (d_capture v)) (sk_capture k) in
    mret (set_live
            (match res with
             | inr h => mkLive (sk_store k) capture (Some h) (d_connection v)
                          (StConnected (Connection_pretty (d_connection v))) 0 fresh_rate
             | inl e => mkLive (sk_store k) capture None (d_connection v) (StFailed e) 0 fresh_rate
             end) a).

(** The source keeps running: only the data, the camera, the markers and the
    tree's caches are reset. *)
Definition do_clear (a : ViewerApp) : ViewerApp :=
  let v := a_live a in
  let a := set_live (mkLive (mock_clear (d_store v)) (Capture.clear (d_capture v)) (d_handle v) (d_connection v)
                       (d_status v) 0 fresh_rate) a in
  let a := set_work (w_set_markers MarkerSet_new (w_set_cam (cam_reset (w_cam (a_work a))) (a_work a))) a in
  let a := set_tree (mkTree (tr_query (a_tree a)) ∅ None (tr_pending_log_view (a_tree a))) a in
  flash now FlCleared (set_counts (∅, None) a).

(** ** Layouts *)

(** What every way of loading a layout does with it. *)
Definition install_layout (layout : Layout) (channels : list ChannelInfo) (w : Work) : total (Work * ApplyReport) :=
  r ← apply pf layout channels;
  let '(registry, dock, report) := r in
  ms ← load_markers pf (dg_markers (w_drag w)) layout channels;
  mret (w_set_markers ms (mkWork dock registry (Z.of_nat (registry_len registry) + 1) (w_cam w) (w_drag w)
                            (Some (ly_name layout)) (w_layout_path w)), report).

Definition em_dash : text := [x20; xe2; x80; x94; x20].

Definition try_apply_sidecar_layout (fs : files) (btlm_path : text) (a : ViewerApp)
  : total (ViewerApp * option SidecarNote) :=
  match fs !! layout_sidecar_path btlm_path with
  | None => mret (a, None)
  | Some bytes =>
    match from_slice bytes with
    | None => mret (a, Some NoteParseFailed)
    | Some layout =>
      if negb (version_supported (ly_version layout)) then mret (a, Some (NoteVersion (ly_version layout)))
      else
        r ← install_layout layout (app_channels a) (a_work a);
        mret (set_work r.1 a, Some (NoteApplied (ly_name layout) (format_apply_suffix r.2 (str " (") (str ")"))))
    end
  end.

Definition load_layout_file (fs : files) (path : text) (a : ViewerApp) : total ViewerApp :=
  match fs !! path with
  | None => mret (flash now FlLayoutMissing a)
  | Some bytes =>
    match from_slice bytes with
    | None => mret (flash now FlLayoutParse a)
    | Some layout =>
      if negb (version_supported (ly_version layout)) then mret (flash now (FlLayoutVersion (ly_version layout)) a)
      else
        r ← install_layout layout (app_channels a) (a_work a);
        mret (flash now (FlLayoutLoaded (ly_name layout) (format_apply_suffix r.2 em_dash []))
                (set_work (w_set_path (Some path) r.1) a))
    end
  end.

Definition do_load_layout (dir : files) (name : text) (a : ViewerApp) : total ViewerApp :=
  match load from_slice dir name with
  | Panic => Panic
  | Err e => mret (flash now (FlLayoutLoadFailed name e) a)
  | Ok layout =>
    r ← install_layout layout (app_channels a) (a_work a);
    mret (flash now (FlLayoutLoaded (ly_name layout) (format_apply_suffix r.2 em_dash []))
            (set_work (w_set_path None r.1) a))
  end.

(** The live workspace as a layout. *)
Definition snapshot (name : text) (a : ViewerApp) : Layout :=
  Layout.capture name (w_plots (a_work a)) (w_dock (a_work a)) (channels_by_id (app_channels a))
    (dg_markers (w_drag (a_work a))).

(** The files are those chosen by the user and those of the layouts directory. *)
Definition do_save_layout (fs dir : files) (name : text) (a : ViewerApp) : files * files * ViewerApp :=
  let snap := snapshot name a in
  match w_layout_path (a_work a) with
  | Some path =>
    match to_vec_pretty snap with
    | None => (fs, dir, flash now (FlLayoutSaveFailed InvalidData) a)
    | Some bytes => (<[path := bytes]> fs, dir, flash now (FlLayoutSaved name (Some path)) a)
    end
  | None =>
    match save to_vec_pretty dir snap with
    | Ok dir => (fs, dir, flash now (FlLayoutSaved name None) (set_work (w_set_name (Some name) (a_work a)) a))
    | Err e => (fs, dir, flash now (FlLayoutSaveFailed e) a)
    | Panic => (fs, dir, a)
    end
  end.

Definition do_delete_layout (dir : files) (name : text) (a : ViewerApp) : files * ViewerApp :=
  let w := a_work a in
  let w := if bool_decide (w_layout_name w = Some name) then w_set_name None w else w in
  (delete_layout dir name, flash now (FlDeleted name) (set_work w a)).

(** ** Captures *)
Definition load_capture_file (fs : files) (path : text) (a : ViewerApp) : total ViewerApp :=
  let v := a_live a in
  r ← load_capture pf now fs path (d_store v) (d_capture v);
  let '(s, g, res) := r in
  match res with
  | inl (OpenRead e) => mret (flash now (FlOpenFailed (OpenRead e)) a)
  | inl (OpenSchema e) => mret (flash now (FlOpenFailed (OpenSchema e)) a)
  | inl (OpenMap e) =>
    mret (flash now (FlOpenFailed (OpenMap e)) (set_live (mkLive s g None (d_connection v) (d_status v) 0 fresh_rate) a))
  | inr rp =>
    let name := from_utf8_lossy (default path (file_name path)) in
    let a := set_live (mkLive s g None (d_connection v) (StLoaded name (rp_pkts rp)) 0 fresh_rate) a in
    n ← try_apply_sidecar_layout fs path a;
    mret (flash now (FlOpened (rp_pkts rp) (rp_entries rp) (rp_skipped rp) n.2) n.1)
  end.

Definition do_open_capture (fs : files) (pick : option text) (a : ViewerApp) : total ViewerApp :=
  match pick with Some path => load_capture_file fs path a | None => mret a end.

Definition sidecar_name (btlm_path : text) (a : ViewerApp) : text :=
  match w_layout_name (a_work a) with
  | Some name => name
  | None => match file_stem btlm_path with Some s => from_utf8_lossy s | None => str "capture" end
  end.

Definition write_sidecar_layout (fs : files) (btlm_path : text) (a : ViewerApp) : files * option SidecarNote :=
  match to_vec_pretty (snapshot (sidecar_name btlm_path a) a) with
  | None => (fs, Some NoteSerialiseFailed)
  | Some bytes =>
    let sidecar := layout_sidecar_path btlm_path in
    (<[sidecar := bytes]> fs, Some (NoteSaved sidecar))
  end.

(** The path picked in the dialog gets the extension if it has none. *)
Definition capture_path (path : text) : text :=
  match path_extension path with None => set_extension path (str "btlm") | Some _ => path end.

Definition do_save_capture (fs : files) (pick : option text) (a : ViewerApp) : total (files * ViewerApp) :=
  let g := d_capture (a_live a) in
  if negb (has_data g) then mret (fs, flash now FlNothingToSave a)
  else
    match pick with
    | None => mret (fs, a)
    | Some path =>
      let path := capture_path path in
      match save_btlm g fs path with
      | Panic => Panic
      | Err e => mret (fs, flash now (FlSaveFailed e) a)
      | Ok (fs, r) =>
        let '(fs, note) := write_sidecar_layout fs path a in
        mret (fs, flash now (FlSaved r path note) a)
      end
    end.

(** ** Menus and dialogs *)
Record CaptureMenu := mkCaptureMenu { cm_save : option (option text); cm_open : option (option text); cm_clear : bool }.

Definition open_clear (a : ViewerApp) : ViewerApp :=
  let g := a_dlg a in
  set_dlg (mkDialogs (g_save_as g) (g_delete g) (g_conn_open g) (g_pending_conn g) true (g_rename g)) a.

(** Disabled entries cannot be clicked; the statistics are read once. *)
Definition capture_menu (fs : files) (m : CaptureMenu) (a : ViewerApp) : total (files * ViewerApp) :=
  let stats := stats (d_capture (a_live a)) now in
  let has_data := 0 <? cs_packets stats in
  fa ← (match cm_save m with
        | Some pick => if has_data then do_save_capture fs pick a else mret (fs, a)
        | None => mret (fs, a)
        end);
  a ← (match cm_open m with Some pick => do_open_capture fa.1 pick fa.2 | None => mret fa.2 end);
  mret (fa.1, if cm_clear m && (has_data || cs_has_schema stats) then open_clear a else a).

(** Buttons of a modal window; [closed] is its close button. *)
Record DialogInput := mkDialogInput { di_commit : bool; di_cancel : bool; di_closed : bool }.

Definition confirm_clear_dialog (i : DialogInput) (a : ViewerApp) : ViewerApp :=
  let shut a := let g := a_dlg a in
    set_dlg (mkDialogs (g_save_as g) (g_delete g) (g_conn_open g) (g_pending_conn g) false (g_rename g)) a in
  if negb (g_clear_open (a_dlg a)) then a
  else if di_commit i then shut (do_clear a)
  else if di_cancel i || di_closed i then shut a
  else a.

(** [str::trim] *)
Fixpoint skip_space (cs : list text) : list text :=
  match cs with c :: cs' => if is_whitespace c then skip_space cs' else cs | [] => [] end.
Definition trim (s : text) : text := concat (rev (skip_space (rev (skip_space (chars s))))).

(** [typed] is the content of the text field. *)
Definition rename_tab_dialog (i : DialogInput) (typed : text -> text) (a : ViewerApp) : ViewerApp :=
  let set r a := let g := a_dlg a in
    set_dlg (mkDialogs (g_save_as g) (g_delete g) (g_conn_open g) (g_pending_conn g) (g_clear_open g) r) a in
  match g_rename (a_dlg a) with
  | None => a
  | Some (pid, buf) =>
    let buf := typed buf in
    if di_commit i then
      let trimmed := trim buf in
      let a := if is_nil trimmed then a
               else set_work (w_set_plots (registry_get_mut (w_plots (a_work a)) pid (fun k => title_mut k (fun _ => trimmed)))
                                (a_work a)) a in
      set None a
    else if di_cancel i || di_closed i then set None a
    else set (Some (pid, buf)) a
  end.

Definition save_as_dialog (fs dir : files) (i : DialogInput) (typed : text -> text) (a : ViewerApp)
  : files * files * ViewerApp :=
  let set r a := let g := a_dlg a in
    set_dlg (mkDialogs r (g_delete g) (g_conn_open g) (g_pending_conn g) (g_clear_open g) (g_rename g)) a in
  match g_save_as (a_dlg a) with
  | None => (fs, dir, a)
  | Some buf =>
    let buf := typed buf in
    if di_commit i then
      let trimmed := trim buf in
      let a := set None a in
      if is_nil trimmed then (fs, dir, a) else do_save_layout fs dir trimmed a
    else if di_closed i || di_cancel i then (fs, dir, set None a)
    else (fs, dir, set (Some buf) a)
  end.

Definition delete_confirm_dialog (dir : files) (i : DialogInput) (a : ViewerApp) : files * ViewerApp :=
  let shut a := let g := a_dlg a in
    set_dlg (mkDialogs (g_save_as g) None (g_conn_open g) (g_pending_conn g) (g_clear_open g) (g_rename g)) a in
  match g_delete (a_dlg a) with
  | None => (dir, a)
  | Some name =>
    if di_commit i then do_delete_layout dir name (shut a)
    else if di_closed i || di_cancel i then (dir, shut a)
    else (dir, a)
  end.

(** [edit] is what the form's fields do to the pending connection. *)
Definition connection_dialog (addrs : nat) (conns : list (option stream)) (i : DialogInput)
    (edit : Connection -> Connection) (a : ViewerApp) : total ViewerApp :=
  let g := a_dlg a in
  if negb (g_conn_open g) then mret a
  else
    let pending := edit (g_pending_conn g) in
    let leave open a := set_dlg (mkDialogs (g_save_as g) (g_delete g) open pending (g_clear_open g) (g_rename g)) a in
    if di_commit i then
      let v := a_live a in
      a ← reconnect addrs conns
            (set_live (mkLive (d_store v) (d_capture v) (d_handle v) pending (d_status v) (d_last_revision v) (d_rate v)) a);
      mret (leave false a)
    else mret (leave (negb (di_closed i || di_cancel i)) a).
End actions.
End state.
