(* ===== verification/AppTabs.v ===== *)
(** * btelem-viewer: tabs

    Models the tab viewer of viewer/crates/btelem-viewer/src/app.rs (1568-1775)
    with what the renderers of plot_renderers.rs do to the application while they
    draw: payloads dropped on a plot, and a tab drawn as the code draws it (the
    data, the gestures on it in their order, its menus).  [TabEvent] is the effect
    of one handler; what the toolkit reports is an input. *)

From S2P Require Import Prelude Slices Text Float64 Decimal Wire WireSchema Store MockStore Capture Mapper Tcp Source Reopen ViewPanels ViewCamera ViewGroups ViewMarkers Layout LogView Colours Lanes Interact Plots AppText AppTree AppState.

(** ** Drops *)

(** A bitfield word becomes one lane per bit. *)
Definition add_logic_lane (panel : LogicAnalyserPanel) (ch : ChannelId) (info : ChannelInfo) (store : MockStore.Inner)
    (by_id : gmap Z ChannelInfo) : LogicAnalyserPanel :=
  match bits_for_word store ch with
  | Some bits =>
    foldl (fun panel bit => match by_id !! bit with Some bi => (logic_add panel bi).1 | None => panel end) panel bits
  | None => (logic_add panel info).1
  end.

Definition log_view_from_group (title group : text) (channels : list ChannelId) : PlotKind :=
  let p := LogViewPanel_new title group in
  PLogView (mkLogViewPanel (lv_title p) (lv_group p) channels (seq 0 (length channels)) (lv_filters p) (lv_color_by p)
              (lv_priority_by p) (lv_max_rows p)).

(** What a text channel dropped on a plot opens: its group, with only the
    dragged column visible. *)
Definition log_view_for_text `{HashOrder} (by_id : gmap Z ChannelInfo) (info : ChannelInfo) (ch : ChannelId) : PlotKind :=
  let group := channel_group (ci_path info) in
  let group_chs :=
    map ci_id (List.filter (fun c => bool_decide (channel_group (ci_path c) = group)) (map snd (hash_iter by_id))) in
  let p := LogViewPanel_new group group in
  PLogView (mkLogViewPanel (lv_title p) (lv_group p) group_chs
              (match position ch group_chs with Some idx => [idx] | None => seq 0 (length group_chs) end)
              (lv_filters p) (lv_color_by p) (lv_priority_by p) (lv_max_rows p)).

Record Dropped := mkDropped { dr_plots : PlotRegistry; dr_xy : XYDragAccumulator; dr_new : list PlotKind }.

Section drops.
Context `{HO : HashOrder} (store : MockStore.Inner) (by_id : gmap Z ChannelInfo).

(** One channel onto a plot that accepts it. *)
Definition host_channel (ch : ChannelId) (info : ChannelInfo) (k : PlotKind) : PlotKind :=
  match k with
  | PScalar p => PScalar (scalar_add p info).1
  | PLogicAnalyser p => PLogicAnalyser (add_logic_lane p ch info store by_id)
  | PLogView _ | PXY _ => k
  end.

Definition xy_title_of (x y : ChannelId) : text :=
  let path c := match by_id !! c with Some i => ci_path i | None => str "?" end in
  str "XY " ++ short_name (path x) ++ str " vs " ++ short_name (path y).

Definition drop_on_tab (pid : PlotId) (payload : DragPayload) (d : Dropped) : Dropped :=
  match payload with
  | DragChannel ch =>
    match by_id !! ch, registry_get (dr_plots d) pid with
    | Some info, Some plot =>
      if plot_accepts plot info then
        mkDropped (registry_get_mut (dr_plots d) pid (host_channel ch info)) (dr_xy d) (dr_new d)
      else if bool_decide (ci_kind info = Text) then
        mkDropped (dr_plots d) (dr_xy d) (dr_new d ++ [log_view_for_text by_id info ch])
      else d
    | _, _ => d
    end
  | DragChannels chs =>
    mkDropped (registry_get_mut (dr_plots d) pid
                 (fun k => foldl (fun k ch => match by_id !! ch with Some info => host_channel ch info k | None => k end) k chs))
      (dr_xy d) (dr_new d)
  | DragGroup name chs => mkDropped (dr_plots d) (dr_xy d) (dr_new d ++ [log_view_from_group name name chs])
  | DragXYSeed ch =>
    match xy_feed (dr_xy d) ch with
    | (xy, Some (x, y)) => mkDropped (dr_plots d) xy (dr_new d ++ [PXY (mkXYPlot (xy_title_of x y) x y None)])
    | (xy, None) => mkDropped (dr_plots d) xy (dr_new d)
    end
  end.
End drops.

(** ** Handlers of one tab *)
Section tabs.
Context `{HO : HashOrder} `{D : DockLib} (pf : profile) (now : Z) (exp : f64 -> f64).

Record TabState := mkTab {
  ts_work : Work;
  ts_ptr : Pointer;
  ts_new : list PlotKind;
  ts_removed : list PlotId;
  ts_rename : option (PlotId * text);
}.

(** Edits of a log view's toolbar and headers. *)
Inductive LogEdit :=
| LeToggle (idx : nat)
| LeColor (ch : option ChannelId)
| LePriority (ch : option ChannelId)
| LeMaxRows (n : Z)
| LeFilter (ui : editor_ui) (col : ChannelId)
| LeClear (col : ChannelId).

Definition edit_log (by_id : gmap Z ChannelInfo) (e : LogEdit) (p : LogViewPanel) : LogViewPanel :=
  let kinds := col_kinds by_id (lv_columns p) in
  match e with
  | LeToggle idx => toggle_column p idx
  | LeColor ch => pick_color_by p ch
  | LePriority ch => pick_priority_by kinds p ch
  | LeMaxRows n => set_max_rows p n
  | LeFilter ui col => render_column_filter_editor ui p col (kinds !! col)
  | LeClear col => set_filters p (delete col (lv_filters p))
  end.

Inductive TabEvent :=
| TabDrop (pid : PlotId) (payload : DragPayload)
| TabClose (pid : PlotId)
| TabRename (pid : PlotId)
| TabHover (tr : Transform) (p : Pos2)
| TabMarkers (inp : Input) (r : Response) (tr : Transform) (sigs : list ChannelId) (ylo yhi : f64)
| TabCamera (inp : Input) (r : Response) (tr : Transform) (interactive primary : bool)
| TabLaneDrag (r : Response) (cur : f64 * f64) (primary : bool)
| TabLaneScroll (inp : Input) (r : Response) (cur : f64 * f64)
| TabSignals (pid : PlotId) (inp : Input) (r : Response) (tr : Transform) (signals : list SignalData)
| TabStyle (pid : PlotId) (ch : ChannelId) (edit : SignalStyle -> SignalStyle) (move : option PlotId) (remove : bool)
| TabLane (pid : PlotId) (ch : ChannelId) (radix : option LabelRadix) (click : MenuClick)
| TabLogRow (t : Z) (clicked double_clicked : bool) (fallback : f64 * f64)
| TabLogEdit (pid : PlotId) (e : LogEdit).

Definition t_set_plots (p : PlotRegistry) (st : TabState) : TabState :=
  mkTab (w_set_plots p (ts_work st)) (ts_ptr st) (ts_new st) (ts_removed st) (ts_rename st).
Definition t_set_cam (c : Camera) (st : TabState) : TabState :=
  mkTab (w_set_cam c (ts_work st)) (ts_ptr st) (ts_new st) (ts_removed st) (ts_rename st).

Definition run_tab (store : MockStore.Inner) (by_id : gmap Z ChannelInfo) (st : TabState) (e : TabEvent) : total TabState :=
  let w := ts_work st in
  let c := ts_ptr st in
  match e with
  | TabDrop pid payload =>
    let d := drop_on_tab store by_id pid payload (mkDropped (w_plots w) (c_xy c) (ts_new st)) in
    mret (mkTab (w_set_plots (dr_plots d) w)
            (mkPointer (c_t c) (c_last_set c) (c_pending_g c) (c_marker_mode c) (dr_xy d) (c_highlights c))
            (dr_new d) (ts_removed st) (ts_rename st))
  | TabClose pid => mret (mkTab w c (ts_new st) (ts_removed st ++ [pid]) (ts_rename st))
  | TabRename pid =>
    let current := match registry_get (w_plots w) pid with Some k => plot_title k | None => [] end in
    mret (mkTab w c (ts_new st) (ts_removed st) (Some (pid, current)))
  | TabHover tr p =>
    mret (mkTab w (mkPointer (Some (pointer_ns tr p)) (Some now) (c_pending_g c) (c_marker_mode c) (c_xy c) (c_highlights c))
            (ts_new st) (ts_removed st) (ts_rename st))
  | TabMarkers inp r tr sigs ylo yhi =>
    d ← handle_marker_interaction pf inp r tr sigs ylo yhi (c_marker_mode c) (w_drag w);
    mret (mkTab (w_set_drag d w) c (ts_new st) (ts_removed st) (ts_rename st))
  | TabCamera inp r tr interactive primary =>
    mret (t_set_cam (handle_camera exp (w_cam w) inp r tr interactive primary).1 st)
  | TabLaneDrag r cur primary => mret (t_set_cam (drag_pan_x (w_cam w) r cur primary) st)
  | TabLaneScroll inp r cur => mret (t_set_cam (scroll_zoom_x exp (w_cam w) inp r cur).1 st)
  | TabSignals pid inp r tr signals =>
    p ← click_signals (w_plots w) pid (dg_markers (w_drag w)) inp r tr (c_marker_mode c) signals;
    mret (t_set_plots p st)
  | TabStyle pid ch edit move remove =>
    mret (t_set_plots (signal_style_menu (w_plots w) pid ch (by_id !! ch) edit move remove) st)
  | TabLane pid ch radix click => mret (t_set_plots (lane_menu (w_plots w) pid ch (by_id !! ch) radix click) st)
  | TabLogRow t clicked double_clicked fallback =>
    let '(highlights, cam) := row_clicked (c_highlights c) (w_cam w) t clicked double_clicked fallback in
    mret (mkTab (w_set_cam cam w)
            (mkPointer (c_t c) (c_last_set c) (c_pending_g c) (c_marker_mode c) (c_xy c) highlights)
            (ts_new st) (ts_removed st) (ts_rename st))
  | TabLogEdit pid e =>
    mret (t_set_plots (registry_get_mut (w_plots w) pid (fun k => match k with PLogView p => PLogView (edit_log by_id e p) | k => k end)) st)
  end.

Fixpoint run_tabs (store : MockStore.Inner) (by_id : gmap Z ChannelInfo) (es : list TabEvent) (st : TabState) : total TabState :=
  match es with
  | [] => mret st
  | e :: es => st ← run_tab store by_id st e; run_tabs store by_id es st
  end.

(** ** Drawing a tab *)
Section draw.
Context (store : MockStore.Inner) (by_id : gmap Z ChannelInfo) (view : option (Z * Z)).

(** The pointer pans only when no marker wants it. *)
Definition primary_free (st : TabState) : bool :=
  bool_decide (dg_marker (w_drag (ts_work st)) = None) && negb (c_marker_mode (ts_ptr st)).

(** What the toolkit reports of a scalar plot in a frame; [su_style] is the
    signal's submenu and what was chosen in it. *)
Record ScalarUi := mkScalarUi {
  su_width : f32;
  su_input : Input;
  su_response : Response;
  su_transform : Transform;
  su_hover : option Pos2;
  su_style : option (ChannelId * (SignalStyle -> SignalStyle) * option PlotId * bool);
}.

Definition render_scalar_section (pid : PlotId) (panel : ScalarPanel) (t0 t1 : Z) (ui : ScalarUi) (st : TabState)
  : total (TabState * ScalarFrame) :=
  data ← scalar_data (H := mock_store pf) store by_id panel t0 t1 (su_width ui);
  let '(signals, (ylo, yhi)) := data in
  let interactive := negb (cam_follow (w_cam (ts_work st))) in
  frame ← scalar_frame (H := mock_store pf) store (dg_markers (w_drag (ts_work st))) (c_highlights (ts_ptr st))
            signals t0 t1 ylo yhi;
  let selected_sigs := hash_set_iter (sp_selected panel) in
  let inp := su_input ui in
  let r := su_response ui in
  let tr := su_transform ui in
  st ← run_tab store by_id st (TabMarkers inp r tr selected_sigs ylo yhi);
  st ← run_tab store by_id st (TabSignals pid inp r tr signals);
  st ← run_tab store by_id st (TabCamera inp r tr interactive (primary_free st));
  st ← (match su_style ui with
        | Some (ch, edit, move, remove) =>
          if bool_decide (ch ∈ map sg_ch signals) then run_tab store by_id st (TabStyle pid ch edit move remove) else mret st
        | None => mret st
        end);
  st ← (match su_hover ui with Some p => run_tab store by_id st (TabHover tr p) | None => mret st end);
  mret (st, frame).

(** Of a lane, and of a panel of lanes: there is one pointer, so one lane at
    most is clicked. *)
Record LaneUi := mkLaneUi {
  lu_input : Input;
  lu_response : Response;
  lu_transform : Transform;
  lu_menu : option MenuClick;
}.
Record LogicUi := mkLogicUi {
  gu_input : Input;
  gu_panel : Response;
  gu_px_per_sec : f64;
  gu_width : f32;
  gu_lane : ChannelId -> LaneUi;
  gu_clicked : option ChannelId;
}.
Definition lane_response (ui : LogicUi) (ch : ChannelId) : Response :=
  let r := lu_response (gu_lane ui ch) in
  mkResponse (rs_hover r) (rs_interact r) (rs_min_x r) (rs_width r) (rs_contains r) (rs_middle_dragged r)
    (rs_primary_dragged r) (rs_primary_drag_started r) (bool_decide (gu_clicked ui = Some ch)) (rs_drag_dx r).

(** The radix submenu exists on numeric lanes, which also keep it when moved. *)
Definition lane_radix (lane : LogicLane) : option LabelRadix :=
  match ll_mode lane with Named => None | Numeric => Some (ll_radix lane) end.
Definition lane_offers (lane : LogicLane) (click : MenuClick) : bool :=
  match ll_mode lane, click with Named, SetRadix _ => false | _, _ => true end.

Definition lane_tab (pid : PlotId) (ui : LogicUi) (t0 t1 : Z) (lane : LogicLane) (st : TabState) : total TabState :=
  let ch := ll_ch lane in
  let u := gu_lane ui ch in
  let r := lane_response ui ch in
  frame ← render_lane_dispatch (H := mock_store pf) pf store by_id lane t0 t1 (gu_px_per_sec ui) (gu_width ui);
  match frame with
  | None => mret st
  | Some _ =>
    st ← (match lu_menu u with
          | Some click => if lane_offers lane click then run_tab store by_id st (TabLane pid ch (lane_radix lane) click)
                          else mret st
          | None => mret st
          end);
    st ← run_tab store by_id st (TabMarkers (lu_input u) r (lu_transform u) [] (f64_of_Z 0) (f64_of_Z 1));
    let cur_s := (ns_to_s t0, ns_to_s t1) in
    st ← run_tab store by_id st (TabLaneDrag r cur_s (primary_free st));
    run_tab store by_id st (TabLaneScroll (lu_input u) r cur_s)
  end.

Fixpoint lane_tabs (pid : PlotId) (ui : LogicUi) (t0 t1 : Z) (lanes : list LogicLane) (st : TabState) : total TabState :=
  match lanes with
  | [] => mret st
  | lane :: lanes => st ← lane_tab pid ui t0 t1 lane st; lane_tabs pid ui t0 t1 lanes st
  end.

(** The wheel is read for the whole panel before the lanes. *)
Definition logic_tab (pid : PlotId) (panel : LogicAnalyserPanel) (t0 t1 : Z) (ui : LogicUi) (st : TabState) : total TabState :=
  if logic_is_empty panel then mret st
  else
    st ← run_tab store by_id st (TabLaneScroll (gu_input ui) (gu_panel ui) (ns_to_s t0, ns_to_s t1));
    groups ← panel_lanes by_id panel;
    lane_tabs pid ui t0 t1 (concat (map snd groups)) st.

(** Of a log view: edits in its toolbar, in its column headers, clicks on its
    rows. *)
Record LogUi := mkLogUi {
  vu_toolbar : list LogEdit;
  vu_header : list LogEdit;
  vu_row : Timestamp -> bool * bool;
}.
Definition in_toolbar (e : LogEdit) : bool := match e with LeFilter _ _ | LeClear _ => false | _ => true end.
Definition in_header (cols : list LogColumn) (e : LogEdit) : bool :=
  match e with LeFilter _ col | LeClear col => bool_decide (col ∈ map lc_id cols) | _ => false end.

Definition render_log_view (pid : PlotId) (t0 t1 : Z) (ui : LogUi) (st : TabState) : total TabState :=
  let edits p l := map (TabLogEdit pid) (List.filter p l) in
  st ← run_tabs store by_id (edits in_toolbar (vu_toolbar ui)) st;
  match registry_get (w_plots (ts_work st)) pid with
  | Some (PLogView panel) =>
    let cols := visible_cols by_id panel in
    if bool_decide (lv_columns panel = []) || bool_decide (map lc_id cols = []) then mret st
    else
      st ← run_tabs store by_id (edits (in_header cols) (vu_header ui)) st;
      match registry_get (w_plots (ts_work st)) pid with
      | Some (PLogView panel) =>
        rows ← log_view_rows (H := mock_store pf) pf store by_id panel t0 t1;
        let '(shown, _, _) := rows in
        let fallback := (ns_to_s t0, ns_to_s t1) in
        run_tabs store by_id (map (fun row => let '(clicked, double) := vu_row ui (row_t row) in
                                              TabLogRow (row_t row) clicked double fallback) shown) st
      | _ => mret st
      end
  | _ => mret st
  end.

(** A tab: the plot as it was when the tab was drawn, then a payload dropped on
    it. *)
Record TabUi := mkTabUi {
  tu_pid : PlotId;
  tu_scalar : ScalarUi;
  tu_logic : LogicUi;
  tu_log : LogUi;
  tu_drop : option DragPayload;
}.

Definition draw_plot (u : TabUi) (kind : PlotKind) (t0 t1 : Z) (st : TabState) : total TabState :=
  match kind with
  | PScalar panel => r ← render_scalar_section (tu_pid u) panel t0 t1 (tu_scalar u) st; mret r.1
  | PLogicAnalyser panel => logic_tab (tu_pid u) panel t0 t1 (tu_logic u) st
  | PLogView _ => render_log_view (tu_pid u) t0 t1 (tu_log u) st
  | PXY xy => _ ← render_xy (H := mock_store pf) store xy view; mret st
  end.

Definition draw_tab (u : TabUi) (st : TabState) : total TabState :=
  st ← (match registry_get (w_plots (ts_work st)) (tu_pid u), view with
        | Some kind, Some (t0, t1) => draw_plot u kind t0 t1 st
        | _, _ => mret st
        end);
  match tu_drop u with
  | Some payload => run_tab store by_id st (TabDrop (tu_pid u) payload)
  | None => mret st
  end.

(** What the dock area calls, in the order it does. *)
Inductive TabStep :=
| StDraw (u : TabUi)
| StClose (pid : PlotId)
| StRename (pid : PlotId).

Definition run_step (s : TabStep) (st : TabState) : total TabState :=
  match s with
  | StDraw u => draw_tab u st
  | StClose pid => run_tab store by_id st (TabClose pid)
  | StRename pid => run_tab store by_id st (TabRename pid)
  end.

Fixpoint run_steps (steps : list TabStep) (st : TabState) : total TabState :=
  match steps with
  | [] => mret st
  | s :: steps => st ← run_step s st; run_steps steps st
  end.
End draw.
End tabs.
