(* ===== verification/AppFrame.v ===== *)
(** * btelem-viewer: one frame of the application

    Models the rest of [ViewerApp] (viewer/crates/btelem-viewer/src/app.rs):
    polling, the keyboard (658-773), the top bar and its menus (775-953), the
    cursor panel (1344-1472), [update] (1476-1565), which calls everything in
    order, draws the tabs (AppTabs.v), closes and opens plots and keeps at least
    one, and the start (174-245). *)

From S2P Require Import Prelude Slices Text Float64 Decimal Wire WireSchema Store MockStore Capture Mapper Tcp Source Reopen ViewPanels ViewCamera ViewGroups ViewMarkers Layout LogView Colours Lanes Interact Plots AppText AppTree AppState AppTabs.

Definition millis (n : Z) : Z := n * 1000000.
(** [Instant::elapsed] saturates. *)
Definition elapsed (now t : Z) : Z := sat_sub now t.
Definition CURSOR_IDLE_MS : Z := 500.

(** ** Handlers *)
Section frame.
Context `{HO : HashOrder} `{D : DockLib} (pf : profile) (now : Z).
Context (to_vec_pretty : Layout -> option text) (from_slice : text -> option Layout) (exp : f64 -> f64).

(** Whether a repaint is wanted at once; otherwise in 16 ms. *)
Definition poll_redraw (a : ViewerApp) : ViewerApp * bool :=
  let v := a_live a in
  let rev := in_revision (d_store v) in
  let immediate := negb (rev =? d_last_revision v) in
  let a := if immediate
           then set_live (mkLive (d_store v) (d_capture v) (d_handle v) (d_connection v) (d_status v) rev (d_rate v)) a
           else a in
  let c := a_ptr a in
  (match c_last_set c with
   | Some last =>
     if CURSOR_IDLE_MS <? elapsed now last / millis 1
     then set_ptr (mkPointer None None (c_pending_g c) (c_marker_mode c) (c_xy c) (c_highlights c)) a else a
   | None => a
   end, immediate).

Definition sample_rate (a : ViewerApp) : ViewerApp * f64 :=
  let v := a_live a in
  let e := rate_push (d_rate v) now (in_revision (d_store v)) in
  (set_live (mkLive (d_store v) (d_capture v) (d_handle v) (d_connection v) (d_status v) (d_last_revision v) e) a, rate e).

Record Keys := mkKeys {
  k_wanted : bool; (* a text widget has the keyboard *)
  k_f : bool;
  k_g : bool;
  k_shift : bool;
  k_home : bool;
  k_m : bool;
  k_delete : bool; (* Delete or Backspace *)
  k_escape : bool;
}.

Definition set_mode (m : TimeBase) (c : Camera) : Camera :=
  mkCamera m (cam_window_ns c) (match m with Follow => None | Pan => cam_free c end).

(** 'g' pressed: the camera and the half-finished sequence. *)
Definition key_g (shift : bool) (cursor : option Z) (data view : option (Z * Z)) (cam : Camera) (pending : option Z)
  : Camera * option Z :=
  if shift then
    (match view with
     | Some (t0, t1) =>
       let cur := (ns_to_s t0, ns_to_s t1) in
       let pivot := match cursor with Some t => ns_to_s t | None => f64_mul (f64_add cur.1 cur.2) half end in
       zoom_in_at cam (lit 2 10) pivot cur
     | None => cam
     end, None)
  else match pending with
       | Some _ => (view_all cam data, None)
       | None => (cam, Some now)
       end.

Definition handle_global_keys (k : Keys) (a : ViewerApp) : total ViewerApp :=
  if k_wanted k then mret a
  else
    let c := a_ptr a in
    let pending := match c_pending_g c with Some t => if millis 700 <? elapsed now t then None else Some t | None => None end in
    let data := mock_time_bounds (d_store (a_live a)) in
    view ← compute_view pf (w_cam (a_work a)) data;
    let cam := w_cam (a_work a) in
    let cam := if k_f k then set_mode (TimeBase_toggle (cam_mode cam)) cam else cam in
    let '(cam, pending) := if k_g k then key_g (k_shift k) (c_t c) data view cam pending else (cam, pending) in
    let cam := if k_home k then cam_reset cam else cam in
    let marker_mode := if k_m k then negb (c_marker_mode c) else c_marker_mode c in
    let ms := dg_markers (w_drag (a_work a)) in
    let ms := if k_delete k then match ms_selected ms with Some sel => marker_remove ms sel | None => ms end else ms in
    let c := if k_escape k then mkPointer (c_t c) (c_last_set c) None false (xy_cancel (c_xy c)) (c_highlights c)
             else mkPointer (c_t c) (c_last_set c) pending marker_mode (c_xy c) (c_highlights c) in
    mret (set_ptr c (set_work (w_set_markers ms (w_set_cam cam (a_work a))) a)).

(** ** The top bar *)
Record LayoutsMenu := mkLayoutsMenu { lm_save : bool; lm_save_as : bool; lm_load : option text; lm_delete : option text }.

Record TopBar := mkTopBar {
  tb_connection : bool;
  tb_mode : TimeBase -> bool;
  tb_window : option f64;
  tb_scalar : bool;
  tb_logic : bool;
  tb_log : bool;
  tb_marker : bool;
  tb_home : bool;
  tb_layouts : LayoutsMenu;
  tb_capture : CaptureMenu;
}.

(** Only saved layouts are offered. *)
Definition layouts_menu (fs dir : files) (m : LayoutsMenu) (a : ViewerApp) : total (files * files * ViewerApp) :=
  let saved := list_layouts from_slice dir in
  let '(fs, dir, a) :=
    match lm_save m, w_layout_name (a_work a) with
    | true, Some name => do_save_layout now to_vec_pretty fs dir name a
    | _, _ => (fs, dir, a)
    end in
  let g := a_dlg a in
  let a := if lm_save_as m
           then set_dlg (mkDialogs (Some (default [] (w_layout_name (a_work a)))) (g_delete g) (g_conn_open g)
                           (g_pending_conn g) (g_clear_open g) (g_rename g)) a else a in
  a ← (match lm_load m with
       | Some name => if bool_decide (name ∈ saved) then do_load_layout pf now from_slice dir name a else mret a
       | None => mret a
       end);
  let g := a_dlg a in
  mret (fs, dir,
    match lm_delete m with
    | Some name => if bool_decide (name ∈ saved)
                   then set_dlg (mkDialogs (g_save_as g) (Some name) (g_conn_open g) (g_pending_conn g) (g_clear_open g)
                                   (g_rename g)) a else a
    | None => a
    end).

(** A button that adds an empty plot. *)
Definition add_plot (clicked : bool) (prefix : text) (kind : text -> PlotKind) (w : Work) : total Work :=
  if clicked then
    let title := prefix ++ str " " ++ fmt_dec (w_next_plot_num w) in
    num ← arith pf 64 (w_next_plot_num w + 1);
    r ← registry_insert pf (w_plots w) (kind title);
    mret (mkWork (push_to_focused_leaf (w_dock w) r.2) r.1 num (w_cam w) (w_drag w) (w_layout_name w) (w_layout_path w))
  else mret w.

(** The label of a time base, when another one is active. *)
Definition pick_mode (t : TopBar) (m : TimeBase) (cam : Camera) : Camera :=
  if tb_mode t m && negb (bool_decide (cam_mode cam = m)) then set_mode m cam else cam.

Definition bar_camera (t : TopBar) (cam : Camera) : Camera :=
  let cam := pick_mode t Pan (pick_mode t Follow cam) in
  match cam_mode cam, tb_window t with
  | Follow, Some secs => mkCamera (cam_mode cam) (f64_to_u64 (f64_mul secs (f64_of_Z (10 ^ 9)))) (cam_free cam)
  | _, _ => cam
  end.

Definition expire_flash (a : ViewerApp) : ViewerApp :=
  match a_flash a with
  | Some (t, _) => if millis 3000 <? elapsed now t then set_flash None a else a
  | None => a
  end.

Definition top_bar (fs dir : files) (t : TopBar) (a : ViewerApp) : total (files * files * ViewerApp) :=
  let a := expire_flash a in
  let g := a_dlg a in
  let a := if tb_connection t
           then set_dlg (mkDialogs (g_save_as g) (g_delete g) true (d_connection (a_live a)) (g_clear_open g) (g_rename g)) a
           else a in
  let w := w_set_cam (bar_camera t (w_cam (a_work a))) (a_work a) in
  w ← add_plot (tb_scalar t) (str "scalar") (fun s => PScalar (ScalarPanel_new s)) w;
  w ← add_plot (tb_logic t) (str "logic") (fun s => PLogicAnalyser (LogicAnalyserPanel_new s)) w;
  w ← add_plot (tb_log t) (str "log") (fun s => PLogView (LogViewPanel_new s [])) w;
  let c := a_ptr a in
  let a := if tb_marker t
           then set_ptr (mkPointer (c_t c) (c_last_set c) (c_pending_g c) (negb (c_marker_mode c)) (c_xy c) (c_highlights c)) a
           else a in
  let w := if tb_home t then w_set_cam (cam_reset (w_cam w)) w else w in
  r ← layouts_menu fs dir (tb_layouts t) (set_work w a);
  let '(fs, dir, a) := r in
  r ← capture_menu pf now to_vec_pretty from_slice fs (tb_capture t) a;
  mret (r.1, dir, (sample_rate r.2).1).

(** ** The cursor panel *)
Definition dash : text := [xe2; x80; x94].
Definition pointer_mark : text := [xe2; x96; xba; x20].
Definition both_ways : text := [x20; xe2; x86; x94; x20].
Definition delta : text := [xce; x94].

Definition cursor_row (store : MockStore.Inner) (by_id : gmap Z ChannelInfo) (t : Z) (ch : ChannelId) : total (list text) :=
  match by_id !! ch with
  | None => mret []
  | Some info =>
    v ← mock_sample_at pf store ch t;
    let line value := [str "  " ++ ci_path info ++ str ": " ++ value] in
    mret (match ci_kind info, v with
          | _, None => line dash
          | Scalar, Some v => line (fmt_fixed 6 v)
          | State labels, Some v =>
            line (default (fmt_dec (f64_to_i64 v)) (labels !! Z.to_nat (f64_to_u64 v)))
          | Text, Some _ => line dash
          end)
  end.

(** The plots of the dock's leaves, in order. *)
Definition iter_plots (w : Work) : list (PlotId * PlotKind) :=
  omap (fun id => (fun k => (id, k)) <$> registry_get (w_plots w) id) (concat (leaves (w_dock w))).

(** The channels whose values the panel lists for a plot. *)
Definition cursor_channels (k : PlotKind) : list ChannelId :=
  match k with
  | PScalar p => sp_channels p
  | PLogicAnalyser p => map ll_ch (la_lanes p)
  | PLogView p => lv_columns p
  | PXY p => [xy_x p; xy_y p]
  end.

Definition marker_line (ms : MarkerSet) (t : Z) (m : Marker) : text :=
  let dt := f64_div (f64_sub (f64_of_Z (mk_t_ns m)) (f64_of_Z t)) (f64_of_Z (10 ^ 9)) in
  let line := mk_label m ++ str " @ " ++ fmt_fixed_plus 3 (fneg dt) ++ str "s" in
  let line := if bool_decide (Some (mk_id m) = ms_selected ms) then pointer_mark ++ line else line in
  let n_links := length (links_for ms (mk_id m)) in
  if (0 <? n_links)%nat then line ++ str " (" ++ fmt_dec (Z.of_nat n_links) ++ str " links)" else line.

Definition link_lines (store : MockStore.Inner) (by_id : gmap Z ChannelInfo) (l : Marker * Marker * Link) : total (list text) :=
  let '(a, b, lk) := l in
  let dt_s := f64_div (f64_sub (f64_of_Z (mk_t_ns b)) (f64_of_Z (mk_t_ns a))) (f64_of_Z (10 ^ 9)) in
  let head := mk_label a ++ both_ways ++ mk_label b ++ str ": " ++ delta ++ str "t = " ++ fmt_fixed_plus 6 dt_s ++ str " s" in
  rows ← mapM (fun ch =>
    va ← mock_sample_at pf store ch (mk_t_ns a);
    vb ← mock_sample_at pf store ch (mk_t_ns b);
    mret (match va, vb with
          | Some va, Some vb =>
            [str "  " ++ match by_id !! ch with Some i => ci_path i | None => [] end ++ str ": " ++ delta ++ str " = " ++
             fmt_fixed_plus 6 (f64_sub vb va)]
          | _, _ => []
          end)) (lk_signals lk);
  mret (head :: concat rows).

Definition cursor_panel (a : ViewerApp) : total (list text) :=
  match c_t (a_ptr a) with
  | None => mret [str "Cursor"; str "(hover a plot)"]
  | Some t =>
    let store := d_store (a_live a) in
    let by_id := channels_by_id (app_channels a) in
    let ms := dg_markers (w_drag (a_work a)) in
    plots ← mapM (fun '(_, kind) =>
      rows ← mapM (cursor_row store by_id t) (cursor_channels kind);
      mret (plot_title kind :: concat rows)) (iter_plots (a_work a));
    links ← mapM (link_lines store by_id) (time_ordered_pairs ms);
    mret ([str "Cursor"; str "t = " ++ fmt_fixed 6 (ns_to_s t) ++ str " s"] ++ concat plots ++
          match ms_markers ms with
          | [] => []
          | markers => str "Markers" :: map (marker_line ms t) markers ++
                       match links with [] => [] | _ => str "Links" :: concat links end
          end)
  end.

(** ** The end of the frame *)
Fixpoint insert_plots (kinds : list PlotKind) (plots : PlotRegistry) (dock : DockState PlotId)
  : total (PlotRegistry * DockState PlotId) :=
  match kinds with
  | [] => mret (plots, dock)
  | kind :: kinds =>
    r ← registry_insert pf plots kind;
    insert_plots kinds r.1 (push_to_focused_leaf dock r.2)
  end.

Definition remove_plots (removed : list PlotId) (plots : PlotRegistry) : PlotRegistry :=
  foldl (fun plots id => (registry_remove plots id).1) plots removed.

(** Close, open, and keep at least one plot. *)
Definition finish_frame (removed : list PlotId) (new_plots : list PlotKind) (w : Work) : total Work :=
  r ← insert_plots new_plots (remove_plots removed (w_plots w)) (w_dock w);
  let '(plots, dock) := r in
  if registry_is_empty plots then
    r ← make_default_dock pf plots;
    mret (mkWork r.2 r.1 3 (w_cam w) (w_drag w) (w_layout_name w) (w_layout_path w))
  else mret (mkWork dock plots (w_next_plot_num w) (w_cam w) (w_drag w) (w_layout_name w) (w_layout_path w)).

(** A group dropped on the dock, and one opened from the tree's menu. *)
Definition group_plots (payload : option DragPayload) : list PlotKind :=
  match payload with Some (DragGroup name chs) => [log_view_from_group name name chs] | _ => [] end.

Record FrameInput := mkFrameInput {
  fi_keys : Keys;
  fi_bar : TopBar;
  fi_addrs : nat;
  fi_conns : list (option stream);
  fi_connection : DialogInput * (Connection -> Connection);
  fi_save_as : DialogInput * (text -> text);
  fi_delete : DialogInput;
  fi_clear : DialogInput;
  fi_rename : DialogInput * (text -> text);
  fi_query : text -> text;
  fi_tree : TreeInput;
  fi_tabs : list TabStep;
  fi_dock : DockState PlotId -> list PlotId -> DockState PlotId; (* the dock area: tabs moved and closed *)
  fi_dock_drop : option DragPayload;
}.

(** The handlers up to the dialogs. *)
Definition begin_frame (fs dir : files) (i : FrameInput) (a : ViewerApp) : total (files * files * ViewerApp) :=
  a ← (match a_pending_file a with
       | Some path => load_capture_file pf now from_slice fs path (set_pending None (a_pending_layout a) a)
       | None => mret a
       end);
  a ← (match a_pending_layout a with
       | Some path => load_layout_file pf now from_slice fs path (set_pending (a_pending_file a) None a)
       | None => mret a
       end);
  let a := (poll_redraw a).1 in
  counts ← refresh_group_counts pf (mock_sample_count (d_store (a_live a))) now (app_channels a) (a_counts a);
  a ← handle_global_keys (fi_keys i) (set_counts counts a);
  r ← top_bar fs dir (fi_bar i) a;
  let '(fs, dir, a) := r in
  a ← connection_dialog pf now (fi_addrs i) (fi_conns i) (fi_connection i).1 (fi_connection i).2 a;
  let '(fs, dir, a) := save_as_dialog now to_vec_pretty fs dir (fi_save_as i).1 (fi_save_as i).2 a in
  let '(dir, a) := delete_confirm_dialog now dir (fi_delete i) a in
  let a := confirm_clear_dialog now (fi_clear i) a in
  mret (fs, dir, rename_tab_dialog (fi_rename i).1 (fi_rename i).2 a).

Definition update (fs dir : files) (i : FrameInput) (a : ViewerApp) : total (files * files * ViewerApp) :=
  r ← begin_frame fs dir i a;
  let '(fs, dir, a) := r in
  let t := a_tree a in
  let t := mkTree (fi_query i (tr_query t)) (tr_selection t) (tr_anchor t) (tr_pending_log_view t) in
  let a := set_tree (tree_panel (fi_tree i) (app_channels a) t).1 a in
  _ ← cursor_panel a;
  view ← compute_view pf (w_cam (a_work a)) (mock_time_bounds (d_store (a_live a)));
  st ← run_steps pf now exp (d_store (a_live a)) (channels_by_id (app_channels a)) view (fi_tabs i) (mkTab (a_work a) (a_ptr a) [] [] None);
  let w := ts_work st in
  let w := mkWork (fi_dock i (w_dock w) (ts_removed st)) (w_plots w) (w_next_plot_num w) (w_cam w) (w_drag w)
             (w_layout_name w) (w_layout_path w) in
  let g := a_dlg a in
  let a := match ts_rename st with
           | Some req => set_dlg (mkDialogs (g_save_as g) (g_delete g) (g_conn_open g) (g_pending_conn g) (g_clear_open g) (Some req)) a
           | None => a
           end in
  let new_plots := ts_new st ++ group_plots (fi_dock_drop i) ++ group_plots (tr_pending_log_view (a_tree a)) in
  let t := a_tree a in
  let a := set_tree (mkTree (tr_query t) (tr_selection t) (tr_anchor t) None) a in
  w ← finish_frame (ts_removed st) new_plots w;
  mret (fs, dir, set_ptr (ts_ptr st) (set_work w a)).

(** ** Start *)
Record Args := mkArgs { ag_addr : text; ag_file : option text; ag_layout : option text }.

(** The path that makes [main] exit: a file given on the command line that does
    not exist. *)
Definition missing_file (fs : files) (args : Args) : option text :=
  let missing o := match o with Some path => if bool_decide (fs !! path = None) then Some path else None | None => None end in
  match missing (ag_file args) with Some path => Some path | None => missing (ag_layout args) end.

(** Attempts until one succeeds or the deadline has passed; [late] is what the
    clock says after each failure.  [None]: still trying. *)
Fixpoint connect_until (addrs : nat) (conns : list (option stream)) (late : list bool) (k : Sinks)
  : total (option (Sinks * (IngestError + SourceHandle))) :=
  match late with
  | [] => mret None
  | l :: late =>
    r ← TcpSource_connect pf now addrs conns k;
    let '(k, conns, res) := r in
    match res with
    | inr h => mret (Some (k, inr (spawn conns h)))
    | inl e => if l : bool then mret (Some (k, inl e)) else connect_until addrs conns late k
    end
  end.

Definition initial_app (connection : Connection) (k : Sinks) (handle : option SourceHandle) (status : Status)
    (file layout : option text) : total ViewerApp :=
  r ← make_default_dock pf PlotRegistry_new;
  mret (mkApp
    (mkLive (sk_store k) (default default_capture (sk_capture k)) handle connection status 0 fresh_rate)
    (mkWork r.2 r.1 3 Camera_default (mkDrag MarkerSet_new None None) None None)
    (mkPointer None None None false (mkXYDrag None) ∅)
    (mkDialogs None None false connection false None)
    (mkTree [] ∅ None None) (∅, None) None file layout).

Definition ViewerApp_new (args : Args) (addrs : nat) (conns : list (option stream)) (late : list bool)
  : total (option ViewerApp) :=
  let connection := match Connection_parse (ag_addr args) with Ok c => c | _ => Connection_default end in
  let k := mkSinks MockStore_new (Some default_capture) in
  match ag_file args with
  | Some path => a ← initial_app connection k None StEmpty (Some path) (ag_layout args); mret (Some a)
  | None =>
    r ← connect_until addrs conns late k;
    match r with
    | None => mret None
    | Some (k, inr h) =>
      a ← initial_app connection k (Some h) (StConnected (Connection_pretty connection)) None (ag_layout args); mret (Some a)
    | Some (k, inl e) => a ← initial_app connection k None (StFailed e) None (ag_layout args); mret (Some a)
    end
  end.
End frame.

(** Frames one after the other.  Each has its time and the files as it finds them:
    what earlier frames or other programs have written. *)
Record Moment `{DockLib} := mkMoment { mo_now : Z; mo_fs : files; mo_dir : files; mo_input : FrameInput }.
Arguments mkMoment {_} _ _ _ _.

Fixpoint run_frames `{HashOrder} `{DockLib} (pf : profile) (to_vec_pretty : Layout -> option text)
    (from_slice : text -> option Layout) (exp : f64 -> f64) (frames : list Moment) (a : ViewerApp) : total ViewerApp :=
  match frames with
  | [] => mret a
  | f :: frames =>
    r ← update pf (mo_now f) to_vec_pretty from_slice exp (mo_fs f) (mo_dir f) (mo_input f) a;
    run_frames pf to_vec_pretty from_slice exp frames r.2
  end.
