(* ===== verification/AppInv.v ===== *)
(** * btelem-viewer: what every frame preserves

    The invariant of the application's workspace and the proofs that the
    handlers of AppState.v and AppFrame.v keep it: the registry and the marker
    graph stay consistent, the camera valid, the selection within the store's
    channels, and at least one plot remains.  The counters are 64-bit; [work_ok n]
    says that [n] more plots, markers and links can be numbered. *)

From S2P Require Import Prelude Slices Text Float64 Wire WireSchema Store MockStore Robust Capture Mapper Tcp Typed Source Reopen ViewPanels ViewCamera ViewGroups ViewMarkers Layout LayoutApply LogView Colours Lanes Interact Plots Drawn AppText AppTree AppState AppTabs AppFrame.

(** ** The invariant *)
Record work_ok `{DockLib} (n : Z) (w : Work) : Prop := {
  wo_plots : registry_ok (w_plots w);
  wo_plot_room : 0 <= pr_next_id (w_plots w) /\ pr_next_id (w_plots w) + n < u64_max;
  wo_markers : ms_ok (dg_markers (w_drag w));
  wo_marker_room : ms_next_id (dg_markers (w_drag w)) + n < u64_max /\ ms_next_link_id (dg_markers (w_drag w)) + n < u64_max;
  wo_cam : cam_ok (w_cam w);
  wo_num : 0 <= w_next_plot_num w /\ w_next_plot_num w + n < u64_max;
}.

(** A layout that leaves room for [n] more. *)
Definition layout_fits `{DockLib} (n : Z) (l : Layout) : Prop :=
  2 * blen (ly_plots l) + 1 + n < u64_max /\ blen (ly_markers l) + 1 + n < u64_max /\ blen (ly_links l) + 1 + n < u64_max.

Lemma registry_size r : registry_ok r -> 0 <= pr_next_id r -> Z.of_nat (registry_len r) <= pr_next_id r.
Proof.
  intros [_ Hf] H0. unfold registry_len. rewrite <-size_dom.
  assert (Hs : dom (pr_plots r) ⊆ (list_to_set (seqZ 0 (pr_next_id r)) : gset Z)).
  { intros i Hi. apply elem_of_dom in Hi. apply elem_of_list_to_set, elem_of_seqZ. specialize (Hf i Hi). lia. }
  apply subseteq_size in Hs. rewrite size_list_to_set in Hs by apply NoDup_seqZ. rewrite length_seqZ in Hs. lia.
Qed.

Lemma arith_release w z : 0 <= w -> returns (arith Release w z : total Z) (in_u w).
Proof.
  intros Hw. unfold arith. destruct (in_ub w z) eqn:E; [apply returns_ret; by apply in_ub_spec|].
  apply returns_ret. by apply wrap_range.
Qed.

Lemma channels_by_id_id chs ch info : channels_by_id chs !! ch = Some info -> ci_id info = ch.
Proof.
  unfold channels_by_id, collect_map.
  assert (H : forall (l : list ChannelInfo) (m : gmap Z ChannelInfo), (forall k v, m !! k = Some v -> ci_id v = k) ->
    forall k v, foldl (fun m kv => <[kv.1 := kv.2]> m) m (map (fun c => (ci_id c, c)) l) !! k = Some v -> ci_id v = k).
  { induction l as [|c l IH]; intros m Hm k v; [apply Hm|]. cbn. apply IH. intros i x.
    intros [[<- <-]|[_ Hx]]%lookup_insert_Some; [done|by apply Hm]. }
  apply H. intros k v Hk. by rewrite lookup_empty in Hk.
Qed.

Section parts.
Context `{D : DockLib}.

Lemma work_ok_less n n' w : work_ok n w -> n' <= n -> work_ok n' w.
Proof. intros [H1 H2 H3 H4 H5 H6] Hn. split; [done|lia|done|lia|done|lia]. Qed.

Lemma work_ok_cam n w c : work_ok n w -> cam_ok c -> work_ok n (w_set_cam c w).
Proof. intros [] ?. by split. Qed.
Lemma work_ok_name n w x : work_ok n w -> work_ok n (w_set_name x w).
Proof. intros []. by split. Qed.
Lemma work_ok_path n w x : work_ok n w -> work_ok n (w_set_path x w).
Proof. intros []. by split. Qed.
Lemma work_ok_plots n w p : work_ok n w -> registry_ok p -> pr_next_id p = pr_next_id (w_plots w) -> work_ok n (w_set_plots p w).
Proof. intros [] Hp Hn. split; cbn; try done. by rewrite Hn. Qed.
Lemma work_ok_drag n w d : work_ok n w -> ms_ok (dg_markers d) ->
  ms_next_id (dg_markers d) + n < u64_max -> ms_next_link_id (dg_markers d) + n < u64_max -> work_ok n (w_set_drag d w).
Proof. intros [] ? ? ?. by split. Qed.
Lemma work_ok_markers n w ms : work_ok n w -> ms_ok ms ->
  ms_next_id ms + n < u64_max -> ms_next_link_id ms + n < u64_max -> work_ok n (w_set_markers ms w).
Proof. intros. by apply work_ok_drag. Qed.
End parts.

(** ** Editing plots never renumbers them *)
Lemma try_move_next r from to ch info radix : pr_next_id (try_move_channel r from to ch info radix).1 = pr_next_id r.
Proof. unfold try_move_channel. destruct (from =? to); [done|]. by destruct (negb _). Qed.

Lemma lane_menu_next `{HashOrder} plots pid ch info radix click :
  pr_next_id (lane_menu plots pid ch info radix click) = pr_next_id plots.
Proof.
  destruct click; cbn [lane_menu]; [|by destruct (_ && _)|done|done].
  destruct info; [|done]. case_bool_decide; [|done]. apply try_move_next.
Qed.

Lemma signal_style_menu_next `{HashOrder} plots pid ch info edit move remove :
  pr_next_id (signal_style_menu plots pid ch info edit move remove) = pr_next_id plots.
Proof.
  unfold signal_style_menu. destruct (registry_get plots pid) as [[]|]; try done. cbv zeta.
  set (r2 := match info with Some _ => _ | None => _ end).
  assert (H2 : pr_next_id r2 = pr_next_id plots).
  { unfold r2. destruct info, move; try done. case_bool_decide; [|done]. by rewrite try_move_next. }
  by destruct remove.
Qed.

Lemma click_signals_next plots pid ms inp r tr mode signals plots' :
  click_signals plots pid ms inp r tr mode signals = Ok plots' -> pr_next_id plots' = pr_next_id plots.
Proof.
  unfold click_signals. cbv zeta. destruct (negb (rs_primary_clicked r)); [by intros [= <-]|].
  destruct (_ && negb mode); [destruct (or_else _ _) as [q|]; [|by intros [= <-]]|destruct (negb mode); [|by intros [= <-]]].
  - destruct (nearest_signal _ _ _) as [o| |]; cbn [mbind res_bind]; [|done|done]. destruct o; by intros [= <-].
  - intros [= <-]. by case_bool_decide.
Qed.

(** ** Drops *)
Section drop.
Context `{HO : HashOrder} (store : MockStore.Inner) (by_id : gmap Z ChannelInfo).

Lemma add_logic_lane_nodup p ch info :
  NoDup (map ll_ch (la_lanes p)) -> NoDup (map ll_ch (la_lanes (add_logic_lane p ch info store by_id))).
Proof.
  unfold add_logic_lane. destruct (bits_for_word store ch) as [bits|]; [|apply logic_add_nodup].
  revert p. induction bits as [|b bits IH]; intros p Hp; [done|]. cbn. apply IH.
  destruct (by_id !! b); [by apply logic_add_nodup|done].
Qed.

Lemma host_channel_nodup ch info k : NoDup (plot_channels k) -> NoDup (plot_channels (host_channel store by_id ch info k)).
Proof. destruct k; cbn; try done; [apply scalar_add_nodup|apply add_logic_lane_nodup]. Qed.

Record drop_ok (d d' : Dropped) : Prop := {
  do_plots : registry_ok (dr_plots d');
  do_next : pr_next_id (dr_plots d') = pr_next_id (dr_plots d);
  do_dom : forall id, is_Some (pr_plots (dr_plots d') !! id) <-> is_Some (pr_plots (dr_plots d) !! id);
  do_new : exists k, dr_new d' = dr_new d ++ k /\ (length k <= 1)%nat /\ Forall (fun k => plot_channels k = []) k;
}.

Lemma is_Some_alter {A} (m : gmap Z A) f i j : is_Some (alter f i m !! j) <-> is_Some (m !! j).
Proof. destruct (decide (i = j)) as [->|]; [rewrite lookup_alter_eq; apply fmap_is_Some|by rewrite lookup_alter_ne]. Qed.

Lemma drop_on_tab_ok pid payload d : registry_ok (dr_plots d) -> drop_ok d (drop_on_tab store by_id pid payload d).
Proof.
  intros Hr.
  assert (Hsame : forall xy k, (length k <= 1)%nat -> Forall (fun k => plot_channels k = []) k ->
    drop_ok d (mkDropped (dr_plots d) xy (dr_new d ++ k))) by (intros; split; [done|done|done|by exists k]).
  assert (Hedit : forall f, (forall k, NoDup (plot_channels k) -> NoDup (plot_channels (f k))) ->
    drop_ok d (mkDropped (registry_get_mut (dr_plots d) pid f) (dr_xy d) (dr_new d))).
  { intros f Hf. split; cbn; [apply registry_get_mut_ok; [done|by intros; apply Hf]|done|intros; apply is_Some_alter|].
    exists []. rewrite app_nil_r. split_and!; [done|cbn; lia|constructor]. }
  assert (Hid : forall xy, drop_ok d (mkDropped (dr_plots d) xy (dr_new d))).
  { intros xy. rewrite <-(app_nil_r (dr_new d)). apply Hsame; [cbn; lia|constructor]. }
  assert (Hone : forall xy k, plot_channels k = [] -> drop_ok d (mkDropped (dr_plots d) xy (dr_new d ++ [k]))).
  { intros xy k Hk. apply Hsame; [cbn; lia|by constructor]. }
  assert (Hd : drop_ok d d) by (destruct d; apply Hid).
  destruct payload as [ch|chs|name chs|ch]; cbn [drop_on_tab].
  - destruct (by_id !! ch) as [info|]; [|done]. destruct (registry_get _ _) as [k|]; [|done].
    destruct (plot_accepts k info); [by apply Hedit, host_channel_nodup|]. case_bool_decide; [by apply Hone|done].
  - apply Hedit. induction chs as [|c chs IH]; intros k Hk; [done|]. cbn. apply IH.
    destruct (by_id !! c); [by apply host_channel_nodup|done].
  - by apply Hone.
  - destruct (xy_feed _ ch) as [xy [[x y]|]]; [by apply Hone|by apply Hid].
Qed.
End drop.

(** ** Tabs *)
Section tabs.
Context `{HO : HashOrder} `{D : DockLib} (pf : profile) (now : Z) (exp : f64 -> f64).

Record tab_ok (n m : Z) (st : TabState) : Prop := {
  to_work : work_ok n (ts_work st);
  to_new : Forall (fun k => plot_channels k = []) (ts_new st);
  to_count : blen (ts_new st) <= m;
}.

Lemma tab_ok_plots n m st p : tab_ok n m st -> registry_ok p -> pr_next_id p = pr_next_id (w_plots (ts_work st)) ->
  tab_ok n m (t_set_plots p st).
Proof. intros [] Hp Hn. split; cbn; [by apply work_ok_plots|done|done]. Qed.

Lemma tab_ok_cam n m st c : tab_ok n m st -> cam_ok c -> tab_ok n m (t_set_cam c st).
Proof. intros [] Hc. split; cbn; [by apply work_ok_cam|done|done]. Qed.

(** What a handler can number: a marker and its link by a click, a plot by a
    drop. *)
Definition event_cost (e : TabEvent) : Z :=
  match e with
  | TabDrop _ _ => 1
  | TabMarkers _ r _ _ _ _ => if rs_primary_clicked r then 1 else 0
  | _ => 0
  end.

Lemma tab_ok_more n n' m m' st : tab_ok n m st -> n' <= n -> m <= m' -> tab_ok n' m' st.
Proof. intros [Hw Hn Hc] ? ?. split; [eapply work_ok_less; [exact Hw|lia]|done|lia]. Qed.

Lemma run_tab_ok store chs n m st e : 0 <= n -> tab_ok (n + event_cost e) m st ->
  returns (run_tab pf now exp store (channels_by_id chs) st e) (tab_ok n (m + event_cost e)).
Proof.
  intros H0 Hok. assert (Hc0 : 0 <= event_cost e) by (destruct e; cbn; try lia; case_match; lia).
  assert (Hless : tab_ok n (m + event_cost e) st) by (eapply tab_ok_more; [exact Hok|lia..]).
  pose proof (wo_plots _ _ (to_work _ _ _ Hless)) as Hr. pose proof (wo_cam _ _ (to_work _ _ _ Hless)) as Hcam.
  destruct e as [pid payload|pid|pid|tr p|inp r tr sigs ylo yhi|inp r tr i a|r cur a|inp r cur|pid inp r tr sigs
    |pid ch edit mv rm|pid ch radix click|t cl dbl fb|pid e]; cbn [run_tab]; cbn [event_cost] in *.
  - apply returns_ret. set (d0 := mkDropped _ _ _).
    destruct (drop_on_tab_ok store (channels_by_id chs) pid payload d0 Hr) as [H1 H2 _ (k & H3 & H4 & H5)].
    destruct Hok as [Hw Hn Hc], Hless as [Hw' _ _]. split; cbn.
    + by apply work_ok_plots.
    + rewrite H3. cbn. by apply Forall_app.
    + rewrite H3. cbn. unfold blen in *. rewrite length_app. lia.
  - apply returns_ret. destruct Hless. by split.
  - apply returns_ret. destruct Hless. by split.
  - apply returns_ret. destruct Hless. by split.
  - pose proof (to_work _ _ _ Hok) as [_ _ Hm Hmr _ _]. destruct (rs_primary_clicked r) eqn:Ec.
    + eapply returns_bind; [apply marker_interaction_ok; [done|split; lia]|].
      intros d [[G1 _ _ G4] _]. apply returns_ret. destruct Hless as [Hw Hn Hc]. split; cbn; [|done|done].
      apply work_ok_drag; [done|done|lia|lia].
    + destruct (drag_phase_ok inp r tr ylo yhi (w_drag (ts_work st)) Hm) as [G1 _ _ G2 G3].
      unfold handle_marker_interaction. rewrite Ec. apply returns_ret. destruct Hless as [Hw Hn Hc].
      split; cbn; [|done|done]. apply work_ok_drag; [done|done|lia|lia].
  - apply returns_ret. apply tab_ok_cam; [done|]. by apply handle_camera_ok.
  - apply returns_ret. apply tab_ok_cam; [done|]. by apply drag_pan_ok.
  - apply returns_ret. apply tab_ok_cam; [done|]. by apply scroll_zoom_x_ok.
  - destruct (click_signals_ok (w_plots (ts_work st)) pid (dg_markers (w_drag (ts_work st))) inp r tr
      (c_marker_mode (ts_ptr st)) sigs Hr) as (p & E & Hp). rewrite E. cbn [mbind res_bind]. apply returns_ret.
    apply tab_ok_plots; [done|done|by eapply click_signals_next].
  - apply returns_ret. apply tab_ok_plots; [done| |apply signal_style_menu_next].
    apply signal_style_menu_ok; [done|]. intros i. apply channels_by_id_id.
  - apply returns_ret. apply tab_ok_plots; [done| |apply lane_menu_next].
    apply lane_menu_ok; [done|]. intros i. apply channels_by_id_id.
  - unfold row_clicked. destruct dbl; apply returns_ret; destruct Hless; (split; cbn; [|done|done]).
    + apply work_ok_cam; [done|]. unfold jump_to. by destruct (default fb _).
    + by apply work_ok_cam.
  - apply returns_ret. apply tab_ok_plots; [done| |done]. apply registry_get_mut_ok; [done|]. by intros [] _ ?.
Qed.

(** Handlers that number nothing. *)
Lemma run_free_ok store chs n m st e : 0 <= n -> event_cost e = 0 -> tab_ok n m st ->
  returns (run_tab pf now exp store (channels_by_id chs) st e) (tab_ok n m).
Proof.
  intros H0 He Hok. pose proof (run_tab_ok store chs n m st e H0) as H. rewrite He, !Z.add_0_r in H. by apply H.
Qed.

Lemma run_tabs_ok store chs es n m st : 0 <= n -> Forall (fun e => event_cost e = 0) es -> tab_ok n m st ->
  returns (run_tabs pf now exp store (channels_by_id chs) es st) (tab_ok n m).
Proof.
  intros H0 He. revert st. induction He as [|e es He Hes IH]; intros st Hok; cbn [run_tabs]; [by apply returns_ret|].
  eapply returns_bind; [by apply run_free_ok|]. intros st' Hst. by apply IH.
Qed.
End tabs.

(** ** Drawing tabs, in a release build *)
Section drawn.
Context `{HO : HashOrder} `{D : DockLib} (now : Z) (exp : f64 -> f64).
Context (store : MockStore.Inner) (Hal : aligned store) (chs : list ChannelInfo).
Local Abbreviation by_id := (channels_by_id chs).

Lemma marker_event_ok inp r tr sigs ylo yhi n m st : 0 <= n -> tab_ok (n + 1) m st ->
  returns (run_tab Release now exp store by_id st (TabMarkers inp r tr sigs ylo yhi)) (tab_ok n (m + 1)).
Proof.
  intros H0 Hok. pose proof (run_tab_ok Release now exp store chs n m st (TabMarkers inp r tr sigs ylo yhi) H0) as H. cbn in H.
  eapply returns_impl; [apply H; eapply tab_ok_more; [exact Hok|destruct (rs_primary_clicked r); lia..]|].
  intros st' Hst. eapply tab_ok_more; [exact Hst|lia|destruct (rs_primary_clicked r); lia].
Qed.

Lemma scalar_section_ok pid panel t0 t1 ui n m st : 0 <= n -> tab_ok (n + 1) m st ->
  returns (render_scalar_section Release now exp store by_id pid panel t0 t1 ui st) (fun r => tab_ok n (m + 1) r.1).
Proof using Hal.
  intros H0 Hok. unfold render_scalar_section.
  eapply returns_bind; [by apply draws_scalar_data|]. intros [signals [ylo yhi]] _.
  eapply returns_bind; [by apply draws_scalar_frame|]. intros frame _. cbv zeta.
  eapply returns_bind; [by apply marker_event_ok|]. intros st1 H1.
  eapply returns_bind; [by apply run_free_ok|]. intros st2 H2.
  eapply returns_bind; [by apply run_free_ok|]. intros st3 H3.
  eapply returns_bind with (P := tab_ok n (m + 1)).
  { destruct (su_style ui) as [[[[ch edit] move] remove]|]; [|by apply returns_ret].
    case_bool_decide; [by apply run_free_ok|by apply returns_ret]. }
  intros st4 H4. eapply returns_bind with (P := tab_ok n (m + 1)).
  { destruct (su_hover ui); [by apply run_free_ok|by apply returns_ret]. }
  intros st5 H5. by apply returns_ret.
Qed.

(** At most one lane is clicked. *)
Definition lanes_cost (ui : LogicUi) (lanes : list LogicLane) : Z :=
  if existsb (fun l => bool_decide (gu_clicked ui = Some (ll_ch l))) lanes then 1 else 0.

Lemma lane_tab_ok pid ui t0 t1 lane n m st : 0 <= n -> tab_ok (n + lanes_cost ui [lane]) m st ->
  returns (lane_tab Release now exp store by_id pid ui t0 t1 lane st) (tab_ok n (m + lanes_cost ui [lane])).
Proof using Hal.
  intros H0 Hok. unfold lane_tab. cbv zeta. eapply returns_bind; [by apply draws_lane|]. intros frame _.
  assert (Hc : 0 <= lanes_cost ui [lane]) by (unfold lanes_cost; case_match; lia).
  destruct frame as [frame|]; [|apply returns_ret; eapply tab_ok_more; [exact Hok|lia..]].
  eapply returns_bind with (P := tab_ok (n + lanes_cost ui [lane]) m).
  { destruct (lu_menu _) as [click|]; [|by apply returns_ret].
    destruct (lane_offers lane click); [apply run_free_ok; [lia|done|done]|by apply returns_ret]. }
  intros st1 H1. eapply returns_bind with (P := tab_ok n (m + lanes_cost ui [lane])).
  { assert (E : lanes_cost ui [lane] = event_cost (TabMarkers (lu_input (gu_lane ui (ll_ch lane))) (lane_response ui (ll_ch lane))
      (lu_transform (gu_lane ui (ll_ch lane))) [] (f64_of_Z 0) (f64_of_Z 1))).
    { unfold lanes_cost. cbn. by rewrite orb_false_r. }
    rewrite E in *. apply (run_tab_ok Release now exp store chs n m st1 _ H0). exact H1. }
  clear Hc Hok H1. intros st2 H2. eapply returns_bind; [by apply run_free_ok|]. intros st3 H3. by apply run_free_ok.
Qed.

Lemma lane_tabs_ok pid ui t0 t1 lanes n m st : 0 <= n -> NoDup (map ll_ch lanes) -> tab_ok (n + lanes_cost ui lanes) m st ->
  returns (lane_tabs Release now exp store by_id pid ui t0 t1 lanes st) (tab_ok n (m + lanes_cost ui lanes)).
Proof using Hal.
  intros H0. revert m st. induction lanes as [|l lanes IH]; intros m st Hnd Hok; cbn [lane_tabs].
  { apply returns_ret. unfold lanes_cost in *. cbn in *. by rewrite !Z.add_0_r in *. }
  cbn in Hnd. apply NoDup_cons in Hnd as [Hnot Hnd].
  assert (Hc : 0 <= lanes_cost ui lanes /\ lanes_cost ui (l :: lanes) = lanes_cost ui [l] + lanes_cost ui lanes).
  { unfold lanes_cost. cbn. rewrite orb_false_r. case_bool_decide as E; cbn; [|by case_match].
    replace (existsb _ lanes) with false; [lia|]. symmetry. apply not_true_iff_false. intros (l' & Hin & Hl')%existsb_exists.
    apply bool_decide_eq_true in Hl'. apply Hnot. assert (ll_ch l = ll_ch l') as -> by congruence.
    apply list_elem_of_fmap_2, list_elem_of_In, Hin. }
  destruct Hc as [Hc E]. rewrite E in *.
  eapply returns_bind; [apply (lane_tab_ok pid ui t0 t1 l (n + lanes_cost ui lanes) m); [lia|]|].
  { eapply tab_ok_more; [exact Hok|lia..]. }
  intros st1 H1. eapply returns_impl; [by apply (IH (m + lanes_cost ui [l]))|].
  intros st2 H2. eapply tab_ok_more; [exact H2|lia..].
Qed.

Lemma logic_tab_ok pid panel t0 t1 ui n m st : 0 <= n -> NoDup (map ll_ch (la_lanes panel)) -> tab_ok (n + 1) m st ->
  returns (logic_tab Release now exp store by_id pid panel t0 t1 ui st) (tab_ok n (m + 1)).
Proof using Hal.
  intros H0 Hnd Hok. unfold logic_tab. destruct (logic_is_empty panel).
  { apply returns_ret. eapply tab_ok_more; [exact Hok|lia..]. }
  eapply returns_bind; [apply run_free_ok; [|done|exact Hok]; lia|]. intros st1 H1.
  destruct (panel_lanes_ok by_id panel) as (gs & -> & Hperm & _). cbn [mbind res_bind].
  assert (Hc : forall ls, lanes_cost ui ls <= 1) by (intros ls; unfold lanes_cost; case_match; lia).
  specialize (Hc (concat (map snd gs))).
  eapply returns_impl; [apply (lane_tabs_ok pid ui t0 t1 (concat (map snd gs)) n m); [done| |]|].
  - eapply NoDup_Permutation_proper; [by apply Permutation_map|done].
  - eapply tab_ok_more; [exact H1|lia..].
  - intros st2 H2. eapply tab_ok_more; [exact H2|lia..].
Qed.

Lemma log_view_ok pid t0 t1 ui n m st : 0 <= n -> tab_ok n m st ->
  returns (render_log_view Release now exp store by_id pid t0 t1 ui st) (tab_ok n m).
Proof using Hal.
  intros H0 Hok. assert (Hfree : forall p l, Forall (fun e => event_cost e = 0) (map (TabLogEdit pid) (List.filter p l))).
  { intros p l. apply Forall_map, Forall_forall. done. }
  unfold render_log_view. cbv zeta. eapply returns_bind; [by apply run_tabs_ok|]. intros st1 H1.
  destruct (registry_get _ pid) as [[| |panel|]|]; [by apply returns_ret..| |by apply returns_ret|by apply returns_ret].
  destruct (_ || _); [by apply returns_ret|]. eapply returns_bind; [by apply run_tabs_ok|]. intros st2 H2.
  destruct (registry_get _ pid) as [[| |panel'|]|]; [by apply returns_ret..| |by apply returns_ret|by apply returns_ret].
  eapply returns_bind; [by apply draws_log_rows|]. intros [[shown matched] all] _.
  apply run_tabs_ok; [done| |done]. apply Forall_map, Forall_forall. intros row _. by destruct (vu_row ui (row_t row)).
Qed.

Lemma draw_tab_ok view u n m st : 0 <= n -> tab_ok (n + 2) m st ->
  returns (draw_tab Release now exp store by_id view u st) (tab_ok n (m + 2)).
Proof using Hal.
  intros H0 Hok. unfold draw_tab. eapply returns_bind with (P := tab_ok (n + 1) (m + 1)).
  - assert (Hstay : tab_ok (n + 1) (m + 1) st) by (eapply tab_ok_more; [exact Hok|lia..]).
    destruct (registry_get (w_plots (ts_work st)) (tu_pid u)) as [kind|] eqn:Ek; [|by apply returns_ret].
    destruct view as [[t0 t1]|]; [|by apply returns_ret].
    replace (n + 2) with ((n + 1) + 1) in Hok by lia. destruct kind as [panel|panel|panel|xy]; cbn [draw_plot].
    + eapply returns_bind; [by apply (scalar_section_ok _ _ _ _ _ (n + 1)); [lia|..]|]. intros r Hr. by apply returns_ret.
    + apply logic_tab_ok; [lia| |done]. destruct (wo_plots _ _ (to_work _ _ _ Hok)) as [Hnd _]. by apply (Hnd _ _ Ek).
    + apply log_view_ok; [lia|done].
    + eapply returns_bind; [by apply draws_xy|]. intros pts _. by apply returns_ret.
  - intros st1 H1. destruct (tu_drop u) as [payload|].
    + eapply returns_impl; [apply (run_tab_ok Release now exp store chs n (m + 1)); [done|exact H1]|].
      intros st2 H2. cbn in H2. eapply tab_ok_more; [exact H2|lia..].
    + apply returns_ret. eapply tab_ok_more; [exact H1|lia..].
Qed.

Lemma run_steps_ok view steps n m st : 0 <= n -> tab_ok (n + 2 * blen steps) m st ->
  returns (run_steps Release now exp store by_id view steps st) (tab_ok n (m + 2 * blen steps)).
Proof using Hal.
  intros H0. revert m st. induction steps as [|x steps IH]; intros m st Hok; cbn [run_steps].
  { apply returns_ret. unfold blen in *. cbn in *. by rewrite !Z.add_0_r in *. }
  rewrite blen_cons in *. pose proof (blen_nonneg steps).
  eapply returns_bind with (P := tab_ok (n + 2 * blen steps) (m + 2)).
  - destruct x as [u|pid|pid]; cbn [run_step].
    + apply draw_tab_ok; [lia|]. eapply tab_ok_more; [exact Hok|lia..].
    + apply run_free_ok; [lia|done|]. eapply tab_ok_more; [exact Hok|lia..].
    + apply run_free_ok; [lia|done|]. eapply tab_ok_more; [exact Hok|lia..].
  - intros st1 H1. eapply returns_impl; [by apply (IH (m + 2))|]. intros st2 H2. eapply tab_ok_more; [exact H2|lia..].
Qed.
End drawn.

(** ** The end of the frame *)
Section finish.
Context `{HO : HashOrder} `{D : DockLib} (pf : profile).

Lemma remove_plots_lookup removed plots id :
  pr_plots (remove_plots removed plots) !! id = if decide (id ∈ removed) then None else pr_plots plots !! id.
Proof.
  unfold remove_plots. revert plots. induction removed as [|x l IH]; intros plots; cbn [foldl].
  - by rewrite decide_False by apply not_elem_of_nil.
  - rewrite IH. cbn. destruct (decide (id ∈ l)) as [Hi|Hi].
    + by rewrite decide_True by (apply elem_of_cons; by right).
    + destruct (decide (id = x)) as [->|Hx].
      * by rewrite lookup_delete_eq, decide_True by (apply elem_of_cons; by left).
      * rewrite lookup_delete_ne by done. rewrite decide_False; [done|]. by intros [|]%elem_of_cons.
Qed.

Lemma remove_plots_next removed plots : pr_next_id (remove_plots removed plots) = pr_next_id plots.
Proof. unfold remove_plots. revert plots. induction removed as [|x l IH]; intros plots; [done|]. cbn. by rewrite IH. Qed.

Lemma remove_plots_ok removed plots : registry_ok plots -> registry_ok (remove_plots removed plots).
Proof.
  intros [Hn Hf]. split.
  - intros id k. rewrite remove_plots_lookup. case_decide; [done|]. apply Hn.
  - intros id Hi. rewrite remove_plots_next. apply Hf. rewrite remove_plots_lookup in Hi.
    case_decide; [by apply is_Some_None in Hi|done].
Qed.

(** The tabs are distinct and each shows a plot. *)
Definition tabs_ok (plots : PlotRegistry) (tabs : list PlotId) : Prop :=
  NoDup tabs /\ forall t, t ∈ tabs -> is_Some (pr_plots plots !! t).

(** Inserting one plot behind a new tab. *)
Lemma insert_tab_ok plots kind tabs :
  registry_ok plots -> 0 <= pr_next_id plots < u64_max -> NoDup (plot_channels kind) ->
  returns (registry_insert pf plots kind) (fun r =>
    registry_ok r.1 /\ pr_next_id r.1 = pr_next_id plots + 1 /\ r.2 = pr_next_id plots /\
    pr_plots r.1 = <[pr_next_id plots := kind]> (pr_plots plots) /\
    (tabs_ok plots tabs -> tabs_ok r.1 (r.2 :: tabs))).
Proof.
  intros Hr Hn Hk. destruct (registry_insert_fresh pf plots kind Hr Hk Hn) as (r' & E & Hr' & Hfresh & Hp).
  exists (r', pr_next_id plots). split; [done|]. cbn [fst snd]. split_and!; [done| |done|done|].
  - unfold registry_insert in E. rewrite arith_ok in E by (unfold in_u, u64_max in *; lia). by injection E as <-.
  - intros [Hnd Ht]. split.
    + constructor; [|done]. intros Hin. destruct (Ht _ Hin) as [k Hk']. by rewrite Hfresh in Hk'.
    + intros t Hin. rewrite Hp. apply elem_of_cons in Hin as [->|Hin]; [by rewrite lookup_insert_eq|].
      by apply insert_keeps, Ht.
Qed.

Lemma tabs_ok_perm plots l l' : l ≡ₚ l' -> tabs_ok plots l -> tabs_ok plots l'.
Proof. intros Hp [Hn Ht]. split; [by rewrite <-Hp|]. intros t. rewrite <-Hp. apply Ht. Qed.

Context `{DL : !DockLaws D}.

Lemma insert_plots_ok kinds plots (dock : DockState PlotId) :
  registry_ok plots -> 0 <= pr_next_id plots -> pr_next_id plots + blen kinds < u64_max ->
  Forall (fun k => plot_channels k = []) kinds ->
  returns (insert_plots pf kinds plots dock) (fun r =>
    registry_ok r.1 /\ pr_next_id r.1 = pr_next_id plots + blen kinds /\
    (forall id, is_Some (pr_plots plots !! id) -> pr_plots r.1 !! id = pr_plots plots !! id) /\
    (tabs_ok plots (iter_all_tabs dock) -> tabs_ok r.1 (iter_all_tabs r.2)) /\
    (forall t, t ∈ iter_all_tabs dock -> t ∈ iter_all_tabs r.2) /\
    Forall (fun k => exists id, id ∈ iter_all_tabs r.2 /\ pr_plots r.1 !! id = Some k) kinds).
Proof using DL.
  revert plots dock. induction kinds as [|kind kinds IH]; intros plots dock Hr H0 Hn Hk; cbn [insert_plots].
  - apply returns_ret. cbn. split_and!; [done|unfold blen; cbn; lia|done|done|done|constructor].
  - rewrite blen_cons in *. pose proof (blen_nonneg kinds). apply Forall_cons in Hk as [Hk1 Hk].
    eapply returns_bind; [apply (insert_tab_ok plots kind (iter_all_tabs dock) Hr); [lia|rewrite Hk1; constructor]|].
    intros [r id]. cbn [fst snd]. intros (Hr' & Hnx & -> & Hp & Ht).
    assert (Hfresh : pr_plots plots !! pr_next_id plots = None).
    { destruct (pr_plots plots !! pr_next_id plots) eqn:E; [|done].
      destruct (reg_fresh _ Hr (pr_next_id plots) ltac:(by eexists)). lia. }
    eapply returns_impl; [apply (IH r (push_to_focused_leaf dock (pr_next_id plots)) Hr'); [lia|lia|done]|].
    intros [r2 d2] (G1 & G2 & G3 & G4 & G5 & G6). cbn [fst snd] in *. split_and!; [done|lia| | | |].
    + intros i Hi. assert (i <> pr_next_id plots) by (intros ->; rewrite Hfresh in Hi; by apply is_Some_None in Hi).
      rewrite G3; rewrite Hp; by rewrite lookup_insert_ne.
    + intros Hto. apply G4. eapply tabs_ok_perm; [symmetry; apply push_tabs|]. by apply Ht.
    + intros t Hin. apply G5. rewrite push_tabs. apply elem_of_cons. by right.
    + constructor; [|done]. exists (pr_next_id plots). split.
      * apply G5. rewrite push_tabs. apply elem_of_cons. by left.
      * rewrite G3; rewrite Hp; by rewrite lookup_insert_eq.
Qed.

Lemma make_default_dock_ok plots :
  registry_ok plots -> 0 <= pr_next_id plots -> pr_next_id plots + 2 < u64_max ->
  returns (make_default_dock pf plots) (fun r =>
    registry_ok r.1 /\ pr_next_id r.1 = pr_next_id plots + 2 /\ pr_plots r.1 <> ∅ /\ tabs_ok r.1 (iter_all_tabs r.2)).
Proof using DL.
  intros Hr H0 Hn. unfold make_default_dock.
  eapply returns_bind; [apply (insert_tab_ok plots _ [] Hr); [lia|constructor]|].
  intros [r1 i1]. cbn [fst snd]. intros (R1 & N1 & -> & P1 & T1).
  eapply returns_bind; [apply (insert_tab_ok r1 _ [pr_next_id plots] R1); [lia|constructor]|].
  intros [r2 i2]. cbn [fst snd]. intros (R2 & N2 & -> & P2 & T2). apply returns_ret. cbn [fst snd]. split_and!.
  - done.
  - lia.
  - rewrite P2. apply insert_non_empty.
  - eapply tabs_ok_perm; [|apply T2, T1].
    + rewrite split_tabs, new_tabs. by rewrite Permutation_app_comm.
    + split; [constructor|]. by intros t ?%not_elem_of_nil.
Qed.

(** What the end of a frame does, given the tabs closed and the plots opened. *)
Record finished (removed : list PlotId) (new_plots : list PlotKind) (n : Z) (w w' : Work) : Prop := {
  fe_ok : work_ok n w';
  fe_some : pr_plots (w_plots w') <> ∅;
  fe_keeps : forall id, id ∉ removed -> is_Some (pr_plots (w_plots w) !! id) ->
    pr_plots (w_plots w') !! id = pr_plots (w_plots w) !! id /\
    (id ∈ iter_all_tabs (w_dock w) -> id ∈ iter_all_tabs (w_dock w'));
  fe_opens : Forall (fun k => exists id, id ∈ iter_all_tabs (w_dock w') /\ pr_plots (w_plots w') !! id = Some k) new_plots;
  fe_tabs : tabs_ok (w_plots w) (removed ++ iter_all_tabs (w_dock w)) ->
    tabs_ok (w_plots w') (iter_all_tabs (w_dock w'));
}.

Lemma remaining_tabs removed plots tabs : tabs_ok plots (removed ++ tabs) -> tabs_ok (remove_plots removed plots) tabs.
Proof.
  intros [Hn Ht]. apply NoDup_app in Hn as (_ & Hd & Hn). split; [done|]. intros t Hin.
  rewrite remove_plots_lookup, decide_False; [apply Ht, elem_of_app; by right|]. intros Hr. by apply (Hd t).
Qed.

Lemma finish_frame_ok removed new_plots n w :
  0 <= n -> work_ok (n + blen new_plots + 3) w -> Forall (fun k => plot_channels k = []) new_plots ->
  returns (finish_frame pf removed new_plots w) (finished removed new_plots n w).
Proof using DL.
  intros H0 [Hr Hpr Hm Hmr Hc Hnum] Hnew. pose proof (blen_nonneg new_plots). unfold finish_frame.
  eapply returns_bind.
  { apply (insert_plots_ok new_plots (remove_plots removed (w_plots w)) (w_dock w)); [by apply remove_plots_ok|..|done];
      rewrite remove_plots_next; lia. }
  intros [plots dock] (G1 & G2 & G3 & G4 & G5 & G6). cbn [fst snd] in *. rewrite remove_plots_next in G2.
  assert (Hkeep : forall id, id ∉ removed -> is_Some (pr_plots (w_plots w) !! id) ->
    pr_plots plots !! id = pr_plots (w_plots w) !! id).
  { intros id Hi Hs. assert (E : pr_plots (remove_plots removed (w_plots w)) !! id = pr_plots (w_plots w) !! id)
      by (by rewrite remove_plots_lookup, decide_False).
    rewrite G3; by rewrite E. }
  unfold registry_is_empty. case_bool_decide as He.
  - eapply returns_bind; [apply (make_default_dock_ok plots G1); lia|]. intros [p2 d2] (R1 & R2 & R3 & R4). cbn [fst snd] in *.
    apply returns_ret. split; cbn; [|done| | |done].
    + split; cbn; [done|lia|done|lia|done|lia].
    + intros id Hi [k Hk]. rewrite <-(Hkeep id Hi) in Hk by (by eexists). by rewrite He, lookup_empty in Hk.
    + eapply Forall_impl; [exact G6|]. intros k (id & _ & Hid). cbn in Hid. by rewrite He, lookup_empty in Hid.
  - apply returns_ret. split; cbn; [|done| |done|].
    + split; cbn; [done|lia|done|lia|done|lia].
    + intros id Hi Hs. split; [by apply Hkeep|apply G5].
    + intros Ht. by apply G4, remaining_tabs.
Qed.
End finish.

(** ** Loading layouts *)
Section loading.
Context `{HO : HashOrder} `{D : DockLib} `{DL : !DockLaws D} (pf : profile) (now : Z) (from_slice : text -> option Layout).

Lemma install_layout_ok layout chs n w :
  0 <= n -> layout_fits n layout -> cam_ok (w_cam w) ->
  returns (install_layout pf layout chs w) (fun r => work_ok n r.1).
Proof using DL.
  intros H0 (Hp & Hm & Hl) Hc. unfold install_layout.
  pose proof (blen_nonneg (ly_plots layout)). pose proof (blen_nonneg (ly_markers layout)). pose proof (blen_nonneg (ly_links layout)).
  eapply returns_bind; [apply (apply_wf pf layout chs); lia|]. intros [[plots dock] report] (Hr & Hn & _).
  unfold load_markers, restore. set (l := map _ (ly_markers layout)). set (k := map _ (ly_links layout)).
  assert (El : blen l = blen (ly_markers layout)) by (unfold l, blen; by rewrite length_map).
  assert (Ek : blen k = blen (ly_links layout)) by (unfold k, blen; by rewrite length_map).
  assert (Hnew : ms_ok (mkMarkerSet [] [] None 1 1)) by exact new_ok.
  destruct (restore_markers_ok pf l (mkMarkerSet [] [] None 1 1) [] Hnew eq_refl) as (ms1 & E1 & Hok1 & _); [cbn; lia|].
  destruct (restore_markers_next pf l (mkMarkerSet [] [] None 1 1) [] _ ltac:(cbn; lia) ltac:(cbn; lia) E1) as [N1 N2].
  rewrite E1. cbn [mbind res_bind fst snd] in *. cbn [ms_next_id ms_next_link_id] in N1, N2.
  destruct (restore_links_ok pf k ms1 (ids ms1) Hok1) as (ms2 & E2 & Hok2); [by apply Forall_forall|lia|].
  destruct (restore_links_next pf k (ids ms1) ms1 ms2 ltac:(lia) ltac:(lia) E2) as [N3 N4].
  rewrite E2. cbn [mbind res_bind]. apply returns_ret. cbn [fst].
  pose proof (registry_size plots Hr ltac:(lia)). split; cbn; [done|lia|done|lia|done|lia].
Qed.

(** The layouts that can be read leave room. *)
Definition layouts_fit (n : Z) : Prop :=
  forall bytes l, from_slice bytes = Some l -> layout_fits n l /\ blen (migrate_chains_to_links (ly_markers l)) + 1 + n < u64_max.

Context (n : Z) (H0 : 0 <= n) (Hfit : layouts_fit n).

Lemma load_fits dir name l : load from_slice dir name = Ok l -> layout_fits n l.
Proof using Hfit.
  unfold load. destruct (dir !! _); [|done]. destruct (from_slice _) as [l'|] eqn:E; [|done].
  destruct (Hfit _ _ E) as [(Hp & Hm & Hl) Hc]. destruct (negb _); [done|]. destruct (_ && _); intros [= <-]; [|done].
  split_and!; cbn; lia.
Qed.

Lemma load_layout_file_ok fs path a : work_ok n (a_work a) ->
  returns (load_layout_file pf now from_slice fs path a) (fun a' =>
    work_ok n (a_work a') /\ a_live a' = a_live a /\ a_pending_file a' = a_pending_file a /\ a_pending_layout a' = a_pending_layout a).
Proof using DL H0 Hfit.
  intros Hw. unfold load_layout_file. destruct (fs !! path) as [bytes|]; [|by apply returns_ret].
  destruct (from_slice _) as [l|] eqn:E; [|by apply returns_ret]. destruct (negb _); [by apply returns_ret|].
  eapply returns_bind; [apply (install_layout_ok l (app_channels a) n (a_work a) H0); [by eapply Hfit|apply Hw]|].
  intros r Hr. apply returns_ret. split_and!; [|done..]. cbn. by apply work_ok_path.
Qed.

Lemma do_load_layout_ok dir name a : work_ok n (a_work a) ->
  returns (do_load_layout pf now from_slice dir name a) (fun a' =>
    work_ok n (a_work a') /\ a_live a' = a_live a /\ a_pending_file a' = a_pending_file a /\ a_pending_layout a' = a_pending_layout a).
Proof using DL H0 Hfit.
  intros Hw. unfold do_load_layout. destruct (load from_slice dir name) as [l|e|] eqn:E.
  - eapply returns_bind; [apply (install_layout_ok l (app_channels a) n (a_work a) H0); [by eapply load_fits|apply Hw]|].
    intros r Hr. apply returns_ret. split_and!; [|done..]. cbn. by apply work_ok_path.
  - by apply returns_ret.
  - exfalso. unfold load in E. destruct (dir !! _); [|done]. destruct (from_slice _); [|done]. destruct (negb _); [done|].
    by destruct (_ && _).
Qed.

Lemma try_apply_sidecar_ok fs path a : work_ok n (a_work a) ->
  returns (try_apply_sidecar_layout pf from_slice fs path a) (fun r =>
    work_ok n (a_work r.1) /\ a_live r.1 = a_live a /\ a_pending_file r.1 = a_pending_file a /\ a_pending_layout r.1 = a_pending_layout a).
Proof using DL H0 Hfit.
  intros Hw. unfold try_apply_sidecar_layout. destruct (fs !! _) as [bytes|]; [|by apply returns_ret].
  destruct (from_slice _) as [l|] eqn:E; [|by apply returns_ret]. destruct (negb _); [by apply returns_ret|].
  eapply returns_bind; [apply (install_layout_ok l (app_channels a) n (a_work a) H0); [by eapply Hfit|apply Hw]|].
  intros r Hr. apply returns_ret. split_and!; done.
Qed.

(** Opening a capture whose packets can be replayed. *)
Lemma load_capture_file_ok fs path a : work_ok n (a_work a) -> aligned (d_store (a_live a)) ->
  returns (load_capture pf now fs path (d_store (a_live a)) (d_capture (a_live a))) (fun r => aligned r.1.1) ->
  returns (load_capture_file pf now from_slice fs path a) (fun a' =>
    work_ok n (a_work a') /\ aligned (d_store (a_live a')) /\
    a_pending_file a' = a_pending_file a /\ a_pending_layout a' = a_pending_layout a).
Proof using DL H0 Hfit.
  intros Hw Hs Hl. unfold load_capture_file. eapply returns_bind; [exact Hl|]. intros [[s g] res] Hs'. cbn in Hs'.
  destruct res as [[e|e|e]|rp]; [by apply returns_ret..|].
  set (a1 := set_live _ a).
  eapply returns_bind; [apply (try_apply_sidecar_ok fs path a1); exact Hw|]. intros [a2 note] (G1 & G2 & G3 & G4).
  apply returns_ret. cbn in *. rewrite G2. split_and!; done.
Qed.
End loading.

(** ** One frame, in a release build *)
Section release.
Context `{HO : HashOrder} `{D : DockLib} `{DL : !DockLaws D} (now : Z).
Context (to_vec_pretty : Layout -> option text) (from_slice : text -> option Layout) (exp : f64 -> f64).

(** Between the handlers of a frame. *)
Record app_ok (n : Z) (a : ViewerApp) : Prop := {
  ap_work : work_ok n (a_work a);
  ap_store : aligned (d_store (a_live a));
  ap_file : a_pending_file a = None;
  ap_layout : a_pending_layout a = None;
}.

Lemma app_ok_less n n' a : app_ok n a -> n' <= n -> app_ok n' a.
Proof. intros [Hw ? ? ?] ?. split; [by eapply work_ok_less|done|done|done]. Qed.

Lemma app_ok_work n m a w : app_ok n a -> work_ok m w -> app_ok m (set_work w a).
Proof. intros [] Hw. by split. Qed.

Lemma compute_view_release c b : returns (compute_view Release c b) (fun _ => True).
Proof.
  unfold compute_view. destruct b as [[lo hi]|]; [|by apply returns_ret].
  destruct (cam_mode c); [|destruct (cam_free c) as [[x y]|]];
    (eapply returns_bind; [apply arith_release; lia|intros next Hn; by apply returns_ret]).
Qed.

Lemma refresh_release count chs st : returns (refresh_group_counts Release count now chs st) (fun _ => True).
Proof.
  unfold refresh_group_counts. destruct (match st.2 with Some _ => _ | None => _ end); [|by apply returns_ret].
  assert (H : forall l m, returns (count_groups Release count l m) (fun _ => True)).
  { induction l as [|c l IH]; intros m; cbn [count_groups]; [by apply returns_ret|].
    eapply returns_bind; [apply arith_release; lia|]. intros x _. apply IH. }
  eapply returns_bind; [apply H|]. intros ? _. by apply returns_ret.
Qed.

Lemma poll_redraw_ok n a : app_ok n a -> app_ok n (poll_redraw now a).1.
Proof.
  intros [H1 H2 H3 H4]. unfold poll_redraw. cbn [fst]. set (b := negb _).
  destruct b; cbn; (destruct (c_last_set (a_ptr a)); [destruct (_ <? _)|]); by split.
Qed.

Lemma handle_global_keys_ok n k a : app_ok n a -> returns (handle_global_keys Release now k a) (app_ok n).
Proof.
  intros Hok. unfold handle_global_keys. destruct (k_wanted k); [by apply returns_ret|].
  eapply returns_bind; [apply compute_view_release|]. intros view _. cbv zeta.
  set (cam := if k_f k then _ else _).
  assert (Hcam : cam_ok cam) by (unfold cam; destruct (k_f k); apply (wo_cam _ _ (ap_work _ _ Hok))).
  set (gp := if k_g k then _ else _).
  assert (Hg : cam_ok gp.1).
  { unfold gp, key_g. destruct (k_g k); [|done]. destruct (k_shift k).
    - cbn. destruct view as [[t0 t1]|]; [|done]. unfold zoom_in_at, cam_ok. by rewrite zoom_x_window.
    - destruct (match c_pending_g _ with Some _ => _ | None => _ end); [|done]. cbn. unfold view_all.
      by destruct (mock_time_bounds _) as [[]|]. }
  destruct gp as [cam2 pending2]. cbn in Hg. apply returns_ret.
  destruct Hok as [Hw Hs H1 H2]. split; [|done|done|done]. cbn.
  pose proof Hw as [_ _ Hm Hmr _ _].
  apply work_ok_markers; [apply work_ok_cam; [done|]|..].
  - by destruct (k_home k).
  - destruct (k_delete k); [|done]. destruct (ms_selected _); [by apply marker_remove_ok|done].
  - destruct (k_delete k); [|lia]. destruct (ms_selected _); cbn; lia.
  - destruct (k_delete k); [|lia]. destruct (ms_selected _); cbn; lia.
Qed.

Lemma add_plot_ok n clicked prefix kind w :
  0 <= n -> (forall s, NoDup (plot_channels (kind s))) -> work_ok (n + 1) w ->
  returns (add_plot Release clicked prefix kind w) (work_ok n).
Proof.
  intros H0 Hk Hw. unfold add_plot. destruct clicked; [|apply returns_ret; eapply work_ok_less; [exact Hw|lia]].
  destruct Hw as [Hr Hpr Hm Hmr Hc Hnum]. rewrite arith_ok by (unfold in_u, u64_max in *; lia). cbn [mbind res_bind].
  eapply returns_bind; [apply (insert_tab_ok Release (w_plots w) (kind _) []); [done|lia|apply Hk]|].
  intros [r id] (G1 & G2 & _). cbn [fst snd] in *. apply returns_ret. split; cbn; [done|lia|done|lia|done|lia].
Qed.

(** The range of the window's slider. *)
Definition window_ok (t : TopBar) : Prop :=
  forall secs, tb_window t = Some secs -> 1 <= f64_to_u64 (f64_mul secs (f64_of_Z (10 ^ 9))).

Lemma bar_camera_ok t c : window_ok t -> cam_ok c -> cam_ok (bar_camera t c).
Proof.
  intros Hw Hc. unfold bar_camera.
  assert (Hp : forall m cam, cam_ok cam -> cam_ok (pick_mode t m cam)) by (intros m cam H; unfold pick_mode; by destruct (_ && _)).
  set (c2 := pick_mode t Pan _). assert (H2 : cam_ok c2) by (by apply Hp, Hp).
  destruct (cam_mode c2); [|done]. destruct (tb_window t) as [secs|] eqn:E; [|done].
  split; cbn; [by apply Hw|]. apply f64_to_u64_range.
Qed.

Lemma do_save_layout_ok fs dir name n a : app_ok n a -> app_ok n (do_save_layout now to_vec_pretty fs dir name a).2.
Proof.
  intros Hok. assert (H : forall f w, work_ok n w -> app_ok n (flash now f (set_work w a))) by (intros f w Hw; destruct Hok; by split).
  assert (H' : forall f, app_ok n (flash now f a)) by (intros f; destruct Hok; by split).
  unfold do_save_layout. destruct (w_layout_path _); [destruct (to_vec_pretty _); apply H'|].
  destruct (save to_vec_pretty dir _); [apply H, work_ok_name, Hok|apply H'|done].
Qed.

Context (n : Z) (H0 : 0 <= n) (Hfit : layouts_fit from_slice n).

Lemma layouts_menu_ok fs dir m a : app_ok n a ->
  returns (layouts_menu Release now to_vec_pretty from_slice fs dir m a) (fun r => app_ok n r.2 /\ (lm_save m = false -> r.1.1 = fs)).
Proof using DL H0 Hfit.
  intros Hok. unfold layouts_menu.
  set (r1 := match lm_save m with true => _ | false => _ end).
  assert (H1 : app_ok n r1.2 /\ (lm_save m = false -> r1.1.1 = fs)).
  { unfold r1. destruct (lm_save m); [|done]. split; [|done]. destruct (w_layout_name _); [by apply do_save_layout_ok|done]. }
  destruct r1 as [[fs1 dir1] a1]. cbn in H1. destruct H1 as [H1 Hfs].
  set (a2 := if lm_save_as m then _ else a1).
  assert (H2 : app_ok n a2) by (unfold a2; destruct (lm_save_as m); [destruct H1; by split|done]).
  eapply returns_bind with (P := app_ok n).
  - destruct (lm_load m) as [name|]; [|by apply returns_ret]. case_bool_decide; [|by apply returns_ret].
    eapply returns_impl; [apply (do_load_layout_ok Release now from_slice n H0 Hfit dir1 name a2), H2|].
    intros a3 (G1 & G2 & G3 & G4). destruct H2. split; [done|by rewrite G2|congruence|congruence].
  - intros a3 H3. apply returns_ret. cbn. split; [|done]. destruct (lm_delete m); [|done]. case_bool_decide; [destruct H3; by split|done].
Qed.

(** A capture that is opened is not also saved in the same frame, and can be shown. *)
Definition opens_ok (fs : files) (m : CaptureMenu) : Prop :=
  forall path, cm_open m = Some (Some path) -> cm_save m = None /\ openable fs path.

Lemma open_capture_ok fs path a : app_ok n a -> openable fs path ->
  returns (load_capture_file Release now from_slice fs path a) (app_ok n).
Proof using DL H0 Hfit.
  intros [Hw Hs H1 H2] Ho.
  eapply returns_impl; [apply (load_capture_file_ok Release now from_slice n H0 Hfit fs path a Hw Hs); by apply load_capture_release|].
  intros a' (G1 & G2 & G3 & G4). split; [done|done|congruence|congruence].
Qed.

Lemma capture_menu_ok fs m a : app_ok n a -> opens_ok fs m ->
  returns (capture_menu Release now to_vec_pretty from_slice fs m a) (fun r => app_ok n r.2).
Proof using DL H0 Hfit.
  intros Hok Hopen. unfold capture_menu. cbv zeta.
  assert (Hfl : forall f, app_ok n (flash now f a)) by (intros f; destruct Hok; by split).
  eapply returns_bind with (P := fun r => app_ok n r.2 /\ (cm_save m = None -> r.1 = fs)).
  - destruct (cm_save m) as [pick|]; [|by apply returns_ret].
    enough (returns (if 0 <? cs_packets (stats (d_capture (a_live a)) now)
      then do_save_capture now to_vec_pretty fs pick a else mret (fs, a)) (fun r => app_ok n r.2)) as (r & E & Hr) by (by exists r).
    destruct (0 <? _); [|by apply returns_ret].
    unfold do_save_capture. destruct (negb _); [apply returns_ret, Hfl|]. destruct pick as [path|]; [|by apply returns_ret].
    unfold save_btlm. destruct (Capture.schema _); [|apply returns_ret, Hfl].
    unfold write_sidecar_layout. cbn [mret res_ret]. destruct (to_vec_pretty _); apply returns_ret, Hfl.
  - intros [fs1 a1] [H1 Hfs]. cbn in H1, Hfs. cbn [fst snd]. eapply returns_bind with (P := app_ok n).
    + destruct (cm_open m) as [[path|]|] eqn:E; [|by apply returns_ret..]. destruct (Hopen path E) as [Hsave Ho].
      rewrite (Hfs Hsave). by apply open_capture_ok.
    + intros a2 H2. apply returns_ret. cbn. destruct (_ && _); [destruct H2; by split|done].
Qed.

Definition bar_ok (fs : files) (t : TopBar) : Prop :=
  window_ok t /\ opens_ok fs (tb_capture t) /\ (cm_open (tb_capture t) <> None -> lm_save (tb_layouts t) = false).

Lemma top_bar_ok fs dir t a : app_ok (n + 3) a -> bar_ok fs t ->
  returns (top_bar Release now to_vec_pretty from_slice fs dir t a) (fun r => app_ok n r.2).
Proof using DL H0 Hfit.
  intros Hok (Hwin & Hopen & Hlone). unfold top_bar. cbv zeta.
  set (a1 := expire_flash now a).
  assert (H1 : app_ok (n + 3) a1).
  { unfold a1, expire_flash. destruct (a_flash a) as [[]|]; [|done]. destruct (_ <? _); [destruct Hok; by split|done]. }
  set (a2 := if tb_connection t then _ else a1).
  assert (H2 : app_ok (n + 3) a2) by (unfold a2; destruct (tb_connection t); [destruct H1; by split|done]).
  clearbody a2. clear H1 Hok a1.
  eapply returns_bind; [apply (add_plot_ok (n + 2)); [lia|constructor|]|].
  { replace (n + 2 + 1) with (n + 3) by lia. apply work_ok_cam; [apply H2|]. apply bar_camera_ok; [done|]. apply H2. }
  intros w1 W1. eapply returns_bind; [apply (add_plot_ok (n + 1)); [lia|constructor|by replace (n + 1 + 1) with (n + 2) by lia]|].
  intros w2 W2. eapply returns_bind; [apply (add_plot_ok n); [lia|constructor|done]|].
  intros w3 W3. set (a3 := if tb_marker t then _ else a2).
  assert (H3 : app_ok (n + 3) a3) by (unfold a3; destruct (tb_marker t); [destruct H2; by split|done]).
  set (w4 := if tb_home t then _ else w3).
  assert (W4 : work_ok n w4) by (unfold w4; destruct (tb_home t); [apply work_ok_cam; [done|apply W3]|done]).
  eapply returns_bind; [apply layouts_menu_ok; eapply app_ok_work; [exact H3|exact W4]|].
  intros [[fs1 dir1] a4] [H4 Hfs]. cbn in H4, Hfs.
  eapply returns_bind; [apply capture_menu_ok; [done|]|].
  { intros path E. destruct (Hopen path E) as [? ?]. rewrite Hfs; [done|]. apply Hlone. by rewrite E. }
   intros [fs2 a5] H5. cbn in H5. apply returns_ret. cbn.
  destruct H5. by split.
Qed.
End release.

(** ** Dialogs and the cursor panel *)
Section dialogs.
Context `{HO : HashOrder} `{D : DockLib} `{DL : !DockLaws D} (now : Z) (to_vec_pretty : Layout -> option text) (n : Z).

Lemma do_clear_ok a : 0 <= n -> n + 1 < u64_max -> app_ok n a -> app_ok n (do_clear now a).
Proof.
  intros H0 Hn [Hw Hs H1 H2]. split; cbn; [|by split|done|done].
  apply work_ok_markers; [by apply work_ok_cam, Hw|exact new_ok|cbn; lia|cbn; lia].
Qed.

Lemma confirm_clear_ok i a : 0 <= n -> n + 1 < u64_max -> app_ok n a -> app_ok n (confirm_clear_dialog now i a).
Proof.
  intros H0 Hn Hok. unfold confirm_clear_dialog. destruct (negb _); [done|]. destruct (di_commit i).
  - pose proof (do_clear_ok a H0 Hn Hok) as []. by split.
  - destruct (_ || _); [|done]. destruct Hok. by split.
Qed.

Lemma title_mut_channels k f : plot_channels (title_mut k f) = plot_channels k.
Proof. by destruct k. Qed.

Lemma rename_tab_ok i typed a : app_ok n a -> app_ok n (rename_tab_dialog i typed a).
Proof.
  intros Hok. unfold rename_tab_dialog. destruct (g_rename (a_dlg a)) as [[pid buf]|]; [|done].
  destruct (di_commit i); [|destruct (_ || _); destruct Hok; by split].
  destruct (is_nil _); [destruct Hok; by split|]. pose proof Hok as [Hw Hs H1 H2]. split; [|done|done|done]. cbn.
  apply work_ok_plots; [done| |done]. apply registry_get_mut_ok; [apply Hw|]. intros k _ Hk. by rewrite title_mut_channels.
Qed.

Lemma save_as_ok fs dir i typed a : app_ok n a -> app_ok n (save_as_dialog now to_vec_pretty fs dir i typed a).2.
Proof.
  intros Hok. unfold save_as_dialog. destruct (g_save_as (a_dlg a)); [|done].
  destruct (di_commit i); [|destruct (_ || _); destruct Hok; by split].
  destruct (is_nil _); [destruct Hok; by split|]. apply do_save_layout_ok. destruct Hok. by split.
Qed.

Lemma delete_confirm_ok dir i a : app_ok n a -> app_ok n (delete_confirm_dialog now dir i a).2.
Proof.
  intros Hok. unfold delete_confirm_dialog. destruct (g_delete (a_dlg a)); [|done].
  destruct (di_commit i); [|destruct (_ || _); [destruct Hok; by split|done]].
  unfold do_delete_layout. pose proof Hok as [Hw Hs H1 H2]. split; cbn; [|done|done|done].
  case_bool_decide; [by apply work_ok_name|done].
Qed.

Lemma cursor_panel_ok a : aligned (d_store (a_live a)) -> returns (cursor_panel Release a) (fun _ => True).
Proof.
  intros Hs. unfold cursor_panel. destruct (c_t (a_ptr a)) as [t|]; [|by apply returns_ret].
  assert (Hsample : forall ch t, returns (mock_sample_at Release (d_store (a_live a)) ch t) (fun _ => True))
    by (intros ch t'; apply (draws_sample _ Hs)).
  eapply returns_bind; [apply (returns_mapM _ (fun _ _ => True))|intros plots _].
  - intros [pid kind] _. eapply returns_bind; [apply (returns_mapM _ (fun _ _ => True))|intros rows _; by apply returns_ret].
    intros ch _. unfold cursor_row. destruct (_ !! ch); [|by apply returns_ret].
    eapply returns_bind; [apply Hsample|]. intros v _. by apply returns_ret.
  - eapply returns_bind; [apply (returns_mapM _ (fun _ _ => True))|intros links _; by apply returns_ret].
    intros [[m1 m2] lk] _. unfold link_lines.
    eapply returns_bind; [apply (returns_mapM _ (fun _ _ => True))|intros rows _; by apply returns_ret].
    intros ch _. eapply returns_bind; [apply Hsample|]. intros va _. eapply returns_bind; [apply Hsample|]. intros vb _.
    by apply returns_ret.
Qed.
End dialogs.

(** ** The whole frame *)
Section whole.
Context `{HO : HashOrder} `{D : DockLib} `{DL : !DockLaws D} (now : Z).
Context (to_vec_pretty : Layout -> option text) (from_slice : text -> option Layout) (exp : f64 -> f64).

Lemma layouts_fit_less m n : layouts_fit from_slice n -> m <= n -> layouts_fit from_slice m.
Proof. intros H Hm bytes l E. destruct (H bytes l E) as [(? & ? & ?) ?]. split; [split_and!|]; lia. Qed.

(** A frame whose captures, if it opens any, can be shown. *)
Record quiet (fs : files) (i : FrameInput) (a : ViewerApp) : Prop := {
  qt_bar : bar_ok fs (fi_bar i);
  qt_file : forall path, a_pending_file a = Some path -> openable fs path;
}.

Lemma connection_dialog_ok n addrs conns i edit a : app_ok n a ->
  returns (connection_dialog Release now addrs conns i edit a) (app_ok n).
Proof.
  intros [Hw Hs H1 H2]. unfold connection_dialog. destruct (negb _); [by apply returns_ret|]. cbv zeta.
  destruct (di_commit i); [|by apply returns_ret]. eapply returns_bind with (P := app_ok n); [|intros a' []; by apply returns_ret].
  unfold reconnect. cbn [a_live set_live d_connection d_store d_capture d_handle d_last_revision d_rate].
  destruct (negb _); [by apply returns_ret|].
  eapply returns_bind with (P := fun r => aligned (sk_store r.1)).
  { unfold source_connect. eapply returns_bind; [apply TcpSource_connect_release; [apply typed_clear|done]|].
    intros [[k conns1] res] Hk. apply returns_ret. by apply typed_aligned. }
  intros [k res] Hk. apply returns_ret. cbn in Hk. destruct res as [e|h]; (split; cbn; [done|apply Hk|done|done]).
Qed.

Lemma begin_frame_ok fs dir i a n :
  0 <= n -> work_ok (n + 3) (a_work a) -> aligned (d_store (a_live a)) -> layouts_fit from_slice (n + 3) -> quiet fs i a ->
  returns (begin_frame Release now to_vec_pretty from_slice fs dir i a) (fun r => app_ok n r.2).
Proof using DL.
  intros H0 Hw Hs Hfit [Hbar Hfile]. unfold begin_frame.
  eapply returns_bind with (P := fun a' => work_ok (n + 3) (a_work a') /\ aligned (d_store (a_live a')) /\ a_pending_file a' = None).
  { destruct (a_pending_file a) as [path|] eqn:E; [|by apply returns_ret].
    eapply returns_impl; [apply (load_capture_file_ok Release now from_slice (n + 3) ltac:(lia) Hfit fs path); cbn; [done|done|by apply load_capture_release; [apply Hfile|]]|].
    intros a' (G1 & G2 & G3 & G4). by split_and!. }
  intros a1 (W1 & S1 & F1). eapply returns_bind with (P := app_ok (n + 3)).
  { destruct (a_pending_layout a1) as [path|] eqn:E; [|by apply returns_ret].
    eapply returns_impl; [apply (load_layout_file_ok Release now from_slice (n + 3) ltac:(lia) Hfit fs path); exact W1|].
    intros a' (G1 & G2 & G3 & G4). split; [done|by rewrite G2|by rewrite G3|by rewrite G4]. }
  intros a2 A2. apply (poll_redraw_ok now) in A2.
  set (a3 := (poll_redraw now a2).1) in *. cbv zeta.
  eapply returns_bind; [apply refresh_release|]. intros counts _.
  eapply returns_bind; [apply (handle_global_keys_ok now (n + 3)); destruct A2; by split|]. intros a4 A4.
  eapply returns_bind; [apply (top_bar_ok now to_vec_pretty from_slice n H0); [eapply layouts_fit_less; [exact Hfit|lia]|done..]|].
  intros [[fs1 dir1] a5] A5. cbn in A5.
  eapply returns_bind; [by apply connection_dialog_ok|]. intros a6 A6. apply (save_as_ok now to_vec_pretty n fs1 dir1 (fi_save_as i).1 (fi_save_as i).2) in A6.
  destruct (save_as_dialog _ _ _ _ _ _ _) as [[fs2 dir2] a7]. cbn in A6.
  apply (delete_confirm_ok now n dir2 (fi_delete i)) in A6. destruct (delete_confirm_dialog _ _ _ _) as [dir3 a8]. cbn in A6.
  apply returns_ret. cbn. apply rename_tab_ok, confirm_clear_ok; [done| |done].
  destruct Hw as [_ ? _ _ _ _]. lia.
Qed.

Lemma group_plots_ok o : Forall (fun k => plot_channels k = []) (group_plots o) /\ blen (group_plots o) <= 1.
Proof. destruct o as [[]|]; cbn; split; (repeat constructor || (unfold blen; cbn; lia)). Qed.

(** The frame after the dialogs: tree, tabs, end. *)
Lemma update_ok fs dir i a n :
  0 <= n -> work_ok (n + 4 * blen (fi_tabs i) + 8) (a_work a) -> aligned (d_store (a_live a)) ->
  layouts_fit from_slice (n + 4 * blen (fi_tabs i) + 8) -> quiet fs i a ->
  returns (update Release now to_vec_pretty from_slice exp fs dir i a) (fun r =>
    app_ok n r.2 /\ pr_plots (w_plots (a_work r.2)) <> ∅ /\ tree_alive (app_channels r.2) (a_tree r.2)).
Proof using DL.
  intros H0 Hw Hs Hfit Hq. unfold update. set (m := blen (fi_tabs i)) in *.
  pose proof (blen_nonneg (fi_tabs i)) as Hm. fold m in Hm.
  eapply returns_bind; [apply (begin_frame_ok fs dir i a (n + 4 * m + 5)); [lia|..]|].
  { by replace (n + 4 * m + 5 + 3) with (n + 4 * m + 8) by lia. }
  { done. }
  { by replace (n + 4 * m + 5 + 3) with (n + 4 * m + 8) by lia. }
  { done. }
  intros [[fs1 dir1] a1] A1. cbn in A1. cbv zeta.
  set (t0 := mkTree (fi_query i (tr_query (a_tree a1))) (tr_selection (a_tree a1)) (tr_anchor (a_tree a1))
               (tr_pending_log_view (a_tree a1))).
  destruct (tree_panel_ok (fi_tree i) (app_channels a1) t0) as (Halive & _). set (t1 := (tree_panel _ _ t0).1) in *.
  eapply returns_bind; [apply cursor_panel_ok, A1|]. intros _ _.
  eapply returns_bind; [apply compute_view_release|]. intros view _.
  eapply returns_bind; [apply (run_steps_ok now exp _ (ap_store _ _ A1) _ view _ (n + 2 * m + 5) 0); [lia|]|].
  { split; cbn; [|constructor|unfold blen; cbn; lia]. fold m.
    replace (n + 2 * m + 5 + 2 * m) with (n + 4 * m + 5) by lia. apply A1. }
  intros st [W Hnew Hcount]. fold m in Hcount.
  set (a2 := match ts_rename st with Some _ => _ | None => _ end).
  assert (E2 : a_live a2 = a_live a1 /\ a_tree a2 = t1 /\ a_pending_file a2 = None /\ a_pending_layout a2 = None)
    by (destruct A1; unfold a2; destruct (ts_rename st); by split_and!).
  destruct E2 as (El & Et & Ef & Ey).
  destruct (group_plots_ok (fi_dock_drop i)) as [G1 G2].
  destruct (group_plots_ok (tr_pending_log_view (a_tree a2))) as [G3 G4].
  set (new := ts_new st ++ _).
  assert (Hlen : blen new <= 2 * m + 2) by (unfold new; unfold blen in *; rewrite !length_app; lia).
  eapply returns_bind; [apply (finish_frame_ok Release (ts_removed st) new n _ H0)|].
  { eapply work_ok_less; [|assert (n + blen new + 3 <= n + 2 * m + 5) by lia; eassumption]. destruct W. by split. }
  { unfold new. by rewrite !Forall_app. }
  intros w [F1 F2 _ _ _]. apply returns_ret. cbn [snd]. split_and!.
  - split; cbn; [done|rewrite El; apply A1|done|done].
  - done.
  - destruct Halive as [L1 L2]. unfold tree_alive, app_channels. cbn. rewrite El, Et. by split.
Qed.
End whole.

(** ** The end of a frame *)

