(* ===== verification/App.v ===== *)
(** * btelem-viewer: properties of the application

    The theorems about whole frames and whole sessions of the viewer, over the
    actions of AppState.v and AppFrame.v. *)

From S2P Require Import Prelude Slices Text Float64 Float32 Wire WireSchema WireValue Store MockStore Robust Capture Mapper Tcp Typed Source Reopen ViewPanels ViewCamera ViewGroups ViewMarkers Layout LayoutApply LogView Lanes Interact Plots AppText AppTree AppState AppTabs AppFrame AppInv.

(** ** Saving a capture with its layout and opening it again *)

(** A session that received [pkts] over a schema, all still in the ring. *)
Record recorded (p : profile) (now : Z) (schema : Schema) (blob : list byte) (m : ChannelMap) (s0 : MockStore.Inner)
    (pkts : list (list byte)) (k : Sinks) : Prop := {
  rc_schema : Schema_decode blob = Ok schema;
  rc_build : ChannelMap_build p schema MockStore_new = Ok (s0, inr m);
  rc_packets : Forall (fun pkt => exists pk, decode_packet pkt = Ok pk) pkts;
  rc_session : process p now m pkts (mkSinks s0 (Some (set_schema default_capture blob now).1)) = Ok k;
  rc_ring : Capture.size pkts <= DEFAULT_RING_BYTES;
  rc_blob : in_u 32 (blen blob);
  rc_count : in_u 32 (blen pkts);
  rc_file : forall g, sk_capture k = Some g -> blen (write_btlm_inner blob (packets g)) < 2 ^ 63;
}.

(** A viewer that can take the session in. *)
Record has_space (pkts : list (list byte)) (k : Sinks) (v : Live) : Prop := {
  hs_ring : Capture.size pkts <= cap_bytes (d_capture v) < 2 ^ 63;
  hs_revision : in_u 64 (in_revision (d_store v)) /\ in_revision (sk_store k) + in_revision (d_store v) + 1 < 2 ^ 64;
}.

(** A workspace whose plots and links show channels of the session. *)
Record showing `{HashOrder} `{DockLib} (channels : list ChannelInfo) (w : Work) : Prop := {
  sw_ids : NoDup (map ci_id channels);
  sw_paths : NoDup (map ci_path channels);
  sw_plots : map_Forall (fun _ k => restorable channels k) (pr_plots (w_plots w));
  sw_tabs : Forall (fun t => is_Some (pr_plots (w_plots w) !! t)) (iter_all_tabs (w_dock w)) /\ iter_all_tabs (w_dock w) <> [];
  sw_order : blen (capture_order (w_plots w) (w_dock w)) < u64_max;
  sw_markers : ms_ok (dg_markers (w_drag w));
  sw_signals : Forall (fun l => Forall (fun i => is_Some (channels_by_id channels !! i)) (lk_signals l))
                 (ms_links (dg_markers (w_drag w)));
  sw_count : blen (ms_markers (dg_markers (w_drag w))) < u64_max - 1 /\ blen (ms_links (dg_markers (w_drag w))) < u64_max - 1;
}.

(** The workspace that comes back: every plot once, numbered by the capture
    order, every tab with its plot, the markers and links with their data. *)
Record restored `{HashOrder} `{DockLib} (w w' : Work) : Prop := {
  rs_plots : forall j, pr_plots (w_plots w') !! j =
    if decide (0 <= j) then pid ← capture_order (w_plots w) (w_dock w) !! Z.to_nat j; persisted <$> pr_plots (w_plots w) !! pid
    else None;
  rs_tabs : Forall2 (fun pid j => exists i, capture_order (w_plots w) (w_dock w) !! i = Some pid /\ j = Z.of_nat i)
    (iter_all_tabs (w_dock w)) (iter_all_tabs (w_dock w'));
  rs_markers : map marker_data (ms_markers (dg_markers (w_drag w'))) = map marker_data (ms_markers (dg_markers (w_drag w)));
  rs_links : link_data (dg_markers (w_drag w')) = link_data (dg_markers (w_drag w));
}.

(** A file is opened by what its path holds. *)
Lemma load_capture_lookup p now fs fs' path s g : fs !! path = fs' !! path ->
  load_capture p now fs path s g = load_capture p now fs' path s g.
Proof. intros E. unfold load_capture, read_btlm. by rewrite E. Qed.

Section sessions.
Context `{HO : HashOrder} `{D : DockLib} `{DL : !DockLaws D}.

Lemma install_snapshot pf name a w channels :
  showing channels (a_work a) -> app_channels a = channels ->
  returns (install_layout pf (snapshot name a) channels w) (fun r => restored (a_work a) r.1 /\ r.2 = ApplyReport_default).
Proof using DL.
  intros [H1 H2 H3 [H4 H5] H6 H7 H8 [H9 H10]] Hch. unfold install_layout, snapshot. rewrite Hch.
  destruct (layout_restored pf channels (w_plots (a_work a)) (w_dock (a_work a)) (dg_markers (w_drag (a_work a))) name
    H1 H2 H3 H4 H5 H6) as (_ & _ & plots' & dock' & E & Hp & Ht).
  rewrite E. cbn [mbind res_bind].
  destruct (markers_restored pf channels (w_plots (a_work a)) (w_dock (a_work a)) (dg_markers (w_drag (a_work a)))
    (dg_markers (w_drag w)) name H1 H2 H7 H8 H9 H10) as (ms' & E' & _ & Hm & Hl & _).
  rewrite E'. cbn [mbind res_bind]. apply returns_ret. by split; [split|].
Qed.

End sessions.

(** C4: A saved session comes back whole.  Saving a capture writes the .btlm file
    and, next to it, the layout; opening that file in any viewer with enough
    room, whatever it showed before, gives exactly the channels and samples of
    the live store, no packet skipped, and rebuilds the workspace: every plot and
    tab, the markers and the links.  The sidecar never overwrites the capture. *)
Theorem session_roundtrip `{HO : HashOrder} `{D : DockLib} `{DL : !DockLaws D} pf now0 now now' to_vec_pretty from_slice schema blob m s0 pkts k fs pick bytes a a2 :
  recorded pf now0 schema blob m s0 pkts k ->
  d_store (a_live a) = sk_store k -> sk_capture k = Some (d_capture (a_live a)) -> has_data (d_capture (a_live a)) = true ->
  showing (in_channels (sk_store k)) (a_work a) ->
  is_Some (file_name (capture_path pick)) ->
  to_vec_pretty (snapshot (sidecar_name (capture_path pick) a) a) = Some bytes ->
  from_slice bytes = Some (snapshot (sidecar_name (capture_path pick) a) a) ->
  has_space pkts k (a_live a2) ->
  exists fs' a1 a3 entries,
    do_save_capture now to_vec_pretty fs (Some pick) a = Ok (fs', a1) /\
    load_capture_file pf now' from_slice fs' (capture_path pick) a2 = Ok a3 /\
    same_data (d_store (a_live a)) (d_store (a_live a3)) /\ restored (a_work a) (a_work a3) /\
    a_flash a3 = Some (now', FlOpened (blen pkts) entries 0 (Some (NoteApplied (sidecar_name (capture_path pick) a) []))).
Proof.
  intros [R1 R2 R3 R4 R5 R6 R7 R8] Hst Hcap Hdata Hshow Hname Hto Hfrom [S1 [S2 S3]].
  set (path := capture_path pick) in *. set (name := sidecar_name path a) in *.
  destruct (saved_reopens pf now0 now' schema blob m s0 pkts k fs path (d_store (a_live a2)) (d_capture (a_live a2))
    R1 R2 R3 R4 R5 S1 R6 R7 R8 S2 S3) as (g & fs1 & report & s' & g' & r & Hg & Hsave & Hload & Hsame & _ & _ & Hpkts & Hskip).
  rewrite Hcap in Hg. injection Hg as <-.
  unfold do_save_capture. rewrite Hdata. cbn [negb]. fold path. rewrite Hsave.
  unfold write_sidecar_layout. fold name. rewrite Hto.
  set (fs2 := <[layout_sidecar_path path := bytes]> fs1).
  assert (Hpath : fs2 !! path = fs1 !! path) by (apply lookup_insert_ne; by apply layout_sidecar_other).
  unfold load_capture_file.
  rewrite <-(load_capture_lookup pf now' fs2 fs1 path _ _ Hpath) in Hload. unfold try_apply_sidecar_layout.
  assert (Hside : fs2 !! layout_sidecar_path path = Some bytes) by apply lookup_insert_eq.
  assert (Hver : version_supported (ly_version (snapshot name a)) = true).
  { unfold snapshot, Layout.capture. by destruct (foldl _ _ _). }
  assert (Hnm : ly_name (snapshot name a) = name) by (unfold snapshot, Layout.capture; by destruct (foldl _ _ _)).
  assert (Hch : in_channels s' = in_channels (sk_store k)) by apply Hsame.
  destruct (install_snapshot pf name a (a_work a2) (in_channels s')) as ([w' rep] & Hinst & Hrest & Hrep);
    [by rewrite Hch|unfold app_channels; by rewrite Hst, Hch|]. cbn [fst snd] in Hrest, Hrep. subst rep.
  do 4 eexists. split; [reflexivity|]. rewrite Hload. cbn [mbind res_bind]. rewrite Hside, Hfrom, Hver. cbn [negb].
  unfold app_channels. cbn [a_live set_live d_store a_work]. rewrite Hinst. cbn [mbind res_bind fst snd].
  split; [reflexivity|]. cbn [flash set_flash set_work a_live a_work a_flash d_store set_live]. rewrite Hst, Hpkts, Hskip, Hnm.
  by split_and!.
Qed.

(** ** Frames *)

(** What a sequence of frames can number at most. *)
Fixpoint frames_cost `{DockLib} (frames : list Moment) : Z :=
  match frames with [] => 0 | f :: frames => 4 * blen (fi_tabs (mo_input f)) + 8 + frames_cost frames end.

Lemma frames_cost_nonneg `{DockLib} frames : 0 <= frames_cost frames.
Proof. induction frames as [|f frames IH]; cbn; [lia|]. pose proof (blen_nonneg (fi_tabs (mo_input f))). lia. Qed.

(** The file given on the command line is opened in the first frame. *)
Definition file_ok `{DockLib} (frames : list Moment) (a : ViewerApp) : Prop :=
  forall path f, a_pending_file a = Some path -> head frames = Some f -> openable (mo_fs f) path.


(** The first state of a viewer. *)
Lemma initial_app_ok `{HO : HashOrder} `{D : DockLib} `{DL : !DockLaws D} pf c k h st file lay n : 0 <= n -> n + 3 < u64_max ->
  returns (initial_app pf c k h st file lay) (fun a =>
    work_ok n (a_work a) /\ a_live a = mkLive (sk_store k) (default default_capture (sk_capture k)) h c st 0 fresh_rate /\
    a_pending_file a = file /\ tabs_ok (w_plots (a_work a)) (iter_all_tabs (w_dock (a_work a)))).
Proof.
  intros H0 Hn. unfold initial_app. assert (Hr : registry_ok PlotRegistry_new).
  { split; cbn; [apply map_Forall_empty|]. intros id Hi. rewrite lookup_empty in Hi. by apply is_Some_None in Hi. }
  destruct (make_default_dock_ok pf PlotRegistry_new Hr) as ([plots dock] & E & H1 & H2 & H3 & H4); [cbn; lia|cbn; unfold u64_max; lia|].
  rewrite E. cbn [mbind res_bind]. apply returns_ret. cbn in *. split_and!; [|done|done|apply H4..].
  split; cbn; [done|lia|exact new_ok|lia|done|lia].
Qed.

(** A viewer started on a file satisfies what [frames_safe] asks of the
    workspace, with both default tabs shown. *)
Lemma started_ok `{HO : HashOrder} `{D : DockLib} `{DL : !DockLaws D} pf now args path addrs conns late n :
  ag_file args = Some path -> 0 <= n -> n + 3 < u64_max ->
  returns (ViewerApp_new pf now args addrs conns late) (fun o => exists a, o = Some a /\
    work_ok n (a_work a) /\ a_pending_file a = Some path /\ tabs_ok (w_plots (a_work a)) (iter_all_tabs (w_dock (a_work a)))).
Proof.
  intros Hfile H0 Hn. unfold ViewerApp_new. rewrite Hfile. eapply returns_bind; [by apply (initial_app_ok pf _ _ _ _ _ _ n)|].
  intros a (H1 & _ & H2 & H3). apply returns_ret. by exists a.
Qed.

(** ** Clearing a live session *)

Lemma push_packet_schema p g pkt now g' : push_packet p g pkt now = Ok g' -> Capture.schema g' = Capture.schema g.
Proof.
  unfold push_packet. intros H. inv_bind. destruct x2 as [[pkts n] dropped]. by inv_bind.
Qed.

(** The packets a source delivers to a viewer. *)
Definition deliver `{DockLib} (p : profile) (now : Z) (m : ChannelMap) (pkts : list (list byte)) (v : Live) : total Sinks :=
  process p now m pkts (mkSinks (d_store v) (Some (d_capture v))).

(** C35: Clearing while connected ends the recording without saying so.  The Clear
    action empties the store and forgets the schema but keeps the running source
    with its channel numbers: whatever packets arrive afterwards, the store stays
    empty, and the ring fills but cannot be saved, until a new connection. *)
Theorem clear_ends_recording `{D : DockLib} p now m pkts fs path a k :
  let v := a_live (do_clear now a) in
  deliver p now m pkts v = Ok k ->
  d_handle v = d_handle (a_live a) /\ sk_store k = mock_clear (d_store (a_live a)) /\ in_channels (sk_store k) = [] /\
  forall g, sk_capture k = Some g -> save_btlm g fs path = Err NoSchema.
Proof.
  unfold deliver. cbv zeta. intros H. split; [done|]. revert H.
  cbn [a_live do_clear flash set_flash set_counts set_tree set_work set_live d_store d_capture].
  set (s := mock_clear _). assert (Hs : no_channels s) by done.
  assert (Hg : Capture.schema (Capture.clear (d_capture (a_live a))) = None) by done.
  revert Hg. generalize (Capture.clear (d_capture (a_live a))). induction pkts as [|pkt pkts IH]; intros g Hg; cbn [process].
  - intros [= <-]. split_and!; [done|done|]. intros g' [= <-]. unfold save_btlm. by rewrite Hg.
  - unfold process_one. cbn [sk_store sk_capture]. destruct (decode_packet pkt) as [pk| |]; cbn [mbind res_bind]; [|by apply IH..].
    destruct (dispatch_all p m (pk_entries pk) s) as [s1| |] eqn:E; cbn [mbind res_bind]; [|done..].
    apply dispatch_all_pushes in E as (n & E & _). apply pushed_nowhere in E as ->; [|done]. unfold tee.
    destruct (push_packet p g pkt now) as [g1| |] eqn:Eg; cbn [mbind res_bind]; [|by apply IH|done].
    apply IH. rewrite <-Hg. by eapply push_packet_schema.
Qed.

(** ** A concrete application *)
#[local] Existing Instance list_dock.
#[local] Existing Instance list_dock_laws.
#[local] Existing Instance gmap_order.

Definition demo_work : Work :=
  mkWork [[0]; [1]]
    (mkPlotRegistry
       {[ 0 := PScalar (mkScalarPanel (str "P") [0] {[ 0 := SignalStyle_default ]} ∅);
          1 := PLogicAnalyser (mkLogicAnalyserPanel (str "L") [mkLogicLane 1 Numeric Bin]) ]} 2)
    3 Camera_default (mkDrag demo_markers None None) None None.

Definition demo_live (k : Sinks) : Live :=
  mkLive (sk_store k) (default default_capture (sk_capture k)) None Connection_default StEmpty 0 fresh_rate.

Definition demo_app (k : Sinks) : ViewerApp :=
  mkApp (demo_live k) demo_work (mkPointer None None None false (mkXYDrag None) ∅)
    (mkDialogs None None false Connection_default false None) (mkTree [] ∅ None None) (∅, None) None None None.

Lemma demo_recorded : recorded Debug 5 demo_map_schema demo_session_blob demo_map demo_built.1 demo_session_packets demo_session.
Proof.
  split.
  - vm_compute. reflexivity.
  - exact demo_build_ok.
  - repeat (constructor; [eexists; vm_compute; reflexivity|]). constructor.
  - vm_compute. reflexivity.
  - vm_compute. discriminate.
  - apply in_ub_spec. vm_compute. reflexivity.
  - apply in_ub_spec. vm_compute. reflexivity.
  - intros g Hg. vm_compute in Hg. injection Hg as <-. vm_compute. reflexivity.
Qed.

Lemma demo_work_ok n : 0 <= n -> n + 3 < u64_max -> work_ok n demo_work.
Proof.
  intros H0 Hn. split; cbn; [split; cbn|lia|exact demo_markers_ok| |done|lia].
  - apply map_Forall_insert_2; [apply NoDup_singleton|]. apply map_Forall_singleton, NoDup_singleton.
  - intros id [k Hk]. apply lookup_insert_Some in Hk as [[<- _]|[_ Hk]]; [lia|].
    apply lookup_singleton_Some in Hk as [<- _]. lia.
  - assert (E : ms_next_id demo_markers = 3 /\ ms_next_link_id demo_markers = 2) by (split; vm_compute; reflexivity). lia.
Qed.

(** The first two channels of the session. *)
Lemma demo_channel (i : nat) : (i < 2)%nat ->
  known (in_channels (sk_store demo_session)) (fun c => ci_kind c = Scalar /\ accepts_logic c = true) (Z.of_nat i).
Proof.
  intros Hi. exists (mkChannelInfo (Z.of_nat i) (ci_path (default (mkChannelInfo 0 [] Scalar false)
    (in_channels (sk_store demo_session) !! i))) Scalar true).
  split; [|done]. destruct i as [|[|]]; [vm_compute; reflexivity|vm_compute; reflexivity|lia].
Qed.

Lemma demo_restorable chs :
  (forall i, (i < 2)%nat -> known chs (fun c => ci_kind c = Scalar /\ accepts_logic c = true) (Z.of_nat i)) ->
  map_Forall (fun _ k => restorable chs k) (pr_plots (w_plots demo_work)).
Proof.
  intros H. destruct (H 0%nat) as (c0 & H0 & K0 & _); [lia|]. destruct (H 1%nat) as (c1 & H1 & K1 & A1); [lia|].
  cbn [w_plots demo_work pr_plots]. apply map_Forall_insert_2; [|apply map_Forall_singleton].
  - split_and!; [apply NoDup_singleton|constructor; [by exists c0|constructor]|]. apply map_Forall_singleton. by exists c0.
  - split; [apply NoDup_singleton|]. constructor; [|constructor]. by exists c1.
Qed.

Lemma demo_showing : showing (in_channels (sk_store demo_session)) demo_work.
Proof.
  split.
  - apply (bool_decide_unpack _). vm_compute. exact I.
  - apply (bool_decide_unpack _). vm_compute. exact I.
  - apply demo_restorable. exact demo_channel.
  - split; [|done]. repeat constructor; by eexists.
  - vm_compute. reflexivity.
  - exact demo_markers_ok.
  - repeat constructor.
  - split; vm_compute; reflexivity.
Qed.

(** The session is saved as [run.btlm] and opened in another viewer. *)
Lemma session_roundtrip_witness :
  exists fs' a1 a3,
    do_save_capture 7 (fun _ => Some []) ∅ (Some (str "run")) (demo_app demo_session) = Ok (fs', a1) /\
    load_capture_file Debug 8 (fun _ => Some (snapshot (str "run") (demo_app demo_session))) fs' (str "run.btlm")
      (demo_app (mkSinks MockStore_new None)) = Ok a3 /\
    same_data (sk_store demo_session) (d_store (a_live a3)).
Proof.
  destruct (session_roundtrip Debug 5 7 8 (fun _ => Some []) (fun _ => Some (snapshot (str "run") (demo_app demo_session)))
    demo_map_schema demo_session_blob demo_map demo_built.1 demo_session_packets demo_session ∅ (str "run") []
    (demo_app demo_session) (demo_app (mkSinks MockStore_new None))) as (fs' & a1 & a3 & entries & H1 & H2 & H3 & _).
  - exact demo_recorded.
  - reflexivity.
  - vm_compute. reflexivity.
  - vm_compute. reflexivity.
  - exact demo_showing.
  - vm_compute. eexists. reflexivity.
  - reflexivity.
  - reflexivity.
  - split; [vm_compute; split; [discriminate|reflexivity]|]. split; [apply in_ub_spec; reflexivity|vm_compute; reflexivity].
  - exists fs', a1, a3. split_and!; [exact H1|exact H2|exact H3].
Defined.

Definition demo_closed : Work :=
  mkWork ([[]; []] : list (list PlotId)) (w_plots demo_work) 3 Camera_default (mkDrag demo_markers None None) None None.


(** A frame in which a signal is clicked and a channel dropped on the first plot,
    a lane clicked on the second, a group dropped on the dock and the second tab
    closed. *)
Definition demo_tab (pid : PlotId) (drop : option DragPayload) : TabUi :=
  mkTabUi pid
    (mkScalarUi (f32_of_Z 300) (demo_input true) demo_response demo_transform (Some (mkPos2 (f32_of_Z 5) (f32_of_Z 5))) None)
    (mkLogicUi (demo_input false) demo_response (f64_of_Z 10) (f32_of_Z 300)
       (fun _ => mkLaneUi (demo_input false) demo_response demo_transform (Some (SetRadix Bin))) (Some 1))
    (mkLogUi [] [] (fun _ => (true, false))) drop.

Definition demo_frame : FrameInput :=
  mkFrameInput (mkKeys false true true false false false true false)
    (mkTopBar false (fun _ => false) None true false false false false (mkLayoutsMenu false false None None)
       (mkCaptureMenu None None false))
    1 [] (mkDialogInput false false false, id) (mkDialogInput false false false, id) (mkDialogInput false false false)
    (mkDialogInput false false false) (mkDialogInput false false false, id) id
    (mkTreeInput false false (fun _ => true) (fun c => c =? 1) (fun _ => false))
    [StDraw (demo_tab 0 (Some (DragChannel 1))); StDraw (demo_tab 1 None); StClose 1] (fun d _ => d) (Some (DragGroup (str "imu") [0; 1])).

(** The second frame connects, the third opens the capture saved before. *)
Definition demo_connects : FrameInput :=
  mkFrameInput (fi_keys demo_frame)
    (mkTopBar true (fun _ => false) None false false false false false (mkLayoutsMenu false false None None) (mkCaptureMenu None None false))
    1 [Some [Data (frame (encode_schema demo_map_schema))]]
    (mkDialogInput true false false, id) (fi_save_as demo_frame) (fi_delete demo_frame) (fi_clear demo_frame) (fi_rename demo_frame)
    (fi_query demo_frame) (fi_tree demo_frame) [] (fi_dock demo_frame) None.
Definition demo_opens : FrameInput :=
  mkFrameInput (fi_keys demo_frame)
    (mkTopBar false (fun _ => false) None false false false false false (mkLayoutsMenu false false None None)
       (mkCaptureMenu None (Some (Some (str "run.btlm"))) false))
    0 [] (fi_connection demo_frame) (fi_save_as demo_frame) (fi_delete demo_frame) (fi_clear demo_frame) (fi_rename demo_frame)
    (fi_query demo_frame) (fi_tree demo_frame) [StDraw (demo_tab 0 None)] (fi_dock demo_frame) None.

Definition demo_files : files :=
  match sk_capture demo_session with
  | Some g => match save_btlm g ∅ (str "run.btlm") with Ok (fs, _) => fs | _ => ∅ end
  | None => ∅
  end.
Definition demo_loaded : LoadedCapture :=
  match read_btlm demo_files (str "run.btlm") with Ok l => l | _ => mkLoadedCapture [] [] end.

Lemma demo_openable : openable demo_files (str "run.btlm").
Proof.
  assert (E : read_btlm demo_files (str "run.btlm") = Ok demo_loaded) by (vm_compute; reflexivity).
  assert (Es : Schema_decode (lc_schema demo_loaded) = Ok demo_map_schema) by (vm_compute; reflexivity).
  split; [by rewrite E|]. intros loaded schema El Ed. assert (Hl : loaded = demo_loaded) by congruence.
  rewrite Hl in Ed. assert (Hs : schema = demo_map_schema) by congruence. rewrite Hs.
  exact demo_map_sane.
Qed.

Definition demo_moments : list Moment :=
  [mkMoment 9 ∅ ∅ demo_frame; mkMoment 10 ∅ ∅ demo_connects; mkMoment 11 demo_files ∅ demo_opens].


(** Two packets that arrive after the session was cleared. *)
Lemma clear_ends_recording_witness :
  exists k, deliver Debug 9 demo_map demo_session_packets (a_live (do_clear 9 (demo_app demo_session))) = Ok k /\ in_channels (sk_store k) = [].
Proof.
  eexists. split; [vm_compute; reflexivity|].
  apply (clear_ends_recording Debug 9 demo_map demo_session_packets ∅ [] (demo_app demo_session)).
  vm_compute. reflexivity.
Defined.

(** Saving under a new name after a layout was loaded with [--layout] writes to
    the loaded file. *)
Example save_as_overwrites :
  let a := set_work (w_set_path (Some (str "rig.json")) demo_work) (demo_app (mkSinks MockStore_new None)) in
  let '(fs, dir, _) := do_save_layout 1 (fun _ => Some (str "{}")) ∅ ∅ (str "other") a in
  fs !! str "rig.json" = Some (str "{}") /\ dir = ∅.
Proof. split; vm_compute; reflexivity. Qed.
