(* ===== verification/System.v ===== *)
(** * The viewer and its receiver thread, interleaved

    The window's thread runs frames ([ViewerApp::update], AppFrame.v) while the
    receiver thread of the source (Source.v) moves from one load of its stop flag
    to the next.  They share the store and the capture through [Arc]s; a run of
    the program is a sequence of their steps in any order.  A step is atomic here:
    a frame sees one state of the store, and what the receiver has under way when
    its handle is dropped belongs to a turn before that frame. *)

From S2P Require Import Prelude Slices Text Float64 Decimal Wire WireSchema Store MockStore Robust Capture Mapper Tcp Typed Source Reopen ViewPanels ViewCamera ViewGroups ViewMarkers Layout LogView Colours Lanes Interact Plots AppText AppTree AppState AppTabs AppFrame AppInv App.

(** ** The program *)
Section system.
Context `{HO : HashOrder} `{D : DockLib} (p : profile).
Context (to_vec_pretty : Layout -> option text) (from_slice : text -> option Layout) (exp : f64 -> f64).

(** The state is the application, whose handle owns the receiver thread.
    [addrs]: how many addresses the receiver's peer resolved to. *)
Inductive event :=
| Turn (now : Z) (addrs : nat)
| Frame (f : Moment).

(** The shared data, as the source has it. *)
Definition sinks_of (v : Live) : Sinks := mkSinks (d_store v) (Some (d_capture v)).
Definition put_source (h : SourceHandle) (k : Sinks) (v : Live) : Live :=
  mkLive (sk_store k) (default (d_capture v) (sk_capture k)) (Some h) (d_connection v) (d_status v) (d_last_revision v) (d_rate v).

(** A turn of the receiver; nothing when there is none. *)
Definition turn (now : Z) (addrs : nat) (v : Live) : total Live :=
  match d_handle v with
  | Some (mkSourceHandle stop (Some th)) =>
    r ← thread_step p now addrs stop th (sinks_of v);
    mret (put_source (mkSourceHandle stop (Some r.1)) r.2 v)
  | _ => mret v
  end.

Definition sys_step (e : event) (a : ViewerApp) : total ViewerApp :=
  match e with
  | Turn now addrs => v ← turn now addrs (a_live a); mret (set_live v a)
  | Frame f => r ← update p (mo_now f) to_vec_pretty from_slice exp (mo_fs f) (mo_dir f) (mo_input f) a; mret r.2
  end.

Fixpoint sys_run (sched : list event) (a : ViewerApp) : total ViewerApp :=
  match sched with
  | [] => mret a
  | e :: sched => a' ← sys_step e a; sys_run sched a'
  end.

(** ** What a frame does to the data *)

(** A frame that neither opens a capture nor connects nor clears. *)
Definition listening (i : FrameInput) : Prop :=
  window_ok (fi_bar i) /\ cm_open (tb_capture (fi_bar i)) = None /\ di_commit (fi_connection i).1 = false /\
  di_commit (fi_clear i) = false.

Definition untouched (a a' : ViewerApp) : Prop :=
  d_store (a_live a') = d_store (a_live a) /\ d_capture (a_live a') = d_capture (a_live a) /\
  d_handle (a_live a') = d_handle (a_live a) /\ a_pending_file a' = a_pending_file a.

Lemma same_trans a b c : untouched a b -> untouched b c -> untouched a c.
Proof. unfold untouched. intros (? & ? & ? & ?) (? & ? & ? & ?). split_and!; congruence. Qed.

(** The typing of the data, together with that of the thread that fills it; where
    [safe] holds, also what keeps that thread from panicking. *)
Context (safe : Prop) (Hrel : safe -> p = Release).

Definition live_ok (v : Live) : Prop :=
  match d_handle v with
  | Some h => exists th, h = mkSourceHandle false (Some th) /\ thread_ok safe th (d_store v)
  | None => typed (d_store v)
  end.

Lemma live_ok_typed v : live_ok v -> typed (d_store v).
Proof. unfold live_ok. destruct (d_handle v); [|done]. intros (th & _ & H). apply H. Qed.

Lemma thread_ok_cleared th s : thread_ok safe th s -> thread_ok safe th (mock_clear s).
Proof.
  intros [_ Ho Hm]. split; [apply typed_clear|done|]. intros st m E. split; [by apply map_agrees_cleared|by apply (Hm st m)].
Qed.

(** A frame keeps the typing, whatever it does; one that only listens leaves the
    data and the source alone. *)
Definition kept (i : FrameInput) (a a' : ViewerApp) : Prop :=
  (live_ok (a_live a) -> (safe -> Forall sane_offer (fi_conns i)) -> live_ok (a_live a')) /\
  (listening i -> a_pending_file a = None -> untouched a a').

Lemma same_kept i a a' : untouched a a' -> kept i a a'.
Proof. intros H. split; [|done]. destruct H as (S1 & _ & S3 & _). unfold live_ok. by rewrite S1, S3. Qed.

Lemma kept_trans i a b c : kept i a b -> kept i b c -> kept i a c.
Proof.
  intros [H1 H2] [G1 G2]. split; [auto|]. intros Hl Hf. pose proof (H2 Hl Hf) as H. eapply same_trans; [exact H|].
  apply G2; [done|]. destruct H as (_ & _ & _ & ->). done.
Qed.

Lemma outcome_kept {A} i a b (m : total A) (f : A -> ViewerApp) : kept i a b ->
  outcome False m (fun r => untouched b (f r)) -> outcome False m (fun r => kept i a (f r)).
Proof. intros Hk H. eapply outcome_impl; [exact H|]. intros r Hr. eapply kept_trans; [exact Hk|by apply same_kept]. Qed.

Section handlers.
Context (now : Z).

Lemma load_layout_same fs path a : outcome False (load_layout_file p now from_slice fs path a) (untouched a).
Proof.
  unfold load_layout_file. destruct (fs !! path) as [bytes|]; [|done]. destruct (from_slice bytes) as [l|]; [|done].
  destruct (negb _); [done|]. eapply outcome_bind with (P := fun _ => True); [apply outcome_any|done].
Qed.

Lemma do_load_layout_same dir name a : outcome False (do_load_layout p now from_slice dir name a) (untouched a).
Proof.
  unfold do_load_layout. destruct (load from_slice dir name) as [l|e|]; [|done|by intros []].
  eapply outcome_bind with (P := fun _ => True); [apply outcome_any|done].
Qed.

Lemma poll_redraw_same a : untouched a (poll_redraw now a).1.
Proof.
  unfold poll_redraw. cbn [fst]. set (b := negb _).
  destruct b; cbn; (destruct (c_last_set (a_ptr a)); [destruct (_ <? _)|]); done.
Qed.

Lemma handle_global_keys_same k a : outcome False (handle_global_keys p now k a) (untouched a).
Proof.
  unfold handle_global_keys. destruct (k_wanted k); [done|].
  eapply outcome_bind with (P := fun _ => True); [apply outcome_any|]. intros view _ _. cbv zeta.
  set (gp := if k_g k then _ else _). by destruct gp.
Qed.

Lemma save_layout_same fs dir name a : untouched a (do_save_layout now to_vec_pretty fs dir name a).2.
Proof.
  unfold do_save_layout. destruct (w_layout_path _); [by destruct (to_vec_pretty _)|]. by destruct (save _ _ _).
Qed.

Lemma layouts_menu_same fs dir m a :
  outcome False (layouts_menu p now to_vec_pretty from_slice fs dir m a) (fun r => untouched a r.2).
Proof.
  unfold layouts_menu. set (r1 := match lm_save m with true => _ | false => _ end).
  assert (H1 : untouched a r1.2).
  { unfold r1. destruct (lm_save m); [|done]. destruct (w_layout_name _); [apply save_layout_same|done]. }
  destruct r1 as [[fs1 dir1] a1]. cbn [snd] in H1. cbv zeta.
  set (a2 := if lm_save_as m then _ else a1).
  assert (H2 : untouched a a2) by (unfold a2; by destruct (lm_save_as m)).
  eapply outcome_bind with (P := untouched a).
  - destruct (lm_load m) as [name|]; [|done]. case_bool_decide; [|done].
    eapply outcome_impl; [apply do_load_layout_same|]. intros a3. by apply same_trans.
  - intros a3 _ H3. apply outcome_ret. cbn [snd]. destruct (lm_delete m); [|done]. by case_bool_decide.
Qed.

(** Opening a capture ends the source and fills the store anew. *)
Lemma load_capture_file_live fs path a : live_ok (a_live a) ->
  outcome False (load_capture_file p now from_slice fs path a) (fun a' => live_ok (a_live a')).
Proof.
  intros Hok. unfold load_capture_file. cbv zeta. eapply outcome_bind; [apply (load_capture_typed p False ltac:(done)); done|].
  intros [[s g] res] _ Hs. cbn [fst] in Hs. assert (Ht : typed s) by (destruct Hs as [->|Hs]; [by apply live_ok_typed|done]).
  clear Hs. destruct res as [[e|e|e]|rp]; [done..|]. unfold try_apply_sidecar_layout.
  destruct (fs !! _) as [bytes|]; [|done]. destruct (from_slice bytes) as [l|]; [|done]. destruct (negb _); [done|].
  eapply outcome_bind with (P := fun n => live_ok (a_live n.1)); [|done].
  eapply outcome_bind; [apply outcome_any|]. intros r _ _. done.
Qed.

Lemma save_capture_same fs pick a : outcome False (do_save_capture now to_vec_pretty fs pick a) (fun r => untouched a r.2).
Proof.
  unfold do_save_capture. destruct (negb _); [done|]. destruct pick as [path|]; [|done].
  destruct (save_btlm _ _ _) as [[fs1 r]| |]; [|done|by intros []]. by destruct (write_sidecar_layout _ _ _ _).
Qed.

Lemma capture_menu_kept fs i a :
  outcome False (capture_menu p now to_vec_pretty from_slice fs (tb_capture (fi_bar i)) a) (fun r => kept i a r.2).
Proof.
  unfold capture_menu. set (m := tb_capture (fi_bar i)).
  eapply outcome_bind with (P := fun r => kept i a r.2).
  { destruct (cm_save m) as [pick|]; [|by apply outcome_ret, same_kept]. destruct (0 <? _); [|by apply outcome_ret, same_kept].
    eapply outcome_impl; [apply save_capture_same|]. intros r. apply same_kept. }
  intros [fs1 a1] _ H1. cbn [fst snd] in H1 |- *. eapply outcome_bind with (P := kept i a).
  { destruct (cm_open m) as [[path|]|] eqn:Eo; [|done|done]. cbn [do_open_capture]. destruct (load_capture_file _ _ _ _ _ _) eqn:El; [|done|by intros []].
    split.
    - intros Hok. exact (fun Hc => outcome_Ok _ _ _ _ (load_capture_file_live fs1 path a1 (proj1 H1 Hok Hc)) El).
    - intros (_ & Ho & _). unfold m in Eo. congruence. }
  intros a2 _ H2. apply outcome_ret. cbn [snd]. eapply kept_trans; [exact H2|]. apply same_kept. by destruct (_ && _).
Qed.

Lemma top_bar_kept fs dir i a :
  outcome False (top_bar p now to_vec_pretty from_slice fs dir (fi_bar i) a) (fun r => kept i a r.2).
Proof.
  unfold top_bar. set (t := fi_bar i). cbv zeta. set (a1 := expire_flash now a).
  assert (H1 : untouched a a1).
  { unfold a1, expire_flash. destruct (a_flash a) as [[]|]; [|done]. by destruct (_ <? _). }
  set (a2 := if tb_connection t then _ else a1). assert (H2 : untouched a a2) by (unfold a2; by destruct (tb_connection t)).
  clearbody a2. eapply outcome_bind; [apply outcome_any|intros w1 _ _]. eapply outcome_bind; [apply outcome_any|intros w2 _ _].
  eapply outcome_bind; [apply outcome_any|intros w3 _ _].
  set (a3 := if tb_marker t then _ else a2). assert (H3 : untouched a a3) by (unfold a3; by destruct (tb_marker t)).
  eapply outcome_bind; [apply layouts_menu_same|]. intros [[fs1 dir1] a4] _ H4. cbn [snd] in H4.
  eapply outcome_bind; [apply (capture_menu_kept fs1 i)|]. intros [fs2 a5] _ H5. cbn [snd] in H5. apply outcome_ret. cbn [snd].
  eapply kept_trans; [apply same_kept, (same_trans _ a3); [exact H3|]; exact H4|]. eapply kept_trans; [exact H5|by apply same_kept].
Qed.

Lemma reconnect_live addrs conns a : live_ok (a_live a) -> (safe -> Forall sane_offer conns) ->
  outcome False (reconnect p now addrs conns a) (fun a' => live_ok (a_live a')).
Proof using Hrel.
  intros Hok Hc. unfold reconnect. cbv zeta. destruct (negb _); [done|]. unfold source_connect.
  set (k0 := mkSinks _ _). eapply outcome_bind with (P := fun r => match r.2 with
    | inr h => exists th, h = mkSourceHandle false (Some th) /\ thread_ok safe th (sk_store r.1) | inl _ => typed (sk_store r.1) end).
  - eapply outcome_bind; [apply (outcome_partial safe), (source_connect_ok p now addrs safe Hrel (2 ^ 32)); [apply typed_clear|done|done|done]|].
    intros [[k conns1] [e|[st m]]] _ (Ht & _ & _ & Hth); apply outcome_ret; [done|]. by eexists.
  - intros [k [e|h]] _ H; done.
Qed.

Lemma connection_dialog_kept i a :
  outcome False (connection_dialog p now (fi_addrs i) (fi_conns i) (fi_connection i).1 (fi_connection i).2 a) (kept i a).
Proof using Hrel.
  unfold connection_dialog. destruct (negb _); [by apply outcome_ret, same_kept|]. cbv zeta.
  destruct (di_commit (fi_connection i).1) eqn:Ec; [|by apply outcome_ret, same_kept].
  set (a1 := set_live _ a). destruct (reconnect p now (fi_addrs i) (fi_conns i) a1) as [a2|e|] eqn:E; [|done|by intros []].
  cbn [mbind res_bind]. apply outcome_ret. split; [|intros (_ & _ & Hc & _); congruence].
  intros Hok Hs. exact (outcome_Ok _ _ _ _ (reconnect_live (fi_addrs i) (fi_conns i) a1 Hok Hs) E).
Qed.

Lemma confirm_clear_kept i a : kept i a (confirm_clear_dialog now (fi_clear i) a).
Proof.
  unfold confirm_clear_dialog. destruct (negb _); [by apply same_kept|].
  destruct (di_commit (fi_clear i)) eqn:Ec; [|apply same_kept; by destruct (_ || _)].
  split; [|intros (_ & _ & _ & Hc); congruence]. unfold live_ok. cbn.
  destruct (d_handle (a_live a)) as [h|]; [|intros _ _; apply typed_clear].
  intros (th & -> & Hth) _. exists th. split; [done|by apply thread_ok_cleared].
Qed.
End handlers.

Lemma begin_frame_kept now fs dir i a :
  outcome False (begin_frame p now to_vec_pretty from_slice fs dir i a) (fun r => kept i a r.2).
Proof using Hrel.
  unfold begin_frame. eapply outcome_bind with (P := kept i a).
  { destruct (a_pending_file a) as [path|] eqn:Ef; [|by apply outcome_ret, same_kept].
    destruct (load_capture_file _ _ _ _ _ _) as [a1| |] eqn:El; [|done|by intros []].
    split; [|by rewrite Ef]. intros Hok _. exact (outcome_Ok _ _ _ _ (load_capture_file_live now fs path (set_pending None (a_pending_layout a) a) Hok) El). }
  intros a0 _ H0. eapply outcome_bind with (P := kept i a).
  { destruct (a_pending_layout a0); [|done].
    apply (outcome_kept i a (set_pending (a_pending_file a0) None a0) _ id H0). apply load_layout_same. }
  intros a1 _ H1. cbv zeta. set (a2 := (poll_redraw now a1).1).
  assert (H2 : kept i a a2) by (eapply kept_trans; [exact H1|apply same_kept, poll_redraw_same]). clearbody a2.
  eapply outcome_bind; [apply outcome_any|intros counts _ _].
  eapply outcome_bind with (P := kept i a).
  { apply (outcome_kept i a (set_counts counts a2) _ id); [exact H2|apply handle_global_keys_same]. }
  intros a3 _ H3. eapply outcome_bind; [apply top_bar_kept|]. intros [[fs1 dir1] a4] _ H4. cbn [snd] in H4.
  eapply outcome_bind; [apply connection_dialog_kept|]. intros a5 _ H5.
  assert (K5 : kept i a a5) by (eapply kept_trans; [exact H3|by eapply kept_trans]). clear H2 H3 H4 H5.
  unfold save_as_dialog, delete_confirm_dialog. set (r6 := match g_save_as _ with Some _ => _ | None => _ end).
  assert (H6 : kept i a r6.2).
  { eapply kept_trans; [exact K5|]. apply same_kept. unfold r6.
    destruct (g_save_as _); [|done]. destruct (di_commit (fi_save_as i).1); [|by destruct (_ || _)].
    destruct (is_nil _); [done|]. eapply same_trans; [|apply save_layout_same]. done. }
  destruct r6 as [[fs2 dir2] a6]. cbn [snd] in H6. set (r7 := match g_delete _ with Some _ => _ | None => _ end).
  assert (H7 : kept i a r7.2).
  { eapply kept_trans; [exact H6|]. apply same_kept. unfold r7. destruct (g_delete _); [|done].
    destruct (di_commit (fi_delete i)); [done|by destruct (_ || _)]. }
  destruct r7 as [dir3 a7]. cbn [snd] in H7. apply outcome_ret. cbn [snd].
  eapply kept_trans; [eapply kept_trans; [exact H7|apply confirm_clear_kept]|]. apply same_kept. unfold rename_tab_dialog.
  destruct (g_rename _) as [[pid buf]|]; [|done].
  destruct (di_commit (fi_rename i).1); [by destruct (is_nil _)|by destruct (_ || _)].
Qed.

Lemma update_kept now fs dir i a :
  outcome False (update p now to_vec_pretty from_slice exp fs dir i a) (fun r => kept i a r.2).
Proof using Hrel.
  unfold update. eapply outcome_bind; [apply begin_frame_kept|]. intros [[fs1 dir1] a1] _ H1. cbn [snd] in H1.
  cbv zeta. eapply outcome_bind; [apply outcome_any|intros _ _ _]. eapply outcome_bind; [apply outcome_any|intros view _ _].
  eapply outcome_bind; [apply outcome_any|intros st _ _]. eapply outcome_bind; [apply outcome_any|intros w _ _].
  apply outcome_ret. cbn [snd]. by destruct (ts_rename st).
Qed.

(** ** All reachable states *)
Definition step (a a' : ViewerApp) : Prop := exists e, sys_step e a = Ok a'.

Lemma run_steps_of sched a a' : sys_run sched a = Ok a' -> rtc step a a'.
Proof.
  revert a. induction sched as [|e sched IH]; intros a H; cbn [sys_run] in H; inv_bind; [done|].
  eapply rtc_l; [by exists e|by apply IH].
Qed.

Lemma turn_ok now addrs v : live_ok v -> outcome safe (turn now addrs v) live_ok.
Proof using Hrel.
  intros Hok. unfold turn. unfold live_ok in Hok. destruct (d_handle v) as [h|] eqn:Eh; [|apply outcome_ret; unfold live_ok; by rewrite Eh].
  destruct Hok as (th & -> & Ht). eapply outcome_bind; [by apply (thread_step_ok p now addrs safe Hrel)|].
  intros [th1 k1] _ H1. apply outcome_ret. unfold live_ok. cbn. by exists th1.
Qed.

Lemma step_ok a a' : ~ safe -> step a a' -> live_ok (a_live a) -> live_ok (a_live a').
Proof using Hrel.
  intros Hns [[now addrs|f] E] Hok; cbn [sys_step] in E; inv_bind.
  - exact (outcome_Ok _ _ _ _ (turn_ok now addrs (a_live a) Hok) H).
  - exact (proj1 (outcome_Ok _ _ _ _ (update_kept (mo_now f) (mo_fs f) (mo_dir f) (mo_input f) a) H) Hok (fun S => False_ind _ (Hns S))).
Qed.

(** Start-up: attempts to connect do not clear what a failed one has registered,
    so their number is limited by the channel numbers. *)
Lemma connect_until_live now addrs conns late k :
  typed (sk_store k) -> blen (in_channels (sk_store k)) + lanes_max * Z.of_nat (length late) <= 2 ^ 32 ->
  (safe -> Forall sane_offer conns) ->
  outcome safe (connect_until p now addrs conns late k) (fun r => match r with
    | Some (k', inr h) => exists th, h = mkSourceHandle false (Some th) /\ thread_ok safe th (sk_store k')
    | Some (k', inl _) => typed (sk_store k')
    | None => True
    end).
Proof using Hrel.
  revert conns k. induction late as [|l late IH]; intros conns k Ht Hb Hs; cbn [connect_until]; [done|].
  cbn [length] in Hb. rewrite Nat2Z.inj_succ in Hb.
  eapply outcome_bind; [apply (source_connect_ok p now addrs safe Hrel (blen (in_channels (sk_store k)) + lanes_max));
    [done|lia|unfold lanes_max in *; lia|done]|].
  intros [[k1 conns1] [e|[st m]]] _ (Ht1 & Hb1 & Hs1 & Hth); cbn [fst snd] in *; [|by eexists].
  destruct l; [done|]. apply IH; [done|lia|done].
Qed.

Lemma ViewerApp_new_live `{!DockLaws D} now args addrs conns late n :
  (length late <= 2000)%nat -> 0 <= n -> n + 3 < u64_max -> (safe -> Forall sane_offer conns) ->
  outcome safe (ViewerApp_new p now args addrs conns late) (fun r => match r with
    | Some a => live_ok (a_live a) /\ work_ok n (a_work a) /\ a_pending_file a = ag_file args
    | None => True
    end).
Proof using Hrel HO.
  intros Hl H0 Hn Hs. unfold ViewerApp_new. cbv zeta.
  assert (Hi : forall c k h st lay, live_ok (mkLive (sk_store k) (default default_capture (sk_capture k)) h c st 0 fresh_rate) ->
    outcome safe (a ← initial_app p c k h st (ag_file args) lay; mret (Some a) : total (option ViewerApp)) (fun r => match r with
      | Some a => live_ok (a_live a) /\ work_ok n (a_work a) /\ a_pending_file a = ag_file args
      | None => True
      end)).
  { intros c k h st lay Hk. destruct (initial_app_ok p c k h st (ag_file args) lay n H0 Hn) as (a & E & H1 & H2 & H3 & _).
    rewrite E. apply outcome_ret. by rewrite H2. }
  destruct (ag_file args) as [path|]; [apply Hi; apply typed_new|].
  eapply outcome_bind; [apply connect_until_live; [apply typed_new| |done]|].
  { cbn [sk_store]. unfold lanes_max. change (blen (in_channels MockStore_new)) with 0. lia. }
  intros [[k [e|h]]|] _ H; [by apply Hi|by apply Hi|done].
Qed.
End system.

(** ** A live link under any schedule *)
Section delivery.
Context `{HO : HashOrder} `{D : DockLib} `{DL : !DockLaws D}.
Context (to_vec_pretty : Layout -> option text) (from_slice : text -> option Layout) (exp : f64 -> f64).
Context (m : ChannelMap) (conns : list (option stream)) (Hsafe : map_safe m).

Definition turn_entries (x : option (list byte)) : list DecodedEntry :=
  match x with Some pkt => packet_entries pkt | None => [] end.
Definition link_entries (turns : list (option (list byte))) : list DecodedEntry := concat (map turn_entries turns).

(** The receiver is in a session, [turns] are what it will find on the link, and
    the store can take them. *)
Record live_link (turns : list (option (list byte))) (t : Z) (y : ViewerApp) : Prop := {
  lk_source : exists st, d_handle (a_live y) = Some (spawn conns (st, m)) /\ carries turns st;
  lk_order : in_order t (link_entries turns);
  lk_ready : ready Release (d_store (a_live y)) t (pushes m (link_entries turns));
}.

(** What the receiver has put into the sinks after some turns. *)
Fixpoint process_turns (l : list (Z * option (list byte))) (k : Sinks) : total Sinks :=
  match l with
  | [] => mret k
  | (now, x) :: l => k' ← turn_effect Release now m x k; process_turns l k'
  end.

Lemma turn_effect_ready now h x v t n : in_order t (turn_entries x) -> 0 <= n ->
  ready Release (d_store v) t (pushes m (turn_entries x) + n) ->
  exists k, turn_effect Release now m x (sinks_of v) = Ok k /\ sinks_of (put_source h k v) = k /\
    ready Release (sk_store k) (last_stamp t (turn_entries x)) n.
Proof using Hsafe.
  intros Ho Hn Hr.
  destruct x as [pkt|]; cbn [turn_effect turn_entries] in *; [|by exists (sinks_of v)]. unfold process_one, packet_entries in *.
  destruct (decode_packet pkt) as [pk| |]; [|by exists (sinks_of v)..].
  destruct (dispatch_all_ready Release m (pk_entries pk) (d_store v) t n Hsafe Hn Ho Hr) as (s' & E & Hr').
  cbn [sinks_of sk_store sk_capture]. rewrite E. cbn [mbind res_bind].
  pose proof (tee_outcome Release True ltac:(done) now (Some (d_capture v)) pkt) as Ht.
  destruct (tee Release now (Some (d_capture v)) pkt) as [c|[]|] eqn:Et; cbn [outcome] in Ht; [|by destruct Ht].
  assert (exists g, c = Some g) as [g ->].
  { unfold tee in Et. destruct (push_packet _ _ _ _); [injection Et as <-; by eexists..|done]. }
  exists (mkSinks s' (Some g)). by split_and!.
Qed.

Lemma turn_delivers now addrs x turns t y : live_link (x :: turns) t y ->
  exists y', sys_step Release to_vec_pretty from_slice exp (Turn now addrs) y = Ok y' /\
    live_link turns (last_stamp t (turn_entries x)) y' /\
    turn_effect Release now m x (sinks_of (a_live y)) = Ok (sinks_of (a_live y')) /\
    a_work y' = a_work y /\ a_pending_file y' = a_pending_file y.
Proof using Hsafe.
  intros [(st & Hh & Hc) Ho Hr]. rename y into a.
  destruct (receive_carries Release now m x turns st (sinks_of (a_live a)) Hc) as (st' & Hc' & E).
  unfold link_entries in Ho, Hr. cbn [map concat] in Ho, Hr. rewrite in_order_app in Ho. destruct Ho as [Ho1 Ho2].
  rewrite pushes_app in Hr.
  destruct (turn_effect_ready now (spawn conns (st', m)) x (a_live a) t _ Ho1 (pushes_nonneg m _) Hr) as (k & Ek & Hk & Hr').
  rewrite Ek in E. cbn [mbind res_bind] in E.
  cbn [sys_step]. unfold turn, thread_step. rewrite Hh. cbn [spawn fst snd th_phase th_conns]. rewrite E.
  cbn [mbind res_bind mret res_ret fst snd]. eexists. split; [done|]. cbn [a_live set_live].
  split_and!; [|rewrite Ek; f_equal; symmetry; exact Hk|done|done]. split; [by exists st'|done|done].
Qed.

Fixpoint turn_times (sched : list event) : list Z :=
  match sched with
  | [] => []
  | Turn now _ :: sched => now :: turn_times sched
  | Frame _ :: sched => turn_times sched
  end.
Fixpoint events_cost (sched : list event) : Z :=
  match sched with
  | [] => 0
  | Turn _ _ :: sched => events_cost sched
  | Frame f :: sched => 4 * blen (fi_tabs (mo_input f)) + 8 + events_cost sched
  end.
Definition listens (e : event) : Prop := match e with Turn _ _ => True | Frame f => listening (mo_input f) end.

Lemma events_cost_nonneg sched : 0 <= events_cost sched.
Proof. induction sched as [|[now addrs|f] sched IH]; cbn; [lia|done|]. pose proof (blen_nonneg (fi_tabs (mo_input f))). lia. Qed.

Lemma frame_returns f n y turns t : 0 <= n -> listening (mo_input f) -> live_link turns t y ->
  work_ok (n + 4 * blen (fi_tabs (mo_input f)) + 8) (a_work y) -> a_pending_file y = None ->
  layouts_fit from_slice (n + 4 * blen (fi_tabs (mo_input f)) + 8) ->
  exists y', sys_step Release to_vec_pretty from_slice exp (Frame f) y = Ok y' /\ live_link turns t y' /\
    sinks_of (a_live y') = sinks_of (a_live y) /\
    work_ok n (a_work y') /\ a_pending_file y' = None.
Proof using DL.
  intros H0 Hl [Hh Ho Hr] Hw Hf Hfit. destruct f as [now fs dir i]. rename y into a. cbn in *.
  destruct (update_ok now to_vec_pretty from_slice exp fs dir i a n H0 Hw (wf_aligned _ (ready_wf _ _ _ _ Hr)) Hfit) as ([[fs1 dir1] a1] & E & Hok & _).
  { destruct Hl as (Hwin & Hop & _). split; [|intros path; by rewrite Hf].
    split_and!; [done|intros path; by rewrite Hop|by rewrite Hop]. }
  pose proof (update_kept Release to_vec_pretty from_slice exp False ltac:(done) now fs dir i a) as Hs. rewrite E in Hs.
  destruct Hs as [_ Hs]. destruct (Hs Hl Hf) as (S1 & S2 & S3 & _). cbn in S1, S2, S3, Hok. rewrite E. cbn [mbind res_bind]. eexists. split; [done|]. cbn.
  split; [split; cbn; [by rewrite S3|done|by rewrite S1]|]. unfold sinks_of. rewrite S1, S2. split_and!; [done|apply Hok|apply Hok].
Qed.

Lemma link_runs sched turns t y n : 0 <= n -> Forall listens sched -> live_link turns t y ->
  (length (turn_times sched) <= length turns)%nat ->
  work_ok (n + events_cost sched) (a_work y) -> a_pending_file y = None ->
  layouts_fit from_slice (n + events_cost sched) ->
  exists y' t', sys_run Release to_vec_pretty from_slice exp sched y = Ok y' /\
    live_link (drop (length (turn_times sched)) turns) t' y' /\
    process_turns (zip (turn_times sched) turns) (sinks_of (a_live y)) = Ok (sinks_of (a_live y')) /\
    work_ok n (a_work y').
Proof using DL Hsafe.
  intros H0 H. revert turns t y. induction H as [|e sched He Hes IH]; intros turns t y Hl Hlen Hw Hf Hfit; cbn [sys_run].
  { exists y, t. cbn in *. rewrite Z.add_0_r in Hw. by split_and!. }
  pose proof (events_cost_nonneg sched). destruct e as [now addrs|f]; cbn [turn_times events_cost length] in *.
  - destruct turns as [|x turns]; [cbn in Hlen; lia|].
    destruct (turn_delivers now addrs x turns t y Hl) as (y1 & -> & Hl1 & Et & Ew & Ef). cbn [mbind res_bind].
    destruct (IH turns _ y1 Hl1) as (y2 & t2 & E2 & Hl2 & Hp2 & Hw2); [cbn in Hlen; lia|by rewrite Ew|by rewrite Ef|done|].
    exists y2, t2. cbn [zip zip_with process_turns drop]. rewrite Et. by split_and!.
  - set (c := blen (fi_tabs (mo_input f))) in *. pose proof (blen_nonneg (fi_tabs (mo_input f))).
    replace (n + (4 * c + 8 + events_cost sched)) with (n + events_cost sched + 4 * c + 8) in Hw, Hfit by lia.
    destruct (frame_returns f (n + events_cost sched) y turns t) as (y1 & -> & Hl1 & Es & Hw1 & Hf1); [lia|done..|].
    cbn [mbind res_bind]. destruct (IH turns t y1 Hl1 Hlen Hw1 Hf1) as (y2 & t2 & E2 & Hl2 & Hp2 & Hw2).
    { eapply layouts_fit_less; [exact Hfit|lia]. }
    exists y2, t2. rewrite <-Es. by split_and!.
Qed.
End delivery.

(** ** Properties *)
Lemma process_turns_pushes m l k k' : process_turns m l k = Ok k' ->
  pushes_to Release (pushes m (link_entries (map snd l))) (sk_store k) (sk_store k').
Proof.
  revert k. induction l as [|[now x] l IH]; intros k H; cbn [process_turns map snd] in *; inv_bind; [by apply pushes_none|].
  unfold link_entries. cbn [map concat]. rewrite pushes_app. eapply pushes_trans; [|by apply IH].
  destruct x as [pkt|]; cbn [turn_effect turn_entries] in *; [|inv_bind; by apply pushes_none]. unfold process_one, packet_entries in *.
  destruct (decode_packet pkt) as [pk| |]; inv_bind; [|by apply pushes_none..]. by apply dispatch_all_pushes.
Qed.

Lemma link_entries_take m turns n : pushes m (link_entries (take n turns)) <= pushes m (link_entries turns).
Proof.
  rewrite <-(take_drop n turns) at 2. unfold link_entries. rewrite map_app, concat_app, pushes_app.
  pose proof (pushes_nonneg m (concat (map turn_entries (drop n turns)))). lia.
Qed.

(** C5: The running program never mixes the kinds of its data.  From the start of
    the viewer (after at most 2000 attempts to connect), in either build profile,
    along every interleaving of receiver turns (whatever the peers send, through
    losses of the link and new schemas) and frames (whatever the user does:
    clearing, opening captures, connecting elsewhere), every channel the viewer can
    query holds only samples of its declared kind. *)
Theorem system_typed `{HO : HashOrder} `{D : DockLib} `{DL : !DockLaws D} p now to_vec_pretty from_slice exp args addrs conns late a a' :
  (length late <= 2000)%nat -> ViewerApp_new p now args addrs conns late = Ok (Some a) ->
  rtc (step p to_vec_pretty from_slice exp) a a' -> typed (d_store (a_live a')).
Proof.
  intros Hl Hn Hr. apply (live_ok_typed False).
  assert (H0 : live_ok False (a_live a)).
  { pose proof (ViewerApp_new_live p False ltac:(done) now args addrs conns late 0 Hl) as H. rewrite Hn in H. apply H; unfold u64_max; done || lia. }
  clear Hn. induction Hr as [|a1 a2 a3 Hst _ IH]; [done|]. apply IH.
  by apply (step_ok p to_vec_pretty from_slice exp False ltac:(done) a1 a2 ltac:(by intros [])).
Qed.

(** A frame whose captures, if it opens any, can be shown, and whose peers, if it
    connects to any, have consistent schemas. *)
Definition event_safe `{DockLib} (e : event) : Prop :=
  match e with
  | Turn _ _ => True
  | Frame f => bar_ok (mo_fs f) (fi_bar (mo_input f)) /\ Forall sane_offer (fi_conns (mo_input f))
  end.
Definition opens_safely `{DockLib} (path : text) (e : event) : Prop :=
  match e with Turn _ _ => True | Frame f => openable (mo_fs f) path end.

Lemma safe_runs `{HO : HashOrder} `{D : DockLib} `{DL : !DockLaws D} to_vec_pretty from_slice exp sched a n :
  0 <= n -> Forall event_safe sched -> live_ok True (a_live a) -> work_ok (n + events_cost sched) (a_work a) ->
  layouts_fit from_slice (n + events_cost sched) ->
  (forall path, a_pending_file a = Some path -> Forall (opens_safely path) sched) ->
  returns (sys_run Release to_vec_pretty from_slice exp sched a) (fun a' => live_ok True (a_live a') /\ work_ok n (a_work a')).
Proof.
  intros H0 Hs. revert a. induction Hs as [|e sched He Hs IH]; intros a Hok Hw Hfit Hfile; cbn [sys_run events_cost] in *.
  { rewrite Z.add_0_r in Hw. by apply returns_ret. }
  pose proof (events_cost_nonneg sched). destruct e as [now addrs|f]; cbn [events_cost sys_step] in *.
  - eapply returns_bind with (P := fun a' => live_ok True (a_live a') /\ a_work a' = a_work a /\ a_pending_file a' = a_pending_file a).
    + eapply returns_bind; [apply (outcome_returns True); [by apply turn_ok|done]|]. intros v Hv. by apply returns_ret.
    + intros a' (Hok' & Ew & Ef). apply IH; [done|by rewrite Ew|done|]. rewrite Ef. intros path Hp. by eapply Forall_cons_1, Hfile.
  - destruct He as [Hbar Hoff]. set (c := blen (fi_tabs (mo_input f))) in *. pose proof (blen_nonneg (fi_tabs (mo_input f))).
    replace (n + (4 * c + 8 + events_cost sched)) with (n + events_cost sched + 4 * c + 8) in Hw, Hfit by lia.
    destruct (update_ok (mo_now f) to_vec_pretty from_slice exp (mo_fs f) (mo_dir f) (mo_input f) a (n + events_cost sched))
      as (r & E & Ha & _); [lia|done|by apply typed_aligned, (live_ok_typed True)|done| |].
    { split; [done|]. intros path Hp. apply Hfile in Hp. by apply Forall_cons_1 in Hp as [? _]. }
    rewrite E. cbn [mbind res_bind].
    pose proof (outcome_Ok _ _ _ _ (update_kept Release to_vec_pretty from_slice exp True ltac:(done) (mo_now f) (mo_fs f) (mo_dir f) (mo_input f) a) E) as [Hk _].
    apply IH; [by apply Hk|apply Ha|eapply layouts_fit_less; [exact Hfit|lia]|]. rewrite (ap_file _ _ Ha). done.
Qed.


(** C3: Whatever the interleaving, the data gets through.  While the receiver is
    connected and the user works with the viewer (any frames that do not open a
    capture, connect or clear), in a release build: every run completes; after as
    many receiver turns as the link needs to deliver a packet, however many frames
    come between, that packet is dispatched to the store and recorded, in order
    and once, with nothing else in between; frames neither lose nor delay it; and
    the workspace stays well formed. *)
Theorem link_delivers `{HO : HashOrder} `{D : DockLib} `{DL : !DockLaws D} to_vec_pretty from_slice exp m conns sched turns t y n :
  map_safe m -> live_link m conns turns t y -> (length (turn_times sched) <= length turns)%nat -> Forall listens sched ->
  0 <= n -> work_ok (n + events_cost sched) (a_work y) -> a_pending_file y = None ->
  layouts_fit from_slice (n + events_cost sched) ->
  exists y' t', sys_run Release to_vec_pretty from_slice exp sched y = Ok y' /\
    process_turns m (zip (turn_times sched) turns) (sinks_of (a_live y)) = Ok (sinks_of (a_live y')) /\
    live_link m conns (drop (length (turn_times sched)) turns) t' y' /\
    work_ok n (a_work y').
Proof.
  intros Hm Hl Hlen Hs H0 Hw Hf Hfit.
  destruct (link_runs to_vec_pretty from_slice exp m conns Hm sched turns t y n) as (y' & t' & H1 & H2 & H3 & H4); [done..|].
  by exists y', t'.
Qed.

Lemma turns_run `{HO : HashOrder} `{D : DockLib} to_vec_pretty from_slice exp m conns addrs turns t y nows y' :
  map_safe m -> live_link m conns turns t y -> (length nows <= length turns)%nat ->
  sys_run Release to_vec_pretty from_slice exp (map (fun now => Turn now addrs) nows) y = Ok y' ->
  process_turns m (zip nows turns) (sinks_of (a_live y)) = Ok (sinks_of (a_live y')) /\
  d_last_revision (a_live y') = d_last_revision (a_live y).
Proof.
  intros Hm. revert turns t y. induction nows as [|now nows IH]; intros turns t y Hl Hlen H; cbn [map sys_run] in H.
  { injection H as <-. by destruct turns. }
  destruct turns as [|x turns]; [cbn in Hlen; lia|].
  destruct (turn_delivers to_vec_pretty from_slice exp m conns Hm now addrs x turns t y Hl) as (y1 & E1 & Hl1 & Et & _).
  rewrite E1 in H. cbn [mbind res_bind] in H. destruct (IH _ _ _ Hl1 ltac:(cbn in Hlen; lia) H) as [Hp Hr].
  cbn [zip zip_with process_turns]. rewrite Et. cbn [mbind res_bind]. split; [done|]. rewrite Hr.
  cbn [sys_step] in E1. unfold turn in E1. destruct (d_handle (a_live y)) as [[b [th|]]|]; by inv_bind.
Qed.

(** C19: A repaint is asked for at once exactly when there is something new to
    show: after a frame has noted the store's revision, and after any number of
    receiver turns, polling wants an immediate redraw if and only if the store has
    changed since (as long as the 64-bit revision does not wrap). *)
Theorem redraw_complete `{HO : HashOrder} `{D : DockLib} addrs to_vec_pretty from_slice exp m conns turns t y nows y' now :
  map_safe m -> live_link m conns turns t y -> (length nows <= length turns)%nat ->
  d_last_revision (a_live y) = in_revision (d_store (a_live y)) ->
  in_revision (d_store (a_live y)) + pushes m (link_entries turns) <= u64_max ->
  sys_run Release to_vec_pretty from_slice exp (map (fun now => Turn now addrs) nows) y = Ok y' ->
  (poll_redraw now y').2 = false <-> d_store (a_live y') = d_store (a_live y).
Proof.
  intros Hm Hl Hlen Hrev Hroom Hrun. destruct (turns_run to_vec_pretty from_slice exp m conns addrs turns t y nows y' Hm Hl Hlen Hrun) as [Hp Hr].
  apply process_turns_pushes in Hp as (j & Hj & Hb).
  assert (Htake : map snd (zip nows turns) = take (length nows) turns).
  { clear. revert turns. induction nows as [|a nows IH]; intros [|x turns]; cbn; [done..|]. by rewrite IH. }
  rewrite Htake in Hb. pose proof (link_entries_take m turns (length nows)).
  destruct Hl as [_ _ [Hwf _ _ _]]. pose proof (wf_revision _ Hwf) as Hw. unfold in_u in Hw.
  destruct (pushed_revision _ _ _ _ Hj) as [_ Heq]; [cbn; lia|cbn; lia|]. cbn [sinks_of sk_store] in Heq.
  unfold poll_redraw. cbn [snd]. rewrite Hr, Hrev, negb_false_iff, Z.eqb_eq. split; [exact Heq|]. by intros ->.
Qed.

(** ** A concrete run *)
#[local] Existing Instance list_dock.
#[local] Existing Instance list_dock_laws.
#[local] Existing Instance gmap_order.

(** A viewer that has just connected; the link carries a packet, then is idle. *)
Definition demo_link : list (option (list byte)) := [Some demo_packet; None].
Definition connected_app (k : Sinks) (h : SourceHandle) : ViewerApp := set_live (put_source h k (demo_live k)) (demo_app k).
Definition demo_system : ViewerApp :=
  connected_app (mkSinks demo_built.1 None) (spawn [] (demo_stream ++ [Fault TimedOut], demo_map)).

Lemma demo_map_safe : map_safe demo_map.
Proof.
  refine (build_entries_safe Debug demo_map_schema (sc_entries demo_map_schema) MockStore_new ∅ demo_built.1 demo_map
    demo_map_sane _ demo_build_ok). intros id em Hid. by rewrite lookup_empty in Hid.
Qed.

Lemma demo_built_wf : mock_wf demo_built.1.
Proof.
  assert (E1 : in_scalars demo_built.1 = replicate 7 []) by (vm_compute; reflexivity).
  assert (E2 : in_states demo_built.1 = replicate 7 []) by (vm_compute; reflexivity).
  assert (E3 : in_texts demo_built.1 = replicate 7 []) by (vm_compute; reflexivity).
  assert (E4 : ci_id <$> in_channels demo_built.1 = [0; 1; 2; 3; 4; 5; 6]) by (vm_compute; reflexivity).
  assert (E5 : length (in_channels demo_built.1) = 7%nat) by (vm_compute; reflexivity).
  split; rewrite ?E1, ?E2, ?E3; [by rewrite E5|by rewrite E5|by rewrite E5| |apply in_ub_spec; vm_compute; reflexivity| | |].
  - intros i info Hi. apply (list_lookup_fmap_Some_2 ci_id) in Hi. rewrite E4 in Hi.
    do 7 (destruct i as [|i]; [injection Hi as <-; reflexivity|]). discriminate.
  - apply Forall_replicate, samples_ok_nil.
  - apply Forall_replicate, runs_ok_nil.
  - apply Forall_replicate, samples_ok_nil.
Qed.

Lemma demo_live_link : live_link demo_map [] demo_link 0 demo_system.
Proof.
  split.
  - exists (demo_stream ++ [Fault TimedOut]). split; [reflexivity|]. apply (carries_burst [demo_packet]).
    + repeat (constructor; [eexists; split; [reflexivity|vm_compute; discriminate]|]). constructor.
    + vm_compute. reflexivity.
    + constructor; [|constructor]. split; [apply in_ub_spec; vm_compute; reflexivity|eexists; vm_compute; reflexivity].
    + apply carries_idle; [by right|constructor].
  - vm_compute. repeat split; discriminate.
  - split; [exact demo_built_wf|split; vm_compute; repeat constructor|apply in_ub_spec; reflexivity|by left].
Qed.

Lemma demo_listening : listening demo_frame.
Proof. split_and!; [intros secs E; discriminate E|reflexivity|reflexivity|reflexivity]. Qed.

Lemma link_delivers_witness :
  exists y, sys_run Release (fun _ => None) (fun _ => None) id [Frame (mkMoment 9 ∅ ∅ demo_frame); Turn 10 1; Frame (mkMoment 11 ∅ ∅ demo_frame); Turn 12 1] demo_system = Ok y /\
    process_turns demo_map [(10, Some demo_packet); (12, None)] (sinks_of (a_live demo_system)) = Ok (sinks_of (a_live y)).
Proof.
  destruct (link_delivers (fun _ => None) (fun _ => None) id demo_map [] [Frame (mkMoment 9 ∅ ∅ demo_frame); Turn 10 1; Frame (mkMoment 11 ∅ ∅ demo_frame); Turn 12 1]
              demo_link 0 demo_system 0) as (y & t & H & Hp & _).
  - exact demo_map_safe.
  - exact demo_live_link.
  - vm_compute. lia.
  - repeat (constructor; [first [exact I|apply demo_listening]|]). constructor.
  - lia.
  - apply demo_work_ok; [vm_compute; discriminate|vm_compute; reflexivity].
  - reflexivity.
  - intros bytes l E. discriminate E.
  - exists y. split; [exact H|exact Hp].
Defined.

(** The receiver has taken its turns and the store changed. *)
Definition demo_noted : ViewerApp := (poll_redraw 1 demo_system).1.
Definition demo_turned : ViewerApp :=
  match sys_run Release (fun _ => None) (fun _ => None) id (map (fun now => Turn now 1) [10; 12]) demo_noted with Ok y => y | _ => demo_noted end.

Lemma redraw_complete_witness :
  d_store (a_live demo_turned) <> d_store (a_live demo_noted) /\ (poll_redraw 13 demo_turned).2 <> false.
Proof.
  destruct (redraw_complete 1 (fun _ => None) (fun _ => None) id demo_map [] demo_link 0 demo_noted [10; 12] demo_turned 13) as [H1 H2].
  - exact demo_map_safe.
  - destruct demo_live_link as [A B C]. split; assumption.
  - vm_compute. lia.
  - vm_compute. reflexivity.
  - vm_compute. discriminate.
  - vm_compute. reflexivity.
  - split; [|vm_compute; discriminate]. intros E. apply H2 in E. vm_compute in E. discriminate.
Defined.

(** The viewer is started with a server that sends one packet, receives it, is
    connected to another server and opens a capture. *)
Definition demo_args : Args := mkArgs (str "tcp://localhost:4040") None None.
Definition demo_start (p : profile) : ViewerApp :=
  match ViewerApp_new p 0 demo_args 1 demo_conns [false] with Ok (Some a) => a | _ => demo_app (mkSinks MockStore_new None) end.
Definition demo_schedule : list event :=
  [Turn 1 1; Frame (mkMoment 2 ∅ ∅ demo_frame); Frame (mkMoment 3 ∅ ∅ demo_connects); Turn 4 1; Frame (mkMoment 5 demo_files ∅ demo_opens)].
Definition demo_at (p : profile) (n : nat) : ViewerApp :=
  match sys_run p (fun _ => None) (fun _ => None) id (take n demo_schedule) (demo_start p) with Ok y => y | _ => demo_start p end.
Definition demo_count (y : ViewerApp) : Z := mock_sample_count (d_store (a_live y)) 0.

Lemma system_typed_witness :
  typed (d_store (a_live (demo_at Debug 5))) /\ map (fun n => demo_count (demo_at Debug n)) [0; 1; 2; 3; 4; 5]%nat = [0; 1; 1; 0; 0; 2].
Proof.
  split; [|vm_compute; reflexivity].
  apply (system_typed Debug 0 (fun _ => None) (fun _ => None) id demo_args 1 demo_conns [false] (demo_start Debug)).
  - cbn. lia.
  - vm_compute. reflexivity.
  - apply (run_steps_of Debug (fun _ => None) (fun _ => None) id demo_schedule). vm_compute. reflexivity.
Defined.

