(* ===== verification/Xtask.v ===== *)
(** * xtask: the soak and replay harness

    Models viewer/xtask/src/main.rs: connecting with retries, the query loop that
    runs beside the receiver thread, the final counts, the query-time percentiles
    and the JSON report.  The clock and the scheduler are inputs: for each turn of
    the loop, the elapsed time, the receiver's progress (how many loads of its stop
    flag, Source.v) and the microseconds the queries took; [/proc/self/status] is a
    text, absent where it cannot be read.  Starting the server as a child process,
    draining its output and killing it are left to the operating system; only its
    arguments are modelled. *)

From Stdlib Require Import SpecFloat.
From S2P Require Import Prelude Slices Text Float64 Decimal Wire WireSchema WireValue Store MockStore Mapper Tcp Typed Source.
From S2P Require AppText.

(** ** Text *)

(** [str::lines]: pieces between line feeds, without a final carriage return; a
    final empty piece is no line. *)
Fixpoint split_lines (s cur : text) : list text :=
  match s with
  | [] => match cur with [] => [] | _ => [cur] end
  | b :: s => if bool_decide (b = x0a) then cur :: split_lines s [] else split_lines s (cur ++ [b])
  end.
Definition strip_cr (l : text) : text :=
  match last l with Some b => if bool_decide (b = x0d) then take (pred (length l)) l else l | None => l end.
Definition lines (s : text) : list text := map strip_cr (split_lines s []).

(** [split_whitespace().next()] *)
Fixpoint word_chars (cs : list text) : list text :=
  match cs with c :: cs => if is_whitespace c then [] else c :: word_chars cs | [] => [] end.
Fixpoint skip_chars (cs : list text) : list text :=
  match cs with c :: cs' => if is_whitespace c then skip_chars cs' else cs | [] => [] end.
Definition first_word (s : text) : option text :=
  match word_chars (skip_chars (chars s)) with [] => None | w => Some (concat w) end.

(** [str::parse::<f64>]: sign, then [inf], [infinity], [nan] in any case, or
    digits with a point and an exponent; the nearest float to the exact value. *)
Fixpoint take_digits (s : text) : text * text :=
  match s with
  | b :: s' => if is_digit (byte_z b) then let '(d, r) := take_digits s' in (b :: d, r) else ([], s)
  | [] => ([], [])
  end.
Definition parse_exp (s : text) : option Z :=
  match s with
  | [] => Some 0
  | b :: s =>
    if bool_decide (lower_byte b = x65) then
      let '(neg, s) := match s with x2d :: s => (true, s) | x2b :: s => (false, s) | _ => (false, s) end in
      let '(d, r) := take_digits s in
      match d, r with _ :: _, [] => Some (if neg : bool then - dec_value d else dec_value d) | _, _ => None end
    else None
  end.
(** [digits * 10^e], correctly rounded. *)
Definition f64_of_decimal (digits e : Z) : f64 :=
  match digits with
  | Z.pos d =>
    if 0 <=? e then f64_of_Z (Z.pos d * 10 ^ e)
    else match 10 ^ (- e) with Z.pos q => f64_div (S754_finite false d 0) (S754_finite false q 0) | _ => S754_zero false end
  | _ => S754_zero false
  end.
Definition parse_abs (s : text) : option f64 :=
  let low := to_ascii_lowercase s in
  if bool_decide (low = str "inf" \/ low = str "infinity") then Some (S754_infinity false)
  else if bool_decide (low = str "nan") then Some S754_nan
  else
    let '(i, r) := take_digits s in
    let '(f, r) := match r with x2e :: r => take_digits r | _ => ([], r) end in
    if bool_decide (i ++ f = []) then None
    else (fun e => f64_of_decimal (dec_value (i ++ f)) (e - blen f)) <$> parse_exp r.
Definition parse_f64 (s : text) : option f64 :=
  match s with
  | x2d :: s => SFopp <$> parse_abs s
  | x2b :: s => parse_abs s
  | _ => parse_abs s
  end.

(** ** Memory *)
Fixpoint rss_line (ls : list text) : f64 :=
  match ls with
  | [] => S754_zero false
  | l :: ls =>
    match strip_prefix l (str "VmRSS:") with
    | Some rest => f64_div (default (S754_zero false) (first_word rest ≫= parse_f64)) (f64_of_Z 1024)
    | None => rss_line ls
    end
  end.
Definition rss_mb (status : option text) : f64 :=
  match status with Some s => rss_line (lines s) | None => S754_zero false end.

(** ** Durations, in nanoseconds *)

(** [Duration::from_secs_f64] panics on negative, NaN and too large values. *)
Definition from_secs_f64 (x : f64) : total Z :=
  match x with
  | S754_zero _ => mret 0
  | S754_finite false m e =>
    let ns := round_half_even (Z.pos m * 10 ^ 9) e in
    if ns / 10 ^ 9 <? 2 ^ 64 then mret ns else Panic
  | _ => Panic
  end.
Definition as_secs_f64 (ns : Z) : f64 :=
  f64_add (f64_of_Z (ns / 10 ^ 9)) (f64_div (f64_of_Z (ns mod 10 ^ 9)) (f64_of_Z (10 ^ 9))).

(** ** The child's arguments *)
Fixpoint after_last_colon (s cur : text) : text :=
  match s with [] => cur | b :: s => after_last_colon s (if bool_decide (b = x3a) then [] else cur ++ [b]) end.
Definition spawn_args (addr : text) (spawn_entries : Z) : list text := [after_last_colon addr []; fmt_dec spawn_entries].

(** ** The soak *)
Record Lap := mkLap {
  tn_elapsed : Z;  (* [start.elapsed()] at the head of the loop *)
  tn_loads : nat;  (* loads of the stop flag by the receiver since the last turn *)
  tn_micros : Z;   (* what the queries took *)
}.

Section replay.
Context (p : profile) (addrs : nat).

(** The viewport queries of one channel; only that they return matters. *)
Definition query_channel (s : Inner) (t0 t1 : Z) (c : ChannelInfo) : total unit :=
  match ci_kind c with
  | Scalar => _ ← mock_query_scalar p s (ci_id c) t0 t1 1024; mret tt
  | State _ => _ ← mock_query_state s (ci_id c) t0 t1; mret tt
  | Text => mret tt
  end.
Definition query_all (s : Inner) : total unit :=
  match mock_time_bounds s with
  | Some (t0, t1) => _ ← mapM (query_channel s t0 t1) (in_channels s); mret tt
  | None => mret tt
  end.

(** [connect] up to forty times; each attempt meets the addresses anew. *)
Fixpoint connect_retry (n : nat) (attempts : list (list (option stream))) (k : Sinks) : total (Sinks * SourceHandle) :=
  match n with
  | O => Panic
  | S n =>
    r ← source_connect p 0 addrs (default [] (head attempts)) k;
    match r.2 with inr h => mret (r.1, h) | inl _ => connect_retry n (tail attempts) r.1 end
  end.

(** The query loop: the receiver runs, then the queries. *)
Fixpoint soak (dur : Z) (turns : list Lap) (h : SourceHandle) (k : Sinks) (q_us : list Z)
  : total (SourceHandle * Sinks * list Z) :=
  match turns with
  | [] => mret (h, k, q_us)
  | tn :: turns =>
    if tn_elapsed tn <? dur then
      r ← (match sh_join h with
           | Some th => r ← thread_run p 0 addrs (replicate (tn_loads tn) false) th k;
                        mret (mkSourceHandle (sh_stop h) (Some r.1), r.2)
           | None => mret (h, k)
           end);
      _ ← query_all (sk_store r.2);
      soak dur turns r.1 r.2 (q_us ++ [tn_micros tn])
    else mret (h, k, q_us)
  end.

(** ** The report *)
Definition usize_max : nat := Z.to_nat u64_max.

Definition channel_samples (s : Inner) (c : ChannelInfo) : total Z :=
  match ci_kind c with
  | Scalar => bs ← mock_query_scalar p s (ci_id c) 0 u64_max usize_max; mret (blen bs)
  | State _ => rs ← mock_query_state s (ci_id c) 0 u64_max; mret (blen rs)
  | Text => mret 0
  end.
Fixpoint count_samples (s : Inner) (chs : list ChannelInfo) (spc : list Z) (total : Z) : Prelude.total (list Z * Z) :=
  match chs with
  | [] => mret (spc, total)
  | c :: chs =>
    n ← channel_samples s c;
    t ← arith p 64 (total + n);
    count_samples s chs (spc ++ [n]) t
  end.
End replay.

Definition slope (rss_start rss_end elapsed : f64) : f64 :=
  if f64_lt (S754_zero false) elapsed
  then f64_div (f64_mul (f64_sub rss_end rss_start) (f64_of_Z 3600)) elapsed else S754_zero false.

(** The closure [p]: the sorted times at a fraction of their number. *)
Definition percentile (q_us : list Z) (frac : f64) : total Z :=
  match q_us with
  | [] => mret 0
  | _ =>
    let n := f64_of_Z (blen q_us) in
    index q_us (f64_to_u64 (f64_min (f64_mul n frac) (f64_sub n (f64_of_Z 1))))
  end.

(** [sort_unstable] *)
Fixpoint insert_sorted (x : Z) (l : list Z) : list Z :=
  match l with [] => [x] | y :: l' => if x <=? y then x :: l else y :: insert_sorted x l' end.
Definition sort_unstable (l : list Z) : list Z := foldr insert_sorted [] l.

Definition quoted (s : text) : text := [x22] ++ s ++ [x22].
Definition fmt_vec (l : list Z) : text := str "[" ++ AppText.join (str ", ") (map fmt_dec l) ++ str "]".
Definition fmt_object (fields : list (text * text)) : text :=
  str "{" ++ AppText.join (str ",") (map (fun '(k, v) => quoted k ++ str ":" ++ v) fields) ++ str "}".

Definition report (elapsed : f64) (chs : list ChannelInfo) (spc : list Z) (total revision : Z) (rss0 rss1 : f64) (p50 p99 : Z) : text :=
  fmt_object
    [(str "duration_s", fmt_fixed 3 elapsed); (str "channels", fmt_dec (blen chs)); (str "samples_per_channel", fmt_vec spc);
     (str "total_samples", fmt_dec total);
     (str "samples_per_sec", fmt_fixed 1 (f64_div (f64_of_Z total) (f64_max elapsed (f64_of_decimal 1 (-9)))));
     (str "store_revision", fmt_dec revision); (str "rss_mb_start", fmt_fixed 2 rss0); (str "rss_mb_end", fmt_fixed 2 rss1);
     (str "rss_slope_mb_per_hour", fmt_fixed 2 (slope rss0 rss1 elapsed)); (str "query_p50_us", fmt_dec p50); (str "query_p99_us", fmt_dec p99)].

(** [replay]: [late] says whether the receiver had already read the flag when the
    handle was joined, [ns] is the elapsed time at the end. *)
Definition replay (p : profile) (addrs : nat) (duration_s query_hz : f64) (status0 status1 : option text)
    (attempts : list (list (option stream))) (turns : list Lap) (late : bool) (ns : Z) : total text :=
  let rss_start := rss_mb status0 in
  c ← connect_retry p addrs 40 attempts (mkSinks MockStore_new None);
  dur ← from_secs_f64 duration_s;
  qperiod ← from_secs_f64 (f64_div (f64_of_Z 1) (f64_max query_hz (f64_of_Z 1)));
  r ← soak p addrs dur turns c.2 c.1 [];
  let '(h, k, q_us) := r in
  let elapsed := as_secs_f64 ns in
  j ← handle_join p 0 addrs late h k;
  let s := sk_store j.1 in
  n ← count_samples p s (in_channels s) [] 0;
  let q_us := sort_unstable q_us in
  p50 ← percentile q_us (f64_of_decimal 50 (-2));
  p99 ← percentile q_us (f64_of_decimal 99 (-2));
  mret (report elapsed (in_channels s) n.1 n.2 (in_revision s) rss_start (rss_mb status1) p50 p99).

(** ** Counts *)

(** Everything recorded lies strictly between the ends of the clock. *)
Record inside (s : Inner) : Prop := {
  is_scalars : Forall (Forall (fun x => 0 < x.1 < u64_max)) (in_scalars s);
  is_states : Forall (Forall (fun r => 0 < t_start r < u64_max)) (in_states s);
}.

(** The number a channel is reported with. *)
Definition counted (s : Inner) (c : ChannelInfo) : Z :=
  match ci_kind c with Text => 0 | _ => mock_sample_count s (ci_id c) end.
Definition sum (l : list Z) : Z := foldr Z.add 0 l.

Lemma take_while_all {A} (q : A -> bool) l : Forall (fun x => q x = true) l -> take_while q l = l.
Proof. induction 1 as [|x l Hx Hl IH]; cbn [take_while]; [done|]. by rewrite Hx, IH. Qed.

Lemma scalar_samples p s ch v : mock_wf s -> inside s -> in_scalars s !! Z.to_nat ch = Some v -> blen v <= u64_max ->
  exists bs, mock_query_scalar p s ch 0 u64_max usize_max = Ok bs /\ blen bs = blen v.
Proof.
  intros Hs [Hi _] Hv Hl. pose proof (Forall_lookup_1 _ _ _ _ Hi Hv) as Hin.
  pose proof (Forall_lookup_1 _ _ _ _ (wf_scalars _ Hs) Hv) as [Hsort _]. unfold mock_query_scalar. rewrite Hv.
  assert (Hmax : (usize_max <> 0)%nat) by (unfold usize_max, u64_max; lia).
  replace (usize_max =? 0)%nat with false by (symmetry; by apply Nat.eqb_neq). cbn [orb].
  replace (u64_max <=? 0) with false by done. rewrite time_window_ok by (unfold u64_max; lia). cbn [mbind res_bind].
  assert (Hw : window fst v 0 u64_max = v).
  { rewrite window_spec by (done || unfold u64_max; lia). apply filter_all. eapply Forall_impl; [exact Hin|]. cbn. lia. }
  rewrite Hw. case_bool_decide as He; [rewrite He; by exists []|].
  replace (length v <=? usize_max)%nat with true by (symmetry; apply Nat.leb_le; unfold usize_max, blen in *; lia).
  eexists. split; [done|]. unfold blen. by rewrite length_map.
Qed.

Lemma state_samples s ch runs : mock_wf s -> inside s -> in_states s !! Z.to_nat ch = Some runs ->
  exists rs, mock_query_state s ch 0 u64_max = Ok rs /\ blen rs = blen runs.
Proof.
  intros Hs [_ Hi] Hr. pose proof (Forall_lookup_1 _ _ _ _ Hi Hr) as Hin.
  pose proof (Forall_lookup_1 _ _ _ _ (wf_states _ Hs) Hr) as [Hrange _]. unfold mock_query_state. rewrite Hr.
  case_bool_decide as He; [rewrite He; by exists []|]. cbv zeta.
  assert (Hstart : (if (length runs - 1 =? 0)%nat then 0%nat
                    else partition_point (fun r => t_end r <=? 0) (take (length runs - 1) runs)) = 0%nat).
  { destruct (_ =? 0)%nat; [done|]. apply (partition_point_split _ _ [] (take (length runs - 1) runs)). split_and!; [done|constructor|].
    apply Forall_take, Forall_forall. intros r Hx. rewrite Forall_forall in Hin, Hrange.
    specialize (Hin r Hx). specialize (Hrange r Hx). lia. }
  rewrite Hstart, drop_0, take_while_all.
  - eexists. split; [done|]. unfold blen. by rewrite length_imap.
  - eapply Forall_impl; [exact Hin|]. cbn. intros r Hx. lia.
Qed.

Lemma channel_samples_counted p s i c : mock_wf s -> inside s -> in_channels s !! i = Some c -> blen (in_channels s) <= 2 ^ 32 ->
  mock_sample_count s (ci_id c) <= u64_max -> channel_samples p s c = Ok (counted s c).
Proof.
  intros Hs Hi Hc Hn Hl. pose proof (wf_ids _ Hs i c Hc) as Hid. pose proof (lookup_lt_Some _ _ _ Hc) as Hlt.
  rewrite wrap_small in Hid by (unfold in_u, blen in *; lia).
  assert (Hnat : Z.to_nat (ci_id c) = i) by lia. unfold channel_samples, counted, mock_sample_count in *. rewrite Hnat, Hc in *.
  destruct (ci_kind c).
  - destruct (lookup_lt_is_Some_2 (in_scalars s) i) as [v Hv]; [rewrite (wf_scalars_len _ Hs); lia|]. rewrite Hv in Hl |- *. cbn in Hl |- *.
    destruct (scalar_samples p s (ci_id c) v Hs Hi) as (bs & -> & E); [by rewrite Hnat|done|]. cbn. by rewrite E.
  - destruct (lookup_lt_is_Some_2 (in_states s) i) as [r Hr]; [rewrite (wf_states_len _ Hs); lia|]. rewrite Hr. cbn.
    destruct (state_samples s (ci_id c) r Hs Hi) as (rs & -> & E); [by rewrite Hnat|]. cbn. by rewrite E.
  - done.
Qed.

Lemma sample_count_nonneg s ch : 0 <= mock_sample_count s ch.
Proof.
  unfold mock_sample_count. destruct (in_channels s !! _) as [c|]; [|done].
  destruct (ci_kind c); match goal with |- 0 <= default 0 (blen <$> ?o) => destruct o end; cbn; apply blen_nonneg || done.
Qed.

Lemma counted_nonneg s c : 0 <= counted s c.
Proof. unfold counted. destruct (ci_kind c); [apply sample_count_nonneg|apply sample_count_nonneg|done]. Qed.

Lemma count_samples_sum p s chs spc total :
  (forall c, c ∈ chs -> channel_samples p s c = Ok (counted s c)) -> 0 <= total ->
  total + sum (map (counted s) chs) <= u64_max ->
  count_samples p s chs spc total = Ok (spc ++ map (counted s) chs, total + sum (map (counted s) chs)).
Proof.
  revert spc total. induction chs as [|c chs IH]; intros spc total Hc H0 Hm; cbn [count_samples map sum foldr] in *.
  { by rewrite app_nil_r, Z.add_0_r. }
  fold (sum (map (counted s) chs)) in *. rewrite Hc by (apply elem_of_cons; by left). cbn [mbind res_bind].
  pose proof (counted_nonneg s c).
  assert (0 <= sum (map (counted s) chs)).
  { clear. induction chs as [|x l IH]; cbn; [done|]. pose proof (counted_nonneg s x). unfold sum in IH. lia. }
  rewrite arith_ok by (unfold in_u, u64_max in *; lia). cbn [mbind res_bind].
  rewrite IH; [|intros x Hx; apply Hc, elem_of_cons; by right|lia|lia]. f_equal. rewrite <-app_assoc. f_equal. lia.
Qed.

(** ** Percentiles *)
Lemma insert_sorted_perm x l : insert_sorted x l ≡ₚ x :: l.
Proof. induction l as [|y l IH]; cbn; [done|]. destruct (x <=? y); [done|]. rewrite IH. apply Permutation_swap. Qed.
Lemma sort_perm l : sort_unstable l ≡ₚ l.
Proof. induction l as [|x l IH]; cbn; [done|]. by rewrite insert_sorted_perm, IH. Qed.

Lemma insert_sorted_sorted x l : sorted_by id l -> sorted_by id (insert_sorted x l).
Proof.
  induction l as [|y l IH]; intros H; cbn; [by apply sorted_by_cons|]. pose proof (sorted_by_cons_inv _ _ _ H) as [Hy Hl].
  destruct (x <=? y) eqn:E.
  - apply sorted_by_cons; [|done]. constructor; [unfold id; lia|]. eapply Forall_impl; [exact Hy|]. cbn. unfold id. lia.
  - apply sorted_by_cons; [|by apply IH]. rewrite insert_sorted_perm. constructor; [unfold id; lia|done].
Qed.
Lemma sort_sorted l : sorted_by id (sort_unstable l).
Proof. induction l as [|x l IH]; cbn; [apply sorted_by_nil|]. by apply insert_sorted_sorted. Qed.

Lemma percentile_index (q : list Z) frac : q <> [] -> blen q < 2 ^ 53 ->
  let n := f64_of_Z (blen q) in
  0 <= f64_to_u64 (f64_min (f64_mul n frac) (f64_sub n (f64_of_Z 1))) < blen q.
Proof.
  intros Hq Hl. cbv zeta. assert (Hn : 1 <= blen q) by (destruct q; [done|rewrite blen_cons; pose proof (blen_nonneg q); lia]).
  rewrite f64_sub_one by lia. set (a := f64_mul _ _).
  destruct (f64_min_spec a (f64_of_Z (blen q - 1))) as (Hc & _ & Hle). specialize (Hle (f64_of_Z_not_nan _)).
  assert (Hok : mantissa_ok (f64_min a (f64_of_Z (blen q - 1)))).
  { destruct Hc as [-> | ->]; [apply f64_mul_mantissa|]. unfold f64_of_Z, binary_normalize.
    destruct (blen q - 1); [done|unfold binary_round; destruct (shl_align _ _ _); by apply round_aux_mantissa..]. }
  pose proof (cast_le_small _ (blen q - 1) Hok ltac:(lia) Hle). split; [|lia].
  unfold f64_to_u64, f64_cast. destruct (f64_min _ _) as [|[]| |]; lia.
Qed.

(** ** Releases *)
Lemma query_scalar_release s ch t0 t1 n : returns (mock_query_scalar Release s ch t0 t1 n) (fun _ => True).
Proof.
  assert (Ha : forall z, returns (arith Release 64 z : total Z) (fun _ => True)).
  { intros z. destruct (outcome_returns _ _ _ (arith_outcome Release True ltac:(done) 64 z ltac:(lia)) I) as (x & E & _). by exists x. }
  unfold mock_query_scalar. destruct (_ || _) eqn:E; [by apply returns_ret|]. destruct (in_scalars s !! _) as [v|]; [|by apply returns_ret].
  apply orb_false_iff in E as [_ E]. rewrite time_window_ok by lia. cbn [mbind res_bind].
  destruct (bool_decide _); [by apply returns_ret|]. destruct (_ <=? _)%nat; [by apply returns_ret|].
  eapply returns_bind; [apply Ha|]. intros d _. cbv zeta. generalize (-1) (mkBucket 0 (S754_infinity false) (S754_infinity true)) (@nil Bucket).
  induction (window fst v t0 t1) as [|[t x] l IH]; intros i b out; cbn [bucket_loop]; [by apply returns_ret|].
  eapply returns_bind; [apply Ha|]. intros d' _. destruct (negb _); apply IH.
Qed.

Lemma query_all_release s : returns (query_all Release s) (fun _ => True).
Proof.
  unfold query_all. destruct (mock_time_bounds s) as [[t0 t1]|]; [|by apply returns_ret].
  eapply returns_bind; [apply (returns_mapM _ (fun _ _ => True))|intros ? _; by apply returns_ret]. intros c _. unfold query_channel.
  destruct (ci_kind c); [|destruct (query_state_ok s (ci_id c) t0 t1) as [rs ->]; by apply returns_ret|by apply returns_ret].
  eapply returns_bind; [apply query_scalar_release|]. intros ? _. by apply returns_ret.
Qed.

Lemma count_release s chs spc total : returns (count_samples Release s chs spc total) (fun r => length r.1 = (length spc + length chs)%nat).
Proof.
  revert spc total. induction chs as [|c chs IH]; intros spc total; cbn [count_samples]; [apply returns_ret; cbn; lia|].
  eapply returns_bind with (P := fun _ => True).
  - unfold channel_samples. destruct (ci_kind c); [| |by apply returns_ret].
    + eapply returns_bind; [apply query_scalar_release|]. intros ? _. by apply returns_ret.
    + destruct (query_state_ok s (ci_id c) 0 u64_max) as [rs ->]. by apply returns_ret.
  - intros n _. eapply returns_bind with (P := fun _ => True).
    + destruct (outcome_returns _ _ _ (arith_outcome Release True ltac:(done) 64 (total + n) ltac:(lia)) I) as (x & E & _). by exists x.
    + intros t _. eapply returns_impl; [apply IH|]. intros r Hr. rewrite Hr, length_app. cbn. lia.
Qed.

(** A handle whose thread can run on. *)
Definition handle_ok (h : SourceHandle) (s : Inner) : Prop := exists th, sh_join h = Some th /\ thread_ok True th s.

Lemma soak_release addrs dur laps h k q :
  handle_ok h (sk_store k) -> returns (soak Release addrs dur laps h k q) (fun r => handle_ok r.1.1 (sk_store r.1.2) /\
    (length r.2 <= length q + length laps)%nat).
Proof.
  revert h k q. induction laps as [|lap laps IH]; intros h k q (th & Hh & Ht); cbn [soak].
  { apply returns_ret. cbn. split; [by exists th|lia]. }
  destruct (_ <? _); [|apply returns_ret; cbn; split; [by exists th|lia]]. rewrite Hh.
  destruct (outcome_returns _ _ _ (thread_run_ok Release 0 addrs True ltac:(done) (replicate (tn_loads lap) false) th k Ht) I)
    as ([th1 k1] & E & Ht1). rewrite E. cbn [mbind res_bind mret res_ret fst snd].
  destruct (query_all_release (sk_store k1)) as ([] & -> & _). cbn [mbind res_bind].
  eapply returns_impl; [apply IH; by exists th1|]. intros r [H1 H2]. split; [done|]. rewrite length_app in H2. cbn in *. lia.
Qed.

(** Nobody listens yet. *)
Definition refused (conns : list (option stream)) : Prop := Forall (eq None) conns.

Lemma source_connect_refused p addrs conns k : refused conns ->
  exists e, source_connect p 0 addrs conns k = Ok (k, inl e).
Proof.
  intros Hr. unfold source_connect, TcpSource_connect. destruct (addrs =? 0)%nat; [by eexists|].
  assert (H : forall n conns last, refused conns -> exists conns' e, connect_once p n conns (sk_store k) last = Ok (sk_store k, conns', inl e)).
  { clear. induction n as [|n IH]; intros conns last Hr; cbn [connect_once]; [by do 2 eexists|].
    destruct conns as [|[st|] conns]; [by apply IH| |apply IH]; by apply Forall_cons in Hr as [? ?]. }
  destruct (H addrs conns None Hr) as (conns' & e & ->). exists e. by destruct k.
Qed.

Lemma connect_retry_first p addrs early conns rest n k k1 h : Forall refused early -> (length early < n)%nat ->
  source_connect p 0 addrs conns k = Ok (k1, inr h) -> connect_retry p addrs n (early ++ conns :: rest) k = Ok (k1, h).
Proof.
  intros He Hn Hc. revert n Hn. induction He as [|c early Hr He IH]; intros n Hn; (destruct n as [|n]; [cbn in Hn; lia|]);
    cbn [connect_retry app head tail].
  { change (default [] (Some conns)) with conns. by rewrite Hc. }
  destruct (source_connect_refused p addrs c k Hr) as [e E]. change (default [] (Some c)) with c. rewrite E. cbn [mbind res_bind fst snd]. apply IH. cbn in Hn. lia.
Qed.

Lemma percentile_value q frac : blen q < 2 ^ 53 ->
  exists v, percentile (sort_unstable q) frac = Ok v /\
    (q = [] /\ v = 0 \/ q <> [] /\ v ∈ q /\ exists i, sort_unstable q !! i = Some v /\
       Z.of_nat i = f64_to_u64 (f64_min (f64_mul (f64_of_Z (blen q)) frac) (f64_sub (f64_of_Z (blen q)) (f64_of_Z 1)))).
Proof.
  intros Hl. pose proof (sort_perm q) as Hp. assert (Hlen : blen (sort_unstable q) = blen q) by (unfold blen; by rewrite Hp).
  unfold percentile. destruct (sort_unstable q) as [|x l] eqn:Es.
  { exists 0. split; [done|]. left. split; [|done]. symmetry in Hp. by apply Permutation_nil_r in Hp. }
  assert (Hq : q <> []) by (intros ->; cbn in Es; done). rewrite <-Es in *. rewrite Hlen.
  pose proof (percentile_index q frac Hq Hl) as Hi. cbv zeta in *. set (i := f64_to_u64 _) in *. unfold index.
  destruct (lookup_lt_is_Some_2 (sort_unstable q) (Z.to_nat i)) as [v Hv]; [unfold blen in *; lia|].
  rewrite Hv. exists v. split; [done|]. right. split_and!; [done| |exists (Z.to_nat i); split; [done|lia]].
  rewrite <-Hp. by eapply list_elem_of_lookup_2.
Qed.

(** ** Properties *)

(** The query-time percentiles of a soak are order statistics: for any recorded
    times (fewer than 2^53 of them) and any fraction, NaN included, the index
    computed in floating point is within the sorted times, so the report gets one
    of the recorded values (0 if there are none), never a panic. *)
Theorem percentile_rank q frac : blen q < 2 ^ 53 ->
  sorted_by id (sort_unstable q) /\ sort_unstable q ≡ₚ q /\
  exists v, percentile (sort_unstable q) frac = Ok v /\
    (q = [] /\ v = 0 \/ q <> [] /\ v ∈ q /\ exists i, sort_unstable q !! i = Some v /\
       Z.of_nat i = f64_to_u64 (f64_min (f64_mul (f64_of_Z (blen q)) frac) (f64_sub (f64_of_Z (blen q)) (f64_of_Z 1)))).
Proof. intros Hl. split; [apply sort_sorted|]. split; [apply sort_perm|by apply percentile_value]. Qed.

(** The harness counts what the store holds: with times strictly inside the
    64-bit clock, each scalar channel is reported with all its samples, each state
    channel with its runs, text channels with 0, and the total is their sum. *)
Theorem soak_counts p s : mock_wf s -> inside s -> blen (in_channels s) <= 2 ^ 32 ->
  sum (map (counted s) (in_channels s)) <= u64_max ->
  Forall (fun c => mock_sample_count s (ci_id c) <= u64_max) (in_channels s) ->
  count_samples p s (in_channels s) [] 0 = Ok (map (counted s) (in_channels s), sum (map (counted s) (in_channels s))).
Proof.
  intros Hs Hi Hn Hsum Hl. rewrite count_samples_sum; [by rewrite Z.add_0_l| |lia|lia].
  intros c Hc. apply list_elem_of_lookup in Hc as [i Hc]. eapply channel_samples_counted; [done|done|exact Hc|done|].
  by apply (Forall_lookup_1 _ _ _ _ Hl Hc).
Qed.


(** ** Concrete runs *)
Example parse_kb : rss_mb (Some (str "Name: xtask" ++ [x0a] ++ str "VmRSS:" ++ [x09] ++ str "  2048 kB" ++ [x0a])) = f64_of_Z 2.
Proof. vm_compute. reflexivity. Qed.
Example parse_forms : map parse_f64 [str "1.5"; str "-2e-1"; str ".5E+1"; str "."; str "5x"; str "-Inf"] =
  [Some (f64_div (f64_of_Z 3) (f64_of_Z 2)); Some (f64_div (f64_of_Z (-1)) (f64_of_Z 5)); Some (f64_of_Z 5); None; None; Some (S754_infinity true)].
Proof. vm_compute. reflexivity. Qed.
Example negative_duration : from_secs_f64 (f64_of_Z (-1)) = Panic.
Proof. reflexivity. Qed.

Lemma percentile_rank_witness :
  exists v, percentile (sort_unstable [30; 10; 20]) (f64_of_decimal 50 (-2)) = Ok v /\ v ∈ [30; 10; 20].
Proof.
  destruct (percentile_rank [30; 10; 20] (f64_of_decimal 50 (-2))) as (_ & _ & v & H & [[E _]|(_ & Hv & _)]).
  - vm_compute. reflexivity.
  - discriminate E.
  - exists v. split; [exact H|exact Hv].
Defined.

(** The demo server is reached at the second attempt. *)
Definition soak_start : Sinks * SourceHandle :=
  match source_connect Release 0 1 demo_conns (mkSinks MockStore_new None) with
  | Ok (k, inr h) => (k, h)
  | _ => (mkSinks MockStore_new None, mkSourceHandle true None)
  end.


(** Three samples of a scalar channel and two runs of a state channel. *)
Lemma soak_counts_witness : count_samples Debug demo_store (in_channels demo_store) [] 0 = Ok ([3; 2], 5).
Proof.
  assert (E : map (counted demo_store) (in_channels demo_store) = [3; 2]) by (vm_compute; reflexivity).
  assert (Hc : count_samples Debug demo_store (in_channels demo_store) [] 0 =
    Ok (map (counted demo_store) (in_channels demo_store), sum (map (counted demo_store) (in_channels demo_store)))).
  { apply (soak_counts Debug demo_store).
    - exact demo_wf.
    - split; apply (bool_decide_unpack _); vm_compute; exact I.
    - vm_compute. discriminate.
    - rewrite E. vm_compute. discriminate.
    - apply (bool_decide_unpack _). vm_compute. exact I. }
  rewrite Hc, E. reflexivity.
Defined.
