(* ===== verification/CTypes.v ===== *)
(** * The C library: structures and memory

    Models include/btelem/btelem_types.h and the structures of
    include/btelem/btelem.h: the configuration constants (at their defaults), the
    ring's entries, the clients, the schema descriptors an application registers
    and the context that owns them, with [btelem_init].

    Undefined behaviour of C (an access outside an array, a null pointer
    dereferenced) is the outcome [Panic]; a theorem that a call [returns] includes
    that it has none.  A [const char *] is its bytes before the terminator, [None]
    when it may be null; the [struct btelem_ctx *] of a call is never null here, so
    the guards [!ctx] are not repeated.  The host is little-endian, as the viewer
    demands ([Schema::decode] refuses the other). *)

From S2P Require Import Prelude Wire.

(** ** Configuration *)
Definition BTELEM_MAX_PAYLOAD : Z := 232.
Definition BTELEM_MAX_CLIENTS : Z := 8.
Definition BTELEM_MAX_SCHEMA_ENTRIES : Z := 512.
Definition BTELEM_NAME_MAX : Z := 64.
Definition BTELEM_DESC_MAX : Z := 128.
Definition BTELEM_MAX_FIELDS : Z := 16.
Definition BTELEM_BITFIELD_MAX_BITS : Z := 32.
Definition BTELEM_ENUM_LABEL_MAX : Z := 32.
Definition BTELEM_ENUM_MAX_VALUES : Z := 64.
Definition BTELEM_BIT_NAME_MAX : Z := 32.
Definition BTELEM_ENUM : Z := 12.
Definition BTELEM_BITFIELD : Z := 13.
Definition sizeof_packet_header : Z := 16.
Definition sizeof_entry_header : Z := 16.

(** ** Ring and clients *)
Record btelem_entry := mkEntry {
  e_seq : Z;
  e_timestamp : Z;
  e_id : Z;
  e_payload_size : Z;
  e_payload : list byte;
}.

Record btelem_client := mkClient {
  cl_cursor : Z;
  cl_filter : list Z;
  cl_filter_active : bool;
  cl_dropped : Z;
  cl_dropped_reported : Z;
  cl_active : bool;
}.

(** ** Schema descriptors *)
Record btelem_enum_def := mkCEnum { ed_labels : list (option (list byte)); ed_label_count : Z }.
Record btelem_bit_def := mkCBit { bt_name : option (list byte); bt_start : Z; bt_width : Z }.
Record btelem_bitfield_def := mkCBitfield { bd_bits : list btelem_bit_def; bd_bit_count : Z }.

Record btelem_field_def := mkCField {
  f_name : list byte;
  f_offset : Z;
  f_size : Z;
  f_type : Z;
  f_count : Z;
  f_enum_def : option btelem_enum_def;
  f_bitfield_def : option btelem_bitfield_def;
}.

Record btelem_schema_entry := mkCEntry {
  s_id : Z;
  s_name : list byte;
  s_description : option (list byte);
  s_payload_size : Z;
  s_field_count : Z;
  s_fields : list btelem_field_def;
}.

(** ** The context *)
Record btelem_ring := mkRing {
  r_head : Z;
  r_capacity : Z;
  r_mask : Z;
  r_entries : list btelem_entry;
}.

Record btelem_ctx := mkCtx {
  x_ring : btelem_ring;
  x_clients : list btelem_client;
  x_schema : list (option btelem_schema_entry);
  x_schema_count : Z;
  x_endianness : Z;
}.

Definition set_clients (l : list btelem_client) (x : btelem_ctx) : btelem_ctx :=
  mkCtx (x_ring x) l (x_schema x) (x_schema_count x) (x_endianness x).
Definition set_ring (r : btelem_ring) (x : btelem_ctx) : btelem_ctx :=
  mkCtx r (x_clients x) (x_schema x) (x_schema_count x) (x_endianness x).

(** ** Initialisation *)
Definition is_power_of_2 (v : Z) : bool := negb (v =? 0) && (Z.land v (v - 1) =? 0).

Definition zero_entry : btelem_entry := mkEntry 0 0 0 0 (replicate 232 x00).
Definition zero_client : btelem_client := mkClient 0 (replicate 512 0) false 0 0 false.

(** [btelem_init]: [None] for the -1 of a capacity that is not a power of two. *)
Definition btelem_init (entry_count : Z) : option btelem_ctx :=
  if negb (is_power_of_2 entry_count) then None
  else Some (mkCtx (mkRing 0 entry_count (entry_count - 1) (replicate (Z.to_nat entry_count) zero_entry))
                   (replicate 8 zero_client) (replicate 512 None) 0 0).

(** ** Writes into a caller's buffer *)
Definition write_at (buf : list byte) (off : Z) (x : list byte) : total (list byte) :=
  if (0 <=? off) && (off + blen x <=? blen buf)
  then Ok (take (Z.to_nat off) buf ++ x ++ drop (Z.to_nat (off + blen x)) buf) else Panic.

Lemma write_at_ok buf off x : 0 <= off -> off + blen x <= blen buf ->
  returns (write_at buf off x) (fun buf' => blen buf' = blen buf /\ seg buf' off x /\
    forall o y, seg buf o y -> o + blen y <= off \/ off + blen x <= o -> seg buf' o y).
Proof.
  intros H0 Hl. unfold write_at. replace (_ && _) with true by lia. eexists. split; [done|].
  unfold blen in *. split_and!.
  - rewrite !length_app, length_take, length_drop. lia.
  - exists (take (Z.to_nat off) buf). eexists. split; [done|]. unfold blen. rewrite length_take. lia.
  - intros o y (p & r & -> & <-) Ho. rewrite !length_app in Hl. unfold blen in *. destruct Ho as [Ho|Ho].
    + exists p. eexists. split; [|done].
      replace (Z.to_nat off) with (length p + (length y + (Z.to_nat off - length p - length y)))%nat by lia.
      rewrite !take_app_add. by rewrite <-!app_assoc.
    + exists (take (Z.to_nat off) (p ++ y ++ r) ++ x ++ drop (Z.to_nat (off + Z.of_nat (length x))) p), r. split.
      * rewrite drop_app_le by lia. by rewrite <-!app_assoc.
      * unfold blen. rewrite !length_app, length_take, length_drop, !length_app. lia.
Qed.

(** A mask by [2^k - 1] is the position in the array. *)
Lemma mask_mod k x : 0 <= k -> Z.land x (2 ^ k - 1) = x mod 2 ^ k.
Proof. intros Hk. rewrite <-Z.land_ones by done. by rewrite Z.ones_equiv, Z.sub_1_r. Qed.

Lemma is_power_of_2_spec v : 0 <= v -> is_power_of_2 v = true <-> exists k, 0 <= k /\ v = 2 ^ k.
Proof.
  intros Hv. unfold is_power_of_2. split.
  - intros [H1 H2]%andb_true_iff. apply negb_true_iff, Z.eqb_neq in H1. apply Z.eqb_eq in H2.
    exists (Z.log2 v). split; [apply Z.log2_nonneg|].
    destruct (Z.log2_spec v ltac:(lia)) as [Hlo Hhi]. destruct (decide (v = 2 ^ Z.log2 v)) as [|Hne]; [done|exfalso].
    assert (Hb : Z.testbit (Z.land v (v - 1)) (Z.log2 v) = true).
    { rewrite Z.land_spec, Z.bit_log2 by lia.
      assert (Hl : Z.log2 (v - 1) = Z.log2 v).
      { apply Z.log2_unique; [apply Z.log2_nonneg|]. lia. }
      rewrite <-Hl. rewrite Z.bit_log2; [done|]. pose proof (Z.pow_pos_nonneg 2 (Z.log2 v) ltac:(lia) (Z.log2_nonneg v)). lia. }
    by rewrite H2, Z.bits_0 in Hb.
  - intros (k & Hk & ->). pose proof (Z.pow_pos_nonneg 2 k ltac:(lia) Hk).
    apply andb_true_iff. split; [apply negb_true_iff, Z.eqb_neq; lia|]. apply Z.eqb_eq.
    rewrite mask_mod by done. apply Z_mod_same_full.
Qed.

Lemma seg_nil {A} (buf : list A) off : 0 <= off <= blen buf -> seg buf off [].
Proof.
  intros H. exists (take (Z.to_nat off) buf), (drop (Z.to_nat off) buf). cbn [app]. rewrite take_drop.
  split; [done|]. unfold blen in *. rewrite length_take. lia.
Qed.
