(* ===== verification/CRing.v ===== *)
(** * The C library: logging, clients and drains

    Models src/btelem.c (registration, clients, [btelem_drain],
    [btelem_drain_packed]) and the logging macro of include/btelem/btelem.h.

    A drain runs beside the producers.  What its loads of [head], of the two [seq]
    words and the [memcpy] of an entry return is the argument [memory]: one
    observation per position, as a drain visits each position at most once.  A
    drain is proved against the promise [Faithful] that an entry whose two loads
    of [seq] agree is the one that was logged; CRace.v proves that the ring keeps
    that promise under every interleaving, and [quiet_faithful] below that it does
    when no producer runs. *)

From S2P Require Import Prelude Wire CTypes.

(** ** Registration and logging *)

Definition btelem_register (x : btelem_ctx) (entry : btelem_schema_entry) : option btelem_ctx :=
  if BTELEM_MAX_SCHEMA_ENTRIES <=? s_id entry then None
  else if BTELEM_MAX_PAYLOAD <? s_payload_size entry then None
  else Some (mkCtx (x_ring x) (x_clients x) (<[Z.to_nat (s_id entry) := Some entry]> (x_schema x))
                   (if x_schema_count x <=? s_id entry then wrap 16 (s_id entry + 1) else x_schema_count x)
                   (x_endianness x)).

(** [BTELEM_LOG_ID], run without interruption; [d] is the object logged, whose
    size the macro's static assertion bounds. *)
Definition BTELEM_LOG_ID (x : btelem_ctx) (timestamp id : Z) (d : list byte) : total btelem_ctx :=
  let r := x_ring x in
  let slot := r_head r in
  e ← index (r_entries r) (Z.land slot (r_mask r));
  payload ← write_at (e_payload e) 0 d;
  let e := mkEntry (wrap 64 (slot + 1)) timestamp (wrap 16 id) (wrap 16 (blen d)) payload in
  mret (set_ring (mkRing (wrap 64 (slot + 1)) (r_capacity r) (r_mask r)
                         (<[Z.to_nat (Z.land slot (r_mask r)) := e]> (r_entries r))) x).

(** ** Clients *)

(** The loop that marks the accepted ids; ids beyond the table are ignored. *)
Fixpoint mark_filter (ids : option (list Z)) (n : nat) (f : Z) (filter : list Z) : total (list Z) :=
  match n with
  | O => mret filter
  | S n =>
    id ← match ids with Some l => index l f | None => Panic end;
    mark_filter ids n (f + 1) (if id <? BTELEM_MAX_SCHEMA_ENTRIES then <[Z.to_nat id := 1]> filter else filter)
  end.

Definition make_filter (ids : option (list Z)) (filter_count : Z) : total (list Z) :=
  mark_filter ids (Z.to_nat filter_count) 0 (replicate 512 0).
Definition filter_on (ids : option (list Z)) (filter_count : Z) : bool :=
  match ids with Some _ => 0 <? filter_count | None => false end.

(** The first inactive slot. *)
Fixpoint free_slot (l : list btelem_client) (i : nat) : option nat :=
  match l with
  | [] => None
  | c :: l => if negb (cl_active c) then Some i else free_slot l (S i)
  end.

(** [head]: what the load of the ring's head returned. *)
Definition btelem_client_open (x : btelem_ctx) (head : Z) (ids : option (list Z)) (filter_count : Z)
    : total (btelem_ctx * option nat) :=
  match free_slot (x_clients x) 0 with
  | None => mret (x, None)
  | Some i =>
    filter ← make_filter ids filter_count;
    mret (set_clients (<[i := mkClient head filter (filter_on ids filter_count) 0 0 true]> (x_clients x)) x, Some i)
  end.

Definition set_active (b : bool) (c : btelem_client) : btelem_client :=
  mkClient (cl_cursor c) (cl_filter c) (cl_filter_active c) (cl_dropped c) (cl_dropped_reported c) b.

Definition btelem_client_close (x : btelem_ctx) (client_id : Z) : btelem_ctx :=
  if (client_id <? 0) || (BTELEM_MAX_CLIENTS <=? client_id) then x
  else set_clients (alter (set_active false) (Z.to_nat client_id) (x_clients x)) x.

Definition btelem_client_set_filter (x : btelem_ctx) (client_id : Z) (ids : option (list Z)) (filter_count : Z)
    : total btelem_ctx :=
  if (client_id <? 0) || (BTELEM_MAX_CLIENTS <=? client_id) then mret x
  else
    filter ← make_filter ids filter_count;
    mret (set_clients (alter (fun c => mkClient (cl_cursor c) filter (filter_on ids filter_count) (cl_dropped c)
                                         (cl_dropped_reported c) (cl_active c)) (Z.to_nat client_id) (x_clients x)) x).

(** The entries a client can read and, when it wants the count, those it lost
    ([None]: the variable is not written). *)
Definition btelem_client_available (x : btelem_ctx) (client_id head : Z) : total (Z * option Z) :=
  if (client_id <? 0) || (BTELEM_MAX_CLIENTS <=? client_id) then mret (0, None)
  else
    c ← index (x_clients x) client_id;
    mret (if cl_cursor c <? head then
            let oldest := if r_capacity (x_ring x) <? head then head - r_capacity (x_ring x) else 0 in
            if cl_cursor c <? oldest then (head - oldest, Some (oldest - cl_cursor c))
            else (head - cl_cursor c, Some 0)
          else (0, None)).

(** ** What a drain reads *)
Record observation := mkObs { ob_seq : Z; ob_local : btelem_entry; ob_seq2 : Z }.
Record memory := mkMemory { m_head : Z; m_view : Z -> observation }.

(** [c->cursor] behind the oldest entry still there: skip to it. *)
Definition skip_overwritten (capacity head : Z) (c : btelem_client) : btelem_client :=
  if capacity <? head then
    let oldest := head - capacity in
    if cl_cursor c <? oldest
    then mkClient oldest (cl_filter c) (cl_filter_active c) (wrap 64 (cl_dropped c + (oldest - cl_cursor c)))
                  (cl_dropped_reported c) (cl_active c)
    else c
  else c.

Definition advance (c : btelem_client) : btelem_client :=
  mkClient (wrap 64 (cl_cursor c + 1)) (cl_filter c) (cl_filter_active c) (cl_dropped c) (cl_dropped_reported c) (cl_active c).
Definition drop_one (c : btelem_client) : btelem_client :=
  mkClient (wrap 64 (cl_cursor c + 1)) (cl_filter c) (cl_filter_active c) (wrap 64 (cl_dropped c + 1))
           (cl_dropped_reported c) (cl_active c).

(** [!(c->filter_active && !c->filter[local.id])]. *)
Definition passes (c : btelem_client) (e : btelem_entry) : total bool :=
  if cl_filter_active c then f ← index (cl_filter c) (e_id e); mret (negb (f =? 0)) else mret true.

(** ** [btelem_drain] *)
Section drain.
Context {U : Type} (emit : btelem_entry -> U -> U * Z).

Fixpoint drain_loop (n : nat) (m : memory) (c : btelem_client) (u : U) (emitted : Z) : total (btelem_client * U * Z) :=
  match n with
  | O => mret (c, u, emitted)
  | S n =>
    if negb (cl_cursor c <? m_head m) then mret (c, u, emitted)
    else
      let o := m_view m (cl_cursor c) in
      if negb (ob_seq o =? wrap 64 (cl_cursor c + 1)) then mret (c, u, emitted)
      else if negb (ob_seq2 o =? ob_seq o) then drain_loop n m (drop_one c) u emitted
      else
        let c := advance c in
        ok ← passes c (ob_local o);
        if negb ok then drain_loop n m c u emitted
        else
          let '(u, rc) := emit (ob_local o) u in
          if negb (rc =? 0) then mret (c, u, emitted)
          else drain_loop n m c u (emitted + 1)
  end.

Definition btelem_drain (x : btelem_ctx) (client_id : Z) (m : memory) (u : U) : total (btelem_ctx * U * Z) :=
  if (client_id <? 0) || (BTELEM_MAX_CLIENTS <=? client_id) then mret (x, u, -1)
  else
    c ← index (x_clients x) client_id;
    if negb (cl_active c) then mret (x, u, -1)
    else
      let c := skip_overwritten (r_capacity (x_ring x)) (m_head m) c in
      r ← drain_loop (Z.to_nat (m_head m - cl_cursor c)) m c u 0;
      let '(c, u, emitted) := r in
      mret (set_clients (<[Z.to_nat client_id := c]> (x_clients x)) x, u, emitted).
End drain.

(** ** [btelem_drain_packed] *)

(** The output while it is filled: the caller's buffer, [entry_count] and
    [payload_offset]. *)
Record batch := mkBatch { b_buf : list byte; b_count : Z; b_offset : Z }.

(** [struct btelem_entry_header], packed. *)
Definition entry_header (e : btelem_entry) (payload_offset : Z) : list byte :=
  le_bytes 2 (e_id e) ++ le_bytes 2 (e_payload_size e) ++ le_bytes 4 payload_offset ++ le_bytes 8 (e_timestamp e).

Section packed.
Context (m : memory) (max_entries : Z).
Definition table_at (i : Z) : Z := sizeof_packet_header + i * sizeof_entry_header.

(** A table row and its payload. *)
Definition add_entry (local : btelem_entry) (b : batch) : total batch :=
  buf ← write_at (b_buf b) (table_at (b_count b)) (entry_header local (b_offset b));
  payload ← subslice (e_payload local) 0 (e_payload_size local);
  buf ← write_at buf (table_at max_entries + b_offset b) payload;
  mret (mkBatch buf (wrap 16 (b_count b + 1)) (wrap 32 (b_offset b + e_payload_size local))).

Fixpoint pack_loop (n : nat) (c : btelem_client) (b : batch) : total (btelem_client * batch) :=
  match n with
  | O => mret (c, b)
  | S n =>
    if negb (cl_cursor c <? m_head m) then mret (c, b)
    else
      let o := m_view m (cl_cursor c) in
      let local := ob_local o in
      if negb (ob_seq o =? wrap 64 (cl_cursor c + 1)) then mret (c, b)
      else if negb (ob_seq2 o =? ob_seq o) then pack_loop n (drop_one c) b
      else
        let c := advance c in
        ok ← passes c local;
        if negb ok then pack_loop n c b
        else
          let payload_capacity := blen (b_buf b) - table_at max_entries in
          if payload_capacity <? wrap 32 (b_offset b + e_payload_size local) then mret (c, b)
          else if wrap 16 max_entries <=? b_count b then mret (c, b)
          else b ← add_entry local b; pack_loop n c b
  end.
End packed.

(** The drop counter of the packet header, saturated to 32 bits. *)
Definition drop_report (c : btelem_client) : Z :=
  let drop_delta := wrap 64 (cl_dropped c - cl_dropped_reported c) in
  if 2 ^ 32 - 1 <? drop_delta then 2 ^ 32 - 1 else drop_delta.

Definition report (c : btelem_client) : btelem_client :=
  mkClient (cl_cursor c) (cl_filter c) (cl_filter_active c) (cl_dropped c)
           (wrap 64 (cl_dropped_reported c + drop_report c)) (cl_active c).

(** Closing the gap and filling the packet header. *)
Definition finish_packet (max_entries dropped : Z) (b : batch) : total (list byte) :=
  let start := table_at (b_count b) in
  buf ← (if negb (start =? table_at max_entries) then
           data ← subslice (b_buf b) (table_at max_entries) (b_offset b);
           write_at (b_buf b) start data
         else mret (b_buf b));
  write_at buf 0 (le_bytes 2 (b_count b) ++ le_bytes 2 0 ++ le_bytes 4 (b_offset b) ++ le_bytes 4 dropped ++ le_bytes 4 0).

(** How many entries a buffer takes, at the worst payload. *)
Definition max_entries_of (buf_size available : Z) : Z :=
  Z.min ((buf_size - sizeof_packet_header) / (sizeof_entry_header + BTELEM_MAX_PAYLOAD)) available.

(** The client, the buffer and the result. *)
Definition pack_client (capacity : Z) (m : memory) (c : btelem_client) (buf : list byte)
    : total (btelem_client * list byte * Z) :=
  let c := skip_overwritten capacity (m_head m) c in
  if m_head m <=? cl_cursor c then mret (c, buf, 0)
  else if blen buf <? sizeof_packet_header then mret (c, buf, -1)
  else
    let available := Z.min (m_head m - cl_cursor c) capacity in
    let max_entries := max_entries_of (blen buf) available in
    if max_entries =? 0 then mret (c, buf, 0)
    else
      r ← pack_loop m max_entries (Z.to_nat (m_head m - cl_cursor c)) c (mkBatch buf 0 0);
      let '(c, b) := r in
      if b_count b =? 0 then mret (c, b_buf b, 0)
      else
        buf ← finish_packet max_entries (drop_report c) b;
        mret (report c, buf, table_at (b_count b) + b_offset b).

Definition btelem_drain_packed (x : btelem_ctx) (client_id : Z) (m : memory) (buf : list byte)
    : total (btelem_ctx * list byte * Z) :=
  if (client_id <? 0) || (BTELEM_MAX_CLIENTS <=? client_id) then mret (x, buf, -1)
  else
    c ← index (x_clients x) client_id;
    if negb (cl_active c) then mret (x, buf, -1)
    else
      r ← pack_client (r_capacity (x_ring x)) m c buf;
      let '(c, buf, n) := r in
      mret (set_clients (<[Z.to_nat client_id := c]> (x_clients x)) x, buf, n).

(** ** The log and the promise of the ring

    [log] is everything logged so far, by slot number. *)
Definition logged_ok (d : DecodedEntry) : Prop :=
  in_u 16 (de_id d) /\ in_u 64 (de_timestamp d) /\ blen (de_payload d) <= BTELEM_MAX_PAYLOAD.
Definition log_ok (log : list DecodedEntry) : Prop := in_u 64 (blen log) /\ Forall logged_ok log.

(** A slot that holds a logged entry; the bytes beyond the payload are stale. *)
Definition records (e : btelem_entry) (d : DecodedEntry) : Prop :=
  e_id e = de_id d /\ e_timestamp e = de_timestamp d /\ e_payload_size e = blen (de_payload d) /\
  exists stale, e_payload e = de_payload d ++ stale.

Definition committed (m : memory) (i : Z) : Prop := ob_seq (m_view m i) = i + 1.
Definition untorn (m : memory) (i : Z) : bool := ob_seq2 (m_view m i) =? ob_seq (m_view m i).

Class Faithful (m : memory) (log : list DecodedEntry) : Prop := {
  fa_head : 0 <= m_head m <= blen log;
  fa_view i : 0 <= i < m_head m -> committed m i -> untorn m i = true ->
    exists d, log !! Z.to_nat i = Some d /\ records (ob_local (m_view m i)) d;
}.

(** What a client accepts, and the state of one that has read part of the log. *)
Definition accepts (c : btelem_client) (d : DecodedEntry) : bool :=
  negb (cl_filter_active c) || negb (cl_filter c !!! Z.to_nat (de_id d) =? 0).
Record client_ok (c : btelem_client) (log : list DecodedEntry) : Prop := {
  co_counts : 0 <= cl_dropped_reported c <= cl_dropped c /\ cl_dropped c <= cl_cursor c;
  co_filter : length (cl_filter c) = 512%nat;
  co_ids : cl_filter_active c = true -> Forall (fun d => de_id d < 512) log;
}.

(** The accepted entries among the [n] from [lo], those read untorn; and how many
    were torn. *)
Fixpoint seen (m : memory) (log : list DecodedEntry) (keep : DecodedEntry -> bool) (n : nat) (lo : Z) : list DecodedEntry :=
  match n with
  | O => []
  | S n =>
    (if untorn m lo then match log !! Z.to_nat lo with Some d => if keep d then [d] else [] | None => [] end else [])
    ++ seen m log keep n (lo + 1)
  end.
Fixpoint torn (m : memory) (n : nat) (lo : Z) : Z :=
  match n with O => 0 | S n => (if untorn m lo then 0 else 1) + torn m n (lo + 1) end.

(** A client [k] positions further, [t] of them torn. *)
Definition walked (c : btelem_client) (k : nat) (t : Z) : btelem_client :=
  mkClient (cl_cursor c + Z.of_nat k) (cl_filter c) (cl_filter_active c) (cl_dropped c + t) (cl_dropped_reported c) (cl_active c).

Lemma walked_0 c : walked c 0 0 = c.
Proof. destruct c. unfold walked. cbn. f_equal; lia. Qed.

Lemma torn_range m n lo : 0 <= torn m n lo <= Z.of_nat n.
Proof. revert lo. induction n as [|n IH]; intros lo; cbn [torn]; [lia|]. specialize (IH (lo + 1)). destruct (untorn m lo); lia. Qed.

Lemma seen_length m log keep n lo : blen (seen m log keep n lo) + torn m n lo <= Z.of_nat n.
Proof.
  revert lo. induction n as [|n IH]; intros lo; cbn [seen torn]; [done|]. specialize (IH (lo + 1)). rewrite blen_app.
  destruct (untorn m lo); [|rewrite blen_nil; lia]. destruct (log !! Z.to_nat lo) as [d|]; [destruct (keep d)|];
    rewrite ?blen_cons, ?blen_nil; lia.
Qed.

(** ** The drain loops, walked *)
Section walk.
Context (m : memory) (log : list DecodedEntry) `{HF : !Faithful m log} (Hlog : log_ok log).

Lemma head_u64 : in_u 64 (m_head m) /\ m_head m + 1 <= 2 ^ 64.
Proof using All. destruct HF as [Hh _]. destruct Hlog as [[? ?] _]. unfold in_u. lia. Qed.

Lemma advance_walked c : 0 <= cl_cursor c < m_head m -> advance c = walked c 1 0.
Proof using All.
  intros Hc. destruct head_u64 as [[_ H] _]. unfold advance, walked. rewrite wrap_small by (unfold in_u; lia).
  f_equal. lia.
Qed.

Lemma drop_one_walked c : 0 <= cl_dropped c <= cl_cursor c -> cl_cursor c < m_head m -> drop_one c = walked c 1 1.
Proof using All.
  intros Hd Hc. destruct head_u64 as [[_ H] _]. unfold drop_one, walked. by rewrite !wrap_small by (unfold in_u; lia).
Qed.

(** The filter reads its own array, at the id of a logged entry. *)
Lemma passes_ok c e d : client_ok c log -> d ∈ log -> records e d -> passes c e = Ok (accepts c d).
Proof using All.
  intros [_ Hf Hi] Hd (Ei & _). unfold passes, accepts. destruct (cl_filter_active c); [|done].
  specialize (Hi eq_refl). rewrite Forall_forall in Hi. specialize (Hi d Hd). unfold index. rewrite Ei.
  destruct (lookup_lt_is_Some_2 (cl_filter c) (Z.to_nat (de_id d))) as [v Hv]; [lia|].
  rewrite Hv. cbn. by rewrite (list_lookup_total_correct _ _ _ Hv).
Qed.

Lemma passes_walked c k t e : passes (walked c k t) e = passes c e.
Proof. done. Qed.

Lemma client_ok_walked c k t : client_ok c log -> 0 <= t <= Z.of_nat k -> client_ok (walked c k t) log.
Proof. intros [[? ?] ? ?] Ht. split; cbn; [lia|done|done]. Qed.

Lemma walked_walked c k t k' t' : walked (walked c k t) k' t' = walked c (k + k') (t + t').
Proof. unfold walked. cbn. f_equal; lia. Qed.
End walk.

(** ** The packet in the buffer *)
Lemma payload_offsets_app off es es' :
  payload_offsets off (es ++ es') = payload_offsets off es ++ payload_offsets (off + payload_total es) es'.
Proof.
  revert off. induction es as [|e es IH]; intros off; cbn [app payload_offsets].
  - unfold payload_total. cbn. by rewrite blen_nil, Z.add_0_r.
  - rewrite IH. f_equal. f_equal. f_equal. unfold payload_total. cbn [map concat]. rewrite blen_app. lia.
Qed.

Lemma payload_total_app es es' : payload_total (es ++ es') = payload_total es + payload_total es'.
Proof. unfold payload_total. by rewrite map_app, concat_app, blen_app. Qed.

Lemma payload_total_one d : payload_total [d] = blen (de_payload d).
Proof. unfold payload_total. cbn. by rewrite app_nil_r. Qed.

Lemma payload_total_bound es : Forall logged_ok es -> 0 <= payload_total es <= blen es * 232.
Proof.
  induction 1 as [|d es (_ & _ & Hd) _ IH]; [done|].
  rewrite (payload_total_app [d] es : payload_total (d :: es) = _), payload_total_one, blen_cons. pose proof (blen_nonneg (de_payload d)).
  unfold BTELEM_MAX_PAYLOAD in Hd. lia.
Qed.

Section batch.
Context (max : Z) (size : Z) (Hmax : 0 < max < 2 ^ 16) (Hroom : 16 + max * 16 + max * 232 <= size).

Record holds (b : batch) (es : list DecodedEntry) : Prop := {
  ho_size : blen (b_buf b) = size;
  ho_count : b_count b = blen es /\ blen es <= max;
  ho_offset : b_offset b = payload_total es;
  ho_logged : Forall logged_ok es;
  ho_table : seg (b_buf b) 16 (concat (map encode_entry_header (payload_offsets 0 es)));
  ho_payload : seg (b_buf b) (16 + max * 16) (concat (map de_payload es));
}.

Lemma table_len es : blen (concat (map encode_entry_header (payload_offsets 0 es))) = blen es * 16.
Proof. rewrite (blen_concat _ 16) by (intros; apply encode_entry_header_len). by rewrite blen_payload_offsets. Qed.

Lemma entry_header_records e d off : records e d -> entry_header e off = encode_entry_header (off, d).
Proof. intros (E1 & E2 & E3 & _). unfold entry_header, encode_entry_header. by rewrite E1, E2, E3. Qed.

Lemma add_entry_ok b es e d : holds b es -> blen es < max -> records e d -> logged_ok d ->
  returns (add_entry max e b) (fun b' => holds b' (es ++ [d])).
Proof using All.
  intros [Hs [Hc _] Ho Hl Ht Hp] Hlt Hr Hd. pose proof (payload_total_bound es Hl) as Hpt.
  assert (Hb : payload_total (es ++ [d]) <= max * 232).
  { etrans; [apply payload_total_bound; by apply Forall_app_2; [|constructor]|]. rewrite blen_app, blen_cons, blen_nil. lia. }
  rewrite payload_total_app, payload_total_one in Hb. pose proof (blen_nonneg (de_payload d)) as Hd0.
  unfold add_entry, table_at, sizeof_packet_header, sizeof_entry_header. rewrite Hc, Ho, (entry_header_records e d _ Hr).
  eapply returns_bind; [apply write_at_ok; rewrite ?encode_entry_header_len; pose proof (blen_nonneg es); lia|].
  rewrite encode_entry_header_len. intros b1 (L1 & S1 & K1).
  destruct Hr as (E1 & E2 & E3 & stale & E4). rewrite E3, E4. unfold subslice. rewrite blen_app.
  replace (0 + blen (de_payload d) <=? _) with true by (pose proof (blen_nonneg stale); lia). cbn [mbind res_bind].
  assert (slice (de_payload d ++ stale) 0 (blen (de_payload d)) = de_payload d) as -> by (by apply (slice_app [])).
  eapply returns_bind; [apply write_at_ok; lia|]. intros b2 (L2 & S2 & K2). apply returns_ret.
  rewrite !wrap_small by (unfold in_u; pose proof (blen_nonneg es); lia).
  assert (H1 : seg b2 16 (concat (map encode_entry_header (payload_offsets 0 es)))).
  { apply K2; [apply K1; [done|rewrite table_len; lia]|rewrite table_len; lia]. }
  assert (H2 : seg b2 (16 + max * 16) (concat (map de_payload es))).
  { apply K2; [apply K1; [done|lia]|fold (payload_total es); lia]. }
  split; cbn; [lia|rewrite blen_app, blen_cons, blen_nil; lia|by rewrite payload_total_app, payload_total_one|..].
  - by apply Forall_app_2; [|constructor].
  - rewrite payload_offsets_app, map_app, concat_app, seg_app, table_len. split; [done|]. cbn [payload_offsets map concat].
    rewrite app_nil_r. apply K2; [exact S1|rewrite encode_entry_header_len; lia].
  - rewrite map_app, concat_app, seg_app. split; [done|]. cbn [map concat]. rewrite app_nil_r. exact S2.
Qed.

(** Closing the gap leaves the packet of the wire format. *)
Lemma finish_packet_ok b es dropped : holds b es ->
  returns (finish_packet max dropped b) (fun buf =>
    blen buf = size /\ take (Z.to_nat (table_at (b_count b) + b_offset b)) buf = encode_packet 0 dropped es).
Proof using All.
  intros [Hs [Hc Hle] Ho Hl Ht Hp]. pose proof (payload_total_bound es Hl) as Hpt. pose proof (blen_nonneg es) as H0.
  unfold finish_packet, table_at, sizeof_packet_header, sizeof_entry_header. rewrite Hc, Ho.
  eapply returns_bind with (P := fun buf => blen buf = size /\
    seg buf 16 (concat (map encode_entry_header (payload_offsets 0 es)) ++ concat (map de_payload es))).
  { assert (Hs0 : forall buf, blen buf = size -> seg buf 16 (concat (map encode_entry_header (payload_offsets 0 es))) ->
      seg buf (16 + blen es * 16) (concat (map de_payload es)) -> blen buf = size /\
      seg buf 16 (concat (map encode_entry_header (payload_offsets 0 es)) ++ concat (map de_payload es))).
    { intros buf H1 H2 H3. split; [done|]. rewrite seg_app, table_len. done. }
    destruct (16 + blen es * 16 =? 16 + max * 16) eqn:E; cbn [negb].
    - apply returns_ret, Hs0; [done..|]. apply Z.eqb_eq in E. by rewrite E.
    - unfold subslice. replace (_ <=? _) with true by lia. cbn [mbind res_bind]. rewrite (seg_slice _ _ _ _ Hp) by done.
      eapply returns_impl; [apply write_at_ok; fold (payload_total es); lia|]. intros buf (L & S & K).
      apply Hs0; [lia| |done]. apply K; [done|]. rewrite table_len. lia. }
  intros buf [L S]. eapply returns_impl; [apply write_at_ok; autorewrite with blen; lia|].
  autorewrite with blen. intros buf' (L' & S' & K'). split; [lia|].
  apply K' in S; [|right; lia].
  assert (Hseg : seg buf' 0 (encode_packet 0 dropped es)).
  { pose proof (proj2 (seg_app buf' 0 _ _) (conj S' ltac:(autorewrite with blen; exact S))) as H.
    unfold encode_packet. by rewrite <-!app_assoc in H. }
  destruct Hseg as (p & r & -> & Hp0). destruct p; [|unfold blen in Hp0; cbn in Hp0; lia]. cbn [app].
  rewrite take_app_le; [apply take_ge|]; unfold encode_packet; rewrite !length_app, !length_le_bytes;
    pose proof (table_len es) as Htl; unfold payload_total, blen in *; lia.
Qed.
End batch.

(** ** One packet *)
Section pack.
Context (m : memory) (log : list DecodedEntry) `{HF : !Faithful m log} (Hlog : log_ok log).
Context (max size : Z) (Hmax : 0 < max < 2 ^ 16) (Hroom : 16 + max * 16 + max * 232 <= size).

(** What a walk over [k] positions has packed on top of [es0]: what it saw, less an
    entry [lost] for which the packet had no room. *)
Record packed (n : nat) (c : btelem_client) (es0 : list DecodedEntry) (k : nat) (es lost : list DecodedEntry)
    (r : btelem_client * batch) : Prop := {
  pa_walked : (k <= n)%nat /\ r.1 = walked c k (torn m k (cl_cursor c));
  pa_seen : seen m log (accepts c) k (cl_cursor c) = es ++ lost;
  pa_holds : holds max size r.2 (es0 ++ es);
  pa_lost : lost = [] \/ (exists d, lost = [d]) /\ blen (es0 ++ es) = max;
  pa_stop : lost = [] -> (k < n)%nat -> ~ committed m (cl_cursor c + Z.of_nat k);
  pa_commits i : cl_cursor c <= i < cl_cursor c + Z.of_nat k -> committed m i;
}.

(** A step that saw [front], then the rest of the walk. *)
Lemma packed_step n c es0 front t k es lost r :
  committed m (cl_cursor c) ->
  (forall k, seen m log (accepts c) (S k) (cl_cursor c) = front ++ seen m log (accepts c) k (cl_cursor c + 1)) ->
  t = (if untorn m (cl_cursor c) then 0 else 1) ->
  packed n (walked c 1 t) (es0 ++ front) k es lost r -> packed (S n) c es0 (S k) (front ++ es) lost r.
Proof.
  intros Hc Hs -> [[Hk Hw] Hse Hh Hl Hst Hcm]. cbn [cl_cursor walked] in *. change (Z.of_nat 1) with 1 in *. rewrite <-app_assoc in *.
  change (accepts (walked c 1 _)) with (accepts c) in Hse. split; [|by rewrite Hs, Hse, app_assoc|done|done|..].
  - split; [lia|]. rewrite Hw, walked_walked. done.
  - intros Hn Hlt. replace (cl_cursor c + Z.of_nat (S k)) with (cl_cursor c + 1 + Z.of_nat k) by lia. apply Hst; [done|lia].
  - intros i Hi. destruct (decide (i = cl_cursor c)) as [->|]; [done|]. apply Hcm. lia.
Qed.

Lemma packed_done n c es0 b : holds max size b es0 -> (n = 0%nat \/ ~ committed m (cl_cursor c)) -> packed n c es0 0 [] [] (c, b).
Proof.
  intros Hh Hn. split; cbn [fst snd torn seen]; [split; [lia|by rewrite walked_0]|done|by rewrite app_nil_r|by left|..].
  - intros _ Hlt. rewrite Z.add_0_r. destruct Hn as [->|]; [lia|done].
  - lia.
Qed.

(** The two checks for room: only a table of [max] entries is full. *)
Lemma room_checks b es e d : holds max size b es -> records e d -> logged_ok d ->
  ((blen (b_buf b) - table_at max <? wrap 32 (b_offset b + e_payload_size e)) = true -> blen es = max) /\
  (wrap 16 max <=? b_count b) = (max <=? blen es).
Proof using Hmax Hroom.
  intros [Hs [Hc Hcl] Ho Hl Ht Hp] (_ & _ & E3 & _) (_ & _ & Hd). pose proof (payload_total_bound es Hl) as Hpt.
  pose proof (blen_nonneg (de_payload d)). unfold BTELEM_MAX_PAYLOAD in Hd.
  unfold table_at, sizeof_packet_header, sizeof_entry_header. rewrite Hs, Ho, E3, Hc.
  rewrite !wrap_small by (unfold in_u; lia). split; [|done]. intros Hlt%Z.ltb_lt. nia.
Qed.

Lemma pack_loop_ok n c b es0 : client_ok c log -> n = Z.to_nat (m_head m - cl_cursor c) -> cl_cursor c <= m_head m ->
  holds max size b es0 ->
  returns (pack_loop m max n c b) (fun r => exists k es lost, packed n c es0 k es lost r).
Proof using All.
  revert c b es0. induction n as [|n IH]; intros c b es0 Hco Hn Hle Hb; cbn [pack_loop].
  { apply returns_ret. exists 0%nat, [], []. apply packed_done; [done|by left]. }
  pose proof (co_counts _ _ Hco) as Hct. replace (cl_cursor c <? m_head m) with true by lia. cbn [negb].
  destruct (head_u64 m log Hlog) as [Hh _]. rewrite wrap_small by (unfold in_u in *; lia).
  destruct (ob_seq (m_view m (cl_cursor c)) =? cl_cursor c + 1) eqn:Eq; cbn [negb]; cycle 1.
  { apply returns_ret. exists 0%nat, [], []. apply packed_done; [done|]. right. unfold committed. lia. }
  assert (Hcm : committed m (cl_cursor c)) by (unfold committed; lia). fold (untorn m (cl_cursor c)).
  assert (Hgo : forall b1 t front, (forall k, seen m log (accepts c) (S k) (cl_cursor c) = front ++ seen m log (accepts c) k (cl_cursor c + 1)) ->
    t = (if untorn m (cl_cursor c) then 0 else 1) -> holds max size b1 (es0 ++ front) ->
    returns (pack_loop m max n (walked c 1 t) b1) (fun r => exists k es lost, packed (S n) c es0 k es lost r)).
  { intros b1 t front Hf Ht Hb1. eapply returns_impl; [apply (IH (walked c 1 t) b1 (es0 ++ front)); [|cbn; lia|cbn; lia|exact Hb1]|].
    - apply client_ok_walked; [done|]. destruct (untorn _ _); lia.
    - intros r (k & es & lost & Hp). exists (S k), (front ++ es), lost. by apply (packed_step n c es0 front t). }
  destruct (untorn m (cl_cursor c)) eqn:Eu; cbn [negb]; cycle 1.
  { rewrite (drop_one_walked m log Hlog) by lia. apply (Hgo b 1 []); [|done|by rewrite app_nil_r].
    intros k. cbn [seen]. by rewrite Eu. }
  destruct (fa_view (cl_cursor c)) as (d & Hd & Hr); [lia|done|done|].
  pose proof (list_elem_of_lookup_2 _ _ _ Hd) as Hin. pose proof (proj1 (Forall_forall _ _) (proj2 Hlog) d Hin) as Hdo.
  assert (Hseen : forall k, seen m log (accepts c) (S k) (cl_cursor c) =
    (if accepts c d then [d] else []) ++ seen m log (accepts c) k (cl_cursor c + 1)) by (intros k; cbn [seen]; by rewrite Eu, Hd).
  rewrite (advance_walked m log Hlog) by lia. rewrite passes_walked, (passes_ok m log Hlog c _ d) by done. cbn [mbind res_bind].
  destruct (accepts c d) eqn:Ea; cbn [negb]; [|apply (Hgo b 0 []); [done|done|by rewrite app_nil_r]].
  destruct (room_checks b es0 _ d Hb Hr Hdo) as [R1 ->].
  assert (Hlost : blen es0 = max -> returns (mret (walked c 1 0, b) : total _) (fun r => exists k es lost, packed (S n) c es0 k es lost r)).
  { intros Hfull. apply returns_ret. exists 1%nat, [], [d]. split; cbn [fst snd]; rewrite ?app_nil_r; [|by rewrite (Hseen 0%nat)|done|right; eauto|done|].
    - split; [lia|]. cbn [torn]. by rewrite Eu.
    - intros i Hi. by replace i with (cl_cursor c) by lia. }
  destruct (_ <? _); [by apply Hlost, R1|]. pose proof (proj2 (ho_count _ _ _ _ Hb)).
  destruct (max <=? blen es0) eqn:E6; [apply Hlost; lia|].
  eapply returns_bind; [apply (add_entry_ok max size Hmax Hroom b es0 _ d); [done|lia|done|done]|].
  intros b1 Hb1. by apply (Hgo b1 0 [d]).
Qed.
End pack.

(** ** A whole drain *)

(** The oldest position a drain still reads. *)
Definition resume (capacity : Z) (m : memory) (c : btelem_client) : Z := Z.max (cl_cursor c) (m_head m - capacity).
Definition packet_room (capacity : Z) (m : memory) (c : btelem_client) (buf_size : Z) : Z :=
  max_entries_of buf_size (Z.min (m_head m - resume capacity m c) capacity).

Section whole.
Context (m : memory) (log : list DecodedEntry) `{HF : !Faithful m log} (Hlog : log_ok log).
Context (capacity : Z) (Hcap : 0 < capacity).
Context (c : btelem_client) (Hco : client_ok c log) (Hle : cl_cursor c <= m_head m).

(** The skip moves to [resume] and counts what it passes over. *)
Definition resumed : btelem_client :=
  mkClient (resume capacity m c) (cl_filter c) (cl_filter_active c) (cl_dropped c + (resume capacity m c - cl_cursor c))
           (cl_dropped_reported c) (cl_active c).

Lemma skip_resumed : skip_overwritten capacity (m_head m) c = resumed /\ client_ok resumed log /\
  cl_cursor c <= resume capacity m c <= m_head m.
Proof using All.
  destruct Hco as [Hct Hf Hi]. destruct (head_u64 m log Hlog) as [[_ Hh] _]. unfold skip_overwritten, resumed, resume.
  split_and!; [|split; cbn; [lia|done|done]|lia|lia].
  destruct (capacity <? m_head m) eqn:E1; [destruct (cl_cursor c <? _) eqn:E2|].
  - rewrite wrap_small by (unfold in_u; lia). rewrite Z.max_r by lia. done.
  - rewrite Z.max_l by lia. destruct c; cbn. f_equal; lia.
  - rewrite Z.max_l by lia. destruct c; cbn. f_equal; lia.
Qed.

(** The outcome of a drain that walked [k] positions and packed [es]. *)
Record drained (buf : list byte) (k : nat) (es lost : list DecodedEntry) (r : btelem_client * list byte * Z) : Prop := {
  dr_walk : resume capacity m c + Z.of_nat k <= m_head m /\
    (forall i, resume capacity m c <= i < resume capacity m c + Z.of_nat k -> committed m i);
  dr_seen : seen m log (accepts c) k (resume capacity m c) = es ++ lost;
  dr_client : let c' := walked resumed k (torn m k (resume capacity m c)) in
    r.1.1 = (if bool_decide (es = []) then c' else report c') /\ client_ok r.1.1 log;
  dr_buf : blen r.1.2 = blen buf;
  dr_packet : (es = [] /\ r.2 <= 0) \/
    (0 < r.2 <= blen buf /\ entries_fit es /\ exists d, in_u 32 d /\ take (Z.to_nat r.2) r.1.2 = encode_packet 0 d es);
  dr_lost : lost = [] \/ (exists d, lost = [d]) /\ blen es = packet_room capacity m c (blen buf) /\
    blen es = (blen buf - 16) / 248 /\ blen es < m_head m - resume capacity m c;
  dr_room : es = [] \/ blen es <= packet_room capacity m c (blen buf);
  dr_stop : lost = [] -> 0 < packet_room capacity m c (blen buf) -> resume capacity m c + Z.of_nat k < m_head m ->
    ~ committed m (resume capacity m c + Z.of_nat k);
}.

Lemma report_ok c' : client_ok c' log -> cl_cursor c' <= m_head m -> client_ok (report c') log /\ in_u 32 (drop_report c').
Proof using All.
  intros [Hct Hf Hi] Hm. destruct (head_u64 m log Hlog) as [[_ Hh] _].
  assert (Hd : drop_report c' = Z.min (2 ^ 32 - 1) (cl_dropped c' - cl_dropped_reported c')).
  { unfold drop_report. rewrite wrap_small by (unfold in_u; lia). destruct (_ <? _) eqn:E; lia. }
  split; [|unfold in_u; lia]. split; cbn; [|done|done]. rewrite wrap_small by (unfold in_u; lia). lia.
Qed.

Lemma nothing_drained buf n : n <= 0 -> ~ 0 < packet_room capacity m c (blen buf) \/ m_head m <= resume capacity m c ->
  drained buf 0 [] [] (resumed, buf, n).
Proof using All.
  intros Hn Hr. destruct skip_resumed as (_ & Hok & Hb). split; cbn; [split; lia|done| |done|by left|by left|by left|lia].
  rewrite walked_0. done.
Qed.

Lemma seen_logged k lo es lost : seen m log (accepts c) k lo = es ++ lost -> Forall logged_ok es.
Proof using Hlog.
  intros H. enough (Forall logged_ok (seen m log (accepts c) k lo)) as Hs by (rewrite H in Hs; by apply Forall_app in Hs as [? _]).
  clear H. revert lo. induction k as [|k IH]; intros lo; cbn [seen]; [constructor|]. apply Forall_app_2; [|apply IH].
  destruct (untorn m lo); [|constructor]. destruct (log !! _) as [d|] eqn:Ed; [|constructor].
  destruct (accepts c d); [|constructor]. constructor; [|constructor]. by apply (Forall_lookup_1 _ _ _ _ (proj2 Hlog) Ed).
Qed.

Lemma packet_room_fits (buf : list byte) : 16 <= blen buf ->
  16 + packet_room capacity m c (blen buf) * 16 + packet_room capacity m c (blen buf) * 232 <= blen buf.
Proof.
  intros Hb. unfold packet_room, max_entries_of, sizeof_packet_header, sizeof_entry_header, BTELEM_MAX_PAYLOAD.
  pose proof (Z.mul_div_le (blen buf - 16) 248 ltac:(lia)). change (16 + 232) with 248. lia.
Qed.

(** What the packing loop leaves is a packet, or nothing. *)
Lemma finish_drained buf k es lost r : 0 < packet_room capacity m c (blen buf) < 2 ^ 16 -> 16 <= blen buf ->
  packed m log (packet_room capacity m c (blen buf)) (blen buf) (Z.to_nat (m_head m - resume capacity m c)) resumed [] k es lost r ->
  returns (let '(c1, b) := r in
    if b_count b =? 0 then mret (c1, b_buf b, 0)
    else buf ← finish_packet (packet_room capacity m c (blen buf)) (drop_report c1) b;
         mret (report c1, buf, table_at (b_count b) + b_offset b)) (drained buf k es lost).
Proof using All.
  intros Hroom Hb [[Hk Hw] Hs Hh Hl Hst Hcm]. destruct r as [c1 b]. cbn [fst snd app] in *.
  destruct skip_resumed as (_ & Hok & Hres). cbn [cl_cursor resumed] in *. change (accepts resumed) with (accepts c) in Hs.
  set (max := packet_room _ _ _ _) in *. set (lo := resume capacity m c) in *.
  pose proof (packet_room_fits buf Hb) as Hfit. fold max in Hfit.
  pose proof (seen_length m log (accepts c) k lo) as Hlen. rewrite Hs, blen_app in Hlen.
  pose proof (torn_range m k lo) as Htr. pose proof (seen_logged k lo es lost Hs) as Hlg.
  assert (Hwok : client_ok c1 log) by (rewrite Hw; by apply client_ok_walked).
  assert (Hlost : lost = [] \/ (exists d, lost = [d]) /\ blen es = max /\ blen es = (blen buf - 16) / 248 /\ blen es < m_head m - lo).
  { destruct Hl as [->|[[d ->] Hfull]]; [by left|right]. rewrite blen_cons, blen_nil in Hlen.
    split_and!; [eauto|done| |lia]. rewrite Hfull in *. unfold max, packet_room, max_entries_of in *. fold lo in Hlen |- *.
    unfold sizeof_packet_header, sizeof_entry_header, BTELEM_MAX_PAYLOAD in *. change (16 + 232) with 248 in *.
    assert (m_head m - lo <= capacity) by (unfold lo, resume; lia). lia. }
  pose proof (ho_count _ _ _ _ Hh) as [Hc Hcle]. pose proof (ho_offset _ _ _ _ Hh) as Ho. pose proof (payload_total_bound es Hlg) as Hpt.
  destruct (b_count b =? 0) eqn:E0.
  - apply returns_ret. assert (es = []) as -> by (destruct es; [done|rewrite blen_cons in Hc; pose proof (blen_nonneg es); lia]).
    split; cbn; [split; [lia|done]|done|by rewrite Hw in *|by apply (ho_size _ _ _ _ Hh)|by left|done|by left|]. intros. apply Hst; [done|lia].
  - destruct (report_ok c1 Hwok) as [Hrep Hd]; [rewrite Hw; cbn; lia|].
    eapply returns_bind; [apply (finish_packet_ok max (blen buf) Hroom Hfit b es (drop_report c1) Hh)|].
    intros buf' [L T]. apply returns_ret. pose proof (blen_nonneg es).
    split; cbn [fst snd]; [split; [lia|done]|done| |done| |done|by right|intros; apply Hst; [done|lia]].
    + rewrite bool_decide_eq_false_2 by (intros ->; rewrite blen_nil in Hc; lia). by rewrite Hw in *.
    + right. unfold table_at, sizeof_packet_header, sizeof_entry_header in *. split_and!; [lia|lia| |by exists (drop_report c1)].
      split_and!; [unfold in_u; lia|unfold in_u; lia|]. eapply Forall_impl; [exact Hlg|].
      intros d (? & ? & Hd3). unfold BTELEM_MAX_PAYLOAD in Hd3. split_and!; [done|done|split; [done|lia]].
Qed.

Lemma pack_client_ok buf : packet_room capacity m c (blen buf) < 2 ^ 16 ->
  returns (pack_client capacity m c buf) (fun r => exists k es lost, drained buf k es lost r).
Proof using All.
  intros Hsmall. destruct skip_resumed as (Es & Hok & Hb). unfold pack_client. rewrite Es. cbn [cl_cursor resumed].
  destruct (m_head m <=? resume capacity m c) eqn:E1.
  { apply returns_ret. exists 0%nat, [], []. apply nothing_drained; [done|right; lia]. }
  unfold sizeof_packet_header. destruct (blen buf <? 16) eqn:E2.
  { apply returns_ret. exists 0%nat, [], []. apply nothing_drained; [done|left]. unfold packet_room, max_entries_of, sizeof_packet_header.
    pose proof (Z.div_lt_upper_bound (blen buf - 16) (sizeof_entry_header + BTELEM_MAX_PAYLOAD) 0 ltac:(done)). lia. }
  change (max_entries_of _ _) with (packet_room capacity m c (blen buf)).
  destruct (packet_room capacity m c (blen buf) =? 0) eqn:E3.
  { apply returns_ret. exists 0%nat, [], []. apply nothing_drained; [done|left; lia]. }
  assert (H0 : 0 < packet_room capacity m c (blen buf)).
  { enough (0 <= packet_room capacity m c (blen buf)) by lia. unfold packet_room, max_entries_of, sizeof_packet_header.
    apply Z.min_glb; [apply Z.div_pos; [lia|done]|lia]. }
  pose proof (packet_room_fits buf ltac:(lia)) as Hfit. eapply returns_bind.
  - apply (pack_loop_ok m log Hlog _ (blen buf)) with (es0 := []); [lia|lia|done|done|cbn; lia|].
    + split; cbn [b_buf b_count b_offset]; [done|unfold blen at 1 2; cbn; lia|done|constructor|apply seg_nil; lia|apply seg_nil; lia].
  - intros r (k & es & lost & Hp). eapply returns_impl; [by apply finish_drained; [lia|lia|exact Hp]|]. eauto.
Qed.
End whole.

(** ** The ring between logs *)

(** Reading while no producer runs. *)
Definition quiet (r : btelem_ring) : memory :=
  mkMemory (r_head r) (fun i =>
    let e := default zero_entry (r_entries r !! Z.to_nat (Z.land i (r_mask r))) in mkObs (e_seq e) e (e_seq e)).

Record cring_ok (r : btelem_ring) (log : list DecodedEntry) : Prop := {
  cr_cap : exists k, 0 <= k /\ r_capacity r = 2 ^ k /\ r_mask r = 2 ^ k - 1;
  cr_head : r_head r = blen log;
  cr_len : blen (r_entries r) = r_capacity r;
  cr_slot j e : r_entries r !! j = Some e -> blen (e_payload e) = 232 /\
    (e_seq e = 0 \/ exists i d, e_seq e = Z.of_nat i + 1 /\ log !! i = Some d /\ records e d);
  cr_fresh i d : log !! i = Some d -> blen log - r_capacity r <= Z.of_nat i ->
    exists e, r_entries r !! Z.to_nat (Z.of_nat i mod r_capacity r) = Some e /\ e_seq e = Z.of_nat i + 1 /\ records e d;
}.

Lemma init_ring_ok n x : 0 <= n -> btelem_init n = Some x -> cring_ok (x_ring x) [].
Proof.
  intros Hn. unfold btelem_init. destruct (is_power_of_2 n) eqn:E; [|done]. intros [= <-].
  apply is_power_of_2_spec in E as (k & Hk & ->); [|done].
  split; cbn; [by exists k|done|unfold blen; rewrite length_replicate; lia| |done].
  intros j e He. apply lookup_replicate in He as [-> _]. split; [done|by left].
Qed.

Lemma slot_of r log i : cring_ok r log -> Z.land i (r_mask r) = i mod r_capacity r /\ 0 < r_capacity r.
Proof.
  intros [(k & Hk & -> & ->) _ _ _ _]. rewrite mask_mod by done. split; [done|]. by apply Z.pow_pos_nonneg.
Qed.

Lemma slot_lookup r log i : cring_ok r log -> is_Some (r_entries r !! Z.to_nat (i mod r_capacity r)).
Proof.
  intros Hr. destruct (slot_of r log i Hr) as [_ Hc]. apply lookup_lt_is_Some_2. pose proof (cr_len _ _ Hr) as Hl.
  pose proof (Z.mod_pos_bound i _ Hc). unfold blen in Hl. lia.
Qed.

Lemma mod_distinct a i j : 0 < a -> 0 < i - j < a -> i mod a <> j mod a.
Proof.
  intros Ha Hij E. pose proof (Z.div_mod i a ltac:(lia)). pose proof (Z.div_mod j a ltac:(lia)). rewrite E in *.
  set (q := i / a - j / a). assert (i - j = a * q) as Hq by (unfold q; lia). clearbody q.
  destruct (Z.lt_trichotomy q 0) as [?|[->|?]]; nia.
Qed.

(** Logging without interruption appends to the log. *)
Lemma log_ring_ok x log ts id d : cring_ok (x_ring x) log -> log_ok (log ++ [mkDecodedEntry id ts d]) ->
  returns (BTELEM_LOG_ID x ts id d) (fun x' =>
    cring_ok (x_ring x') (log ++ [mkDecodedEntry id ts d]) /\ x' = set_ring (x_ring x') x /\
    r_capacity (x_ring x') = r_capacity (x_ring x)).
Proof.
  intros Hr [[_ Hl] Hall]. apply Forall_app in Hall as [_ Hall]. apply Forall_cons in Hall as [(Hd1 & Hd2 & Hd3) _].
  cbn [de_id de_timestamp de_payload] in *. unfold BTELEM_MAX_PAYLOAD in Hd3. rewrite blen_app, blen_cons, blen_nil in Hl.
  unfold BTELEM_LOG_ID. set (r := x_ring x) in *. destruct (slot_of r log (r_head r) Hr) as [-> Hc].
  destruct (slot_lookup r log (r_head r) Hr) as [e He]. unfold index. rewrite He. cbn [mbind res_bind].
  destruct (cr_slot _ _ Hr _ _ He) as [Hpl _]. pose proof (cr_head _ _ Hr) as Hh. pose proof (blen_nonneg log). pose proof (blen_nonneg d).
  eapply returns_bind; [apply write_at_ok; lia|]. intros pl (L & (p & q & -> & Hp) & _).
  destruct p; [|rewrite blen_cons in Hp; pose proof (blen_nonneg p); lia]. cbn [app] in *. apply returns_ret.
  cbn [x_ring set_ring r_capacity]. rewrite !(wrap_small 64), !(wrap_small 16) by (unfold in_u in *; lia).
  set (e' := mkEntry _ _ _ _ _). assert (Hrec : records e' (mkDecodedEntry id ts d)) by (split_and!; cbn; eauto).
  assert (Hlast : (log ++ [mkDecodedEntry id ts d]) !! length log = Some (mkDecodedEntry id ts d)).
  { by apply list_lookup_middle. }
  split; [|done]. split; cbn.
  - apply (cr_cap _ _ Hr).
  - rewrite blen_app, blen_cons, blen_nil. lia.
  - unfold blen. rewrite length_insert. apply (cr_len _ _ Hr).
  - intros j e0 He0. apply list_lookup_insert_Some in He0 as [(<- & <- & _)|[Hne He0]].
    + split; [cbn; lia|right]. exists (length log), (mkDecodedEntry id ts d). split_and!; [cbn; unfold blen in Hh; lia|done|done].
    + destruct (cr_slot _ _ Hr _ _ He0) as [H1 [H2|(i & d' & H2 & H3 & H4)]]; split; [done|by left|done|right].
      exists i, d'. split_and!; [done|by apply lookup_app_l_Some|done].
  - intros i d' Hi Hfresh. apply lookup_app_Some in Hi as [Hi|[Hge Hi]].
    + rewrite blen_app, blen_cons, blen_nil in Hfresh. destruct (cr_fresh _ _ Hr i d' Hi ltac:(lia)) as (e0 & H1 & H2).
      pose proof (lookup_lt_Some _ _ _ Hi) as Hlt. exists e0. split; [|done]. rewrite list_lookup_insert_ne; [done|].
      intros E. apply (mod_distinct (r_capacity r) (r_head r) (Z.of_nat i)); [done|unfold blen in *; lia|].
      pose proof (Z.mod_pos_bound (r_head r) _ Hc). pose proof (Z.mod_pos_bound (Z.of_nat i) _ Hc). lia.
    + apply list_lookup_singleton_Some in Hi as [Hi <-]. assert (Z.of_nat i = r_head r) as -> by (unfold blen in Hh; lia).
      exists e'. split; [|done]. apply list_lookup_insert_eq. by eapply lookup_lt_Some.
Qed.

Lemma quiet_faithful r log : cring_ok r log -> Faithful (quiet r) log.
Proof.
  intros Hr. split; cbn; [rewrite (cr_head _ _ Hr); pose proof (blen_nonneg log); lia|].
  intros i Hi. unfold committed. cbn. destruct (slot_of r log i Hr) as [-> _]. destruct (slot_lookup r log i Hr) as [e He].
  rewrite He. cbn. intros Hs _. destruct (cr_slot _ _ Hr _ _ He) as [_ [H0|(j & d & H1 & H2 & H3)]]; [lia|].
  replace (Z.to_nat i) with j by lia. eauto.
Qed.

Lemma quiet_committed r log i : cring_ok r log -> blen log - r_capacity r <= i -> 0 <= i < blen log -> committed (quiet r) i.
Proof.
  intros Hr Hf Hi. destruct (lookup_lt_is_Some_2 log (Z.to_nat i)) as [d Hd]; [unfold blen in Hi; lia|].
  destruct (cr_fresh _ _ Hr _ _ Hd ltac:(lia)) as (e & He & Hs & _). rewrite Z2Nat.id in * by lia.
  unfold committed. cbn. destruct (slot_of r log i Hr) as [-> _]. by rewrite He.
Qed.

(** Untorn reads see exactly the accepted part of the log. *)
Lemma seen_untorn m log keep n lo : (forall i, lo <= i < lo + Z.of_nat n -> untorn m i = true) -> 0 <= lo ->
  seen m log keep n lo = filter (fun d => keep d = true) (slice log lo (Z.of_nat n)).
Proof.
  revert lo. induction n as [|n IH]; intros lo Hu Hlo; [done|]. cbn [seen]. rewrite Hu, IH by (intros; (lia || apply Hu; lia)).
  unfold slice. rewrite !Nat2Z.id. replace (Z.to_nat (lo + 1)) with (S (Z.to_nat lo)) by lia.
  destruct (log !! Z.to_nat lo) as [d|] eqn:E.
  - rewrite (drop_S log d _ E). cbn [take]. rewrite filter_cons. destruct (keep d); by destruct (decide _).
  - apply lookup_ge_None in E. rewrite (drop_ge log (S _)), (drop_ge log (Z.to_nat lo)) by lia. by rewrite !take_nil.
Qed.

Lemma slice_split {A} (l : list A) a b c : 0 <= a <= b -> b <= c -> slice l a (c - a) = slice l a (b - a) ++ slice l b (c - b).
Proof.
  intros Hab Hbc. unfold slice. replace (Z.to_nat (c - a)) with (Z.to_nat (b - a) + Z.to_nat (c - b))%nat by lia.
  replace (drop (Z.to_nat b) l) with (drop (Z.to_nat (b - a)) (drop (Z.to_nat a) l)) by (rewrite drop_drop; f_equal; lia).
  by rewrite take_take_drop.
Qed.

Lemma seen_sublist m log keep n lo : 0 <= lo -> seen m log keep n lo `sublist_of` slice log lo (Z.of_nat n).
Proof.
  revert lo. induction n as [|n IH]; intros lo Hlo; cbn [seen]; [done|].
  replace (Z.of_nat (S n)) with (lo + Z.of_nat (S n) - lo) by lia. rewrite (slice_split log lo (lo + 1)) by lia.
  apply sublist_app; [|replace (lo + Z.of_nat (S n) - (lo + 1)) with (Z.of_nat n) by lia; apply IH; lia].
  destruct (untorn m lo); [|apply sublist_nil_l]. unfold slice. replace (Z.to_nat (lo + 1 - lo)) with 1%nat by lia.
  destruct (log !! Z.to_nat lo) as [d|] eqn:E; [|apply sublist_nil_l]. rewrite (drop_S log d _ E). cbn. rewrite take_0.
  destruct (keep d); [done|apply sublist_nil_l].
Qed.

Lemma torn_untorn m n lo : (forall i, untorn m i = true) -> torn m n lo = 0.
Proof. intros Hu. revert lo. induction n as [|n IH]; intros lo; cbn [torn]; [done|]. by rewrite Hu, IH. Qed.

(** ** The callback drain *)
Section callback.
Context {U : Type} (emit : btelem_entry -> U -> U * Z) (Hemit : forall e u, (emit e u).2 = 0).
Context (m : memory) (log : list DecodedEntry) `{HF : !Faithful m log} (Hlog : log_ok log).

Record emitted (n : nat) (c : btelem_client) (u : U) (k : nat) (locals : list btelem_entry) (r : btelem_client * U) : Prop := {
  em_walked : (k <= n)%nat /\ r.1 = walked c k (torn m k (cl_cursor c));
  em_locals : Forall2 records locals (seen m log (accepts c) k (cl_cursor c));
  em_user : r.2 = foldl (fun u e => (emit e u).1) u locals;
  em_stop : (k < n)%nat -> ~ committed m (cl_cursor c + Z.of_nat k);
  em_commits i : cl_cursor c <= i < cl_cursor c + Z.of_nat k -> committed m i;
}.

Lemma drain_loop_ok n c u cnt : client_ok c log -> n = Z.to_nat (m_head m - cl_cursor c) -> cl_cursor c <= m_head m ->
  returns (drain_loop emit n m c u cnt) (fun r => exists k locals, emitted n c u k locals r.1 /\ r.2 = cnt + blen locals).
Proof using All.
  revert c u cnt. induction n as [|n IH]; intros c u cnt Hco Hn Hle; cbn [drain_loop].
  { apply returns_ret. exists 0%nat, []. rewrite blen_nil. split; [|cbn; lia].
    split; cbn; [by rewrite walked_0|constructor|done|lia|lia]. }
  pose proof (co_counts _ _ Hco) as Hct. replace (cl_cursor c <? m_head m) with true by lia. cbn [negb].
  destruct (head_u64 m log Hlog) as [Hh _]. rewrite wrap_small by (unfold in_u in *; lia).
  destruct (ob_seq (m_view m (cl_cursor c)) =? cl_cursor c + 1) eqn:Eq; cbn [negb]; cycle 1.
  { apply returns_ret. exists 0%nat, []. rewrite blen_nil. split; [|cbn; lia].
    split; cbn; [split; [lia|by rewrite walked_0]|constructor|done|unfold committed; rewrite Z.add_0_r; lia|lia]. }
  assert (Hcm : committed m (cl_cursor c)) by (unfold committed; lia). fold (untorn m (cl_cursor c)).
  assert (Hgo : forall t front l1 u1 cnt1, (forall k, seen m log (accepts c) (S k) (cl_cursor c) = front ++ seen m log (accepts c) k (cl_cursor c + 1)) ->
    t = (if untorn m (cl_cursor c) then 0 else 1) -> Forall2 records l1 front -> u1 = foldl (fun u e => (emit e u).1) u l1 -> cnt1 = cnt + blen l1 ->
    returns (drain_loop emit n m (walked c 1 t) u1 cnt1) (fun r => exists k locals, emitted (S n) c u k locals r.1 /\ r.2 = cnt + blen locals)).
  { intros t front l1 u1 cnt1 Hf Ht Hl1 -> ->. eapply returns_impl; [apply (IH (walked c 1 t)); [|cbn; lia|cbn; lia]|].
    - apply client_ok_walked; [done|]. destruct (untorn _ _); lia.
    - intros r (k & l & [[Hk Hw] H2 H3 H4 H5] & Hc). cbn [cl_cursor walked] in *. change (Z.of_nat 1) with 1 in *. exists (S k), (l1 ++ l).
      rewrite blen_app. split; [|lia]. split; [|rewrite Hf; by apply Forall2_app|by rewrite foldl_app|..].
      + split; [lia|]. rewrite Hw, walked_walked, Ht. done.
      + intros Hlt. replace (cl_cursor c + Z.of_nat (S k)) with (cl_cursor c + 1 + Z.of_nat k) by lia. apply H4. lia.
      + intros i Hi. destruct (decide (i = cl_cursor c)) as [->|]; [done|]. apply H5. lia. }
  destruct (untorn m (cl_cursor c)) eqn:Eu; cbn [negb]; cycle 1.
  { rewrite (drop_one_walked m log Hlog) by lia. apply (Hgo 1 [] []); [|done|constructor|done|by rewrite blen_nil, Z.add_0_r].
    intros k. cbn [seen]. by rewrite Eu. }
  destruct (fa_view (cl_cursor c)) as (d & Hd & Hr); [lia|done|done|]. pose proof (list_elem_of_lookup_2 _ _ _ Hd) as Hin.
  assert (Hseen : forall k, seen m log (accepts c) (S k) (cl_cursor c) =
    (if accepts c d then [d] else []) ++ seen m log (accepts c) k (cl_cursor c + 1)) by (intros k; cbn [seen]; by rewrite Eu, Hd).
  rewrite (advance_walked m log Hlog) by lia. rewrite passes_walked, (passes_ok m log Hlog c _ d) by done. cbn [mbind res_bind].
  destruct (accepts c d); cbn [negb]; [|by apply (Hgo 0 [] []); [..|by rewrite blen_nil, Z.add_0_r]].
  specialize (Hemit (ob_local (m_view m (cl_cursor c))) u). destruct (emit _ u) as [u' rc] eqn:Ee. cbn [snd] in Hemit. rewrite Hemit. cbn [Z.eqb negb].
  apply (Hgo 0 [d] [ob_local (m_view m (cl_cursor c))]); [done|done|by constructor|cbn; by rewrite Ee|by rewrite blen_cons, blen_nil].
Qed.
End callback.

(** ** A client of the context *)
Section client.
Context (x : btelem_ctx) (cid : Z) (c : btelem_client).
Context (Hid : 0 <= cid < 8) (Hc : x_clients x !! Z.to_nat cid = Some c) (Hact : cl_active c = true).

Definition with_client (c' : btelem_client) : btelem_ctx := set_clients (<[Z.to_nat cid := c']> (x_clients x)) x.

Lemma drain_packed_client m buf :
  btelem_drain_packed x cid m buf =
  (r ← pack_client (r_capacity (x_ring x)) m c buf; mret (with_client r.1.1, r.1.2, r.2)).
Proof using All.
  unfold btelem_drain_packed, BTELEM_MAX_CLIENTS. replace (_ || _) with false by lia. unfold index. rewrite Hc.
  cbn [mbind res_bind]. rewrite Hact. cbn [negb]. by destruct (pack_client _ _ _ _) as [[[? ?] ?]| |].
Qed.

Lemma drain_client {U} (emit : btelem_entry -> U -> U * Z) m u :
  btelem_drain emit x cid m u =
  (let c1 := skip_overwritten (r_capacity (x_ring x)) (m_head m) c in
   r ← drain_loop emit (Z.to_nat (m_head m - cl_cursor c1)) m c1 u 0; mret (with_client r.1.1, r.1.2, r.2)).
Proof using All.
  unfold btelem_drain, BTELEM_MAX_CLIENTS. replace (_ || _) with false by lia. unfold index. rewrite Hc.
  cbn [mbind res_bind]. rewrite Hact. cbn [negb]. by destruct (drain_loop _ _ _ _ _ _) as [[[? ?] ?]| |].
Qed.
End client.

(** What [btelem_client_available] announces is what a drain would walk over and
    count as dropped; with nothing to read, the caller's counter is left as it was. *)
Lemma available_spec x cid c m : 0 <= cid < 8 -> x_clients x !! Z.to_nat cid = Some c -> 0 <= cl_cursor c -> 0 < r_capacity (x_ring x) ->
  let lo := resume (r_capacity (x_ring x)) m c in
  btelem_client_available x cid (m_head m) =
    Ok (if cl_cursor c <? m_head m then (m_head m - lo, Some (lo - cl_cursor c)) else (0, None)).
Proof.
  intros Hid Hc H0 Hcap lo. unfold btelem_client_available, BTELEM_MAX_CLIENTS. replace (_ || _) with false by lia. unfold index. rewrite Hc.
  cbn [mbind res_bind]. unfold mret, res_ret. f_equal. destruct (cl_cursor c <? m_head m) eqn:E; [|done]. unfold lo, resume.
  destruct (r_capacity (x_ring x) <? m_head m) eqn:E1; [destruct (cl_cursor c <? m_head m - r_capacity (x_ring x)) eqn:E2|destruct (cl_cursor c <? 0) eqn:E2; [lia|]].
  - by rewrite Z.max_r by lia.
  - by rewrite Z.max_l, Z.sub_diag by lia.
  - by rewrite Z.max_l, Z.sub_diag by lia.
Qed.

(** A buffer of the sizes a drain is meant for: at least one entry of the largest
    payload, and a count of entries that fits 16 bits. *)
Definition buffer_ok (buf : list byte) : Prop := 264 <= blen buf < 16 + 248 * 2 ^ 16.

Lemma buffer_room capacity m c (buf : list byte) : 0 < capacity -> buffer_ok buf ->
  packet_room capacity m c (blen buf) < 2 ^ 16 /\ 1 <= (blen buf - 16) / 248 /\
  (resume capacity m c < m_head m -> 0 < packet_room capacity m c (blen buf)).
Proof.
  intros Hcap [H1 H2]. assert (Hd : 1 <= (blen buf - 16) / 248 < 2 ^ 16).
  { split; [apply Z.div_le_lower_bound; lia|apply Z.div_lt_upper_bound; lia]. }
  unfold packet_room, max_entries_of, sizeof_packet_header, sizeof_entry_header, BTELEM_MAX_PAYLOAD.
  change (16 + 232) with 248. lia.
Qed.

(** ** Properties *)

(** C21: What [btelem_drain_packed] writes is what was logged, whatever the
    producers do meanwhile: the call returns without a read or write outside its
    arrays; the bytes it reports are a packet the viewer's decoder accepts, with
    exactly the accepted entries read since the last drain, in order and with their
    payloads; entries overwritten before or during the drain are the ones added to
    the client's [dropped]; it stops at an entry not yet committed.  An entry can be
    missing only when the table of the packet is full. *)
Theorem drain_packed_decodes x cid c m log buf :
  Faithful m log -> log_ok log -> 0 < r_capacity (x_ring x) -> 0 <= cid < 8 ->
  x_clients x !! Z.to_nat cid = Some c -> cl_active c = true -> client_ok c log -> cl_cursor c <= m_head m ->
  buffer_ok buf ->
  let lo := resume (r_capacity (x_ring x)) m c in
  exists buf' n c' k es lost,
    btelem_drain_packed x cid m buf = Ok (with_client x cid c', buf', n) /\
    blen buf' = blen buf /\ client_ok c' log /\
    cl_cursor c' = lo + Z.of_nat k /\ cl_cursor c' <= m_head m /\
    cl_dropped c' = cl_dropped c + (lo - cl_cursor c) + torn m k lo /\
    seen m log (accepts c) k lo = es ++ lost /\
    ((n <= 0 /\ es = []) \/
     exists d, decode_packet (take (Z.to_nat n) buf') = Ok (mkPacket (mkPacketHeader (blen es) 0 (payload_total es) d) es)) /\
    (lost = [] /\ (cl_cursor c' < m_head m -> ~ committed m (cl_cursor c')) \/
     (exists e, lost = [e]) /\ blen es = (blen buf - 16) / 248 /\ blen es < m_head m - lo).
Proof.
  intros HF Hlog Hcap Hid Hc Hact Hco Hle Hbuf lo.
  destruct (buffer_room (r_capacity (x_ring x)) m c buf Hcap Hbuf) as (Hsm & _ & Hpos).
  destruct (pack_client_ok m log Hlog _ Hcap c Hco Hle buf Hsm) as ([[c' buf'] n] & E & k & es & lost & D).
  exists buf', n, c', k, es, lost. rewrite (drain_packed_client x cid c Hid Hc Hact), E. cbn [mbind res_bind fst snd].
  destruct D as [[W1 W2] Hs [Hcl Hok] Hb Hpk Hlost _ Hst]. cbn [fst snd] in *.
  assert (Hcur : cl_cursor c' = lo + Z.of_nat k /\ cl_dropped c' = cl_dropped c + (lo - cl_cursor c) + torn m k lo).
  { rewrite Hcl. by case_bool_decide. }
  destruct Hcur as [Hcur Hdr]. split_and!; [done|done|done|done|lia|done|done| |].
  - destruct Hpk as [[-> Hn]|(_ & Hfit & d & Hd & ->)]; [by left|right]. exists d.
    rewrite <-(app_nil_r (encode_packet 0 d es)). by apply decode_packet_encoded.
  - destruct Hlost as [->|(H1 & _ & H2 & H3)]; [left|right; done]. split; [done|]. intros Hlt. rewrite Hcur in *.
    apply Hst; [done|apply Hpos; lia|done].
Qed.

(** C40: A full packet costs an entry.  When more is waiting than the packet's table
    holds, the drain packs the first [max] entries and steps over the next one,
    which is neither in the packet nor counted in [dropped]: the cursor is moved
    before the checks for room.  (A ring at rest, a client without filter.) *)
Theorem full_packet_loses_one x cid c log buf :
  cring_ok (x_ring x) log -> log_ok log -> 0 <= cid < 8 ->
  x_clients x !! Z.to_nat cid = Some c -> cl_active c = true -> cl_filter_active c = false -> client_ok c log ->
  cl_cursor c <= blen log -> buffer_ok buf ->
  let m := quiet (x_ring x) in let lo := resume (r_capacity (x_ring x)) m c in let max := (blen buf - 16) / 248 in
  max < blen log - lo ->
  exists buf' n c' d,
    btelem_drain_packed x cid m buf = Ok (with_client x cid c', buf', n) /\
    decode_packet (take (Z.to_nat n) buf') =
      Ok (mkPacket (mkPacketHeader max 0 (payload_total (slice log lo max)) d) (slice log lo max)) /\
    cl_cursor c' = lo + max + 1 /\ cl_dropped c' = cl_dropped c + (lo - cl_cursor c).
Proof.
  intros Hr Hlog Hid Hc Hact Hnf Hco Hle Hbuf m lo max Hlt.
  pose proof (quiet_faithful _ _ Hr) as HF. destruct (slot_of _ _ 0 Hr) as [_ Hcap]. pose proof (cr_head _ _ Hr) as Hh.
  assert (Hlm : cl_cursor c <= m_head m) by (cbn; lia). assert (Hhd : m_head m = blen log) by exact Hh.
  destruct (buffer_room (r_capacity (x_ring x)) m c buf Hcap Hbuf) as (Hsm & Hm1 & Hpos).
  destruct (pack_client_ok m log Hlog _ Hcap c Hco Hlm buf Hsm) as ([[c' buf'] n] & E & k & es & lost & D).
  destruct D as [[W1 W2] Hs [Hcl Hok] Hb Hpk Hlost Hrm Hst]. cbn [fst snd] in *.
  fold lo in W1, W2, Hs, Hcl, Hlost, Hst. fold max in Hm1, Hlost.
  pose proof (co_counts _ _ Hco) as Hct. assert (Hlo0 : 0 <= lo) by (unfold lo, resume; lia).
  rewrite seen_untorn, filter_all in Hs; [| |intros; apply Z.eqb_refl|done]; cycle 1.
  { apply Forall_true. intros d. unfold accepts. by rewrite Hnf. }
  assert (Hk : blen es + blen lost = Z.of_nat k) by (rewrite <-blen_app, <-Hs; apply length_slice; lia).
  assert (Hmax : packet_room (r_capacity (x_ring x)) m c (blen buf) <= max).
  { unfold packet_room, max_entries_of, sizeof_packet_header, sizeof_entry_header, BTELEM_MAX_PAYLOAD. unfold max. change (16 + 232) with 248. lia. }
  destruct Hlost as [->|([d ->] & _ & Hes & _)]; [exfalso|].
  { rewrite blen_nil in Hk. destruct (decide (lo + Z.of_nat k < blen log)) as [Hkl|].
    - apply Hst; [done|apply Hpos; lia|lia|]. apply (quiet_committed _ log); [done|unfold lo, resume, m in *; cbn in *; lia|lia].
    - destruct Hrm as [->|]; [change (blen (@nil DecodedEntry)) with 0 in Hk; lia|lia]. }
  rewrite blen_cons, blen_nil in Hk. assert (Hsl : es = slice log lo max).
  { apply (f_equal (take (Z.to_nat max))) in Hs. rewrite take_app_le, (take_ge es) in Hs by (unfold blen in Hes; lia). rewrite <-Hs.
    unfold slice. rewrite take_take. f_equal. lia. }
  destruct Hpk as [[-> _]|(_ & Hfit & dd & Hd & Hp)]; [change (blen (@nil DecodedEntry)) with 0 in Hes; lia|]. exists buf', n, c', dd.
  rewrite (drain_packed_client x cid c Hid Hc Hact), E, Hp. cbn [mbind res_bind fst snd]. split_and!; [done| | |].
  - rewrite <-(app_nil_r (encode_packet 0 dd es)), decode_packet_encoded by done. by rewrite <-Hsl, Hes.
  - rewrite Hcl. case_bool_decide; cbn; fold lo; lia.
  - rewrite Hcl, torn_untorn by (intros; apply Z.eqb_refl). case_bool_decide; cbn; fold lo; lia.
Qed.

(** Two walks that stop only at the end or at an uncommitted entry are equally long. *)
Lemma walks_agree m lo hi (k1 k2 : nat) :
  (forall i, lo <= i < lo + Z.of_nat k1 -> committed m i) -> (forall i, lo <= i < lo + Z.of_nat k2 -> committed m i) ->
  (lo + Z.of_nat k1 < hi -> ~ committed m (lo + Z.of_nat k1)) -> (lo + Z.of_nat k2 < hi -> ~ committed m (lo + Z.of_nat k2)) ->
  lo + Z.of_nat k1 <= hi -> lo + Z.of_nat k2 <= hi -> k1 = k2.
Proof.
  intros C1 C2 S1 S2 B1 B2. destruct (decide (k1 < k2)%nat).
  - exfalso. apply S1; [lia|]. apply C2. lia.
  - destruct (decide (k2 < k1)%nat); [exfalso; apply S2; [lia|]; apply C1; lia|lia].
Qed.

(** The two ways to drain agree: with room in the packet for all that waits,
    [btelem_drain_packed] packs exactly the entries [btelem_drain] hands to its
    callback from the same state, in the same order, and both leave the client at
    the same position with the same count of dropped entries. *)
Theorem drains_agree {U} (emit : btelem_entry -> U -> U * Z) x cid c m log buf u :
  (forall e u, (emit e u).2 = 0) ->
  Faithful m log -> log_ok log -> 0 < r_capacity (x_ring x) -> 0 <= cid < 8 ->
  x_clients x !! Z.to_nat cid = Some c -> cl_active c = true -> client_ok c log -> cl_cursor c <= m_head m ->
  buffer_ok buf -> m_head m - resume (r_capacity (x_ring x)) m c <= (blen buf - 16) / 248 ->
  exists buf' n cp cd locals,
    btelem_drain_packed x cid m buf = Ok (with_client x cid cp, buf', n) /\
    btelem_drain emit x cid m u = Ok (with_client x cid cd, foldl (fun u e => (emit e u).1) u locals, blen locals) /\
    cl_cursor cp = cl_cursor cd /\ cl_dropped cp = cl_dropped cd /\
    ((n <= 0 /\ locals = []) \/
     exists p, decode_packet (take (Z.to_nat n) buf') = Ok p /\ Forall2 records locals (pk_entries p)).
Proof.
  intros Hemit HF Hlog Hcap Hid Hc Hact Hco Hle Hbuf Hall. set (cap := r_capacity (x_ring x)) in *.
  destruct (buffer_room cap m c buf Hcap Hbuf) as (Hsm & _ & Hpos).
  destruct (skip_resumed m log Hlog cap Hcap c Hco Hle) as (Esk & Hrok & Hres).
  destruct (pack_client_ok m log Hlog _ Hcap c Hco Hle buf Hsm) as ([[cp buf'] n] & E & k & es & lost & D).
  destruct (drain_loop_ok emit Hemit m log Hlog _ (resumed m cap c) u 0 Hrok eq_refl) as ([[cd u'] cnt] & E' & k' & locals & Dl & Hcnt); [cbn; lia|].
  destruct D as [[W1 W2] Hs [Hcl Hok] Hb Hpk Hlost _ Hst], Dl as [[Wk Ww] Hl Hu Hs' Hc']. cbn [fst snd cl_cursor resumed] in *.
  change (accepts (resumed m cap c)) with (accepts c) in Hl. set (lo := resume cap m c) in *.
  assert (lost = []) as -> by (destruct Hlost as [?|(_ & _ & H1 & H2)]; [done|lia]). rewrite app_nil_r in Hs.
  assert (k' = k) as ->.
  { apply (walks_agree m lo (m_head m)); [done|done|intros; apply Hs'; lia|intros; apply Hst; [done|apply Hpos; lia|done]|lia|lia]. }
  exists buf', n, cp, cd, locals. rewrite (drain_packed_client x cid c Hid Hc Hact), (drain_client x cid c Hid Hc Hact). fold cap. rewrite E.
  rewrite Esk. cbn zeta. cbn [cl_cursor resumed]. fold lo. rewrite E'. cbn [mbind res_bind fst snd]. rewrite Hs in Hl.
  split_and!; [done|by rewrite Hu, Hcnt|rewrite Hcl, Ww; by case_bool_decide|rewrite Hcl, Ww; by case_bool_decide|].
  destruct Hpk as [[-> Hn]|(_ & Hfit & d & Hd & ->)]; [left; split; [done|by inversion Hl]|right].
  rewrite <-(app_nil_r (encode_packet 0 d es)), decode_packet_encoded by done. eexists. split; [done|done].
Qed.

(** ** Witnesses *)

(** A ring of four slots that has logged six entries, and a client at the start. *)
Definition demo_log : list DecodedEntry :=
  map (fun i => mkDecodedEntry i (100 + i) [z_byte i; x07]) [0; 1; 2; 3; 4; 5].
Fixpoint log_all (x : btelem_ctx) (l : list DecodedEntry) : total btelem_ctx :=
  match l with
  | [] => mret x
  | d :: l => x ← BTELEM_LOG_ID x (de_timestamp d) (de_id d) (de_payload d); log_all x l
  end.

Lemma log_all_ok x log l : cring_ok (x_ring x) log -> log_ok (log ++ l) ->
  returns (log_all x l) (fun x' => cring_ok (x_ring x') (log ++ l) /\ x' = set_ring (x_ring x') x /\
    r_capacity (x_ring x') = r_capacity (x_ring x)).
Proof.
  revert x log. induction l as [|d l IH]; intros x log Hr Hl; cbn [log_all].
  - apply returns_ret. rewrite app_nil_r. by destruct x.
  - rewrite (cons_middle d log l) in Hl |- *. destruct d as [id ts pl]. eapply returns_bind.
    + apply log_ring_ok; [exact Hr|]. destruct Hl as [[_ Hl] Hf]. apply Forall_app in Hf as [Hf Hf2]. apply Forall_cons in Hf2 as [Hd _].
      split; [split; [done|]|by apply Forall_app_2; [|constructor]]. rewrite !blen_app, blen_cons, blen_nil in *. pose proof (blen_nonneg l). lia.
    + intros x1 (H1 & E1 & C1). eapply returns_impl; [apply (IH x1 _ H1); by rewrite <-app_assoc|].
      intros x2 (H2 & E2 & C2). rewrite <-app_assoc in H2. split_and!; [done| |congruence].
      rewrite E2, E1. done.
Qed.

Definition logged_okb (d : DecodedEntry) : bool :=
  in_ub 16 (de_id d) && in_ub 64 (de_timestamp d) && (blen (de_payload d) <=? 232).
Lemma log_okb_spec log : in_ub 64 (blen log) && forallb logged_okb log = true -> log_ok log.
Proof.
  intros [H1 H2]%andb_true_iff. split; [by apply in_ub_spec|]. apply Forall_forall. intros d Hd.
  apply list_elem_of_In, (proj1 (forallb_forall _ _) H2), andb_true_iff in Hd as [[Ha Hb]%andb_true_iff Hc].
  split_and!; [by apply in_ub_spec|by apply in_ub_spec|]. unfold BTELEM_MAX_PAYLOAD. lia.
Qed.

Definition demo_init : btelem_ctx := default (mkCtx (mkRing 0 0 0 []) [] [] 0 0) (btelem_init 4).
Definition demo_open : btelem_ctx :=
  match btelem_client_open demo_init 0 None 0 with Ok (x, _) => x | _ => demo_init end.
Definition demo_ctx : btelem_ctx := match log_all demo_open demo_log with Ok x => x | _ => demo_open end.
Definition demo_client : btelem_client := mkClient 0 (replicate 512 0) false 0 0 true.
(** Room for two entries of the largest payload, and for four. *)
Definition demo_buf (n : Z) : list byte := replicate (Z.to_nat (16 + 248 * n)) x00.

Lemma demo_log_ok : log_ok demo_log.
Proof. apply log_okb_spec. vm_compute. reflexivity. Qed.

Lemma demo_ctx_ok : cring_ok (x_ring demo_ctx) demo_log.
Proof.
  destruct (log_all_ok demo_open [] demo_log) as (x & E & Hx & _).
  - apply (init_ring_ok 4 demo_init); [lia|reflexivity].
  - exact demo_log_ok.
  - unfold demo_ctx. by rewrite E.
Qed.

Lemma demo_client_ok log : client_ok demo_client log.
Proof. split; cbn; [lia|done|done]. Qed.

Lemma drain_packed_decodes_witness :
  exists buf' n c' k es lost,
    btelem_drain_packed demo_ctx 0 (quiet (x_ring demo_ctx)) (demo_buf 4) = Ok (with_client demo_ctx 0 c', buf', n) /\
    seen (quiet (x_ring demo_ctx)) demo_log (accepts demo_client) k 2 = es ++ lost.
Proof.
  destruct (drain_packed_decodes demo_ctx 0 demo_client (quiet (x_ring demo_ctx)) demo_log (demo_buf 4))
    as (buf' & n & c' & k & es & lost & H1 & _ & _ & _ & _ & _ & H2 & _).
  - apply quiet_faithful, demo_ctx_ok.
  - exact demo_log_ok.
  - vm_compute. reflexivity.
  - lia.
  - vm_compute. reflexivity.
  - reflexivity.
  - apply demo_client_ok.
  - vm_compute. discriminate.
  - split; vm_compute; [discriminate|reflexivity].
  - exists buf', n, c', k, es, lost. split; [exact H1|exact H2].
Defined.

Lemma full_packet_loses_one_witness :
  exists buf' n c' d,
    btelem_drain_packed demo_ctx 0 (quiet (x_ring demo_ctx)) (demo_buf 2) = Ok (with_client demo_ctx 0 c', buf', n) /\
    decode_packet (take (Z.to_nat n) buf') = Ok (mkPacket (mkPacketHeader 2 0 4 d) (slice demo_log 2 2)) /\
    cl_cursor c' = 5 /\ cl_dropped c' = 2.
Proof.
  destruct (full_packet_loses_one demo_ctx 0 demo_client demo_log (demo_buf 2)) as (buf' & n & c' & d & H1 & H2 & H3 & H4).
  - exact demo_ctx_ok.
  - exact demo_log_ok.
  - lia.
  - vm_compute. reflexivity.
  - reflexivity.
  - reflexivity.
  - apply demo_client_ok.
  - vm_compute. discriminate.
  - split; vm_compute; [discriminate|reflexivity].
  - vm_compute. reflexivity.
  - exists buf', n, c', d. split; [exact H1|]. split; [exact H2|]. split; [exact H3|exact H4].
Defined.

Lemma drains_agree_witness :
  exists buf' n cp cd locals,
    btelem_drain_packed demo_ctx 0 (quiet (x_ring demo_ctx)) (demo_buf 4) = Ok (with_client demo_ctx 0 cp, buf', n) /\
    btelem_drain (fun e l => (l ++ [e_id e], 0)) demo_ctx 0 (quiet (x_ring demo_ctx)) [] =
      Ok (with_client demo_ctx 0 cd, foldl (fun l e => l ++ [e_id e]) [] locals, blen locals) /\
    cl_cursor cp = cl_cursor cd.
Proof.
  destruct (drains_agree (fun e l => (l ++ [e_id e], 0)) demo_ctx 0 demo_client (quiet (x_ring demo_ctx)) demo_log (demo_buf 4) [])
    as (buf' & n & cp & cd & locals & H1 & H2 & H3 & _).
  - reflexivity.
  - apply quiet_faithful, demo_ctx_ok.
  - exact demo_log_ok.
  - vm_compute. reflexivity.
  - lia.
  - vm_compute. reflexivity.
  - reflexivity.
  - apply demo_client_ok.
  - vm_compute. discriminate.
  - split; vm_compute; [discriminate|reflexivity].
  - vm_compute. discriminate.
  - exists buf', n, cp, cd, locals. split; [exact H1|]. split; [exact H2|exact H3].
Defined.
