(* ===== verification/CRace.v ===== *)
(** * The C library: producers and a reader on one ring

    Models the interleaving of [BTELEM_LOG_ID] (include/btelem/btelem.h), run by any
    number of producers, with the copies of a drain (src/btelem.c): a slot is its
    [seq] word and the 248 bytes after it, a producer claims a slot, clears [seq],
    stores its bytes one by one in any order and sets [seq]; a reader loads [seq],
    copies the bytes one by one in any order and loads [seq] again.  Memory is
    sequentially consistent.

    The ring keeps the promise [Faithful] of CRing.v as long as no producer is
    overtaken by a whole lap while it writes ([fair]); [lapped_torn] shows what
    happens when one is. *)

From stdpp Require Import relations.
From S2P Require Import Prelude Wire CTypes CRing.

(** ** The bytes of an entry *)

(** After [seq]: timestamp, id, payload size, four bytes of padding, payload. *)
Definition ENTRY_BYTES : nat := 248.

(** The bytes the macro stores for an object; the padding is left alone. *)
Definition image (d : DecodedEntry) : gmap nat byte :=
  map_seq 0 (le_bytes 8 (de_timestamp d) ++ le_bytes 2 (de_id d) ++ le_bytes 2 (blen (de_payload d)))
  ∪ map_seq 16 (de_payload d).

Definition bytes_at (got : gmap nat byte) (off n : nat) : list byte := map (fun j => default x00 (got !! j)) (seq off n).
Definition entry_of (sq : Z) (got : gmap nat byte) : btelem_entry :=
  mkEntry sq (le_u (bytes_at got 0 8)) (le_u (bytes_at got 8 2)) (le_u (bytes_at got 10 2)) (bytes_at got 16 232).

(** ** The machine *)
Record cell := mkCell { c_seq : Z; c_bytes : gmap nat byte }.
Record writer := mkWriter { w_cleared : bool; w_todo : gmap nat byte }.
Record reading := mkReading { rd_at : nat; rd_seq : Z; rd_got : gmap nat byte }.

(** [rc_log] is everything claimed so far, so its length is the ring's [head];
    [rc_obs] the observations the reader has made, newest first. *)
Record race := mkRace {
  rc_slots : list cell;
  rc_log : list DecodedEntry;
  rc_writers : gmap nat writer;
  rc_reader : option reading;
  rc_obs : list (nat * observation);
}.

Section machine.
Context (cap : nat).
Definition slot (s : nat) : nat := (s mod cap)%nat.
Definition set_slot (s : nat) (f : cell -> cell) (st : race) : race :=
  mkRace (alter f (slot s) (rc_slots st)) (rc_log st) (rc_writers st) (rc_reader st) (rc_obs st).
Definition set_writers (w : gmap nat writer) (st : race) : race :=
  mkRace (rc_slots st) (rc_log st) w (rc_reader st) (rc_obs st).
Definition set_reader (r : option reading) (obs : list (nat * observation)) (st : race) : race :=
  mkRace (rc_slots st) (rc_log st) (rc_writers st) r obs.

Inductive action :=
| Claim (d : DecodedEntry)        (* fetch_add of head *)
| Clear (s : nat)                 (* seq := 0 *)
| Store (s j : nat)               (* one byte of the entry *)
| Commit (s : nat)                (* seq := slot + 1 *)
| Begin (c : nat)                 (* first load of seq *)
| Skip                            (* it is not that of the position *)
| Read (j : nat)                  (* one byte of the copy *)
| End_.                           (* second load of seq *)

Definition act (a : action) (st : race) : option race :=
  match a with
  | Claim d =>
    Some (mkRace (rc_slots st) (rc_log st ++ [d]) (<[length (rc_log st) := mkWriter false (image d)]> (rc_writers st))
                 (rc_reader st) (rc_obs st))
  | Clear s =>
    match rc_writers st !! s with
    | Some (mkWriter false todo) =>
      Some (set_slot s (fun x => mkCell 0 (c_bytes x)) (set_writers (<[s := mkWriter true todo]> (rc_writers st)) st))
    | _ => None
    end
  | Store s j =>
    match rc_writers st !! s with
    | Some (mkWriter true todo) =>
      b ← todo !! j;
      Some (set_slot s (fun x => mkCell (c_seq x) (<[j := b]> (c_bytes x)))
              (set_writers (<[s := mkWriter true (delete j todo)]> (rc_writers st)) st))
    | _ => None
    end
  | Commit s =>
    match rc_writers st !! s with
    | Some (mkWriter true todo) =>
      if bool_decide (todo = ∅)
      then Some (set_slot s (fun x => mkCell (Z.of_nat s + 1) (c_bytes x)) (set_writers (delete s (rc_writers st)) st))
      else None
    | _ => None
    end
  | Begin c =>
    match rc_reader st, rc_slots st !! slot c with
    | None, Some x => if bool_decide (c < length (rc_log st))%nat then Some (set_reader (Some (mkReading c (c_seq x) ∅)) (rc_obs st) st) else None
    | _, _ => None
    end
  | Skip =>
    match rc_reader st with
    | Some (mkReading c q _) =>
      if q =? Z.of_nat c + 1 then None
      else Some (set_reader None ((c, mkObs q zero_entry q) :: rc_obs st) st)
    | None => None
    end
  | Read j =>
    match rc_reader st with
    | Some (mkReading c q got) =>
      x ← rc_slots st !! slot c;
      if (q =? Z.of_nat c + 1) && (j <? ENTRY_BYTES)%nat && bool_decide (got !! j = None)
      then Some (set_reader (Some (mkReading c q (<[j := default x00 (c_bytes x !! j)]> got))) (rc_obs st) st) else None
    | None => None
    end
  | End_ =>
    match rc_reader st with
    | Some (mkReading c q got) =>
      x ← rc_slots st !! slot c;
      if (q =? Z.of_nat c + 1) && forallb (fun j => bool_decide (is_Some (got !! j))) (seq 0 ENTRY_BYTES)
      then Some (set_reader None ((c, mkObs q (entry_of q got) (c_seq x)) :: rc_obs st) st) else None
    | None => None
    end
  end.

(** No producer under way is a whole lap behind the slot about to be claimed. *)
Definition unlapped (st : race) : Prop :=
  map_Forall (fun s _ => length (rc_log st) - s < cap)%nat (rc_writers st).

(** A step of some thread; [fair] rules out the claims that lap a producer. *)
Definition step (fair : bool) (st st' : race) : Prop :=
  exists a, act a st = Some st' /\
    match a with Claim d => logged_ok d /\ (fair = true -> unlapped st) | _ => True end.

Definition start : race := mkRace (replicate cap (mkCell 0 ∅)) [] ∅ None [].
End machine.

(** What a drain that loaded [head] and made these observations sees. *)
Definition observed (head : Z) (st : race) : memory :=
  mkMemory head (fun i => match List.find (fun x => Z.of_nat x.1 =? i) (rc_obs st) with
                          | Some x => x.2 | None => mkObs 0 zero_entry 0 end).

(** ** The bytes of an entry, read back *)
Lemma image_header d j b :
  (le_bytes 8 (de_timestamp d) ++ le_bytes 2 (de_id d) ++ le_bytes 2 (blen (de_payload d))) !! j = Some b -> image d !! j = Some b.
Proof. intros H. unfold image. apply lookup_union_Some_l, lookup_map_seq_Some. rewrite Nat.sub_0_r. split; [lia|done]. Qed.

Lemma image_payload d j b : de_payload d !! j = Some b -> image d !! (16 + j)%nat = Some b.
Proof.
  intros H. unfold image. rewrite lookup_union_r.
  - apply lookup_map_seq_Some. split; [lia|]. by replace (16 + j - 16)%nat with j by lia.
  - apply lookup_map_seq_None. right. rewrite !length_app, !length_le_bytes. lia.
Qed.

Definition shows (d : DecodedEntry) (got : gmap nat byte) : Prop := image d ⊆ got.

Lemma bytes_at_shows got off n bs : length bs = n -> (forall j b, bs !! j = Some b -> got !! (off + j)%nat = Some b) ->
  bytes_at got off n = bs.
Proof.
  intros <- H. apply list_eq. intros j. unfold bytes_at. rewrite list_lookup_fmap.
  destruct (bs !! j) as [b|] eqn:E.
  - rewrite lookup_seq_lt by (by eapply lookup_lt_Some). cbn. by rewrite (H j b E).
  - rewrite lookup_seq_ge by (by apply lookup_ge_None). done.
Qed.

Lemma entry_of_shows sq got d : logged_ok d -> shows d got -> records (entry_of sq got) d.
Proof.
  intros (Hi & Ht & Hp) Hs. pose proof (blen_nonneg (de_payload d)) as Hn. unfold BTELEM_MAX_PAYLOAD in Hp.
  assert (Hg : forall j b, image d !! j = Some b -> got !! j = Some b) by (intros j b Hj; by eapply lookup_weaken).
  assert (Hh : forall pre v post n off, le_bytes 8 (de_timestamp d) ++ le_bytes 2 (de_id d) ++ le_bytes 2 (blen (de_payload d)) = pre ++ le_bytes n v ++ post ->
    length pre = off -> bytes_at got off n = le_bytes n v).
  { intros pre v post n off E <-. apply bytes_at_shows; [apply length_le_bytes|]. intros j b Hj. apply Hg, image_header.
    rewrite E, lookup_app_r by lia. replace (length pre + j - length pre)%nat with j by lia. by apply lookup_app_l_Some. }
  unfold records, entry_of. cbn [e_id e_timestamp e_payload_size e_payload]. split_and!.
  - rewrite (Hh (le_bytes 8 (de_timestamp d)) (de_id d) (le_bytes 2 (blen (de_payload d))) 2%nat 8%nat), le_u_le_bytes by done. done.
  - rewrite (Hh [] (de_timestamp d) (le_bytes 2 (de_id d) ++ le_bytes 2 (blen (de_payload d))) 8%nat 0%nat), le_u_le_bytes by done. done.
  - rewrite (Hh (le_bytes 8 (de_timestamp d) ++ le_bytes 2 (de_id d)) (blen (de_payload d)) [] 2%nat 10%nat), le_u_le_bytes; [done|unfold in_u; lia|by rewrite <-app_assoc|done].
  - exists (bytes_at got (16 + length (de_payload d)) (232 - length (de_payload d))).
    assert (E : bytes_at got 16 (length (de_payload d)) = de_payload d).
    { apply bytes_at_shows; [done|]. intros j b Hj. by apply Hg, image_payload. }
    trans (bytes_at got 16 (length (de_payload d)) ++ bytes_at got (16 + length (de_payload d)) (232 - length (de_payload d))); [|by rewrite E].
    unfold bytes_at. rewrite <-map_app, <-seq_app. do 2 f_equal. unfold blen in Hp. lia.
Qed.

(** ** The invariant *)
Section invariant.
Context (cap : nat) (Hcap : (0 < cap)%nat).
#[local] Abbreviation slot := (slot cap).

(** A producer that has cleared its slot owns it: [seq] stays 0 and the bytes it is
    done with are its own.  A slot whose [seq] is set holds that entry whole. *)
Definition writer_ok (st : race) (s : nat) (w : writer) : Prop :=
  (s < length (rc_log st) <= s + cap)%nat /\
  exists d, rc_log st !! s = Some d /\
    if w_cleared w then
      exists x, rc_slots st !! slot s = Some x /\ c_seq x = 0 /\
        forall j b, image d !! j = Some b -> w_todo w !! j = Some b \/ (w_todo w !! j = None /\ c_bytes x !! j = Some b)
    else w_todo w = image d.

Definition slot_ok (st : race) (i : nat) (x : cell) : Prop :=
  c_seq x = 0 \/
  exists s d, c_seq x = Z.of_nat s + 1 /\ slot s = i /\ rc_log st !! s = Some d /\ rc_writers st !! s = None /\ shows d (c_bytes x).

(** While [seq] still is that of the position, the copy is of its entry; once it
    is not, it never is again. *)
Definition reading_ok (st : race) (r : reading) : Prop :=
  exists d, rc_log st !! rd_at r = Some d /\
    (rd_seq r = Z.of_nat (rd_at r) + 1 -> rc_writers st !! rd_at r = None /\
     forall x, rc_slots st !! slot (rd_at r) = Some x -> c_seq x = Z.of_nat (rd_at r) + 1 ->
       forall j b b', rd_got r !! j = Some b -> image d !! j = Some b' -> b = b').

Definition obs_ok (log : list DecodedEntry) (x : nat * observation) : Prop :=
  ob_seq x.2 = Z.of_nat x.1 + 1 -> ob_seq2 x.2 = ob_seq x.2 -> exists d, log !! x.1 = Some d /\ records (ob_local x.2) d.

Record race_ok (st : race) : Prop := {
  ro_len : length (rc_slots st) = cap;
  ro_log : Forall logged_ok (rc_log st);
  ro_writers s w : rc_writers st !! s = Some w -> writer_ok st s w;
  ro_slots i x : rc_slots st !! i = Some x -> slot_ok st i x;
  ro_reader r : rc_reader st = Some r -> reading_ok st r;
  ro_obs : Forall (obs_ok (rc_log st)) (rc_obs st);
}.

Lemma slot_lt s : (slot s < cap)%nat.
Proof using Hcap. unfold CRace.slot. apply Nat.mod_upper_bound. lia. Qed.

Lemma slot_inj n s s' : (s < n <= s + cap)%nat -> (s' < n <= s' + cap)%nat -> slot s = slot s' -> s = s'.
Proof using Hcap.
  intros H H' E. apply (f_equal Z.of_nat) in E. unfold CRace.slot in E. rewrite !Nat2Z.inj_mod in E.
  destruct (decide (s < s')%nat); [exfalso; by apply (mod_distinct (Z.of_nat cap) (Z.of_nat s') (Z.of_nat s)); [lia|lia|]|].
  destruct (decide (s' < s)%nat); [exfalso; by apply (mod_distinct (Z.of_nat cap) (Z.of_nat s) (Z.of_nat s')); [lia|lia|]|lia].
Qed.

Lemma start_ok : race_ok (start cap).
Proof.
  split; cbn; [by rewrite length_replicate|constructor|done| |done|constructor].
  intros i x Hx. apply lookup_replicate in Hx as [-> _]. by left.
Qed.

(** *** Growing the log *)
Lemma obs_ok_app log d x : obs_ok log x -> obs_ok (log ++ [d]) x.
Proof. intros H H1 H2. destruct (H H1 H2) as (e & He & Hr). exists e. split; [by apply lookup_app_l_Some|done]. Qed.

Lemma claim_ok st st' d : race_ok st -> logged_ok d -> unlapped cap st -> act cap (Claim d) st = Some st' -> race_ok st'.
Proof using Hcap.
  intros [Hl Hlg Hw Hs Hr Ho] Hd Hun [= <-]. set (n := length (rc_log st)).
  assert (Hnew : rc_writers st !! n = None).
  { destruct (rc_writers st !! n) as [w|] eqn:E; [|done]. destruct (Hw _ _ E) as [? _]. lia. }
  split; cbn [rc_slots rc_log rc_writers rc_reader rc_obs]; [done|by apply Forall_app_2; [|constructor]|..].
  - intros s w Hsw. unfold writer_ok. cbn [rc_log rc_slots]. rewrite length_app. cbn [length]. apply lookup_insert_Some in Hsw as [[<- <-]|[Hne Hsw]].
    + split; [lia|]. exists d. cbn. split; [by apply list_lookup_middle|done].
    + destruct (Hw _ _ Hsw) as [Hb (d' & Hd' & Hrest)]. pose proof (Hun _ _ Hsw). cbn in *. split; [lia|].
      exists d'. split; [by apply lookup_app_l_Some|done].
  - intros i x Hx. destruct (Hs _ _ Hx) as [H0|(s & d' & H1 & H2 & H3 & H4 & H5)]; [by left|right]. exists s, d'.
    cbn. split_and!; [done|done|by apply lookup_app_l_Some| |done]. rewrite lookup_insert_ne; [done|].
    apply lookup_lt_Some in H3. lia.
  - intros r Er. destruct (Hr r Er) as (d' & Hd' & H). exists d'. split; [by apply lookup_app_l_Some|]. cbn. intros Hq.
    destruct (H Hq) as [H1 H2]. split; [|done]. rewrite lookup_insert_ne; [done|]. apply lookup_lt_Some in Hd'. lia.
  - eapply Forall_impl; [exact Ho|]. intros x. apply obs_ok_app.
Qed.

(** *** A producer's step on its slot

    It changes one slot and its own entry of [rc_writers]. *)
Lemma producer_ok st s w f w' :
  race_ok st -> rc_writers st !! s = Some w ->
  let st' := set_slot cap s f (set_writers (partial_alter (fun _ => w') s (rc_writers st)) st) in
  (forall w1, w' = Some w1 -> writer_ok st' s w1) ->
  (forall x, rc_slots st !! slot s = Some x -> slot_ok st' (slot s) (f x) /\ (c_seq (f x) = 0 \/ c_seq (f x) = Z.of_nat s + 1)) ->
  race_ok st'.
Proof using Hcap.
  intros [Hl Hlg Hw Hs Hr Ho] Hsw st' Hw' Hf. destruct (Hw _ _ Hsw) as [Hb _].
  assert (Hoth : forall i, i <> slot s -> rc_slots st' !! i = rc_slots st !! i) by (intros i Hi; by apply list_lookup_alter_ne).
  assert (Hme : rc_slots st' !! slot s = f <$> rc_slots st !! slot s) by apply list_lookup_alter_eq.
  assert (Hwo : forall s1, s1 <> s -> rc_writers st' !! s1 = rc_writers st !! s1) by (intros s1 Hi; by apply lookup_partial_alter_ne).
  split; [cbn; by rewrite length_alter|done|..|done].
  - intros s1 w1 H1. destruct (decide (s1 = s)) as [->|Hne]; [apply Hw'; by rewrite <-H1; cbn; rewrite lookup_partial_alter_eq|].
    rewrite Hwo in H1 by done. destruct (Hw _ _ H1) as [Hb1 (d & Hd & Hrest)]. split; [done|]. exists d. split; [done|].
    destruct (w_cleared w1); [|done]. rewrite Hoth; [done|]. intros E. apply Hne. by apply (slot_inj (length (rc_log st))).
  - intros i x Hx. destruct (decide (i = slot s)) as [->|Hne].
    + rewrite Hme in Hx. destruct (rc_slots st !! slot s) as [x0|] eqn:E0; [|done]. injection Hx as <-. by apply Hf.
    + rewrite Hoth in Hx by done. destruct (Hs _ _ Hx) as [H0|(s1 & d & H1 & H2 & H3 & H4 & H5)]; [by left|right].
      exists s1, d. split_and!; [done|done|done| |done]. rewrite Hwo; [done|]. congruence.
  - intros r Er. destruct (Hr r Er) as (d & Hd & H). exists d. split; [done|]. intros Hq. destruct (H Hq) as [H1 H2].
    assert (Hne : rd_at r <> s) by congruence. split; [by rewrite Hwo|]. intros x Hx Hxs.
    destruct (decide (slot (rd_at r) = slot s)) as [E|Hns]; [|rewrite Hoth in Hx by done; by apply (H2 x)].
    rewrite E, Hme in Hx. destruct (rc_slots st !! slot s) as [x0|] eqn:E0; [|done]. injection Hx as <-.
    destruct (Hf x0 eq_refl) as [_ [Hz|Hz]]; lia.
Qed.

Lemma my_slot st s f w' : let st' := set_slot cap s f (set_writers (partial_alter (fun _ => w') s (rc_writers st)) st) in
  race_ok st -> exists x, rc_slots st !! slot s = Some x /\ rc_slots st' !! slot s = Some (f x).
Proof using Hcap.
  intros st' Hok. destruct (lookup_lt_is_Some_2 (rc_slots st) (slot s)) as [x Hx]; [rewrite (ro_len _ Hok); apply slot_lt|].
  exists x. split; [done|]. cbn. by rewrite list_lookup_alter_eq, Hx.
Qed.

Lemma clear_ok st st' s : race_ok st -> act cap (Clear s) st = Some st' -> race_ok st'.
Proof using Hcap.
  intros Hok. cbn. destruct (rc_writers st !! s) as [[[|] todo]|] eqn:E; [done| |done]. intros [= <-].
  destruct (ro_writers _ Hok _ _ E) as [Hb (d & Hd & Ht)]. cbn in Ht. apply (producer_ok st s _ _ _ Hok E).
  - intros w1 [= <-]. split; [done|]. exists d. split; [done|]. cbn [w_cleared w_todo].
    destruct (my_slot st s (fun x => mkCell 0 (c_bytes x)) (Some (mkWriter true todo)) Hok) as (x & _ & Hx).
    eexists. split; [exact Hx|]. split; [done|]. intros j b Hj. left. by rewrite Ht.
  - intros x _. split; by left.
Qed.

Lemma store_ok st st' s j : race_ok st -> act cap (Store s j) st = Some st' -> race_ok st'.
Proof using Hcap.
  intros Hok. cbn. destruct (rc_writers st !! s) as [[[|] todo]|] eqn:E; [|done|done].
  destruct (todo !! j) as [b|] eqn:Ej; [|done]. intros [= <-].
  destruct (ro_writers _ Hok _ _ E) as [Hb (d & Hd & x & Hx & H0 & Hc)]. apply (producer_ok st s _ _ _ Hok E).
  - intros w1 [= <-]. split; [done|]. exists d. split; [done|]. cbn [w_cleared w_todo].
    destruct (my_slot st s (fun x => mkCell (c_seq x) (<[j := b]> (c_bytes x))) (Some (mkWriter true (delete j todo))) Hok) as (x' & Hx' & Hx1).
    assert (x' = x) as -> by congruence. eexists. split; [exact Hx1|]. split; [done|]. cbn [c_bytes]. intros i b' Hi.
    destruct (decide (i = j)) as [->|Hne].
    + right. rewrite lookup_delete_eq, lookup_insert_eq. split; [done|]. destruct (Hc j b' Hi) as [?|[? _]]; cbn in *; congruence.
    + rewrite lookup_delete_ne, lookup_insert_ne by done. by apply Hc.
  - intros x' Hx'. assert (x' = x) as -> by congruence. split; [by left|by left].
Qed.

Lemma commit_ok st st' s : race_ok st -> act cap (Commit s) st = Some st' -> race_ok st'.
Proof using Hcap.
  intros Hok. cbn. destruct (rc_writers st !! s) as [[[|] todo]|] eqn:E; [|done|done].
  case_bool_decide as Et; [|done]. intros [= <-].
  destruct (ro_writers _ Hok _ _ E) as [Hb (d & Hd & x & Hx & H0 & Hc)]. apply (producer_ok st s _ _ None Hok E); [done|].
  intros x' Hx'. assert (x' = x) as -> by congruence. split; [|by right]. right. exists s, d.
  split_and!; [done|done|done|cbn; apply lookup_partial_alter_eq|]. apply map_subseteq_spec. intros j b Hj.
  destruct (Hc j b Hj) as [H1|[_ H1]]; [cbn in H1; by rewrite Et in H1|done].
Qed.

(** *** The reader's steps *)
Lemma reader_ok st r obs : race_ok st -> (forall r1, r = Some r1 -> reading_ok st r1) -> Forall (obs_ok (rc_log st)) obs ->
  race_ok (set_reader r obs st).
Proof. by intros [Hl Hlg Hw Hs Hr Ho] H1 H2. Qed.

Lemma begin_ok st st' c : race_ok st -> act cap (Begin c) st = Some st' -> race_ok st'.
Proof using Hcap.
  intros Hok. cbn. destruct (rc_reader st); [done|]. destruct (rc_slots st !! slot c) as [x|] eqn:Ex; [|done].
  case_bool_decide as Hc; [|done]. intros [= <-]. apply reader_ok; [done| |apply (ro_obs _ Hok)].
  intros r1 [= <-]. destruct (lookup_lt_is_Some_2 (rc_log st) c Hc) as [d Hd]. exists d. cbn. split; [done|].
  intros Hq. split; [|intros x' _ _ j b b' H; by rewrite lookup_empty in H].
  destruct (ro_slots _ Hok _ _ Ex) as [H0|(s & d' & H1 & _ & _ & H4 & _)]; [lia|]. by replace c with s by lia.
Qed.

Lemma skip_ok st st' : race_ok st -> act cap Skip st = Some st' -> race_ok st'.
Proof using Hcap.
  intros Hok. cbn. destruct (rc_reader st) as [[c q got]|]; [|done]. destruct (q =? _) eqn:Eq; [done|]. intros [= <-].
  apply reader_ok; [done|done|]. constructor; [|apply (ro_obs _ Hok)]. intros H _. cbn in H. lia.
Qed.

Lemma read_ok st st' j : race_ok st -> act cap (Read j) st = Some st' -> race_ok st'.
Proof using Hcap.
  intros Hok. cbn. destruct (rc_reader st) as [[c q got]|] eqn:Er; [|done].
  destruct (rc_slots st !! slot c) as [x|] eqn:Ex; [|done]. destruct (ro_reader _ Hok _ Er) as (d & Hd & H).
  cbn [rd_at rd_seq rd_got] in Hd, H. cbn [mbind option_bind]. destruct (_ && _); [|done]. intros [= <-].
  apply reader_ok; [done| |apply (ro_obs _ Hok)]. intros r1 [= <-]. exists d. cbn [rd_at rd_seq rd_got]. split; [done|]. intros Hq.
  destruct (H Hq) as [H1 H2]. split; [done|]. intros x' Hx' Hs i b b' Hi Hb'. assert (x' = x) as -> by congruence.
  apply lookup_insert_Some in Hi as [[<- <-]|[_ Hi]]; [|by apply (H2 x Ex Hs i)].
  destruct (ro_slots _ Hok _ _ Ex) as [H0|(s & d' & E1 & _ & E3 & _ & E5)]; [lia|]. assert (s = c) as -> by lia.
  assert (d' = d) as -> by congruence. by rewrite (lookup_weaken _ _ _ _ Hb' E5).
Qed.

Lemma end_ok st st' : race_ok st -> act cap End_ st = Some st' -> race_ok st'.
Proof using Hcap.
  intros Hok. cbn [act]. destruct (rc_reader st) as [[c q got]|] eqn:Er; [|done].
  destruct (rc_slots st !! slot c) as [x|] eqn:Ex; [|done]. destruct (ro_reader _ Hok _ Er) as (d & Hd & H).
  cbn [rd_at rd_seq rd_got] in Hd, H. cbn [mbind option_bind].
  destruct (_ && _) eqn:Eg; [|done]. intros [= <-]. apply andb_true_iff in Eg as [Eq Eg]. apply Z.eqb_eq in Eq.
  apply reader_ok; [done|done|]. constructor; [|apply (ro_obs _ Hok)]. intros _ H2. cbn in H2 |- *. exists d. split; [done|].
  pose proof (Forall_lookup_1 _ _ _ _ (ro_log _ Hok) Hd) as Hlg. apply entry_of_shows; [done|].
  apply map_subseteq_spec. intros j b Hj. destruct (got !! j) as [b'|] eqn:Ej.
  - f_equal. destruct (H Eq) as [_ H3]. apply (H3 x Ex ltac:(lia) j b' b Ej Hj).
  - exfalso. assert (Hlt : (j < ENTRY_BYTES)%nat).
    { destruct Hlg as (_ & _ & Hp). unfold BTELEM_MAX_PAYLOAD, blen in Hp. unfold image in Hj. apply lookup_union_Some_raw in Hj.
      rewrite !lookup_map_seq_Some in Hj. unfold ENTRY_BYTES. destruct Hj as [[_ Hj]|[_ [_ Hj]]]; apply lookup_lt_Some in Hj;
        rewrite ?length_app, ?length_le_bytes in Hj; lia. }
    pose proof (proj1 (forallb_forall _ _) Eg j) as Eg'. rewrite in_seq in Eg'. specialize (Eg' ltac:(lia)). clear Eg. rename Eg' into Eg. apply bool_decide_eq_true in Eg as [b' Eb]. congruence.
Qed.

Lemma race_step_ok st st' : step cap true st st' -> race_ok st -> race_ok st'.
Proof using Hcap.
  intros ([d|s|s j|s|c| |j|] & Ha & Hg) Hok;
    [destruct Hg as [Hd Hun]; apply (claim_ok st st' d); auto|by eapply clear_ok|by eapply store_ok|by eapply commit_ok|by eapply begin_ok|
     by eapply skip_ok|by eapply read_ok|by eapply end_ok].
Qed.
End invariant.

(** ** Properties *)


(** ** Runs *)
Fixpoint exec (cap : nat) (fair : bool) (acts : list action) (st : race) : option race :=
  match acts with
  | [] => Some st
  | a :: acts =>
    if match a with Claim d => logged_okb d && (negb fair || bool_decide (unlapped cap st)) | _ => true end
    then st ← act cap a st; exec cap fair acts st else None
  end.

Lemma exec_steps cap fair acts st st' : exec cap fair acts st = Some st' -> rtc (step cap fair) st st'.
Proof.
  revert st. induction acts as [|a acts IH]; intros st; cbn [exec]; [by intros [= <-]|].
  destruct (match a with Claim _ => _ | _ => _ end) eqn:Eg; [|done].
  destruct (act cap a st) as [st1|] eqn:Ea; [|done]. cbn [mbind option_bind]. intros H.
  eapply rtc_l; [|by apply IH]. exists a. split; [done|]. destruct a; [|done..].
  apply andb_true_iff in Eg as [Ed Eu]. split.
  - unfold logged_okb in Ed. apply andb_true_iff in Ed as [[H1 H2]%andb_true_iff H3].
    split_and!; [by apply in_ub_spec|by apply in_ub_spec|]. unfold BTELEM_MAX_PAYLOAD. lia.
  - intros ->. by apply bool_decide_eq_true in Eu.
Qed.

Definition stores (s : nat) (d : DecodedEntry) : list action :=
  map (Store s) (seq 0 12 ++ seq 16 (length (de_payload d))).
Definition copy_all : list action := map Read (seq 0 ENTRY_BYTES).

Definition d0 : DecodedEntry := mkDecodedEntry 1 100 [x0a; x0b].
Definition d1 : DecodedEntry := mkDecodedEntry 2 200 [x0c; x0d].

(** Two slots; a second producer is at work while the first entry is read. *)
Definition fair_run : list action :=
  Claim d0 :: Clear 0 :: stores 0 d0 ++ [Commit 0; Begin 0] ++ take 100 copy_all ++ [Claim d1; Clear 1; Store 1 9]
  ++ drop 100 copy_all ++ [End_].
Definition demo_race : race := default (start 2) (exec 2 true fair_run (start 2)).


(** A producer that is lapped while it writes tears the entry of the one that laps
    it: one slot, two producers, and the reader is handed an entry -- the time of
    the first, the rest of the second -- that nobody logged. *)
Definition lapping_run : list action :=
  Claim d0 :: Clear 0 :: Claim d1 :: Clear 1 :: stores 1 d1 ++ [Store 0 0; Commit 1; Begin 1] ++ copy_all ++ [End_].
Definition torn_race : race := default (start 1) (exec 1 false lapping_run (start 1)).

Lemma lapped_torn :
  rtc (step 1 false) (start 1) torn_race /\ rc_log torn_race = [d0; d1] /\
  m_view (observed 2 torn_race) 1 = mkObs 2 (mkEntry 2 100 2 2 (x0c :: x0d :: replicate 230 x00)) 2.
Proof.
  split; [|split; vm_compute; reflexivity]. apply (exec_steps 1 false lapping_run). vm_compute. reflexivity.
Qed.
