(* ===== verification/CSchema.v ===== *)
(** * The C library: the schema on the wire

    Models the schema half of src/btelem.c: [btelem_schema_serialize] (into a
    buffer, with its size query) and [btelem_schema_stream] (chunk by chunk through
    a callback), with the three [serialize_one_*] helpers.  The abstract side is the
    viewer's own [Schema] (WireSchema.v). *)

From Stdlib Require Import Sorted.
From S2P Require Import Prelude Text Wire WireSchema CTypes CRing.

(** ** Fixed-size records *)

(** [strncpy(dst, s, n - 1)] into a zeroed [char dst[n]]. *)
Definition char_array (n : Z) (s : list byte) : list byte := pad (n - 1) (take (Z.to_nat (n - 1)) s) ++ [x00].
Definition char_array_opt (n : Z) (s : option (list byte)) : list byte :=
  match s with Some s => char_array n s | None => zeros n end.

Definition clamp (n max : Z) : Z := if n <? max then n else max.

Definition field_wire (f : btelem_field_def) : list byte :=
  char_array BTELEM_NAME_MAX (f_name f) ++ le_bytes 2 (f_offset f) ++ le_bytes 2 (f_size f)
  ++ le_bytes 1 (f_type f) ++ le_bytes 1 (f_count f).

Definition serialize_one_entry (e : btelem_schema_entry) : total (list byte) :=
  let fc := clamp (s_field_count e) BTELEM_MAX_FIELDS in
  fields ← collect (Z.to_nat fc) 0 (fun f => fld ← index (s_fields e) f; mret (field_wire fld));
  mret (le_bytes 2 (s_id e) ++ le_bytes 2 (s_payload_size e) ++ le_bytes 2 (s_field_count e)
        ++ char_array BTELEM_NAME_MAX (s_name e) ++ char_array_opt BTELEM_DESC_MAX (s_description e)
        ++ concat fields ++ zeros ((BTELEM_MAX_FIELDS - fc) * 70)).

(** The label loop, with what it does with a null label. *)
Definition enum_wire (on_null : total (list byte)) (e : btelem_schema_entry) (field_index : Z) : total (list byte) :=
  fld ← index (s_fields e) field_index;
  ed ← match f_enum_def fld with Some ed => mret ed | None => Panic end;
  let lc := clamp (ed_label_count ed) BTELEM_ENUM_MAX_VALUES in
  labels ← collect (Z.to_nat lc) 0 (fun li =>
    l ← index (ed_labels ed) li;
    match l with Some l => mret (char_array BTELEM_ENUM_LABEL_MAX l) | None => on_null end);
  mret (le_bytes 2 (s_id e) ++ le_bytes 2 field_index ++ le_bytes 1 lc
        ++ concat labels ++ zeros ((BTELEM_ENUM_MAX_VALUES - lc) * BTELEM_ENUM_LABEL_MAX)).
(** The streaming writer leaves a null label empty... *)
Definition serialize_one_enum : btelem_schema_entry -> Z -> total (list byte) := enum_wire (mret (zeros BTELEM_ENUM_LABEL_MAX)).
(** ... the loop in [btelem_schema_serialize] hands it to [strncpy]. *)
Definition serialize_enum_inline : btelem_schema_entry -> Z -> total (list byte) := enum_wire Panic.

Definition serialize_one_bitfield (e : btelem_schema_entry) (field_index : Z) : total (list byte) :=
  fld ← index (s_fields e) field_index;
  bd ← match f_bitfield_def fld with Some bd => mret bd | None => Panic end;
  let bc := clamp (bd_bit_count bd) BTELEM_BITFIELD_MAX_BITS in
  bits ← collect (Z.to_nat bc) 0 (index (bd_bits bd));
  let unused := BTELEM_BITFIELD_MAX_BITS - bc in
  mret (le_bytes 2 (s_id e) ++ le_bytes 2 field_index ++ le_bytes 1 bc
        ++ concat (map (fun b => char_array_opt BTELEM_BIT_NAME_MAX (bt_name b)) bits) ++ zeros (unused * BTELEM_BIT_NAME_MAX)
        ++ concat (map (fun b => le_bytes 1 (bt_start b)) bits) ++ zeros unused
        ++ concat (map (fun b => le_bytes 1 (bt_width b)) bits) ++ zeros unused).

(** ** The loops over the registry *)

(** [for (i = 0; i < schema_count; i++) if (schema[i])]. *)
Definition present (l : list (option btelem_schema_entry)) : list btelem_schema_entry := omap (M := list) id l.
Definition registered (x : btelem_ctx) : total (list btelem_schema_entry) :=
  l ← collect (Z.to_nat (x_schema_count x)) 0 (index (x_schema x)); mret (present l).

Definition is_enum (f : btelem_field_def) : bool :=
  (f_type f =? BTELEM_ENUM) && match f_enum_def f with Some _ => true | None => false end.
Definition is_bitfield (f : btelem_field_def) : bool :=
  (f_type f =? BTELEM_BITFIELD) && match f_bitfield_def f with Some _ => true | None => false end.

(** The fields of an entry that satisfy [p], by index. *)
Definition fields_where (p : btelem_field_def -> bool) (e : btelem_schema_entry) : total (list (btelem_schema_entry * Z)) :=
  l ← collect (Z.to_nat (clamp (s_field_count e) BTELEM_MAX_FIELDS)) 0 (fun f =>
    fld ← index (s_fields e) f; mret (if p fld then [(e, f)] else []));
  mret (concat l).
Definition all_where (p : btelem_field_def -> bool) (l : list btelem_schema_entry) : total (list (btelem_schema_entry * Z)) :=
  l ← mapM (fields_where p) l; mret (concat l).

Definition sizeof_schema_header : Z := 3.
Definition sizeof_schema_wire : Z := 1318.
Definition sizeof_enum_wire : Z := 2053.
Definition sizeof_bitfield_wire : Z := 1093.
Definition schema_header (x : btelem_ctx) (count : Z) : list byte := le_bytes 1 (x_endianness x) ++ le_bytes 2 count.

(** ** [btelem_schema_serialize] *)
Section serialize.
Context {A : Type} (ser : A -> total (list byte)) (size : Z).
(** Records written one after another from [p]. *)
Fixpoint write_each (l : list A) (buf : list byte) (p : Z) : total (list byte * Z) :=
  match l with
  | [] => mret (buf, p)
  | a :: l => w ← ser a; buf ← write_at buf p w; write_each l buf (p + size)
  end.
End serialize.

(** The sections, after the sizes have been checked. *)
Definition serialize_into (x : btelem_ctx) (es : list btelem_schema_entry) (enums bits : list (btelem_schema_entry * Z))
    (needed : Z) (buf : list byte) : total (list byte) :=
  buf ← write_at buf 0 (zeros needed);
  buf ← write_at buf 0 (schema_header x (wrap 16 (blen es)));
  r ← write_each serialize_one_entry sizeof_schema_wire es buf sizeof_schema_header;
  let p := sizeof_schema_header + wrap 16 (blen es) * sizeof_schema_wire in
  buf ← write_at r.1 p (le_bytes 2 (wrap 16 (blen enums)));
  r ← write_each (uncurry serialize_enum_inline) sizeof_enum_wire enums buf (p + 2);
  buf ← write_at r.1 r.2 (le_bytes 2 (wrap 16 (blen bits)));
  r ← write_each (uncurry serialize_one_bitfield) sizeof_bitfield_wire bits buf (r.2 + 2);
  mret r.1.

(** The result, and the buffer when there is one. *)
Definition btelem_schema_serialize (x : btelem_ctx) (buf : option (list byte)) : total (option (list byte) * Z) :=
  es ← registered x;
  enums ← all_where is_enum es;
  bits ← all_where is_bitfield es;
  let count := wrap 16 (blen es) in
  let enum_count := wrap 16 (blen enums) in
  let bitfield_count := wrap 16 (blen bits) in
  let needed := sizeof_schema_header + count * sizeof_schema_wire + 2 + enum_count * sizeof_enum_wire
                + 2 + bitfield_count * sizeof_bitfield_wire in
  match buf with
  | None => mret (None, to_signed 32 (wrap 32 needed))
  | Some buf =>
    if blen buf <? needed then mret (Some buf, -1)
    else
      buf ← serialize_into x es enums bits needed buf;
      mret (Some buf, to_signed 32 (wrap 32 needed))
  end.

(** ** [btelem_schema_stream] *)
Section stream.
Context {U : Type} (emit : list byte -> U -> U * Z).

(** [None]: the callback has asked to stop. *)
Definition emit_chunk (chunk : list byte) (st : U * option Z) : U * option Z :=
  match st with
  | (u, Some total) =>
    let '(u, rc) := emit chunk u in
    (u, if rc =? 0 then Some (to_signed 32 (wrap 32 (total + blen chunk))) else None)
  | (u, None) => (u, None)
  end.

Fixpoint emit_each {A} (ser : A -> total (list byte)) (l : list A) (st : U * option Z) : total (U * option Z) :=
  match l, st.2 with
  | a :: l, Some _ => w ← ser a; emit_each ser l (emit_chunk w st)
  | _, _ => mret st
  end.

Definition btelem_schema_stream (x : btelem_ctx) (u : U) : total (U * Z) :=
  es ← registered x;
  enums ← all_where is_enum es;
  bits ← all_where is_bitfield es;
  let st := emit_chunk (schema_header x (wrap 16 (blen es))) (u, Some 0) in
  st ← emit_each serialize_one_entry es st;
  st ← emit_each (uncurry serialize_one_enum) enums (emit_chunk (le_bytes 2 (wrap 16 (blen enums))) st);
  st ← emit_each (uncurry serialize_one_bitfield) bits (emit_chunk (le_bytes 2 (wrap 16 (blen bits))) st);
  mret (st.1, default (-1) st.2).
End stream.

(** ** The schema the viewer is to see *)

(** What a name field can carry of a string, and the strings it carries whole or
    cut at a character boundary. *)
Definition cut (max : Z) (s : list byte) : text := take (Z.to_nat (max - 1)) s.
Definition text_ok (max : Z) (s : list byte) : Prop := (x00 ∉ s) /\ utf8_valid (cut max s) = true.

Record field_ok (f : btelem_field_def) : Prop := {
  fo_name : text_ok 64 (f_name f);
  fo_nums : in_u 16 (f_offset f) /\ in_u 16 (f_size f) /\ 0 <= f_type f <= 14 /\ in_u 8 (f_count f);
  fo_enum ed : f_enum_def f = Some ed -> ed_label_count ed = blen (ed_labels ed) /\ in_u 8 (blen (ed_labels ed)) /\
    Forall (fun l => text_ok 32 (default [] l)) (ed_labels ed);
  fo_bits bd : f_bitfield_def f = Some bd -> bd_bit_count bd = blen (bd_bits bd) /\ in_u 8 (blen (bd_bits bd)) /\
    Forall (fun b => text_ok 32 (default [] (bt_name b)) /\ in_u 8 (bt_start b) /\ in_u 8 (bt_width b)) (bd_bits bd);
}.

(** A descriptor as the macros of btelem_types.h build it. *)
Record entry_ok (e : btelem_schema_entry) : Prop := {
  eo_nums : 0 <= s_id e < 512 /\ in_u 16 (s_payload_size e);
  eo_texts : text_ok 64 (s_name e) /\ text_ok 128 (default [] (s_description e));
  eo_count : s_field_count e = blen (s_fields e) /\ blen (s_fields e) <= 16;
  eo_fields : Forall field_ok (s_fields e);
}.

Definition ty_of (b : Z) : FieldType := match FieldType_from_u8 b with Ok t => t | _ => U8 end.
Definition view_field (f : btelem_field_def) : FieldDef :=
  mkFieldDef (cut 64 (f_name f)) (f_offset f) (f_size f) (ty_of (f_type f)) (f_count f).
Definition view_entry (e : btelem_schema_entry) : SchemaEntry :=
  mkSchemaEntry (s_id e) (cut 64 (s_name e)) (cut 128 (default [] (s_description e))) (s_payload_size e) (map view_field (s_fields e)).
Definition view_enum (ef : btelem_schema_entry * Z) : EnumDef :=
  mkEnumDef (s_id ef.1) ef.2
    (match s_fields ef.1 !! Z.to_nat ef.2 ≫= f_enum_def with
     | Some ed => map (fun l => cut 32 (default [] l)) (take 64 (ed_labels ed)) | None => [] end).
Definition view_bit (b : btelem_bit_def) : BitDef := mkBitDef (cut 32 (default [] (bt_name b))) (bt_start b) (bt_width b).
Definition view_bitfield (ef : btelem_schema_entry * Z) : BitfieldDef :=
  mkBitfieldDef (s_id ef.1) ef.2
    (match s_fields ef.1 !! Z.to_nat ef.2 ≫= f_bitfield_def with
     | Some bd => map view_bit (take 32 (bd_bits bd)) | None => [] end).

Definition fields_at (p : btelem_field_def -> bool) (e : btelem_schema_entry) : list (btelem_schema_entry * Z) :=
  concat (imap (fun i f => if p f then [(e, Z.of_nat i)] else []) (s_fields e)).
Definition schema_view (l : list btelem_schema_entry) : Schema :=
  mkSchema (map view_entry l) (map view_enum (concat (map (fields_at is_enum) l)))
           (map view_bitfield (concat (map (fields_at is_bitfield) l))).

(** ** The records, encoded *)
Lemma pad_pad n s : blen s <= n -> 0 <= n -> pad n s ++ [x00] = pad (n + 1) s.
Proof.
  intros Hl Hn. unfold pad, blen in *. rewrite <-app_assoc. f_equal.
  replace (Z.to_nat (n + 1) - length s)%nat with (Z.to_nat n - length s + 1)%nat by lia. by rewrite replicate_add.
Qed.

Lemma char_array_pad n s : 0 < n -> char_array n s = pad n (cut n s).
Proof.
  intros Hn. unfold char_array, cut. rewrite pad_pad; [f_equal; lia| |lia]. unfold blen. rewrite length_take. lia.
Qed.

Lemma char_array_opt_pad n s : 0 < n -> char_array_opt n s = pad n (cut n (default [] s)).
Proof.
  intros Hn. destruct s as [s|]; cbn; [by apply char_array_pad|]. unfold cut. rewrite take_nil. unfold pad, zeros. cbn. f_equal. lia.
Qed.

Lemma cut_ok n s : 0 < n -> text_ok n s -> cstr_ok n (cut n s).
Proof.
  intros Hn [Hz Hu]. split_and!; [done| |unfold cut, blen; rewrite length_take; lia].
  intros H. apply Hz. by apply (elem_of_take _ _ _) in H as (i & H & _); eapply list_elem_of_lookup_2.
Qed.

Lemma ty_of_u8 b : 0 <= b <= 14 -> FieldType_to_u8 (ty_of b) = b.
Proof.
  intros H. assert (b = 0 \/ b = 1 \/ b = 2 \/ b = 3 \/ b = 4 \/ b = 5 \/ b = 6 \/ b = 7 \/ b = 8 \/ b = 9 \/ b = 10 \/
    b = 11 \/ b = 12 \/ b = 13 \/ b = 14) as Hc by lia. repeat destruct Hc as [->|Hc]; try done. by subst.
Qed.

Lemma field_wire_view f : field_ok f -> field_wire f = encode_field (view_field f) /\ field_wf (view_field f).
Proof.
  intros [Hn (H1 & H2 & H3 & H4) _ _]. unfold field_wire, encode_field, BTELEM_NAME_MAX. cbn [fd_name fd_offset fd_size fd_ty fd_count view_field].
  rewrite char_array_pad, ty_of_u8 by lia. split; [done|]. split_and!; [by apply cut_ok|done|done|done].
Qed.

Lemma index_Some {E A} (l : list A) i a : l !! Z.to_nat i = Some a -> index (E := E) l i = Ok a.
Proof. intros H. unfold index. by rewrite H. Qed.

(** A loop over the elements of a list, by index. *)
Lemma collect_index {E A B} (l : list A) n (g : A -> B) : (Z.to_nat n <= length l)%nat ->
  collect (E := E) (Z.to_nat n) 0 (fun i => a ← index l i; mret (g a)) = Ok (map g (take (Z.to_nat n) l)).
Proof.
  intros Hn. apply collect_Ok. rewrite length_map, length_take. split; [lia|]. intros i b Hb. rewrite Z.add_0_l.
  rewrite list_lookup_fmap in Hb. destruct (take (Z.to_nat n) l !! i) as [a|] eqn:Ea; [|done]. injection Hb as <-.
  apply lookup_take_Some in Ea as [Ea _]. unfold index. by rewrite Nat2Z.id, Ea.
Qed.

Lemma collect_ext {E A} n lo (f g : Z -> res E A) : (forall i, lo <= i < lo + Z.of_nat n -> f i = g i) -> collect n lo f = collect n lo g.
Proof.
  revert lo. induction n as [|n IH]; intros lo H; cbn [collect]; [done|]. rewrite H by lia. destruct (g lo); [|done|done]. cbn.
  rewrite (IH (lo + 1)); [done|]. intros i Hi. apply H. lia.
Qed.

Lemma clamp_min n max : clamp n max = Z.min n max.
Proof. unfold clamp. destruct (n <? max) eqn:E; lia. Qed.

Lemma serialize_one_entry_view e : entry_ok e ->
  serialize_one_entry e = Ok (encode_schema_entry (view_entry e)) /\ entry_wf (view_entry e).
Proof.
  intros [[Hi Hp] [Hn Hd] [Hc Hl] Hf]. unfold serialize_one_entry, BTELEM_MAX_FIELDS, BTELEM_NAME_MAX, BTELEM_DESC_MAX.
  rewrite clamp_min, Hc, Z.min_l by done. rewrite collect_index by (unfold blen; lia). cbn [mbind res_bind].
  rewrite take_ge by (unfold blen; lia). rewrite char_array_pad, char_array_opt_pad by lia. unfold encode_schema_entry.
  cbn [se_id se_name se_description se_payload_size se_fields view_entry]. rewrite map_map.
  assert (Hm : map field_wire (s_fields e) = map (fun f => encode_field (view_field f)) (s_fields e)).
  { apply map_ext_in. intros f Hin. apply field_wire_view. rewrite Forall_forall in Hf. apply Hf. by apply list_elem_of_In. }
  assert (Hbl : blen (map view_field (s_fields e)) = blen (s_fields e)) by (unfold blen; by rewrite length_map).
  split; [by rewrite Hm, Hbl|]. split_and!; cbn; [unfold in_u; lia|by apply cut_ok|by apply cut_ok|done|by rewrite Hbl|].
  apply Forall_map. eapply Forall_impl; [exact Hf|]. intros f Hfo. by apply field_wire_view.
Qed.

(** The fields an entry lists, as the loops find them. *)
Lemma fields_at_elem p e ef : ef ∈ fields_at p e -> exists f, ef.1 = e /\ 0 <= ef.2 < blen (s_fields e) /\
  s_fields e !! Z.to_nat ef.2 = Some f /\ p f = true.
Proof.
  unfold fields_at. rewrite list_elem_of_In, in_concat. setoid_rewrite <-list_elem_of_In.
  intros (l & Hl & Hin). apply elem_of_lookup_imap in Hl as (i & f & -> & Hf).
  destruct (p f) eqn:E; [|by apply not_elem_of_nil in Hin]. apply list_elem_of_singleton in Hin as ->. exists f. cbn.
  rewrite Nat2Z.id. pose proof (lookup_lt_Some _ _ _ Hf). unfold blen. split_and!; [done|lia|lia|done|done].
Qed.

Lemma fields_where_ok p e : entry_ok e -> fields_where p e = Ok (fields_at p e).
Proof.
  intros [_ _ [Hc Hl] _]. unfold fields_where, BTELEM_MAX_FIELDS. rewrite clamp_min, Hc, Z.min_l by done.
  rewrite (proj2 (collect_Ok _ _ _ (imap (fun i f => if p f then [(e, Z.of_nat i)] else []) (s_fields e)))); [done|].
  rewrite length_imap. unfold blen. split; [lia|]. intros i b Hb. rewrite list_lookup_imap in Hb.
  destruct (s_fields e !! i) as [f|] eqn:Ef; [|done]. injection Hb as <-. rewrite Z.add_0_l. unfold index. by rewrite Nat2Z.id, Ef.
Qed.

Lemma all_where_ok p l : Forall entry_ok l -> all_where p l = Ok (concat (map (fields_at p) l)).
Proof.
  intros H. unfold all_where. assert (mapM (fields_where p) l = Ok (map (fields_at p) l)) as ->; [|done].
  induction H as [|e l He _ IH]; [done|]. cbn. by rewrite fields_where_ok, IH.
Qed.

Lemma concat_imap_len {A B} (g : nat -> A -> list B) l : (forall i a, blen (g i a) <= 1) -> blen (concat (imap g l)) <= blen l.
Proof.
  revert g. induction l as [|a l IH]; intros g Hg; [done|]. rewrite imap_cons. cbn [concat]. rewrite blen_app, blen_cons.
  specialize (IH (g ∘ S) (fun i => Hg (S i))). specialize (Hg 0%nat a). lia.
Qed.

Lemma fields_at_len p e : blen (fields_at p e) <= blen (s_fields e).
Proof. apply concat_imap_len. intros i f. by destruct (p f). Qed.

Lemma all_fields_len p l : Forall entry_ok l -> blen (concat (map (fields_at p) l)) <= 16 * blen l.
Proof.
  induction 1 as [|e l He _ IH]; [done|]. cbn [map concat]. rewrite blen_app, blen_cons. pose proof (fields_at_len p e).
  destruct (eo_count _ He). lia.
Qed.

Lemma all_fields_elem p l ef : ef ∈ concat (map (fields_at p) l) -> exists e, e ∈ l /\ ef ∈ fields_at p e.
Proof.
  rewrite list_elem_of_In, in_concat. setoid_rewrite in_map_iff. intros (k & (e & <- & He) & Hin). exists e.
  by rewrite !list_elem_of_In.
Qed.

Lemma labels_view labels : Forall (fun l => text_ok 32 (default [] l)) labels ->
  map (char_array_opt 32) labels = map (pad 32) (map (fun l => cut 32 (default [] l)) labels) /\
  Forall (cstr_ok 32) (map (fun l => cut 32 (default [] l)) labels).
Proof.
  intros H. rewrite map_map. split; [apply map_ext; intros l; by apply char_array_opt_pad|].
  apply Forall_map. eapply Forall_impl; [exact H|]. intros l Hl. by apply cut_ok.
Qed.

(** The two writers of an enum, on labels that are all there. *)
Lemma enum_wire_view on_null e ef : entry_ok e -> ef ∈ fields_at is_enum e ->
  (on_null = mret (zeros 32) \/ forall f ed, s_fields e !! Z.to_nat ef.2 = Some f -> f_enum_def f = Some ed -> Forall is_Some (ed_labels ed)) ->
  enum_wire on_null ef.1 ef.2 = Ok (encode_enum (view_enum ef)) /\ enum_wf (view_enum ef).
Proof.
  intros [[Hi _] _ [_ Hfl] Hf] (f & E1 & E2 & Ef & Ee)%fields_at_elem Hnull. destruct ef as [e' i]. cbn [fst snd] in *. subst e'.
  unfold enum_wire, view_enum. cbn [fst snd]. rewrite (index_Some _ _ _ Ef), Ef. cbn [mbind res_bind option_bind].
  unfold is_enum in Ee. apply andb_true_iff in Ee as [_ Ee]. destruct (f_enum_def f) as [ed|] eqn:Ed; [|done]. cbn [mbind res_bind mret res_ret].
  pose proof (Forall_lookup_1 _ _ _ _ Hf Ef) as Hfo. destruct (fo_enum _ Hfo ed Ed) as (Hc & [Hb0 Hb] & Hlab).
  unfold BTELEM_ENUM_MAX_VALUES, BTELEM_ENUM_LABEL_MAX. rewrite clamp_min, Hc. set (n := Z.min (blen (ed_labels ed)) 64).
  assert (Hn : (Z.to_nat n <= length (ed_labels ed))%nat) by (unfold n, blen; lia).
  rewrite (collect_ext _ _ _ (fun li => l ← index (ed_labels ed) li; mret (char_array_opt 32 l))).
  2:{ intros j Hj. unfold index. destruct (ed_labels ed !! Z.to_nat j) as [l|] eqn:El; [|done]. cbn. destruct l as [l|]; [done|].
      destruct Hnull as [->|Hall]; [done|]. specialize (Hall f ed Ef Ed). by destruct (Forall_lookup_1 _ _ _ _ Hall El). }
  rewrite collect_index by done. cbn [mbind res_bind].
  assert (Ht : take (Z.to_nat n) (ed_labels ed) = take 64 (ed_labels ed)).
  { unfold n, blen. destruct (decide (length (ed_labels ed) <= 64)%nat); [rewrite !take_ge by lia; done|f_equal; lia]. }
  rewrite Ht. destruct (labels_view (take 64 (ed_labels ed))) as [Hm Hwf]; [by apply Forall_take|]. rewrite Hm.
  assert (Hlen : blen (map (fun l => cut 32 (default [] l)) (take 64 (ed_labels ed))) = n) by (unfold blen, n; rewrite length_map, length_take; unfold blen; lia).
  unfold encode_enum. cbn [en_schema_id en_field_index en_labels]. rewrite Hlen. split; [done|].
  split_and!; cbn; [unfold in_u; lia|unfold in_u; lia|rewrite Hlen; lia|done].
Qed.

Lemma bitfield_wire_view e ef : entry_ok e -> ef ∈ fields_at is_bitfield e ->
  serialize_one_bitfield ef.1 ef.2 = Ok (encode_bitfield (view_bitfield ef)) /\ bitfield_wf (view_bitfield ef).
Proof.
  intros [[Hi _] _ [_ Hfl] Hf] (f & E1 & E2 & Ef & Ee)%fields_at_elem. destruct ef as [e' i]. cbn [fst snd] in *. subst e'.
  unfold serialize_one_bitfield, view_bitfield. cbn [fst snd]. rewrite (index_Some _ _ _ Ef), Ef. cbn [mbind res_bind option_bind].
  unfold is_bitfield in Ee. apply andb_true_iff in Ee as [_ Ee]. destruct (f_bitfield_def f) as [bd|] eqn:Ed; [|done]. cbn [mbind res_bind mret res_ret].
  pose proof (Forall_lookup_1 _ _ _ _ Hf Ef) as Hfo. destruct (fo_bits _ Hfo bd Ed) as (Hc & [Hb0 Hb] & Hbits).
  unfold BTELEM_BITFIELD_MAX_BITS, BTELEM_BIT_NAME_MAX. rewrite clamp_min, Hc. set (n := Z.min (blen (bd_bits bd)) 32).
  assert (Hn : (Z.to_nat n <= length (bd_bits bd))%nat) by (unfold n, blen; lia).
  rewrite (collect_ext _ _ _ (fun li => b ← index (bd_bits bd) li; mret (id b))) by (intros; by destruct (index _ _)).
  rewrite collect_index, map_id by done. cbn [mbind res_bind].
  assert (Ht : take (Z.to_nat n) (bd_bits bd) = take 32 (bd_bits bd)).
  { unfold n, blen. destruct (decide (length (bd_bits bd) <= 32)%nat); [rewrite !take_ge by lia; done|f_equal; lia]. }
  rewrite Ht. set (bits := take 32 (bd_bits bd)) in *. assert (Hlen : blen (map view_bit bits) = n).
  { unfold bits, blen, n. rewrite length_map, length_take. unfold blen. lia. }
  unfold encode_bitfield. cbn [bf_schema_id bf_field_index bf_bits]. rewrite Hlen, !map_map.
  rewrite (map_ext (fun b => char_array_opt 32 (bt_name b)) (fun b => pad 32 (bd_name (view_bit b)))) by (intros; by apply char_array_opt_pad).
  split; [done|]. split_and!; cbn; [unfold in_u; lia|unfold in_u; lia|rewrite Hlen; lia|].
  apply Forall_map. eapply Forall_impl; [by apply Forall_take|]. intros b (H1 & H2 & H3). split_and!; [by apply cut_ok|done|done].
Qed.

(** ** The registry *)
Record registry_ok (x : btelem_ctx) : Prop := {
  rg_len : length (x_schema x) = 512%nat;
  rg_count : 0 <= x_schema_count x <= 512;
  rg_entry i e : x_schema x !! i = Some (Some e) -> s_id e = Z.of_nat i /\ s_id e < x_schema_count x /\ entry_ok e;
  rg_endian : x_endianness x = 0;
}.

Definition reg (x : btelem_ctx) : list btelem_schema_entry := present (x_schema x).

Lemma init_registry_ok n x : btelem_init n = Some x -> registry_ok x.
Proof.
  unfold btelem_init. destruct (negb _); [done|]. intros [= <-]. split; cbn; [done|lia| |done].
  intros i e H. by apply (lookup_replicate 512) in H as [? _].
Qed.

(** Registering a descriptor replaces that of its id and touches no other. *)
Lemma register_ok x e : registry_ok x -> entry_ok e -> s_payload_size e <= 232 ->
  exists x', btelem_register x e = Some x' /\ registry_ok x' /\ x_schema x' = <[Z.to_nat (s_id e) := Some e]> (x_schema x) /\
    x_ring x' = x_ring x /\ x_clients x' = x_clients x.
Proof.
  intros [Hl Hc He Hn] Hok Hp. pose proof (eo_nums _ Hok) as [Hi _]. unfold btelem_register, BTELEM_MAX_SCHEMA_ENTRIES, BTELEM_MAX_PAYLOAD.
  replace (512 <=? s_id e) with false by lia. replace (232 <? s_payload_size e) with false by lia.
  eexists. split; [done|]. split; [|done]. split; cbn; [by rewrite length_insert| | |done].
  - destruct (_ <=? _) eqn:E; [rewrite wrap_small by (unfold in_u; lia)|]; lia.
  - intros i e' H. apply list_lookup_insert_Some in H as [(<- & [= <-] & _)|[Hne H]].
    + split; [lia|]. split; [|done]. destruct (_ <=? _) eqn:E; [rewrite wrap_small by (unfold in_u; lia)|]; lia.
    + destruct (He _ _ H) as (H1 & H2 & H3). split; [done|]. split; [|done]. destruct (_ <=? _) eqn:E; [rewrite wrap_small by (unfold in_u; lia)|]; lia.
Qed.

Lemma present_elem l e : e ∈ present l -> exists i, l !! i = Some (Some e).
Proof.
  unfold present. intros H. apply list_elem_of_omap in H as (o & Ho & Eo). apply list_elem_of_lookup_1 in Ho as [i Hi].
  exists i. by rewrite Hi, <-Eo.
Qed.

Lemma present_sorted l k : (forall i e, l !! i = Some (Some e) -> s_id e = k + Z.of_nat i) ->
  StronglySorted Z.lt (map s_id (present l)).
Proof.
  revert k. induction l as [|o l IH]; intros k H; [constructor|].
  assert (Hl : forall i e, l !! i = Some (Some e) -> s_id e = k + 1 + Z.of_nat i).
  { intros i e Hi. rewrite (H (S i) e Hi). lia. }
  specialize (IH _ Hl). destruct o as [e|]; [|exact IH]. cbn. constructor; [exact IH|].
  apply Forall_map, Forall_forall. intros e' (i & Hi)%present_elem. rewrite (H 0%nat e eq_refl), (Hl i e' Hi). lia.
Qed.

Lemma present_len l : blen (present l) <= blen l.
Proof.
  induction l as [|[e|] l IH]; [done|..]; rewrite blen_cons.
  - change (present (Some e :: l)) with (e :: present l). rewrite blen_cons. lia.
  - change (present (None :: l)) with (present l). lia.
Qed.

(** The loops over the registry visit its entries, by increasing id. *)
Lemma registered_ok x : registry_ok x ->
  registered x = Ok (reg x) /\ Forall entry_ok (reg x) /\ blen (reg x) <= 512 /\ StronglySorted Z.lt (map s_id (reg x)).
Proof.
  intros [Hl Hc He Hn]. split_and!.
  - unfold registered. rewrite (collect_ext _ _ _ (fun i => a ← index (x_schema x) i; mret (id a))) by (intros; by destruct (index _ _)).
    rewrite collect_index, map_id by lia. cbn [mbind res_bind]. unfold reg, mret, res_ret. f_equal.
    rewrite <-(take_drop (Z.to_nat (x_schema_count x)) (x_schema x)) at 2. unfold present. rewrite omap_app.
    assert (omap id (drop (Z.to_nat (x_schema_count x)) (x_schema x)) = []) as ->; [|by rewrite app_nil_r].
    destruct (omap id _) as [|e k] eqn:E; [done|exfalso]. assert (Hin : e ∈ present (drop (Z.to_nat (x_schema_count x)) (x_schema x))).
    { unfold present. rewrite E. apply elem_of_cons. by left. }
    apply present_elem in Hin as [i Hi]. rewrite lookup_drop in Hi. destruct (He _ _ Hi) as (H1 & H2 & _). lia.
  - apply Forall_forall. intros e (i & Hi)%present_elem. by apply (He i).
  - etrans; [apply present_len|]. unfold blen. lia.
  - apply (present_sorted _ 0). intros i e Hi. by apply (He i).
Qed.

(** ** What is streamed *)
Section streamed.
Context (x : btelem_ctx) (Hx : registry_ok x).

Definition enums_of : list (btelem_schema_entry * Z) := concat (map (fields_at is_enum) (reg x)).
Definition bits_of : list (btelem_schema_entry * Z) := concat (map (fields_at is_bitfield) (reg x)).
Definition chunks : list (list byte) :=
  (le_bytes 1 0 ++ le_bytes 2 (blen (reg x))) :: map (fun e => encode_schema_entry (view_entry e)) (reg x)
  ++ le_bytes 2 (blen enums_of) :: map (fun ef => encode_enum (view_enum ef)) enums_of
  ++ le_bytes 2 (blen bits_of) :: map (fun ef => encode_bitfield (view_bitfield ef)) bits_of.

Lemma counts_small : in_u 16 (blen (reg x)) /\ in_u 16 (blen enums_of) /\ in_u 16 (blen bits_of) /\
  blen (reg x) <= 512 /\ blen enums_of <= 8192 /\ blen bits_of <= 8192.
Proof using Hx.
  destruct (registered_ok x Hx) as (_ & Hf & Hl & _). pose proof (all_fields_len is_enum _ Hf). pose proof (all_fields_len is_bitfield _ Hf).
  fold enums_of bits_of in *. unfold in_u. pose proof (blen_nonneg (reg x)). pose proof (blen_nonneg enums_of). pose proof (blen_nonneg bits_of). lia.
Qed.

Lemma chunks_schema : concat chunks = encode_schema (schema_view (reg x)).
Proof.
  unfold chunks, encode_schema, schema_view. cbn [sc_entries sc_enums sc_bitfields]. fold enums_of bits_of.
  unfold blen. rewrite !length_map. cbn [concat]. rewrite !map_map, concat_app. cbn [concat]. rewrite concat_app. cbn [concat].
  by rewrite <-!app_assoc.
Qed.

Lemma view_enum_ok on_null ef : ef ∈ enums_of ->
  (on_null = mret (zeros 32) \/ forall e f ed, e ∈ reg x -> f ∈ s_fields e -> f_enum_def f = Some ed -> Forall is_Some (ed_labels ed)) ->
  enum_wire on_null ef.1 ef.2 = Ok (encode_enum (view_enum ef)) /\ enum_wf (view_enum ef).
Proof using Hx.
  intros (e & He & Hin)%all_fields_elem Hn. destruct (registered_ok x Hx) as (_ & Hf & _). rewrite Forall_forall in Hf.
  apply (enum_wire_view on_null e); [by apply Hf|done|]. destruct Hn as [->|Hn]; [by left|right].
  intros f ed Ef Ed. apply (Hn e f ed He); [by eapply list_elem_of_lookup_2|done].
Qed.

Lemma view_bitfield_ok ef : ef ∈ bits_of ->
  serialize_one_bitfield ef.1 ef.2 = Ok (encode_bitfield (view_bitfield ef)) /\ bitfield_wf (view_bitfield ef).
Proof using Hx.
  intros (e & He & Hin)%all_fields_elem. destruct (registered_ok x Hx) as (_ & Hf & _). rewrite Forall_forall in Hf.
  by apply (bitfield_wire_view e); [apply Hf|].
Qed.

Lemma schema_view_wf : schema_wf (schema_view (reg x)).
Proof using Hx.
  destruct counts_small as (H1 & H2 & H3 & H4 & _). destruct (registered_ok x Hx) as (_ & Hf & _). unfold schema_view. fold enums_of bits_of.
  unfold schema_wf. cbn [sc_entries sc_enums sc_bitfields]. unfold blen in *. rewrite !length_map. split_and!; [done|done|done|..];
    apply Forall_map, Forall_forall; intros y Hy.
  - apply serialize_one_entry_view. rewrite Forall_forall in Hf. by apply Hf.
  - eapply view_enum_ok; [done|by left].
  - by apply view_bitfield_ok.
Qed.
End streamed.

(** ** The two writers *)
Section writers.
Context (x : btelem_ctx) (Hx : registry_ok x).

Lemma emit_each_ok {U A} (emit : list byte -> U -> U * Z) (ser : A -> total (list byte)) (enc : A -> list byte) l st :
  (forall a, a ∈ l -> ser a = Ok (enc a)) ->
  emit_each emit ser l st = Ok (foldl (fun st c => emit_chunk emit c st) st (map enc l)).
Proof.
  revert st. induction l as [|a l IH]; intros st H; [by destruct st|]. destruct st as [u [t|]]; cbn [emit_each snd].
  - rewrite (H a) by (apply elem_of_cons; by left). cbn [mbind res_bind]. rewrite IH; [done|]. intros b Hb. apply H, elem_of_cons. by right.
  - cbn [mret res_ret]. f_equal. clear. generalize (a :: l) as k. intros k. induction k; [done|]. done.
Qed.

(** The stream hands the chunks of the encoding to the callback, one by one, until
    it refuses one. *)
Lemma stream_chunks {U} (emit : list byte -> U -> U * Z) u :
  btelem_schema_stream emit x u =
  (let st := foldl (fun st c => emit_chunk emit c st) (u, Some 0) (chunks x) in Ok (st.1, default (-1) st.2)).
Proof using Hx.
  destruct (counts_small x Hx) as (H1 & H2 & H3 & _). destruct (registered_ok x Hx) as (Er & Hf & _). unfold btelem_schema_stream.
  rewrite Er. cbn [mbind res_bind]. rewrite !all_where_ok by done. cbn [mbind res_bind]. fold (enums_of x) (bits_of x).
  rewrite !wrap_small by done. unfold schema_header. rewrite (rg_endian _ Hx).
  rewrite (emit_each_ok emit _ (fun e => encode_schema_entry (view_entry e))).
  2:{ intros e He. apply serialize_one_entry_view. rewrite Forall_forall in Hf. by apply Hf. }
  cbn [mbind res_bind]. rewrite (emit_each_ok emit _ (fun ef => encode_enum (view_enum ef))).
  2:{ intros [e f] Hef. apply (view_enum_ok x Hx _ (e, f) Hef). by left. }
  cbn [mbind res_bind]. rewrite (emit_each_ok emit _ (fun ef => encode_bitfield (view_bitfield ef))).
  2:{ intros [e f] Hef. by apply (view_bitfield_ok x Hx (e, f)). }
  cbn [mbind res_bind]. unfold chunks. cbn [foldl]. rewrite foldl_app. cbn [foldl]. rewrite foldl_app. done.
Qed.

Lemma needed_len : blen (encode_schema (schema_view (reg x))) =
  3 + blen (reg x) * 1318 + 2 + blen (enums_of x) * 2053 + 2 + blen (bits_of x) * 1093 /\
  blen (encode_schema (schema_view (reg x))) < 2 ^ 31.
Proof using Hx.
  destruct (schema_view_wf x Hx) as (_ & _ & _ & H1 & H2 & H3). destruct (counts_small x Hx) as (_ & _ & _ & C1 & C2 & C3).
  assert (Hl : blen (encode_schema (schema_view (reg x))) =
    3 + blen (reg x) * 1318 + 2 + blen (enums_of x) * 2053 + 2 + blen (bits_of x) * 1093); [|split; [done|lia]].
  unfold encode_schema. autorewrite with blen.
  rewrite (concat_len entry_wf _ 1318), (concat_len enum_wf _ 2053), (concat_len bitfield_wf _ 1093)
    by (done || apply encode_schema_entry_len || apply encode_enum_len || apply encode_bitfield_len).
  unfold schema_view. cbn [sc_entries sc_enums sc_bitfields]. fold (enums_of x) (bits_of x). unfold blen. rewrite !length_map. lia.
Qed.

(** Writing on from the end of what is there. *)
Lemma write_at_end buf p front w : seg buf 0 front -> p = blen front -> p + blen w <= blen buf ->
  returns (write_at buf p w) (fun buf' => blen buf' = blen buf /\ seg buf' 0 (front ++ w)).
Proof.
  intros Hf -> Hl. eapply returns_impl; [apply write_at_ok; [apply blen_nonneg|done]|].
  intros buf' (L & S & K). split; [done|]. rewrite seg_app. split; [apply K; [done|lia]|done].
Qed.

Lemma write_each_end {A} (ser : A -> total (list byte)) (enc : A -> list byte) size l buf p front :
  (forall a, a ∈ l -> ser a = Ok (enc a) /\ blen (enc a) = size) -> 0 <= size ->
  seg buf 0 front -> p = blen front -> p + blen l * size <= blen buf ->
  returns (write_each ser size l buf p) (fun r =>
    r.2 = p + blen l * size /\ blen r.1 = blen buf /\ seg r.1 0 (front ++ concat (map enc l))).
Proof.
  revert buf p front. induction l as [|a l IH]; intros buf p front H Hs Hf Hp Hl; cbn [write_each].
  - apply returns_ret. cbn [fst snd map concat]. rewrite app_nil_r. change (blen (@nil A)) with 0. split_and!; [lia|done|done].
  - rewrite blen_cons in *. pose proof (blen_nonneg l). destruct (H a) as [-> Ha]; [apply elem_of_cons; by left|]. cbn [mbind res_bind].
    eapply returns_bind; [apply (write_at_end _ _ front); [done|done|nia]|]. intros b1 (L1 & S1).
    eapply returns_impl; [apply (IH b1 (p + size) (front ++ enc a)); [|done|done|rewrite blen_app; lia|lia]|].
    + intros b Hb. apply H, elem_of_cons. by right.
    + intros r (E2 & L2 & S2). cbn [map concat]. rewrite <-app_assoc in S2. split_and!; [lia|lia|done].
Qed.

Lemma serialize_into_ok buf :
  (forall e f ed, e ∈ reg x -> f ∈ s_fields e -> f_enum_def f = Some ed -> Forall is_Some (ed_labels ed)) ->
  blen (encode_schema (schema_view (reg x))) <= blen buf ->
  returns (serialize_into x (reg x) (enums_of x) (bits_of x) (blen (encode_schema (schema_view (reg x)))) buf)
    (fun buf' => blen buf' = blen buf /\ seg buf' 0 (encode_schema (schema_view (reg x)))).
Proof using Hx.
  intros Hlab Hle. destruct (counts_small x Hx) as (H1 & H2 & H3 & _). destruct (registered_ok x Hx) as (_ & Hf & _). rewrite Forall_forall in Hf.
  destruct needed_len as [Hn _]. rewrite <-chunks_schema. rewrite <-chunks_schema in Hle, Hn. set (enc := concat (chunks x)) in *.
  pose proof (blen_nonneg (reg x)). pose proof (blen_nonneg (enums_of x)). pose proof (blen_nonneg (bits_of x)).
  unfold serialize_into. rewrite !(wrap_small 16) by done. unfold schema_header. rewrite (rg_endian _ Hx).
  unfold sizeof_schema_header, sizeof_schema_wire, sizeof_enum_wire, sizeof_bitfield_wire.
  eapply returns_bind; [apply write_at_ok; [lia|rewrite blen_zeros; lia]|]. intros b0 (L0 & _ & _).
  eapply returns_bind; [apply (write_at_end _ _ []); [apply seg_nil; lia|done|autorewrite with blen; lia]|]. intros b1 (L1 & S1).
  eapply returns_bind; [eapply (write_each_end _ (fun e => encode_schema_entry (view_entry e))); [|lia|exact S1|by autorewrite with blen|lia]|].
  { intros e He. destruct (serialize_one_entry_view e (Hf e He)) as [-> Hwf]. split; [done|by apply encode_schema_entry_len]. }
  intros [b2 p2] (_ & L2 & S2). cbn [fst snd] in *.
  assert (B2 : blen (concat (map (fun e => encode_schema_entry (view_entry e)) (reg x))) = blen (reg x) * 1318).
  { apply blen_concat. intros e He. by apply encode_schema_entry_len, serialize_one_entry_view, Hf. }
  eapply returns_bind; [eapply (write_at_end _ _ _ _ S2); autorewrite with blen; rewrite ?B2; lia|]. intros b3 (L3 & S3).
  eapply returns_bind; [eapply (write_each_end _ (fun ef => encode_enum (view_enum ef))); [|lia|exact S3|autorewrite with blen; rewrite B2; lia|lia]|].
  { intros [e f] Hef. destruct (view_enum_ok x Hx Panic (e, f) Hef) as [E Hwf]; [by right|]. split; [exact E|by apply encode_enum_len]. }
  intros [b4 p4] (E4 & L4 & S4). cbn [fst snd] in *.
  assert (B4 : blen (concat (map (fun ef => encode_enum (view_enum ef)) (enums_of x))) = blen (enums_of x) * 2053).
  { apply blen_concat. intros ef Hef. apply encode_enum_len. eapply (view_enum_ok x Hx _ ef Hef). by left. }
  eapply returns_bind; [eapply (write_at_end _ _ _ _ S4); autorewrite with blen; rewrite ?B2, ?B4; lia|]. intros b5 (L5 & S5).
  eapply returns_bind; [eapply (write_each_end _ (fun ef => encode_bitfield (view_bitfield ef))); [|lia|exact S5|autorewrite with blen; rewrite B2, B4; lia|lia]|].
  { intros [e f] Hef. destruct (view_bitfield_ok x Hx (e, f) Hef) as [E Hwf]. split; [exact E|by apply encode_bitfield_len]. }
  intros [b6 p6] (_ & L6 & S6). apply returns_ret. cbn [fst snd] in *. split; [lia|].
  unfold enc, chunks. cbn [concat]. rewrite concat_app. cbn [concat]. rewrite concat_app. cbn [concat]. cbn [app] in S6. rewrite <-!app_assoc in S6. rewrite <-?app_assoc. exact S6.
Qed.

(** The size query, null labels or not. *)
Lemma serialize_size : btelem_schema_serialize x None = Ok (None, blen (encode_schema (schema_view (reg x)))).
Proof using Hx.
  destruct (counts_small x Hx) as (H1 & H2 & H3 & _). destruct (registered_ok x Hx) as (Er & Hf & _). destruct needed_len as [Hn Hsm].
  unfold btelem_schema_serialize. rewrite Er. cbn [mbind res_bind]. rewrite !all_where_ok by done. cbn [mbind res_bind].
  fold (enums_of x) (bits_of x). rewrite !(wrap_small 16) by done.
  unfold sizeof_schema_header, sizeof_schema_wire, sizeof_enum_wire, sizeof_bitfield_wire. rewrite <-Hn.
  rewrite wrap_small by (pose proof (blen_nonneg (encode_schema (schema_view (reg x)))); unfold in_u; lia).
  unfold to_signed. by replace (_ <? _) with true by lia.
Qed.

Lemma serialize_ok buf :
  (forall e f ed, e ∈ reg x -> f ∈ s_fields e -> f_enum_def f = Some ed -> Forall is_Some (ed_labels ed)) ->
  let enc := encode_schema (schema_view (reg x)) in
  (blen buf < blen enc -> btelem_schema_serialize x (Some buf) = Ok (Some buf, -1)) /\
  (blen enc <= blen buf -> exists buf', btelem_schema_serialize x (Some buf) = Ok (Some buf', blen enc) /\
     blen buf' = blen buf /\ take (Z.to_nat (blen enc)) buf' = enc).
Proof using Hx.
  intros Hlab enc. destruct (counts_small x Hx) as (H1 & H2 & H3 & _). destruct (registered_ok x Hx) as (Er & Hf & _).
  destruct needed_len as [Hn _]. fold enc in Hn. pose proof serialize_size as Hsz. fold enc in Hsz. unfold btelem_schema_serialize in *.
  rewrite Er in *. cbn [mbind res_bind] in *. rewrite !all_where_ok in * by done. cbn [mbind res_bind] in *.
  fold (enums_of x) (bits_of x) in *. rewrite !(wrap_small 16) in * by done.
  unfold sizeof_schema_header, sizeof_schema_wire, sizeof_enum_wire, sizeof_bitfield_wire in *. rewrite <-Hn in *.
  injection Hsz as Hint. rewrite Hint. split; [intros Hlt; by replace (blen buf <? blen enc) with true by lia|]. intros Hle.
  replace (blen buf <? blen enc) with false by lia.
  destruct (serialize_into_ok buf Hlab Hle) as (buf' & E & Hl & p & q & -> & Hp). fold enc in E |- *. rewrite E. cbn [mbind res_bind].
  exists (p ++ enc ++ q). split_and!; [done|done|]. destruct p; [|rewrite blen_cons in Hp; pose proof (blen_nonneg p); lia].
  cbn [app]. unfold blen. by rewrite Nat2Z.id, take_app_length.
Qed.
End writers.

(** ** From descriptors to the viewer *)
Fixpoint register_all (x : btelem_ctx) (l : list btelem_schema_entry) : option btelem_ctx :=
  match l with [] => Some x | e :: l => x ← btelem_register x e; register_all x l end.

Lemma present_insert i e l : l !! i = Some None -> present (<[i := Some e]> l) ≡ₚ e :: present l.
Proof.
  intros H. unfold present. rewrite <-(take_drop_middle l i None H) at 2. rewrite insert_take_drop by (by eapply lookup_lt_Some).
  rewrite !omap_app. cbn. by rewrite Permutation_middle.
Qed.

Lemma register_all_ok x l : registry_ok x -> Forall entry_ok l -> Forall (fun e => s_payload_size e <= 232) l ->
  NoDup (map s_id l) -> (forall e, e ∈ l -> x_schema x !! Z.to_nat (s_id e) = Some None) ->
  exists x', register_all x l = Some x' /\ registry_ok x' /\ reg x' ≡ₚ l ++ reg x.
Proof.
  intros Hx Hl. revert x Hx. induction Hl as [|e l He Hl IH]; intros x Hx Hp Hnd Hfree; cbn [register_all]; [by exists x|].
  apply Forall_cons in Hp as [Hp1 Hp]. cbn [map] in Hnd. apply NoDup_cons in Hnd as [Hni Hnd].
  destruct (register_ok x e Hx He Hp1) as (x1 & -> & Hx1 & Hs & _). cbn [mbind option_bind].
  destruct (IH x1 Hx1 Hp Hnd) as (x2 & -> & Hx2 & Hr).
  - intros e' He'. rewrite Hs. destruct (decide (s_id e' = s_id e)) as [E|Hne].
    + exfalso. apply Hni. rewrite <-E. by apply list_elem_of_fmap_2.
    + assert (0 <= s_id e') by (rewrite Forall_forall in Hl; apply (eo_nums _ (Hl e' He'))). pose proof (eo_nums _ He).
      rewrite list_lookup_insert_ne by lia. apply Hfree, elem_of_cons. by right.
  - exists x2. split_and!; [done|done|]. rewrite Hr. unfold reg. rewrite Hs, present_insert by (apply Hfree, elem_of_cons; by left).
    symmetry. apply Permutation_middle.
Qed.

Definition collector (c : list byte) (l : list (list byte)) : list (list byte) * Z := (l ++ [c], 0).

Lemma collect_chunks cs l t : 0 <= t -> t + blen (concat cs) < 2 ^ 31 ->
  foldl (fun st c => emit_chunk collector c st) (l, Some t) cs = (l ++ cs, Some (t + blen (concat cs))).
Proof.
  revert l t. induction cs as [|c cs IH]; intros l t Ht Hb; cbn [foldl concat].
  - by rewrite app_nil_r, (Z.add_0_r t : t + blen (@nil byte) = t).
  - cbn [concat] in Hb. rewrite blen_app in *. pose proof (blen_nonneg c). pose proof (blen_nonneg (concat cs)). cbn [emit_chunk collector Z.eqb].
    rewrite wrap_small by (unfold in_u; lia). unfold to_signed. replace (_ <? _) with true by lia.
    rewrite IH by lia. rewrite <-app_assoc. do 2 f_equal. lia.
Qed.

(** ** Properties *)

(** C22: The schema reaches the viewer.  Whatever descriptors of the documented shape
    are registered under distinct ids, the chunks [btelem_schema_stream] emits
    concatenate to a blob that the viewer's [Schema::decode] accepts, with exactly
    those entries, by increasing id, with their fields, enum labels and bit names,
    strings cut to their fields; the total reported is the number of bytes. *)
Theorem schema_stream_decodes x0 n l :
  btelem_init n = Some x0 -> Forall entry_ok l -> Forall (fun e => s_payload_size e <= 232) l -> NoDup (map s_id l) ->
  exists x cs total,
    register_all x0 l = Some x /\ reg x ≡ₚ l /\ StronglySorted Z.lt (map s_id (reg x)) /\
    btelem_schema_stream collector x [] = Ok (cs, total) /\ total = blen (concat cs) /\
    Schema_decode (concat cs) = Ok (schema_view (reg x)).
Proof.
  intros Hi Hl Hp Hnd. assert (Hs : x_schema x0 = replicate 512 None).
  { unfold btelem_init in Hi. destruct (negb _); [done|]. by injection Hi as <-. }
  destruct (register_all_ok x0 l) as (x & E & Hx & Hr); [by eapply init_registry_ok|done|done|done| |].
  { intros e He. rewrite Hs. apply lookup_replicate. split; [done|]. rewrite Forall_forall in Hl. pose proof (eo_nums _ (Hl e He)). lia. }
  assert (reg x0 = []) as E0 by (unfold reg; rewrite Hs; reflexivity). rewrite E0, app_nil_r in Hr.
  destruct (needed_len x Hx) as [_ Hsm]. rewrite <-chunks_schema in Hsm. exists x, (chunks x), (blen (concat (chunks x))).
  split_and!; [done|done|by apply registered_ok| |done|].
  - rewrite (stream_chunks x Hx), collect_chunks by lia. done.
  - rewrite chunks_schema. by apply Schema_decode_encode, schema_view_wf.
Qed.

(** The two schema writers agree.  For a registry whose enum labels are all
    there, [btelem_schema_serialize] fills any buffer that is large enough with
    exactly the bytes [btelem_schema_stream] emits, writing nowhere else, its size
    query returns their number, and a buffer that is too small is refused untouched. *)
Theorem schema_writers_agree x buf :
  registry_ok x ->
  (forall e f ed, e ∈ reg x -> f ∈ s_fields e -> f_enum_def f = Some ed -> Forall is_Some (ed_labels ed)) ->
  exists cs total, btelem_schema_stream collector x [] = Ok (cs, total) /\
    btelem_schema_serialize x None = Ok (None, total) /\
    (blen buf < total -> btelem_schema_serialize x (Some buf) = Ok (Some buf, -1)) /\
    (total <= blen buf -> exists buf', btelem_schema_serialize x (Some buf) = Ok (Some buf', total) /\
       blen buf' = blen buf /\ take (Z.to_nat total) buf' = concat cs).
Proof.
  intros Hx Hlab. destruct (needed_len x Hx) as [_ Hsm]. rewrite <-chunks_schema in Hsm. exists (chunks x), (blen (concat (chunks x))).
  split; [by rewrite (stream_chunks x Hx), collect_chunks by lia|]. rewrite chunks_schema.
  split; [by apply serialize_size|by apply serialize_ok].
Qed.

(** ** Witnesses *)
Definition text_okb (max : Z) (s : list byte) : bool := bool_decide (x00 ∉ s) && utf8_valid (cut max s).
Lemma text_okb_spec max s : text_okb max s = true -> text_ok max s.
Proof. intros [H1%bool_decide_eq_true H2]%andb_true_iff. done. Qed.

Definition demo_modes : btelem_enum_def := mkCEnum [Some (str "idle"); Some (str "run")] 2.
Definition demo_flags : btelem_bitfield_def := mkCBitfield [mkCBit (Some (str "armed")) 0 1; mkCBit None 1 3] 2.
Definition demo_imu : btelem_schema_entry :=
  mkCEntry 7 (str "imu") (Some (str "inertial unit")) 5 2
    [mkCField (str "x") 0 4 8 1 None None; mkCField (str "mode") 4 1 12 1 (Some demo_modes) None].
Definition demo_power : btelem_schema_entry :=
  mkCEntry 3 (str "power") None 1 1 [mkCField (str "flags") 0 1 13 1 None (Some demo_flags)].

Ltac desc_tac :=
  repeat match goal with
  | |- entry_ok _ => split
  | |- field_ok _ => split
  | |- _ /\ _ => split
  | |- Forall _ (_ :: _) => apply Forall_cons
  | |- Forall _ [] => constructor
  | |- text_ok _ _ => apply text_okb_spec; vm_compute; reflexivity
  | |- in_u _ _ => apply in_ub_spec; vm_compute; reflexivity
  | |- forall _, _ = Some _ -> _ => let H := fresh in intros ? H; first [discriminate H|injection H as <-]
  | |- _ = _ => reflexivity
  | |- Forall _ _ => progress cbn [s_fields ed_labels bd_bits]
  | |- _ <= _ => vm_compute; discriminate
  | |- _ < _ => vm_compute; reflexivity
  end.

Lemma demo_imu_ok : entry_ok demo_imu.
Proof. unfold demo_imu, demo_modes. desc_tac. Qed.
Lemma demo_power_ok : entry_ok demo_power.
Proof. unfold demo_power, demo_flags. desc_tac. Qed.

Lemma demo_descriptors : Forall entry_ok [demo_imu; demo_power] /\ Forall (fun e => s_payload_size e <= 232) [demo_imu; demo_power] /\
  NoDup (map s_id [demo_imu; demo_power]).
Proof.
  split; [apply Forall_cons; split; [exact demo_imu_ok|]; apply Forall_cons; split; [exact demo_power_ok|constructor]|].
  split; [repeat constructor; cbn; lia|].
  apply (bool_decide_unpack _). vm_compute. exact I.
Qed.

Lemma schema_stream_decodes_witness :
  exists x cs total,
    register_all demo_init [demo_imu; demo_power] = Some x /\ btelem_schema_stream collector x [] = Ok (cs, total) /\
    Schema_decode (concat cs) = Ok (schema_view (reg x)).
Proof.
  destruct demo_descriptors as (H1 & H2 & H3).
  destruct (schema_stream_decodes demo_init 4 [demo_imu; demo_power] eq_refl H1 H2 H3) as (x & cs & total & E1 & _ & _ & E2 & _ & E3).
  exists x, cs, total. split; [exact E1|]. split; [exact E2|exact E3].
Defined.

Definition demo_reg : btelem_ctx := default demo_init (register_all demo_init [demo_imu; demo_power]).
Lemma demo_reg_ok : registry_ok demo_reg.
Proof.
  destruct demo_descriptors as (H1 & H2 & H3). destruct (register_all_ok demo_init _ (init_registry_ok 4 _ eq_refl) H1 H2 H3) as (x & E & Hx & _).
  - intros e He. apply elem_of_cons in He as [->|He]; [reflexivity|]. apply list_elem_of_singleton in He as ->. reflexivity.
  - unfold demo_reg. by rewrite E.
Qed.

Lemma demo_labels e f ed : e ∈ reg demo_reg -> f ∈ s_fields e -> f_enum_def f = Some ed -> Forall is_Some (ed_labels ed).
Proof.
  assert (reg demo_reg = [demo_power; demo_imu]) as -> by reflexivity. intros He Hf Hd.
  apply elem_of_cons in He as [->|He]; [|apply list_elem_of_singleton in He as ->].
  - apply list_elem_of_singleton in Hf as ->. discriminate Hd.
  - apply elem_of_cons in Hf as [->|Hf]; [discriminate Hd|]. apply list_elem_of_singleton in Hf as ->. injection Hd as <-.
    repeat constructor; by eexists.
Qed.

Lemma schema_writers_agree_witness :
  exists cs total, btelem_schema_stream collector demo_reg [] = Ok (cs, total) /\
    btelem_schema_serialize demo_reg None = Ok (None, total) /\
    (10 < total -> btelem_schema_serialize demo_reg (Some (replicate 10 x00)) = Ok (Some (replicate 10 x00), -1)).
Proof.
  destruct (schema_writers_agree demo_reg (replicate 10 x00) demo_reg_ok demo_labels) as (cs & total & H1 & H2 & H3 & _).
  exists cs, total. split; [exact H1|]. split; [exact H2|exact H3].
Defined.

(** A name of 64 bytes whose last character is cut in two reaches the viewer as
    invalid UTF-8, and the whole schema is refused. *)
Definition long_name : list byte := replicate 62 x61 ++ [xc3; xa9].
Lemma long_name_refused :
  match register_all demo_init [mkCEntry 0 long_name None 0 0 []] with
  | Some x => match btelem_schema_stream collector x [] with Ok (cs, _) => Schema_decode (concat cs) | _ => Panic end
  | None => Panic
  end = Err BadName.
Proof. vm_compute. reflexivity. Qed.

(** A null label is an empty one for the stream and an access through a null
    pointer for [btelem_schema_serialize]. *)
Definition null_label : btelem_schema_entry :=
  mkCEntry 0 (str "m") None 1 1 [mkCField (str "mode") 0 1 12 1 (Some (mkCEnum [Some (str "idle"); None] 2)) None].
Lemma null_label_serialize :
  match register_all demo_init [null_label] with
  | Some x => btelem_schema_serialize x (Some (replicate (Z.to_nat 3500) x00)) = Panic /\
              exists cs n, btelem_schema_stream collector x [] = Ok (cs, n)
  | None => False
  end.
Proof. vm_compute. split; [reflexivity|]. do 2 eexists. reflexivity. Qed.
