(* ===== verification/CServe.v ===== *)
(** * The C library: the TCP server

    Models src/btelem_serve.c: [send_all], [peer_closed], the client thread (schema
    first, then the drain loop), and the accept loop and the ends of the threads as
    steps on the two tables of slots.  The socket is the sequence of outcomes of its
    [write] calls; the counters that are only printed are left out.  The properties
    at the end compose the server with the viewer of the Rust side. *)

From stdpp Require Import relations.
From Stdlib Require Import Sorted.
From S2P Require Import Prelude Text Float64 Wire WireSchema WireValue Store MockStore Mapper Tcp CTypes CRing CSchema.

(** ** Sending *)

(** The outcome of a [write]: some bytes taken, a timeout ([EAGAIN]), an error. *)
Inductive write_event := Wrote (n : Z) | Again | Broken.

(** How a send ended; [Waiting]: the events ran out, the thread is still in it. *)
Inductive sent := Sent | SendFailed | Waiting.

(** The wire is all that was written to the socket so far. *)
Record socket := mkSocket { so_events : list write_event; so_wire : list byte }.

Fixpoint send_loop (ws : list write_event) (data wire : list byte) : socket * sent :=
  match data, ws with
  | [], _ => (mkSocket ws wire, Sent)
  | _, [] => (mkSocket [] wire, Waiting)
  | _, Again :: ws => send_loop ws data wire
  | _, Broken :: ws => (mkSocket ws wire, SendFailed)
  | _, Wrote n :: ws =>
    if n <=? 0 then (mkSocket ws wire, SendFailed)
    else send_loop ws (drop (Z.to_nat n) data) (wire ++ take (Z.to_nat n) data)
  end.
Definition send_all (s : socket) (data : list byte) : socket * sent := send_loop (so_events s) data (so_wire s).

(** A length and its bytes; the second send only after the first. *)
Definition send_framed (s : socket) (data : list byte) : socket * sent :=
  let '(s, r) := send_all s (le_bytes 4 (wrap 32 (blen data))) in
  match r with Sent => send_all s data | _ => (s, r) end.

(** [schema_send_chunk]: a chunk that cannot be sent stops the stream. *)
Definition schema_send_chunk (chunk : list byte) (u : socket * sent) : (socket * sent) * Z :=
  let '(s, r) := send_all u.1 chunk in
  ((s, r), match r with Sent => 0 | _ => -1 end).

(** [recv] with MSG_PEEK: the bytes seen, or whether the error is a transient one. *)
Definition peer_closed (peek : Z + bool) : Z :=
  match peek with
  | inl n => if n =? 0 then 1 else 0
  | inr transient => if transient then 0 else -1
  end.

(** ** The client thread *)

(** One turn of the drain loop, as the rest of the program shows itself to it:
    the running flag, what the ring's memory gave, the probe of the peer, and
    whether the two seconds of the status line have passed. *)
Record turn := mkTurn { tn_running : bool; tn_memory : memory; tn_peek : Z + bool; tn_report : bool }.

Record conn := mkConn { cn_ctx : btelem_ctx; cn_socket : socket; cn_buf : list byte; cn_empty : Z }.

(** [Serving]: the turns ran out with the loop still on; [Stuck]: in a send that
    has not returned; [Gone]: the loop was left. *)
Inductive ending := Serving | Stuck | Gone.

Section thread.
Context (cid : Z).

Definition serve_turn (t : turn) (s : conn) : total (conn * ending) :=
  if negb (tn_running t) then mret (s, Gone)
  else
    r ← btelem_drain_packed (cn_ctx s) cid (tn_memory t) (cn_buf s);
    let '(x, buf, n) := r in
    if 0 <? n then
      let '(so, res) := send_framed (cn_socket s) (take (Z.to_nat n) buf) in
      mret (mkConn x so buf 0, match res with Sent => Serving | SendFailed => Gone | Waiting => Stuck end)
    else
      let empty := wrap 64 (cn_empty s + 1) in
      if (Z.land empty 0xFF =? 0) && negb (peer_closed (tn_peek t) =? 0) then mret (mkConn x (cn_socket s) buf empty, Gone)
      else mret (mkConn x (cn_socket s) buf (if tn_report t then 0 else empty), Serving).

Fixpoint serve_loop (turns : list turn) (s : conn) : total (conn * ending) :=
  match turns with
  | [] => mret (s, Serving)
  | t :: turns =>
    r ← serve_turn t s;
    match r.2 with Serving => serve_loop turns r.1 | _ => mret r end
  end.

(** The schema, length first. *)
Definition send_schema (x : btelem_ctx) (s : socket) : total (socket * sent) :=
  r ← btelem_schema_serialize x None;
  if 0 <? r.2 then
    let '(s, res) := send_all s (le_bytes 4 (wrap 32 r.2)) in
    match res with
    | Sent => r ← btelem_schema_stream schema_send_chunk x (s, Sent); mret r.1
    | _ => mret (s, res)
    end
  else mret (s, Sent).

(** The whole thread; what is [Gone] has closed its client. *)
Definition client_thread (x : btelem_ctx) (ws : list write_event) (buf : list byte) (turns : list turn) : total (conn * ending) :=
  r ← send_schema x (mkSocket ws []);
  let '(s, res) := r in
  r ← match res with
      | Sent => serve_loop turns (mkConn x s buf 0)
      | SendFailed => mret (mkConn x s buf 0, Gone)
      | Waiting => mret (mkConn x s buf 0, Stuck)
      end;
  let '(s, e) := r in
  mret (match e with
        | Gone => mkConn (btelem_client_close (cn_ctx s) cid) (cn_socket s) (cn_buf s) (cn_empty s)
        | _ => s
        end, e).
End thread.

(** ** What a send leaves on the wire *)
Definition extended (before after : socket) (data : list byte) (r : sent) : Prop :=
  exists k, so_wire after = so_wire before ++ take k data /\ (r = Sent -> (length data <= k)%nat).

Lemma send_all_extends s data : let '(s', r) := send_all s data in extended s s' data r.
Proof.
  unfold send_all. destruct s as [ws wire]. cbn [so_events so_wire].
  enough (H : let '(s', r) := send_loop ws data wire in exists k, so_wire s' = wire ++ take k data /\ (r = Sent -> (length data <= k)%nat)).
  { destruct (send_loop ws data wire). exact H. }
  revert data wire. induction ws as [|w ws IH]; intros data wire; destruct data as [|b data]; cbn [send_loop].
  - exists 0%nat. split; [by rewrite app_nil_r|cbn; lia].
  - exists 0%nat. split; [by rewrite app_nil_r|done].
  - destruct w; (exists 0%nat; split; [by rewrite app_nil_r|cbn; lia]).
  - destruct w as [n| |]; [|by apply IH|exists 0%nat; split; [by rewrite app_nil_r|done]].
    destruct (n <=? 0); [exists 0%nat; split; [by rewrite app_nil_r|done]|].
    specialize (IH (drop (Z.to_nat n) (b :: data)) (wire ++ take (Z.to_nat n) (b :: data))).
    destruct (send_loop ws _ _) as [s' r]. destruct IH as (k & Hk & Hl). exists (Z.to_nat n + k)%nat.
    rewrite Hk, <-app_assoc. split.
    + f_equal. rewrite <-(take_drop (Z.to_nat n) (b :: data)) at 3.
      destruct (decide (Z.to_nat n <= length (b :: data))%nat).
      * rewrite <-(length_take_le (b :: data) (Z.to_nat n)) at 3 by done. by rewrite take_app_add.
      * rewrite (drop_ge (b :: data)), take_nil, !app_nil_r by lia. by rewrite (take_ge (b :: data)), (take_ge (b :: data)) by lia.
    + intros Hs. specialize (Hl Hs). rewrite length_drop in Hl. lia.
Qed.

Lemma extended_sent s s' data : extended s s' data Sent -> so_wire s' = so_wire s ++ data.
Proof. intros (k & -> & Hk). by rewrite take_ge by auto. Qed.

Lemma extended_prefix s s' data r : extended s s' data r -> so_wire s' `prefix_of` so_wire s ++ data.
Proof. intros (k & -> & _). apply prefix_app. exists (drop k data). by rewrite take_drop. Qed.

Lemma extended_app s s1 s2 a b r : so_wire s1 = so_wire s ++ a -> extended s1 s2 b r -> extended s s2 (a ++ b) r.
Proof.
  intros E (k & Hk & Hl). exists (length a + k)%nat. split; [by rewrite Hk, E, take_app_add, <-app_assoc|].
  intros Hs. rewrite length_app. specialize (Hl Hs). lia.
Qed.

Lemma extended_short s s' a b r : r <> Sent -> extended s s' a r -> extended s s' (a ++ b) r.
Proof.
  intros Hr (k & Hk & _). destruct (decide (k <= length a)%nat).
  - exists k. split; [by rewrite take_app_le|done].
  - exists (length a). split; [rewrite Hk; by rewrite take_app_length, take_ge by lia|done].
Qed.

(** A send timeout never ends a send: as long as the peer takes nothing, the loop
    tries again. *)
Lemma send_timeout_retries n b data wire : send_all (mkSocket (replicate n Again) wire) (b :: data) = (mkSocket [] wire, Waiting).
Proof. unfold send_all. cbn [so_events so_wire]. induction n as [|n IH]; [done|exact IH]. Qed.

Lemma send_framed_extends s data : in_u 32 (blen data) -> let '(s', r) := send_framed s data in extended s s' (frame data) r.
Proof.
  intros Hd. unfold send_framed, frame. rewrite wrap_small by done. pose proof (send_all_extends s (le_bytes 4 (blen data))) as H.
  destruct (send_all s _) as [s1 [| |]]; [|by apply extended_short..].
  pose proof (send_all_extends s1 data) as H2. destruct (send_all s1 data) as [s2 r]. eapply extended_app; [by apply extended_sent|done].
Qed.

(** ** The schema on the wire *)
Lemma send_chunks cs s t :
  let st := foldl (fun st c => emit_chunk schema_send_chunk c st) ((s, Sent), Some t) cs in
  extended s st.1.1 (concat cs) st.1.2.
Proof.
  assert (Hn : forall cs (v : socket * sent), foldl (fun st c => emit_chunk schema_send_chunk c st) (v, None) cs = (v, None)).
  { intros cs'. induction cs' as [|c cs' IH]; intros v; [done|apply IH]. }
  revert s t. induction cs as [|c cs IH]; intros s t.
  - exists 0%nat. cbn. split; [by rewrite app_nil_r|lia].
  - cbn zeta. cbn [foldl concat]. pose proof (send_all_extends s c) as H.
    assert (He : emit_chunk schema_send_chunk c (s, Sent, Some t) = (send_all s c,
      match (send_all s c).2 with Sent => Some (to_signed 32 (wrap 32 (t + blen c))) | _ => None end)).
    { unfold emit_chunk, schema_send_chunk. cbn [fst]. by destruct (send_all s c) as [s1 [| |]]. }
    rewrite !He. cbn [snd].
    destruct (send_all s c) as [s1 [| |]]; cbn [snd]; [|rewrite Hn; cbn [fst snd]; by apply extended_short..].
    eapply extended_app; [by apply extended_sent|]. apply IH.
Qed.

Lemma send_schema_ok x s : registry_ok x ->
  returns (send_schema x s) (fun r => extended s r.1 (frame (encode_schema (schema_view (reg x)))) r.2).
Proof.
  intros Hx. unfold send_schema. rewrite (serialize_size x Hx). cbn [mbind res_bind snd]. destruct (needed_len x Hx) as [Hn Hsm].
  set (enc := encode_schema (schema_view (reg x))) in *. pose proof (blen_nonneg (reg x)). pose proof (blen_nonneg (enums_of x)). pose proof (blen_nonneg (bits_of x)).
  replace (0 <? blen enc) with true by lia. rewrite wrap_small by (unfold in_u; lia). unfold frame.
  pose proof (send_all_extends s (le_bytes 4 (blen enc))) as Hs. destruct (send_all s _) as [s1 [| |]];
    [|by apply returns_ret, extended_short..]. rewrite (stream_chunks x Hx). cbn [mbind res_bind fst]. apply returns_ret.
  eapply extended_app; [by apply extended_sent|]. unfold enc. rewrite <-chunks_schema. apply send_chunks.
Qed.

(** ** What the drain loop sends *)
(** A packet and the entries the viewer decodes from it. *)
Definition carries_entries (pkt : list byte) (es : list DecodedEntry) : Prop :=
  in_u 32 (blen pkt) /\ exists hdr, decode_packet pkt = Ok (mkPacket hdr es).

Section serving.
Context (log : list DecodedEntry) (Hlog : log_ok log) (cid : Z) (Hid : 0 <= cid < 8).

(** The client as the context has it. *)
Record client_at (s : conn) (c : btelem_client) : Prop := {
  ca_slot : x_clients (cn_ctx s) !! Z.to_nat cid = Some c;
  ca_active : cl_active c = true;
  ca_ok : client_ok c log;
  ca_cap : 0 < r_capacity (x_ring (cn_ctx s));
  ca_buf : buffer_ok (cn_buf s);
}.

(** What a stretch of the loop did: the packets it sent (the last of them perhaps
    in part, when it ended early) and the entries they carry. *)
Record served (s s' : conn) (e : ending) (c c' : btelem_client) (pkts : list (list byte)) (ess : list (list DecodedEntry)) : Prop := {
  sv_client : client_at s' c' /\ accepts c' = accepts c /\ r_capacity (x_ring (cn_ctx s')) = r_capacity (x_ring (cn_ctx s)) /\
    blen (cn_buf s') = blen (cn_buf s);
  sv_cursor : cl_cursor c <= cl_cursor c';
  sv_packets : Forall2 carries_entries pkts ess;
  sv_wire : extended (cn_socket s) (cn_socket s') (concat (map frame pkts)) (match e with Serving => Sent | _ => Waiting end);
  sv_entries : concat ess `sublist_of` slice log (cl_cursor c) (cl_cursor c' - cl_cursor c);
}.

Lemma served_nil s c e : client_at s c -> served s s e c c [] [].
Proof. intros H. split; [done|lia|constructor|exists 0%nat; cbn; split; [by rewrite app_nil_r|lia]|apply sublist_nil_l]. Qed.

Lemma served_app s1 s2 s3 e c1 c2 c3 p1 p2 e1 e2 :
  0 <= cl_cursor c1 -> served s1 s2 Serving c1 c2 p1 e1 -> served s2 s3 e c2 c3 p2 e2 -> served s1 s3 e c1 c3 (p1 ++ p2) (e1 ++ e2).
Proof.
  intros H0 [(A1 & B1 & C1 & L1) D1 E1 W1 S1] [(A2 & B2 & C2 & L2) D2 E2 W2 S2]. split.
  - split_and!; [done|by rewrite B2|by rewrite C2|by rewrite L2].
  - lia.
  - by apply Forall2_app.
  - rewrite map_app, concat_app. eapply extended_app; [by apply extended_sent|exact W2].
  - rewrite concat_app. rewrite (slice_split log (cl_cursor c1) (cl_cursor c2)) by lia. by apply sublist_app.
Qed.

(** One drain, in the terms of the loop. *)
Lemma drain_served s c m : client_at s c -> Faithful m log -> cl_cursor c <= m_head m ->
  returns (btelem_drain_packed (cn_ctx s) cid m (cn_buf s)) (fun r => exists c' k es lost,
    r.1.1 = with_client (cn_ctx s) cid c' /\ drained m log (r_capacity (x_ring (cn_ctx s))) c (cn_buf s) k es lost (c', r.1.2, r.2) /\
    cl_cursor c' = resume (r_capacity (x_ring (cn_ctx s))) m c + Z.of_nat k /\
    forall so e0, client_at (mkConn r.1.1 so r.1.2 e0) c').
Proof using Hlog Hid.
  intros [Hsl Ha Hok Hcap Hb] HF Hle. destruct (buffer_room (r_capacity (x_ring (cn_ctx s))) m c (cn_buf s) Hcap Hb) as (Hsm & _ & _).
  destruct (pack_client_ok m log Hlog _ Hcap c Hok Hle (cn_buf s) Hsm) as ([[c' buf'] n] & E & k & es & lost & D).
  rewrite (drain_packed_client _ cid c Hid Hsl Ha), E. cbn [mbind res_bind fst snd]. apply returns_ret. exists c', k, es, lost.
  pose proof (dr_client _ _ _ _ _ _ _ _ _ D) as [Hcl Hok']. cbn [fst snd] in *. split_and!; [done|done|rewrite Hcl; by case_bool_decide|].
  intros so e0. split; cbn [cn_ctx cn_buf with_client set_clients x_clients x_ring fst snd].
  - apply list_lookup_insert_eq. by eapply lookup_lt_Some.
  - rewrite Hcl. by case_bool_decide.
  - done.
  - done.
  - unfold buffer_ok in *. pose proof (dr_buf _ _ _ _ _ _ _ _ _ D) as Hl. cbn in Hl. lia.
Qed.

(** A turn that finds nothing overwritten, nothing half written and no more than a
    packet holds. *)
Definition keeping_up (s : conn) (c : btelem_client) (m : memory) : Prop :=
  (forall i, cl_cursor c <= i < m_head m -> committed m i /\ untorn m i = true) /\ cl_filter_active c = false /\
  m_head m - cl_cursor c <= r_capacity (x_ring (cn_ctx s)) /\ m_head m - cl_cursor c <= (blen (cn_buf s) - 16) / 248.

Lemma drained_all s c m c' k es lost buf n : client_at s c -> cl_cursor c <= m_head m -> keeping_up s c m ->
  drained m log (r_capacity (x_ring (cn_ctx s))) c (cn_buf s) k es lost (c', buf, n) ->
  resume (r_capacity (x_ring (cn_ctx s))) m c + Z.of_nat k = m_head m /\ es = slice log (cl_cursor c) (m_head m - cl_cursor c).
Proof.
  intros Hc Hle (Hall & Hf & Hcap & Hroom) [[W1 W2] Hs _ _ _ Hlost _ Hst]. set (cap := r_capacity _) in *.
  assert (Hr : resume cap m c = cl_cursor c) by (unfold resume; lia). rewrite Hr in *.
  pose proof (co_counts _ _ (ca_ok _ _ Hc)) as Hct.
  assert (lost = []) as -> by (destruct Hlost as [?|(_ & _ & H1 & H2)]; [done|lia]). rewrite app_nil_r in Hs.
  assert (Hk : cl_cursor c + Z.of_nat k = m_head m).
  { destruct (decide (cl_cursor c + Z.of_nat k < m_head m)) as [Hlt|]; [exfalso|lia].
    destruct (buffer_room cap m c (cn_buf s) (ca_cap _ _ Hc) (ca_buf _ _ Hc)) as (_ & _ & Hpos).
    apply Hst; [done|apply Hpos; lia|done|]. apply Hall. lia. }
  split; [done|]. rewrite <-Hs, seen_untorn, filter_all; [f_equal; lia| |intros; apply Hall; lia|lia].
  apply Forall_true. intros d. unfold accepts. by rewrite Hf.
Qed.

Lemma serve_turn_ok t s c : client_at s c -> Faithful (tn_memory t) log -> cl_cursor c <= m_head (tn_memory t) ->
  returns (serve_turn cid t s) (fun r => exists c' pkts ess, served s r.1 r.2 c c' pkts ess /\ cl_cursor c' <= m_head (tn_memory t) /\
    cl_filter_active c' = cl_filter_active c /\
    (r.2 = Serving -> keeping_up s c (tn_memory t) -> cl_cursor c' = m_head (tn_memory t) /\
      concat ess = slice log (cl_cursor c) (m_head (tn_memory t) - cl_cursor c))).
Proof using Hlog Hid.
  intros Hc HF Hle. unfold serve_turn. destruct (tn_running t); cbn [negb]; [|apply returns_ret; exists c, [], []; split; [by apply served_nil|done]].
  set (m := tn_memory t) in *. set (cap := r_capacity (x_ring (cn_ctx s))).
  eapply returns_bind; [apply (drain_served s c m Hc HF Hle)|]. intros [[x buf] n] (c' & k & es & lost & Hx & D & Hcur & Hat).
  cbn [fst snd] in *. pose proof (co_counts _ _ (ca_ok _ _ Hc)) as Hct. pose proof D as [[W1 W2] Hs [Hcl Hok] Hb Hpk _ _ _]. cbn [fst snd] in *. fold cap in W1, W2, Hs, Hcl, Hcur.
  pose proof (fun H => drained_all s c m c' k es lost buf n Hc Hle H D) as Hall. fold cap in Hall.
  assert (Hfa : cl_filter_active c' = cl_filter_active c) by (rewrite Hcl; by case_bool_decide).
  assert (Hres : cl_cursor c <= resume cap m c) by (unfold resume; lia).
  assert (Hsub : es `sublist_of` slice log (cl_cursor c) (cl_cursor c' - cl_cursor c)).
  { rewrite (slice_split log _ (resume cap m c)) by lia. apply (sublist_inserts_l _). rewrite Hcur.
    replace (resume cap m c + Z.of_nat k - resume cap m c) with (Z.of_nat k) by lia.
    etrans; [|apply (seen_sublist m log (accepts c)); lia]. rewrite Hs. by apply sublist_inserts_r. }
  assert (Hcli : forall so e0, client_at (mkConn x so buf e0) c' /\ accepts c' = accepts c /\ r_capacity (x_ring x) = cap /\ blen buf = blen (cn_buf s)).
  { intros so e0. split_and!; [apply Hat|rewrite Hcl; by case_bool_decide|by rewrite Hx|done]. }
  destruct Hpk as [[-> Hn]|(Hn & Hfit & d & Hd & Hp)].
  - replace (0 <? n) with false by lia. assert (Hnil : forall e0 e, served s (mkConn x (cn_socket s) buf e0) e c c' [] []).
    { intros e0 e. split; [apply Hcli|lia|constructor|exists 0%nat; cbn; split; [by rewrite app_nil_r|lia]|apply sublist_nil_l]. }
    destruct (_ && _); apply returns_ret; exists c', [], []; (split_and!; [apply Hnil|lia|done|]); intros _ Hk;
      destruct (Hall Hk) as [H1 H2]; (split; [lia|exact H2]).
  - replace (0 <? n) with true by lia. rewrite Hp. assert (Hl : in_u 32 (blen (encode_packet 0 d es))).
    { destruct (ca_buf _ _ Hc) as [_ Hbb]. rewrite <-Hp. unfold in_u, blen in *. rewrite length_take. lia. }
    pose proof (send_framed_extends (cn_socket s) _ Hl) as Hse. destruct (send_framed _ _) as [so res]. apply returns_ret.
    exists c', [encode_packet 0 d es], [es]. split_and!; [|lia|done|].
    2:{ intros _ Hk. destruct (Hall Hk) as [H1 H2]. cbn [concat]. rewrite app_nil_r. split; [lia|exact H2]. }
    split; [apply Hcli|lia| |cbn [map concat cn_socket fst snd]; rewrite app_nil_r|cbn; by rewrite app_nil_r].
    + constructor; [|constructor]. split; [done|]. rewrite <-(app_nil_r (encode_packet 0 d es)), decode_packet_encoded by done. by eexists.
    + destruct Hse as (j & Hj & Hlj). exists j. split; [done|]. by destruct res.
Qed.

(** The ring's head only grows from one turn to the next. *)
Fixpoint heads_grow (h : Z) (turns : list turn) : Prop :=
  match turns with
  | [] => True
  | t :: turns => h <= m_head (tn_memory t) /\ heads_grow (m_head (tn_memory t)) turns
  end.

(** Every turn keeps up with the one before; [last_head] is where the last leaves off. *)
Fixpoint keeps_up (cap room h : Z) (turns : list turn) : Prop :=
  match turns with
  | [] => True
  | t :: turns =>
    let m := tn_memory t in
    (forall i, h <= i < m_head m -> committed m i /\ untorn m i = true) /\ m_head m - h <= cap /\ m_head m - h <= room /\
    keeps_up cap room (m_head m) turns
  end.
Definition last_head (h : Z) (turns : list turn) : Z := foldl (fun _ t => m_head (tn_memory t)) h turns.

Lemma last_head_ge h turns : heads_grow h turns -> h <= last_head h turns.
Proof.
  revert h. induction turns as [|t turns IH]; intros h; cbn; [lia|]. intros [H1 H2]. specialize (IH _ H2). unfold last_head in *. lia.
Qed.

Lemma serve_loop_ok turns s c h : client_at s c -> cl_cursor c <= h -> heads_grow h turns ->
  Forall (fun t => Faithful (tn_memory t) log) turns ->
  returns (serve_loop cid turns s) (fun r => exists c' pkts ess, served s r.1 r.2 c c' pkts ess /\
    (r.2 = Serving -> cl_filter_active c = false -> cl_cursor c = h ->
     keeps_up (r_capacity (x_ring (cn_ctx s))) ((blen (cn_buf s) - 16) / 248) h turns ->
     cl_cursor c' = last_head h turns /\ concat ess = slice log h (last_head h turns - h))).
Proof using Hlog Hid.
  revert s c h. induction turns as [|t turns IH]; intros s c h Hc Hle Hg HF; cbn [serve_loop].
  { apply returns_ret. exists c, [], []. split; [by apply served_nil|]. intros _ _ Hcur _. split; [done|].
    unfold slice. cbn. by rewrite Z.sub_diag. }
  destruct Hg as [Hh Hg]. apply Forall_cons in HF as [HF1 HF]. pose proof (co_counts _ _ (ca_ok _ _ Hc)) as Hct.
  eapply returns_bind; [apply (serve_turn_ok t s c); [done|done|lia]|]. intros [s1 e1] (c1 & p1 & es1 & H1 & Hle1 & Hfa & Hex). cbn [fst snd] in *.
  destruct (sv_client _ _ _ _ _ _ _ H1) as (Hc1 & _ & Ecap & Ebuf).
  destruct e1; [|apply returns_ret; exists c1, p1, es1; (split; [exact H1|done])..].
  eapply returns_impl; [apply (IH s1 c1 _ Hc1 Hle1 Hg HF)|]. intros [s2 e2] (c2 & p2 & es2 & H2 & Hex2). exists c2, (p1 ++ p2), (es1 ++ es2).
  split; [eapply served_app; [lia|done|done]|]. cbn [snd] in *. intros He Hf Hcur (K1 & K2 & K3 & K4). rewrite <-Hcur in *.
  destruct (Hex eq_refl) as [Hc1h Hes1]; [by split_and!|]. rewrite Ecap, Ebuf in Hex2.
  destruct (Hex2 He) as [Hc2h Hes2]; [congruence|done|done|]. cbn. fold (last_head (m_head (tn_memory t)) turns). split; [done|].
  rewrite concat_app, Hes1, Hes2. symmetry. apply slice_split; [lia|by apply last_head_ge].
Qed.
End serving.

(** ** The whole thread *)
Section whole_thread.
Context (log : list DecodedEntry) (Hlog : log_ok log) (cid : Z) (Hid : 0 <= cid < 8).
Context (x : btelem_ctx) (Hx : registry_ok x) (c : btelem_client) (buf : list byte).
Context (Hc : x_clients x !! Z.to_nat cid = Some c) (Hact : cl_active c = true) (Hok : client_ok c log).
Context (Hcap : 0 < r_capacity (x_ring x)) (Hbuf : buffer_ok buf).
Context (turns : list turn) (h : Z) (Hh : cl_cursor c <= h) (Hg : heads_grow h turns).
Context (HF : Forall (fun t => Faithful (tn_memory t) log) turns).

Definition schema_blob : list byte := encode_schema (schema_view (reg x)).

(** What the thread puts on the wire: the schema, then packets of logged entries. *)
Record streamed (r : conn * ending) (c' : btelem_client) (pkts : list (list byte)) (ess : list (list DecodedEntry)) : Prop := {
  sm_packets : Forall2 carries_entries pkts ess;
  sm_entries : concat ess `sublist_of` slice log (cl_cursor c) (cl_cursor c' - cl_cursor c);
  sm_prefix : so_wire (cn_socket r.1) `prefix_of` frame schema_blob ++ concat (map frame pkts);
  sm_serving : r.2 = Serving -> so_wire (cn_socket r.1) = frame schema_blob ++ concat (map frame pkts);
  sm_complete : r.2 = Serving -> cl_filter_active c = false -> cl_cursor c = h ->
    keeps_up (r_capacity (x_ring x)) ((blen buf - 16) / 248) h turns -> concat ess = slice log h (last_head h turns - h);
  sm_closed : r.2 = Gone -> exists c2, x_clients (cn_ctx r.1) !! Z.to_nat cid = Some c2 /\ cl_active c2 = false;
}.

Lemma client_thread_ok ws : returns (client_thread cid x ws buf turns) (fun r => exists c' pkts ess, streamed r c' pkts ess).
Proof using Hlog Hid Hx Hc Hact Hok Hcap Hbuf Hh Hg HF.
  unfold client_thread. eapply returns_bind; [apply (send_schema_ok x _ Hx)|]. fold schema_blob. intros [s res] Hs. cbn [fst snd] in Hs.
  assert (Hclose : forall s1 c1, x_clients (cn_ctx s1) !! Z.to_nat cid = Some c1 -> exists c2,
    x_clients (btelem_client_close (cn_ctx s1) cid) !! Z.to_nat cid = Some c2 /\ cl_active c2 = false).
  { intros s1 c1 E. unfold btelem_client_close, BTELEM_MAX_CLIENTS. replace (_ || _) with false by lia. cbn.
    rewrite list_lookup_alter_eq, E. by eexists. }
  assert (Hearly : forall e0 so, e0 <> Serving -> so_wire so `prefix_of` frame schema_blob ->
    forall r, r.2 = e0 -> cn_socket r.1 = so -> (e0 = Gone -> exists c2, x_clients (cn_ctx r.1) !! Z.to_nat cid = Some c2 /\ cl_active c2 = false) ->
    streamed r c [] []).
  { intros e0 so He Hp r Er Eso Hcl. split; [constructor|apply sublist_nil_l|cbn; rewrite app_nil_r; by rewrite Eso|congruence|congruence|by rewrite Er]. }
  destruct res.
  - assert (Hat : client_at log cid (mkConn x s buf 0) c) by (by split).
    eapply returns_bind; [apply (serve_loop_ok log Hlog cid Hid turns _ c h Hat Hh Hg HF)|].
    intros [s1 e] (c' & pkts & ess & [(A1 & _) A2 A3 A4 A5] & Hex). apply returns_ret. exists c', pkts, ess. cbn [fst snd cn_socket cn_ctx cn_buf] in *.
    set (s2 := match e with Gone => _ | _ => _ end).
    assert (Es2 : cn_socket s2 = cn_socket s1) by (unfold s2; by destruct e).
    assert (Hext : extended (mkSocket ws []) (cn_socket s1) (frame schema_blob ++ concat (map frame pkts)) (match e with Serving => Sent | _ => Waiting end)).
    { eapply extended_app; [by apply (extended_sent _ _ _ Hs)|done]. }
    split; cbn [fst snd]; [done|done|rewrite Es2; by apply (extended_prefix _ _ _ _ Hext)| | |].
    + intros ->. rewrite Es2. by apply (extended_sent _ _ _ Hext).
    + intros He Hf Hcur Hk. by apply Hex.
    + intros ->. by apply (Hclose s1 c'), (ca_slot _ _ _ _ A1).
  - apply returns_ret. exists c, [], []. apply (Hearly Gone s); [done|apply (extended_prefix _ _ _ _ Hs)|done|done|].
    intros _. by apply (Hclose (mkConn x s buf 0) c).
  - apply returns_ret. exists c, [], []. by apply (Hearly Stuck s); [|apply (extended_prefix _ _ _ _ Hs)|..].
Qed.
End whole_thread.

(** What the viewer's session makes of the packets: every entry dispatched, in order. *)
Lemma process_entries p now m pkts ess k k' : Forall2 carries_entries pkts ess -> process p now m pkts k = Ok k' ->
  dispatch_all p m (concat ess) (sk_store k) = Ok (sk_store k').
Proof.
  assert (Happ : forall a b s, dispatch_all p m (a ++ b) s = (s' ← dispatch_all p m a s; dispatch_all p m b s')).
  { intros a b. induction a as [|e a IH]; intros s; [done|]. cbn [app dispatch_all]. destruct (dispatch p m _ _ _ s); [|done|done]. cbn. apply IH. }
  intros H. revert k. induction H as [|pkt es pkts ess [_ [hdr Hd]] _ IH]; intros k Hp; cbn in Hp; [by injection Hp as <-|].
  unfold process_one in Hp. rewrite Hd in Hp. cbn [pk_entries] in Hp. cbn [concat]. rewrite Happ.
  apply bind_Ok in Hp as (k1 & H1 & H2). apply bind_Ok in H1 as (s1 & E1 & H1). apply bind_Ok in H1 as (c1 & _ & [= <-]).
  rewrite E1. cbn. by apply (IH _ H2).
Qed.

(** ** The accept loop's tables *)

(** [conn->active], [conn->fd >= 0] and [conn->btelem_client_id]. *)
Record conn_slot := mkSlot { k_active : bool; k_open : bool; k_client : nat }.
Record server := mkServer { sr_ctx : btelem_ctx; sr_slots : list conn_slot }.

Fixpoint free_conn (l : list conn_slot) (i : nat) : option nat :=
  match l with [] => None | k :: l => if negb (k_active k) then Some i else free_conn l (S i) end.

(** A connection accepted; [false]: closed at once, with no free client or slot. *)
Definition accept_one (sv : server) (head : Z) : total (server * bool) :=
  r ← btelem_client_open (sr_ctx sv) head None 0;
  match r.2 with
  | None => mret (mkServer r.1 (sr_slots sv), false)
  | Some cid =>
    match free_conn (sr_slots sv) 0 with
    | None => mret (mkServer (btelem_client_close r.1 (Z.of_nat cid)) (sr_slots sv), false)
    | Some i => mret (mkServer r.1 (<[i := mkSlot true true cid]> (sr_slots sv)), true)
    end
  end.

(** The end of a client thread, in its two parts: the socket and the client are
    closed first, the slot is given back later, under the lock. *)
Definition thread_close (sv : server) (i : nat) : server :=
  match sr_slots sv !! i with
  | Some (mkSlot true true cid) => mkServer (btelem_client_close (sr_ctx sv) (Z.of_nat cid)) (<[i := mkSlot true false cid]> (sr_slots sv))
  | _ => sv
  end.
Definition thread_release (sv : server) (i : nat) : server :=
  match sr_slots sv !! i with
  | Some (mkSlot true false cid) => mkServer (sr_ctx sv) (<[i := mkSlot false false cid]> (sr_slots sv))
  | _ => sv
  end.

Definition serve_start (x : btelem_ctx) : server := mkServer x (replicate 16 (mkSlot false false 0)).

Inductive srv_step : server -> server -> Prop :=
| step_accept sv sv' head ok : accept_one sv head = Ok (sv', ok) -> srv_step sv sv'
| step_drain sv i cid c c' : (* a client thread's drain *)
    sr_slots sv !! i = Some (mkSlot true true cid) -> x_clients (sr_ctx sv) !! cid = Some c -> cl_active c' = cl_active c ->
    srv_step sv (mkServer (with_client (sr_ctx sv) (Z.of_nat cid) c') (sr_slots sv))
| step_close sv i : srv_step sv (thread_close sv i)
| step_release sv i : srv_step sv (thread_release sv i).

(** Serving connections and active clients correspond one to one. *)
Record server_ok (sv : server) : Prop := {
  so_lens : length (x_clients (sr_ctx sv)) = 8%nat /\ length (sr_slots sv) = 16%nat;
  so_serves i cid : sr_slots sv !! i = Some (mkSlot true true cid) -> exists c, x_clients (sr_ctx sv) !! cid = Some c /\ cl_active c = true;
  so_alone i j cid : sr_slots sv !! i = Some (mkSlot true true cid) -> sr_slots sv !! j = Some (mkSlot true true cid) -> i = j;
  so_owned cid c : x_clients (sr_ctx sv) !! cid = Some c -> cl_active c = true -> exists i, sr_slots sv !! i = Some (mkSlot true true cid);
}.

Lemma free_slot_spec l k : match free_slot l k with
  | Some i => exists c, (k <= i)%nat /\ l !! (i - k)%nat = Some c /\ cl_active c = false
  | None => Forall (fun c => cl_active c = true) l end.
Proof.
  revert k. induction l as [|c l IH]; intros k; cbn; [constructor|]. destruct (cl_active c) eqn:E; cbn [negb].
  - specialize (IH (S k)). destruct (free_slot l (S k)) as [i|]; [|by constructor]. destruct IH as (c0 & H1 & H2 & H3). exists c0.
    split; [lia|]. by replace (i - k)%nat with (S (i - S k)) by lia.
  - exists c. by rewrite Nat.sub_diag.
Qed.

Lemma free_conn_spec l k i : free_conn l k = Some i -> exists s, (k <= i)%nat /\ l !! (i - k)%nat = Some s /\ k_active s = false.
Proof.
  revert k. induction l as [|s l IH]; intros k; cbn; [done|]. destruct (k_active s) eqn:E; cbn [negb].
  - intros (s0 & H1 & H2 & H3)%IH. exists s0. split; [lia|]. by replace (i - k)%nat with (S (i - S k)) by lia.
  - intros [= <-]. exists s. by rewrite Nat.sub_diag.
Qed.

Lemma close_lookup x cid j : (cid < 8)%nat -> length (x_clients x) = 8%nat ->
  x_clients (btelem_client_close x (Z.of_nat cid)) !! j = if decide (j = cid) then set_active false <$> x_clients x !! cid else x_clients x !! j.
Proof.
  intros Hc Hl. unfold btelem_client_close, BTELEM_MAX_CLIENTS. replace (_ || _) with false by lia. cbn. rewrite Nat2Z.id.
  destruct (decide (j = cid)) as [->|]; [apply list_lookup_alter_eq|by apply list_lookup_alter_ne].
Qed.

Lemma server_start_ok n x : btelem_init n = Some x -> server_ok (serve_start x).
Proof.
  unfold btelem_init. destruct (negb _); [done|]. intros [= <-]. split; cbn [serve_start sr_ctx sr_slots x_clients]; [done|..].
  - intros i cid H. by apply lookup_replicate in H as [? _].
  - intros i j cid H. by apply lookup_replicate in H as [? _].
  - intros cid c H Ha. by apply (lookup_replicate 8 zero_client) in H as [-> _].
Qed.

Lemma accept_ok sv sv' head ok : server_ok sv -> accept_one sv head = Ok (sv', ok) -> server_ok sv'.
Proof.
  intros [[Hl1 Hl2] Hs Ha Ho]. unfold accept_one, btelem_client_open. pose proof (free_slot_spec (x_clients (sr_ctx sv)) 0) as Hf.
  change (make_filter None 0) with (Ok (replicate 512 0) : total (list Z)).
  destruct (free_slot _ 0) as [cid|]; cbn [mbind res_bind mret res_ret fst snd]; [|intros [= <- _]; by split]. destruct Hf as (c0 & _ & Hc0 & Hin). rewrite Nat.sub_0_r in Hc0.
  pose proof (lookup_lt_Some _ _ _ Hc0) as Hlt. rewrite Hl1 in Hlt. set (c1 := mkClient head (replicate 512 0) (filter_on None 0) 0 0 true).
  assert (Hfree : forall i, sr_slots sv !! i <> Some (mkSlot true true cid)) by (intros i H; destruct (Hs i cid H) as (c & H1 & H2); congruence).
  destruct (free_conn (sr_slots sv) 0) as [i|] eqn:Efc; intros [= <- _].
  - apply free_conn_spec in Efc as (k0 & _ & Hk0 & Hk). rewrite Nat.sub_0_r in Hk0. pose proof (lookup_lt_Some _ _ _ Hk0) as Hi.
    split; cbn [sr_ctx sr_slots set_clients x_clients]; [by rewrite !length_insert| | |].
    + intros j cid' H. apply list_lookup_insert_Some in H as [(<- & [= <-] & _)|[Hne H]].
      * exists c1. split; [by apply list_lookup_insert_eq; lia|done].
      * rewrite list_lookup_insert_ne by (intros ->; by apply (Hfree j)). by apply Hs in H.
    + intros j j' cid' H H'. apply list_lookup_insert_Some in H as [(<- & [= <-] & _)|[Hne H]];
        apply list_lookup_insert_Some in H' as [(<- & E & _)|[Hne' H']]; [done|by destruct (Hfree j')|injection E as ->; by destruct (Hfree j)|by eapply Ha].
    + intros cid' c H Hac. apply list_lookup_insert_Some in H as [(<- & <- & _)|[Hne H]].
      * exists i. by apply list_lookup_insert_eq; lia.
      * destruct (Ho cid' c H Hac) as [j Hj]. exists j. rewrite list_lookup_insert_ne; [done|]. intros ->. rewrite Hk0 in Hj. by injection Hj as ->.
  - split; cbn [sr_ctx sr_slots]; [|intros j cid' H|by apply Ha|intros cid' c H Hac].
    + split; [|done]. unfold btelem_client_close. destruct (_ || _); cbn; by rewrite ?length_alter, length_insert.
    + rewrite close_lookup by (cbn; rewrite ?length_insert; lia). cbn. destruct (decide (cid' = cid)) as [->|Hne]; [by destruct (Hfree j)|].
      rewrite list_lookup_insert_ne by done. by apply Hs in H.
    + rewrite close_lookup in H by (cbn; rewrite ?length_insert; lia). cbn in H. destruct (decide (cid' = cid)) as [->|Hne].
      * rewrite list_lookup_insert_eq in H by lia. by injection H as <-.
      * rewrite list_lookup_insert_ne in H by done. by apply (Ho cid' c).
Qed.

Lemma thread_close_ok sv i : server_ok sv -> server_ok (thread_close sv i).
Proof.
  intros [[Hl1 Hl2] Hs Ha Ho]. unfold thread_close. destruct (sr_slots sv !! i) as [[[|] [|] cid]|] eqn:Ei; [|by split..].
  destruct (Hs i cid Ei) as (c0 & Hc0 & _). pose proof (lookup_lt_Some _ _ _ Hc0) as Hlt. rewrite Hl1 in Hlt. pose proof (lookup_lt_Some _ _ _ Ei) as Hi.
  assert (Hlook : forall j cid', <[i := mkSlot true false cid]> (sr_slots sv) !! j = Some (mkSlot true true cid') ->
    sr_slots sv !! j = Some (mkSlot true true cid') /\ cid' <> cid).
  { intros j cid' H. apply list_lookup_insert_Some in H as [(_ & ? & _)|[Hne H]]; [done|]. split; [done|]. intros ->. by apply Hne, (Ha i j cid). }
  split; cbn [sr_ctx sr_slots].
  - split; [|by rewrite length_insert]. unfold btelem_client_close. destruct (_ || _); cbn; by rewrite ?length_alter.
  - intros j cid' [H Hne]%Hlook. rewrite close_lookup, decide_False by done. by apply Hs in H.
  - intros j j' cid' [H _]%Hlook [H' _]%Hlook. by eapply Ha.
  - intros cid' c H Hac. rewrite close_lookup in H by done. destruct (decide (cid' = cid)) as [->|Hne].
    + rewrite Hc0 in H. by injection H as <-.
    + destruct (Ho cid' c H Hac) as [j Hj]. exists j. rewrite list_lookup_insert_ne; [done|]. intros ->. rewrite Ei in Hj. congruence.
Qed.

Lemma srv_step_ok sv sv' : srv_step sv sv' -> server_ok sv -> server_ok sv'.
Proof.
  intros [sv1 sv2 head ok H|sv1 i cid c c' Hi Hc Hac|sv1 i|sv1 i] Hok; [by eapply accept_ok| |by apply thread_close_ok|].
  - destruct Hok as [[Hl1 Hl2] Hs Ha Ho]. pose proof (lookup_lt_Some _ _ _ Hc) as Hlt.
    split; cbn [sr_ctx sr_slots with_client set_clients x_clients]; rewrite ?Nat2Z.id; [by rewrite length_insert| |done|].
    + intros j cid' H. destruct (Hs j cid' H) as (c1 & H1 & H2). destruct (decide (cid' = cid)) as [->|Hne].
      * exists c'. split; [by apply list_lookup_insert_eq|congruence].
      * exists c1. by rewrite list_lookup_insert_ne.
    + intros cid' c1 H H1. apply list_lookup_insert_Some in H as [(<- & <- & _)|[Hne H]]; [by exists i|by apply (Ho cid' c1)].
  - destruct Hok as [[Hl1 Hl2] Hs Ha Ho]. unfold thread_release. destruct (sr_slots sv1 !! i) as [[[|] [|] cid]|] eqn:Ei; [by split| |by split..].
    assert (Hlook : forall j cid', <[i := mkSlot false false cid]> (sr_slots sv1) !! j = Some (mkSlot true true cid') -> sr_slots sv1 !! j = Some (mkSlot true true cid')).
    { intros j cid' H. by apply list_lookup_insert_Some in H as [(_ & ? & _)|[_ H]]. }
    split; cbn [sr_ctx sr_slots]; [by rewrite length_insert|intros j cid' H%Hlook; by apply Hs in H|intros j j' cid' H%Hlook H'%Hlook; by eapply Ha|].
    intros cid' c H Hac. destruct (Ho cid' c H Hac) as [j Hj]. exists j. rewrite list_lookup_insert_ne; [done|]. intros ->. rewrite Ei in Hj. congruence.
Qed.

(** ** Properties *)

Lemma schema_view_ids x : registry_ok x -> NoDup (map se_id (sc_entries (schema_view (reg x)))).
Proof.
  intros Hx. destruct (registered_ok x Hx) as (_ & _ & _ & Hs).
  assert (Hn : forall l, StronglySorted Z.lt l -> NoDup l).
  { induction 1 as [|a l _ IH Hall]; constructor; [|done]. intros Hin. rewrite Forall_forall in Hall. specialize (Hall a Hin). lia. }
  cbn. rewrite map_map. by apply Hn.
Qed.

(** C2: From the C producer to the store of the viewer.  A server whose client keeps
    up (nothing overwritten, no more than a packet's worth between two drains)
    writes, through any sequence of short writes and timeouts, a stream that the
    viewer reads, however it is chunked: connecting yields the registered schema and
    a channel for each of its lanes, and the session that follows decodes every
    packet and dispatches to the store exactly the entries logged since the client
    was opened, each once and in order. *)
Theorem producer_to_viewer p now cid x c ws buf turns log s st conns addrs s0 k j :
  log_ok log -> 0 <= cid < 8 -> registry_ok x -> x_clients x !! Z.to_nat cid = Some c -> cl_active c = true ->
  cl_filter_active c = false -> client_ok c log -> 0 < r_capacity (x_ring x) -> buffer_ok buf ->
  heads_grow (cl_cursor c) turns -> Forall (fun t => Faithful (tn_memory t) log) turns ->
  keeps_up (r_capacity (x_ring x)) ((blen buf - 16) / 248) (cl_cursor c) turns ->
  client_thread cid x ws buf turns = Ok (s, Serving) ->
  plain st -> content st = so_wire (cn_socket s) -> room s0 (schema_lanes (schema_view (reg x))) ->
  exists s1 st' m news pkts,
    connect_once p (S addrs) (Some st :: conns) s0 None = Ok (s1, conns, inr (st', schema_blob x, mkChannelMap m)) /\
    Schema_decode (schema_blob x) = Ok (schema_view (reg x)) /\ extends s0 s1 news /\
    concat (map (entry_ids m) (sc_entries (schema_view (reg x)))) = seqZ (blen (in_channels s0)) (schema_lanes (schema_view (reg x))) /\
    packet_loop p now (replicate (S (length pkts) + j) false) st' (mkChannelMap m) k =
      (k' ← process p now (mkChannelMap m) pkts k; mret (k', replicate j false, inl IngClosed)) /\
    (forall k', process p now (mkChannelMap m) pkts k = Ok k' ->
       dispatch_all p (mkChannelMap m) (slice log (cl_cursor c) (last_head (cl_cursor c) turns - cl_cursor c)) (sk_store k) = Ok (sk_store k')).
Proof.
  intros Hlog Hid Hx Hc Hact Hf Hok Hcap Hbuf Hg HF Hk Hrun Hp Hcon Hroom.
  destruct (client_thread_ok log Hlog cid Hid x Hx c buf Hc Hact Hok Hcap Hbuf turns (cl_cursor c) ltac:(lia) Hg HF ws) as (r & E & c' & pkts & ess & D).
  rewrite Hrun in E. injection E as <-. destruct D as [Hpk _ _ Hw Hex _]. cbn [fst snd] in *. rewrite (Hw eq_refl) in Hcon.
  destruct (needed_len x Hx) as [_ Hsm].
  destruct (handshake_registers p (schema_view (reg x)) st (concat (map frame pkts)) conns addrs s0 Hp Hcon (schema_view_wf x Hx))
    as (s1 & st' & m & news & H1 & Hp' & Hc' & H2 & H3); [split; [apply blen_nonneg|unfold schema_blob in *; lia]|by apply schema_view_ids|done|].
  exists s1, st', m, news, pkts. split_and!; [done|by apply Schema_decode_encode, schema_view_wf|done|done| |].
  - apply packet_loop_frames; [done|done|]. clear -Hpk. induction Hpk as [|pkt es pkts ess [Hl [hdr Hd]] _ IH]; constructor; [|done]. split; [done|by eexists].
  - intros k' Hpr. rewrite <-(Hex eq_refl Hf eq_refl Hk). by apply (process_entries p now _ pkts ess k k').
Qed.


(** ** Witnesses *)
Definition serve_open : btelem_ctx := match btelem_client_open demo_reg 0 None 0 with Ok (x, _) => x | _ => demo_reg end.
Definition serve_log : list DecodedEntry :=
  [mkDecodedEntry 7 1000 [x00; x00; x80; x3f; x01]; mkDecodedEntry 3 1001 [x05]].
Definition serve_logged : btelem_ctx := match log_all serve_open serve_log with Ok x => x | _ => serve_open end.

Lemma serve_logged_ok : cring_ok (x_ring serve_logged) serve_log.
Proof.
  destruct (log_all_ok serve_open [] serve_log) as (x & E & Hx & _).
  - assert (x_ring serve_open = x_ring demo_init) as -> by (vm_compute; reflexivity). apply (init_ring_ok 4 demo_init); [lia|reflexivity].
  - apply log_okb_spec. vm_compute. reflexivity.
  - unfold serve_logged. by rewrite E.
Qed.

Lemma serve_open_registry : registry_ok serve_open.
Proof. destruct demo_reg_ok as [H1 H2 H3 H4]. split; [exact H1|exact H2|exact H3|exact H4]. Qed.

(** Two turns: the first finds both entries, the second nothing. *)
Definition serve_memory : memory := quiet (x_ring serve_logged).
Definition serve_turns : list turn :=
  [mkTurn true serve_memory (inr true) false; mkTurn true serve_memory (inr true) true].
(** The socket takes a thousand bytes at a time, and is full now and then. *)
Definition serve_writes : list write_event := Wrote 3 :: Again :: Wrote 1 :: concat (replicate 30 [Again; Wrote 1000]).
Definition serve_end : conn :=
  match client_thread 0 serve_open serve_writes (demo_buf 4) serve_turns with
  | Ok (s, _) => s | _ => mkConn serve_open (mkSocket [] []) [] 0 end.
Definition serve_stream : stream := [Data (take 700 (so_wire (cn_socket serve_end))); Data (drop 700 (so_wire (cn_socket serve_end)))].

Lemma serve_run : client_thread 0 serve_open serve_writes (demo_buf 4) serve_turns = Ok (serve_end, Serving).
Proof. vm_compute. reflexivity. Qed.

Lemma serve_keeps_up : keeps_up (r_capacity (x_ring serve_open)) ((blen (demo_buf 4) - 16) / 248) 0 serve_turns.
Proof.
  assert (Hh : m_head serve_memory = 2) by (vm_compute; reflexivity).
  assert (Hc : r_capacity (x_ring serve_open) = 4) by (vm_compute; reflexivity).
  assert (Hr : (blen (demo_buf 4) - 16) / 248 = 4) by (vm_compute; reflexivity).
  rewrite Hc, Hr. cbn [keeps_up serve_turns tn_memory]. rewrite Hh. split_and!; [|lia|lia| |lia|lia|done].
  - intros i Hi. split; [|apply Z.eqb_refl]. apply (quiet_committed _ serve_log); [exact serve_logged_ok| |unfold blen; cbn; lia].
    assert (r_capacity (x_ring serve_logged) = 4) as -> by (vm_compute; reflexivity). unfold blen. cbn. lia.
  - intros i Hi. lia.
Qed.

Lemma producer_to_viewer_witness :
  exists s1 st' m pkts,
    connect_once Debug 1 [Some serve_stream] MockStore_new None = Ok (s1, [], inr (st', schema_blob serve_open, mkChannelMap m)) /\
    (forall k', process Debug 0 (mkChannelMap m) pkts (mkSinks s1 None) = Ok k' ->
       dispatch_all Debug (mkChannelMap m) serve_log s1 = Ok (sk_store k')).
Proof.
  assert (HF : Forall (fun t => Faithful (tn_memory t) serve_log) serve_turns).
  { pose proof (quiet_faithful _ _ serve_logged_ok) as H. apply Forall_cons. split; [exact H|]. apply Forall_cons. split; [exact H|constructor]. }
  assert (Hgo : forall k, exists s1 st' m news pkts,
    connect_once Debug 1 [Some serve_stream] MockStore_new None = Ok (s1, [], inr (st', schema_blob serve_open, mkChannelMap m)) /\
    Schema_decode (schema_blob serve_open) = Ok (schema_view (reg serve_open)) /\ extends MockStore_new s1 news /\
    concat (map (entry_ids m) (sc_entries (schema_view (reg serve_open)))) = seqZ 0 (schema_lanes (schema_view (reg serve_open))) /\
    packet_loop Debug 0 (replicate (S (length pkts) + 0) false) st' (mkChannelMap m) k =
      (k' ← process Debug 0 (mkChannelMap m) pkts k; mret (k', replicate 0 false, inl IngClosed)) /\
    (forall k', process Debug 0 (mkChannelMap m) pkts k = Ok k' -> dispatch_all Debug (mkChannelMap m) serve_log (sk_store k) = Ok (sk_store k'))).
  { intros k. apply (producer_to_viewer Debug 0 0 serve_open demo_client serve_writes (demo_buf 4) serve_turns serve_log serve_end serve_stream [] 0
      MockStore_new k 0).
    - apply log_okb_spec. vm_compute. reflexivity.
    - lia.
    - exact serve_open_registry.
    - vm_compute. reflexivity.
    - reflexivity.
    - reflexivity.
    - apply demo_client_ok.
    - vm_compute. reflexivity.
    - split; vm_compute; [discriminate|reflexivity].
    - vm_compute. split; [discriminate|]. split; [discriminate|exact I].
    - exact HF.
    - exact serve_keeps_up.
    - exact serve_run.
    - repeat (constructor; [eexists; split; [reflexivity|vm_compute; discriminate]|]). constructor.
    - vm_compute. reflexivity.
    - apply room_new. vm_compute. discriminate. }
  destruct (Hgo demo_sinks) as (s1 & st' & m & news & pkts & H1 & _).
  destruct (Hgo (mkSinks s1 None)) as (s2 & st2 & m2 & news2 & pkts2 & G1 & _ & _ & _ & _ & G2).
  rewrite H1 in G1. injection G1 as <- <- <-. exists s1, st', m, pkts2. split; [exact H1|exact G2].
Defined.

