(* ===== verification/CFormat.v ===== *)
(** * The C library: printing floating-point numbers

    What src/btelem_serve_udp.c uses of [snprintf]: the conversion [%.Pg].  The
    exact binary value is rounded to [P] significant decimal digits, ties to even,
    and printed in fixed or scientific notation without trailing zeros. *)

From Stdlib Require Import SpecFloat.
From S2P Require Import Prelude Text Float64 Decimal.

(** [n / d] rounded to an integer, ties to even. *)
Definition div_half_even (n d : Z) : Z :=
  let q := n / d in
  match Z.compare (2 * (n mod d)) d with
  | Lt => q
  | Gt => q + 1
  | Eq => if Z.even q then q else q + 1
  end.

Definition digits10 (n : Z) : Z := blen (fmt_radix 10 n).

(** The decimal exponent of [num / den]. *)
Definition dec_exp (num den : Z) : Z :=
  if den <=? num then digits10 (num / den) - 1 else - digits10 ((den - 1) / num).

(** [num / den] to [P] significant digits: [n * 10^(X - (P - 1))]. *)
Definition sig_round (P num den : Z) : Z :=
  let k := dec_exp num den - (P - 1) in
  if 0 <=? k then div_half_even num (den * 10 ^ k) else div_half_even (num * 10 ^ (- k)) den.
Definition sig_digits (P num den : Z) : Z * Z :=
  let n := sig_round P num den in
  if n =? 10 ^ P then (10 ^ (P - 1), dec_exp num den + 1) else (n, dec_exp num den).

Definition ratio (m : positive) (e : Z) : Z * Z := if 0 <=? e then (Zpos m * 2 ^ e, 1) else (Zpos m, 2 ^ (- e)).

Fixpoint skip_zeros (t : text) : text :=
  match t with [] => [] | b :: t' => if bool_decide (b = x30) then skip_zeros t' else t end.
Definition strip_zeros (t : text) : text := rev (skip_zeros (rev t)).

(** A count of [10^-prec] units, the fraction without trailing zeros. *)
Definition fmt_stripped (prec : nat) (n : Z) : text :=
  let unit := 10 ^ Z.of_nat prec in
  fmt_dec (n / unit) ++ match strip_zeros (fmt_pad prec (n mod unit)) with [] => [] | f => str "." ++ f end.
Definition fmt_exp (X : Z) : text := str "e" ++ (if X <? 0 then str "-" else str "+") ++ fmt_pad 2 (Z.abs X).

(** [neg]: the sign bit, which [f64] does not keep for a NaN. *)
Definition fmt_g (P : Z) (neg : bool) (x : f64) : text :=
  match x with
  | S754_nan => (if neg then str "-" else []) ++ str "nan"
  | S754_infinity s => (if s then str "-" else []) ++ str "inf"
  | S754_zero s => (if s then str "-" else []) ++ str "0"
  | S754_finite s m e =>
    let '(num, den) := ratio m e in
    let '(n, X) := sig_digits P num den in
    (if s then str "-" else []) ++
    (if (-4 <=? X) && (X <? P) then fmt_stripped (Z.to_nat (P - 1 - X)) n
     else fmt_stripped (Z.to_nat (P - 1)) n ++ fmt_exp X)
  end.

Example g_third : fmt_g 8 false (f64_div (f64_of_Z 1) (f64_of_Z 3)) = str "0.33333333".
Proof. vm_compute. reflexivity. Qed.
Example g_round : fmt_g 8 false (f64_of_Z 999999999) = str "1e+09".
Proof. vm_compute. reflexivity. Qed.
Example g_int : fmt_g 8 false (f64_of_Z (-1200)) = str "-1200".
Proof. vm_compute. reflexivity. Qed.
Example g_tiny : fmt_g 8 false (f64_scaled 3 (-40)) = str "2.7284841e-12".
Proof. vm_compute. reflexivity. Qed.
Example g_small : fmt_g 8 false (f64_div (f64_of_Z 1) (f64_of_Z 10000)) = str "0.0001".
Proof. vm_compute. reflexivity. Qed.

(** ** Digits *)
Lemma radix_fuel_len fuel n acc : 0 <= n < 2 ^ Z.of_nat fuel -> (1 <= fuel)%nat ->
  exists d, 1 <= d /\ blen (radix_fuel fuel 10 n acc) = d + blen acc /\ n < 10 ^ d /\ (0 < n -> 10 ^ (d - 1) <= n) /\ (n = 0 -> d = 1).
Proof.
  revert n acc. induction fuel as [|fuel IH]; intros n acc Hn Hf; [lia|]. cbn [radix_fuel]. cbv zeta.
  pose proof (Z.div_mod n 10 ltac:(lia)). pose proof (Z.mod_pos_bound n 10 ltac:(lia)).
  destruct (n / 10 =? 0) eqn:E.
  - exists 1. rewrite blen_cons. cbn. split_and!; lia.
  - assert (Hq : 0 <= n / 10 < 2 ^ Z.of_nat fuel).
    { split; [apply Z.div_pos; lia|]. apply Z.div_lt_upper_bound; [lia|].
      rewrite Nat2Z.inj_succ, Z.pow_succ_r in Hn by lia. lia. }
    destruct fuel as [|fuel']; [cbn in Hq; lia|].
    destruct (IH (n / 10) (digit_byte (n mod 10) :: acc) Hq ltac:(lia)) as (d & Hd & -> & Hlt & Hge & _).
    exists (d + 1). rewrite blen_cons. specialize (Hge ltac:(lia)).
    replace (d + 1 - 1) with (d - 1 + 1) by lia. rewrite !Z.pow_add_r in * by lia. split_and!; try lia.
Qed.

Lemma digits10_spec n : 0 <= n -> 1 <= digits10 n /\ n < 10 ^ digits10 n /\ (0 < n -> 10 ^ (digits10 n - 1) <= n) /\ (n = 0 -> digits10 n = 1).
Proof.
  intros Hn. unfold digits10, fmt_radix.
  destruct (radix_fuel_len (S (Z.to_nat (Z.log2 n))) n []) as (d & ? & -> & ? & ? & ?); [|lia|].
  - split; [done|]. rewrite Nat2Z.inj_succ, Z2Nat.id by apply Z.log2_nonneg.
    destruct (decide (n = 0)) as [->|]; [done|]. apply Z.log2_spec. lia.
  - rewrite blen_nil, Z.add_0_r. done.
Qed.

Lemma digits10_le n k : 1 <= k -> 0 <= n < 10 ^ k -> digits10 n <= k.
Proof.
  intros Hk Hn. destruct (digits10_spec n ltac:(lia)) as (H1 & _ & H3 & H4).
  destruct (decide (n = 0)) as [E|]; [specialize (H4 E); lia|]. specialize (H3 ltac:(lia)).
  destruct (decide (digits10 n <= k)); [done|]. pose proof (Z.pow_le_mono_r 10 k (digits10 n - 1) ltac:(lia) ltac:(lia)). lia.
Qed.

Lemma fmt_dec_len n k : 1 <= k -> 0 <= n < 10 ^ k -> blen (fmt_dec n) <= k.
Proof. intros Hk Hn. unfold fmt_dec. replace (n <? 0) with false by lia. by apply digits10_le. Qed.

Lemma fmt_pad_len w n k : 1 <= k -> Z.of_nat w <= k -> 0 <= n < 10 ^ k -> blen (fmt_pad w n) <= k.
Proof.
  intros Hk Hw Hn. pose proof (fmt_dec_len n k Hk Hn) as H. unfold fmt_pad. rewrite blen_app. unfold blen in *.
  rewrite length_replicate. lia.
Qed.

(** ** Rounding to significant digits *)
Lemma div_half_even_error n d : 0 < d -> 2 * Z.abs (div_half_even n d * d - n) <= d.
Proof.
  intros Hd. unfold div_half_even. pose proof (Z.div_mod n d ltac:(lia)). pose proof (Z.mod_pos_bound n d ltac:(lia)).
  set (q := n / d) in *. set (r := n mod d) in *. cbv zeta. destruct (Z.compare_spec (2 * r) d); [destruct (Z.even q)| |]; nia.
Qed.

Lemma div_half_even_between n d lo hi : 0 < d -> lo * d <= n < hi * d -> lo <= div_half_even n d <= hi.
Proof. intros Hd H. pose proof (div_half_even_error n d Hd). nia. Qed.

(** [10^X <= num / den < 10^(X + 1)], cross-multiplied. *)
Definition scaled_le (a k b : Z) : Prop := if 0 <=? k then a * 10 ^ k <= b else a <= b * 10 ^ (- k).
Definition scaled_gt (a k b : Z) : Prop := if 0 <=? k then b < a * 10 ^ k else b * 10 ^ (- k) < a.

Lemma dec_exp_spec num den : 0 < num -> 0 < den ->
  scaled_le den (dec_exp num den) num /\ scaled_gt den (dec_exp num den + 1) num.
Proof.
  intros Hn Hd. unfold dec_exp, scaled_le, scaled_gt. destruct (den <=? num) eqn:E.
  - assert (Hq : 1 <= num / den) by (apply Z.div_le_lower_bound; lia). pose proof (Z.div_mod num den ltac:(lia)). pose proof (Z.mod_pos_bound num den Hd).
    destruct (digits10_spec (num / den) ltac:(lia)) as (H1 & H2 & H3 & _). specialize (H3 ltac:(lia)).
    replace (0 <=? digits10 (num / den) - 1) with true by lia. replace (0 <=? _ - 1 + 1) with true by lia.
    replace (digits10 (num / den) - 1 + 1) with (digits10 (num / den)) by lia.
    set (q := num / den) in *. set (a := 10 ^ (digits10 q - 1)) in *. set (b := 10 ^ digits10 q) in *. split; nia.
  - set (q := (den - 1) / num). assert (Hq : 1 <= q) by (apply Z.div_le_lower_bound; lia).
    pose proof (Z.div_mod (den - 1) num ltac:(lia)). pose proof (Z.mod_pos_bound (den - 1) num Hn). fold q in H.
    destruct (digits10_spec q ltac:(lia)) as (H1 & H2 & H3 & _). specialize (H3 ltac:(lia)).
    replace (0 <=? - digits10 q) with false by lia. rewrite Z.opp_involutive. split; [nia|].
    destruct (0 <=? - digits10 q + 1) eqn:E2.
    + replace (- digits10 q + 1) with 0 by lia. rewrite Z.pow_0_r. lia.
    + replace (- (- digits10 q + 1)) with (digits10 q - 1) by lia. nia.
Qed.

Lemma dec_exp_range num den k : 0 < num -> 0 < den -> 1 <= k -> num < den * 10 ^ k -> den <= num * 10 ^ k -> - k <= dec_exp num den < k.
Proof.
  intros Hn Hd Hk H1 H2. destruct (dec_exp_spec num den Hn Hd) as [L G]. unfold scaled_le, scaled_gt in *. set (X := dec_exp num den) in *.
  assert (Hmono : forall a b, 0 <= a <= b -> 10 ^ a <= 10 ^ b) by (intros; apply Z.pow_le_mono_r; lia). split.
  - destruct (decide (- k <= X)); [done|]. replace (0 <=? X + 1) with false in G by lia. pose proof (Hmono k (- (X + 1)) ltac:(lia)). nia.
  - destruct (decide (X < k)); [done|]. replace (0 <=? X) with true in L by lia. pose proof (Hmono k X ltac:(lia)). nia.
Qed.

(** The digits are [P], and the value they stand for is within half a unit of the
    last of them. *)
Lemma sig_round_spec P num den : 1 <= P -> 0 < num -> 0 < den -> 10 ^ (P - 1) <= sig_round P num den <= 10 ^ P.
Proof.
  intros HP Hn Hd. destruct (dec_exp_spec num den Hn Hd) as [L G]. unfold scaled_le, scaled_gt in *. unfold sig_round. set (X := dec_exp num den) in *.
  assert (Hadd : forall a b, 0 <= a -> 0 <= b -> 10 ^ (a + b) = 10 ^ a * 10 ^ b) by (intros; apply Z.pow_add_r; lia).
  assert (Hpos : forall a, 0 <= a -> 0 < 10 ^ a) by (intros; apply Z.pow_pos_nonneg; lia).
  destruct (0 <=? X - (P - 1)) eqn:E.
  - pose proof (Hpos (X - (P - 1)) ltac:(lia)). replace (0 <=? X) with true in L by lia. replace (0 <=? X + 1) with true in G by lia.
    apply div_half_even_between; [nia|]. pose proof (Hadd (P - 1) (X - (P - 1)) ltac:(lia) ltac:(lia)) as A. pose proof (Hadd P (X - (P - 1)) ltac:(lia) ltac:(lia)) as B.
    replace (P - 1 + (X - (P - 1))) with X in A by lia. replace (P + (X - (P - 1))) with (X + 1) in B by lia. nia.
  - set (k := - (X - (P - 1))) in *. pose proof (Hpos k ltac:(lia)). apply div_half_even_between; [done|]. split.
    + destruct (0 <=? X) eqn:E0.
      * pose proof (Hadd X k ltac:(lia) ltac:(lia)) as A. replace (X + k) with (P - 1) in A by lia. nia.
      * pose proof (Hadd (- X) (P - 1) ltac:(lia) ltac:(lia)) as A. replace (- X + (P - 1)) with k in A by lia. pose proof (Hpos (P - 1) ltac:(lia)). nia.
    + destruct (0 <=? X + 1) eqn:E0.
      * pose proof (Hadd (X + 1) k ltac:(lia) ltac:(lia)) as A. replace (X + 1 + k) with P in A by lia. nia.
      * pose proof (Hadd (- (X + 1)) P ltac:(lia) ltac:(lia)) as A. replace (- (X + 1) + P) with k in A by lia. pose proof (Hpos P ltac:(lia)). nia.
Qed.

Lemma sig_digits_spec P num den : 1 <= P -> 0 < num -> 0 < den ->
  let '(n, X) := sig_digits P num den in
  10 ^ (P - 1) <= n < 10 ^ P /\ dec_exp num den <= X <= dec_exp num den + 1 /\
  let k := X - (P - 1) in
  if 0 <=? k then 2 * Z.abs (n * (den * 10 ^ k) - num) <= den * 10 ^ k
  else 2 * Z.abs (n * den - num * 10 ^ (- k)) <= den.
Proof.
  intros HP Hn Hd. pose proof (sig_round_spec P num den HP Hn Hd) as H. unfold sig_digits. set (X := dec_exp num den) in *.
  assert (HPP : 10 ^ P = 10 * 10 ^ (P - 1)) by (replace P with (1 + (P - 1)) at 1 by lia; by rewrite Z.pow_add_r by lia).
  pose proof (Z.pow_pos_nonneg 10 (P - 1) ltac:(lia) ltac:(lia)) as Hp1.
  assert (HE : let k := X - (P - 1) in let n := sig_round P num den in
    if 0 <=? k then 2 * Z.abs (n * (den * 10 ^ k) - num) <= den * 10 ^ k else 2 * Z.abs (n * den - num * 10 ^ (- k)) <= den).
  { cbv zeta. unfold sig_round. fold X. destruct (0 <=? X - (P - 1)) eqn:E; apply div_half_even_error; [|done].
    apply Z.mul_pos_pos; [done|]. apply Z.pow_pos_nonneg; lia. }
  cbv zeta in HE. destruct (sig_round P num den =? 10 ^ P) eqn:E; [|split_and!; [lia|lia|lia|lia|exact HE]].
  apply Z.eqb_eq in E. rewrite E in HE. split_and!; [lia|lia|lia|lia|]. cbv zeta.
  destruct (0 <=? X - (P - 1)) eqn:E1.
  - replace (0 <=? X + 1 - (P - 1)) with true by lia. replace (X + 1 - (P - 1)) with (1 + (X - (P - 1))) by lia. rewrite Z.pow_add_r by lia.
    pose proof (Z.pow_pos_nonneg 10 (X - (P - 1)) ltac:(lia) ltac:(lia)). nia.
  - destruct (0 <=? X + 1 - (P - 1)) eqn:E2.
    + replace (X + 1 - (P - 1)) with 0 by lia. replace (- (X - (P - 1))) with 1 in HE by lia. rewrite Z.pow_0_r. lia.
    + replace (- (X - (P - 1))) with (1 + - (X + 1 - (P - 1))) in HE by lia. rewrite Z.pow_add_r in HE by lia. lia.
Qed.

(** ** The length of the text *)
Lemma skip_zeros_len t : (length (skip_zeros t) <= length t)%nat.
Proof. induction t as [|b t IH]; cbn; [done|]. case_bool_decide; cbn; lia. Qed.

Lemma strip_zeros_len t : blen (strip_zeros t) <= blen t.
Proof. unfold strip_zeros, blen. rewrite length_rev. pose proof (skip_zeros_len (rev t)). rewrite length_rev in H. lia. Qed.

Lemma fmt_stripped_len prec n a : 1 <= a -> 0 <= n < 10 ^ (a + Z.of_nat prec) -> blen (fmt_stripped prec n) <= a + 1 + Z.max 1 (Z.of_nat prec).
Proof.
  intros Ha Hn. unfold fmt_stripped. rewrite Z.pow_add_r in Hn by lia. pose proof (Z.pow_pos_nonneg 10 (Z.of_nat prec) ltac:(lia) ltac:(lia)) as Hp.
  assert (Hi : blen (fmt_dec (n / 10 ^ Z.of_nat prec)) <= a).
  { apply fmt_dec_len; [done|]. split; [apply Z.div_pos; lia|apply Z.div_lt_upper_bound; lia]. }
  pose proof (Z.mod_pos_bound n _ Hp) as Hm.
  assert (Hf : blen (fmt_pad prec (n mod 10 ^ Z.of_nat prec)) <= Z.max 1 (Z.of_nat prec)).
  { apply fmt_pad_len; [lia|lia|]. split; [lia|]. eapply Z.lt_le_trans; [apply Hm|]. apply Z.pow_le_mono_r; lia. }
  pose proof (strip_zeros_len (fmt_pad prec (n mod 10 ^ Z.of_nat prec))). rewrite blen_app.
  destruct (strip_zeros _) as [|b t]; [rewrite blen_nil; lia|]. rewrite blen_app. change (blen (str ".")) with 1. lia.
Qed.

Lemma fmt_dec_pos n : 1 <= blen (fmt_dec n).
Proof.
  unfold fmt_dec. destruct (n <? 0) eqn:E; [rewrite blen_cons; pose proof (blen_nonneg (fmt_radix 10 (- n))); lia|].
  destruct (digits10_spec n ltac:(lia)) as [H _]. exact H.
Qed.

Lemma fmt_stripped_pos prec n : 1 <= blen (fmt_stripped prec n).
Proof. unfold fmt_stripped. rewrite blen_app. pose proof (fmt_dec_pos (n / 10 ^ Z.of_nat prec)). etrans; [|apply Z.add_le_mono_l, blen_nonneg]. lia. Qed.

(** A finite double. *)
Definition f64_range (x : f64) : Prop :=
  match x with S754_finite _ m e => Zpos m < 2 ^ 53 /\ -1074 <= e <= 971 | _ => True end.

Lemma ratio_range m e : Zpos m < 2 ^ 53 -> -1074 <= e <= 971 ->
  let '(num, den) := ratio m e in 0 < num /\ 0 < den /\ num < den * 10 ^ 350 /\ den <= num * 10 ^ 350.
Proof.
  intros Hm He. unfold ratio. destruct (0 <=? e) eqn:E.
  - assert (Hp : 1 <= 2 ^ e <= 2 ^ 971) by (split; [apply (Z.pow_le_mono_r 2 0 e); lia|apply Z.pow_le_mono_r; lia]).
    split_and!; [nia|lia| |].
    + rewrite Z.mul_1_l. apply Z.le_lt_trans with (2 ^ 53 * 2 ^ 971); [nia|]. vm_compute. done.
    + assert (1 <= 10 ^ 350) by (vm_compute; done). nia.
  - assert (Hp : 1 <= 2 ^ (- e) <= 2 ^ 1074) by (split; [apply (Z.pow_le_mono_r 2 0); lia|apply Z.pow_le_mono_r; lia]).
    assert (H1 : 2 ^ 1074 <= 10 ^ 350) by (vm_compute; done). assert (H2 : 2 ^ 53 <= 10 ^ 350) by (vm_compute; done). split_and!; [lia|lia|nia|nia].
Qed.

(** What [snprintf] writes for a double with 8 digits fits its array, with room to
    spare, and is not empty. *)
Lemma fmt_g8_len neg x : f64_range x -> 1 <= blen (fmt_g 8 neg x) <= 16.
Proof.
  assert (Hs : forall (s : bool) t, 1 <= blen t <= 15 -> 1 <= blen ((if s then str "-" else []) ++ t) <= 16).
  { intros s t Ht. rewrite blen_app. destruct s; [change (blen (str "-")) with 1|rewrite blen_nil]; lia. }
  destruct x as [s|s| |s m e]; cbn [fmt_g f64_range]; intros Hr; [by apply Hs..|].
  destruct Hr as [Hm He]. pose proof (ratio_range m e Hm He) as H. destruct (ratio m e) as [num den]. destruct H as (Hn & Hd & H1 & H2).
  pose proof (sig_digits_spec 8 num den ltac:(lia) Hn Hd) as HS. destruct (sig_digits 8 num den) as [n X]. destruct HS as (Hr & HX & _).
  pose proof (dec_exp_range num den 350 Hn Hd ltac:(lia) H1 H2) as HE. change (8 - 1) with 7 in *.
  pose proof fmt_stripped_pos as Hpos.
  apply Hs. destruct ((-4 <=? X) && (X <? 8)) eqn:EX.
  - split; [apply Hpos|]. destruct (decide (0 <= X)).
    + pose proof (fmt_stripped_len (Z.to_nat (7 - X)) n (X + 1) ltac:(lia)) as HL. rewrite Z2Nat.id in HL by lia.
      replace (X + 1 + (7 - X)) with 8 in HL by lia. specialize (HL ltac:(lia)). lia.
    + pose proof (fmt_stripped_len (Z.to_nat (7 - X)) n 1 ltac:(lia)) as HL. rewrite Z2Nat.id in HL by lia.
      assert (10 ^ 8 <= 10 ^ (1 + (7 - X))) by (apply Z.pow_le_mono_r; lia). specialize (HL ltac:(lia)). lia.
  - rewrite blen_app. pose proof (fmt_stripped_len (Z.to_nat 7) n 1 ltac:(lia) ltac:(change (10 ^ (1 + Z.of_nat (Z.to_nat 7))) with (10 ^ 8); lia)) as HL. change (Z.of_nat (Z.to_nat 7)) with 7 in HL.
    assert (HF : 0 <= blen (fmt_exp X) <= 5).
    { split; [apply blen_nonneg|]. unfold fmt_exp. rewrite !blen_app. pose proof (fmt_pad_len 2 (Z.abs X) 3 ltac:(lia) ltac:(lia) ltac:(lia)).
      change (blen (str "e")) with 1. destruct (X <? 0); [change (blen (str "-")) with 1|change (blen (str "+")) with 1]; lia. }
    specialize (Hpos (Z.to_nat 7) n). lia.
Qed.

(** ** Which values are doubles *)
Lemma shr_fexp_emin m e l : -1074 <= (shr_fexp 53 1024 m e l).2.
Proof.
  unfold shr_fexp. change IntDef.Z.sub with Z.sub. change IntDef.Z.add with Z.add.
  assert (Hf : -1074 - e <= fexp 53 1024 (Zdigits2 m + e) - e) by (unfold fexp, emin; lia).
  destruct (fexp 53 1024 (Zdigits2 m + e) - e) as [|n|n]; cbn [SpecFloat.shr snd]; lia.
Qed.

Lemma round_aux_range s m e l : 0 <= m -> f64_range (binary_round_aux 53 1024 s m e l).
Proof.
  intros Hm. pose proof (round_aux_mantissa s m e l Hm) as H1. revert H1. unfold binary_round_aux.
  destruct (shr_fexp 53 1024 m e l) as [r1 e1]. pose proof (shr_fexp_emin (round_nearest_even (shr_m r1) (loc_of_shr_record r1)) e1 loc_Exact) as H2.
  destruct (shr_fexp 53 1024 _ e1 loc_Exact) as [r2 e2]. cbn [snd] in H2. destruct (shr_m r2); [done| |done].
  destruct (e2 <=? 1024 - 53) eqn:E; [|done]. cbn. lia.
Qed.

Lemma normalize_range m e s : f64_range (binary_normalize 53 1024 m e s).
Proof.
  assert (H : forall s p, f64_range (binary_round 53 1024 s p e)).
  { intros s0 p. unfold binary_round. destruct (shl_align p e _) as [mz ez]. apply round_aux_range. lia. }
  destruct m; [done|apply H..].
Qed.

Lemma f64_of_Z_range n : f64_range (f64_of_Z n).
Proof. apply normalize_range. Qed.

Lemma f64_of_f32_range x : f64_range (f64_of_f32 x).
Proof. destruct x; [done..|apply normalize_range]. Qed.

Lemma f64_of_bits_range v : f64_range (f64_of_bits v).
Proof.
  unfold f64_of_bits, float_of_bits. change (2 ^ 11 - 1) with (Z.ones 11). change (2 ^ 52 - 1) with (Z.ones 52). rewrite !Z.land_ones by lia.
  pose proof (Z.mod_pos_bound (Z.shiftr v 52) (2 ^ 11) ltac:(lia)) as He. pose proof (Z.mod_pos_bound v (2 ^ 52) ltac:(lia)) as Hf.
  set (e := Z.shiftr v 52 mod 2 ^ 11) in *. set (f := v mod 2 ^ 52) in *. change (Z.ones 11) with 2047. change (2 ^ (11 - 1) - 1) with 1023.
  destruct (e =? 2047) eqn:E1; [by destruct (f =? 0)|]. destruct (e =? 0) eqn:E2.
  - destruct f as [|p|p]; cbn; [done| |done]. lia.
  - destruct (f + 2 ^ 52) as [|p|p] eqn:Ep; cbn; [done| |done]. lia.
Qed.

Lemma f64_div_range a b : f64_range (f64_div a b).
Proof.
  unfold f64_div, SFdiv. destruct a, b; try done. destruct (SFdiv_core_binary 53 1024 _ _ _ _) as [[mz ez] lz] eqn:E.
  by eapply round_aux_range, div_core_nonneg.
Qed.
