(* ===== verification/CUdp.v ===== *)
(** * The C library: the UDP server

    Models src/btelem_serve_udp.c: the JSON text of an entry, written into a
    fixed buffer that cuts what does not fit; the drain callback that sends one
    datagram per entry; the drain thread; starting and stopping.  [sendto] is the
    sequence of its results; the counters that are only printed are kept as far as
    the thread owns them.

    The reference side is a list of members (key and number) per entry and its
    text; the numbers are those the viewer reads from the same payload. *)

From Stdlib Require Import SpecFloat.
From S2P Require Import Prelude Text Float64 Decimal Wire WireSchema WireValue Mapper CTypes CRing CSchema CServe CFormat.

(** ** Text in a fixed buffer *)
Record json_buf := mkJson { j_buf : list byte; j_cap : Z; j_len : Z; j_first : bool }.

Definition JSON_BUF_SIZE : Z := 4096.

Definition jb_init (buf : list byte) (cap : Z) : json_buf := mkJson buf cap 0 true.

(** [memcpy] of [n] bytes of [s], or of those that fit. *)
Definition jb_append (s : list byte) (n : Z) (j : json_buf) : total json_buf :=
  let n := if j_cap j <? j_len j + n then j_cap j - j_len j else n in
  data ← subslice s 0 n;
  buf ← write_at (j_buf j) (j_len j) data;
  mret (mkJson buf (j_cap j) (j_len j + n) (j_first j)).

Definition jb_sep (j : json_buf) : total json_buf :=
  if j_first j then mret (mkJson (j_buf j) (j_cap j) (j_len j) false) else jb_append (str ",") 1 j.

Definition quote : text := [x22].
Definition colon : text := [x22; x3a].

Definition jb_field_raw (key val : list byte) (val_len : Z) (j : json_buf) : total json_buf :=
  j ← jb_sep j;
  j ← jb_append quote 1 j;
  j ← jb_append key (blen key) j;
  j ← jb_append colon 2 j;
  jb_append val val_len j.

(** [snprintf] into [char tmp[size]]: the array as far as it is written; the result
    is the length of the whole text. *)
Definition printed (size : nat) (t : text) : list byte := take (size - 1) t ++ [x00].

Definition jb_field_text (size : nat) (key t : text) (j : json_buf) : total json_buf :=
  if 0 <? blen t then jb_field_raw key (printed size t) (blen t) j else mret j.
Definition jb_field_f64 (key : text) (neg : bool) (v : f64) : json_buf -> total json_buf := jb_field_text 32 key (fmt_g 8 neg v).
Definition jb_field_i64 (key : text) (v : Z) : json_buf -> total json_buf := jb_field_text 24 key (fmt_dec v).
Definition jb_field_u64 (key : text) (v : Z) : json_buf -> total json_buf := jb_field_text 24 key (fmt_dec v).

(** ** Fields *)

(** Into [char key[192]]. *)
Definition make_key (entry field : text) (suffix : option text) : text :=
  take 191 (match suffix with
            | Some suffix => entry ++ str "." ++ field ++ str "." ++ suffix
            | None => entry ++ str "." ++ field end).

(** [memcpy] of [n] bytes of the payload into an integer. *)
Definition load_le (n off : Z) (payload : list byte) : total Z := s ← subslice payload off n; mret (le_u s).

Fixpoint for_loop {S} (n : nat) (i : Z) (f : Z -> S -> total S) (s : S) : total S :=
  match n with O => mret s | Datatypes.S n => s ← f i s; for_loop n (i + 1) f s end.

(** One bit range of a word; a shift by 32 or more is undefined. *)
Definition encode_bit (entry field : text) (raw : Z) (bd : btelem_bit_def) (j : json_buf) : total json_buf :=
  if (32 <=? bt_width bd) || (32 <=? bt_start bd) then Panic
  else
    let mask := wrap 32 (Z.shiftl 1 (bt_width bd)) - 1 in
    jb_field_u64 (make_key entry field (bt_name bd)) (Z.land (Z.shiftr raw (bt_start bd)) mask) j.

Definition encode_bitfield (entry : text) (f : btelem_field_def) (payload : list byte) (j : json_buf) : total json_buf :=
  raw ← (if f_size f =? 1 then load_le 1 (f_offset f) payload
         else if f_size f =? 2 then load_le 2 (f_offset f) payload
         else if f_size f =? 4 then load_le 4 (f_offset f) payload
         else mret 0);
  match f_bitfield_def f with
  | Some bf => for_loop (Z.to_nat (bd_bit_count bf)) 0 (fun bi j => bd ← index (bd_bits bf) bi; encode_bit entry (f_name f) raw bd j) j
  | None => jb_field_u64 (make_key entry (f_name f) None) raw j
  end.

(** The types by number: U8 0, U16 1, U32 2, U64 3, I8 4, I16 5, I32 6, I64 7, F32
    8, F64 9, BOOL 10, BYTES 11, ENUM 12, BITFIELD 13, STRING 14. *)
Definition elem_size (ty : Z) : option Z :=
  match ty with
  | 0 | 4 | 10 | 12 => Some 1
  | 1 | 5 => Some 2
  | 2 | 6 | 8 => Some 4
  | 3 | 7 | 9 => Some 8
  | _ => None
  end.

(** The [switch] over the types. *)
Definition encode_value (ty : Z) (key : text) (payload : list byte) (offset : Z) (j : json_buf) : total json_buf :=
  match ty with
  | 8 => v ← load_le 4 offset payload; jb_field_f64 key (Z.testbit v 31) (f64_of_f32 (f32_of_bits v)) j
  | 9 => v ← load_le 8 offset payload; jb_field_f64 key (Z.testbit v 63) (f64_of_bits v) j
  | 0 | 12 => v ← load_le 1 offset payload; jb_field_u64 key v j
  | 4 => v ← load_le 1 offset payload; jb_field_i64 key (to_signed 8 v) j
  | 10 => v ← load_le 1 offset payload; let bv := if negb (v =? 0) then str "true" else str "false" in jb_field_raw key bv (blen bv) j
  | 1 => v ← load_le 2 offset payload; jb_field_u64 key v j
  | 5 => v ← load_le 2 offset payload; jb_field_i64 key (to_signed 16 v) j
  | 2 => v ← load_le 4 offset payload; jb_field_u64 key v j
  | 6 => v ← load_le 4 offset payload; jb_field_i64 key (to_signed 32 v) j
  | 3 => v ← load_le 8 offset payload; jb_field_u64 key v j
  | 7 => v ← load_le 8 offset payload; jb_field_i64 key (to_signed 64 v) j
  | _ => mret j
  end.

(** How many elements, and the key of one. *)
Definition elem_count (f : btelem_field_def) : Z := if 0 <? f_count f then f_count f else 1.
Definition elem_key (entry : text) (f : btelem_field_def) (ai : Z) : text :=
  make_key entry (f_name f) (if 1 <? elem_count f then Some (fmt_dec ai) else None).

Definition encode_field (entry : text) (f : btelem_field_def) (payload : list byte) (j : json_buf) : total json_buf :=
  if f_type f =? BTELEM_BITFIELD then encode_bitfield entry f payload j
  else
    match elem_size (f_type f) with
    | None => mret j
    | Some sz => for_loop (Z.to_nat (elem_count f)) 0 (fun ai => encode_value (f_type f) (elem_key entry f ai) payload (f_offset f + ai * sz)) j
    end.

(** ** The drain callback *)

(** [u_out]: the datagrams handed to [sendto], with whether it took them. *)
Record udp_emit_ctx := mkUdp { u_buf : list byte; u_sent : Z; u_errors : Z; u_out : list (list byte * bool) }.

Section emit.
Context (x : btelem_ctx) (sendto : nat -> bool).

(** The descriptor of an id, [None] for an unknown one. *)
Definition lookup_schema (id : Z) : total (option btelem_schema_entry) :=
  if id <? x_schema_count x then index (x_schema x) id else mret None.

Definition seconds (timestamp : Z) : f64 := f64_div (f64_of_Z timestamp) (f64_of_Z 1000000000).

Definition encode_entry (se : btelem_schema_entry) (e : btelem_entry) (buf : list byte) : total json_buf :=
  j ← jb_append (str "{") 1 (jb_init buf (JSON_BUF_SIZE - 2));
  j ← jb_field_f64 (str "timestamp") false (seconds (e_timestamp e)) j;
  j ← for_loop (Z.to_nat (clamp (s_field_count se) BTELEM_MAX_FIELDS)) 0
        (fun fi j => f ← index (s_fields se) fi; encode_field (s_name se) f (e_payload e) j) j;
  j ← jb_append (str "}") 1 j;
  jb_append [x0a] 1 j.

Definition udp_emit (e : btelem_entry) (u : udp_emit_ctx) : total udp_emit_ctx :=
  se ← lookup_schema (e_id e);
  match se with
  | None => mret u
  | Some se =>
    j ← encode_entry se e (u_buf u);
    data ← subslice (j_buf j) 0 (j_len j);
    let ok := sendto (length (u_out u)) in
    mret (mkUdp (j_buf j) (if ok then wrap 64 (u_sent u + 1) else u_sent u) (if ok then u_errors u else wrap 64 (u_errors u + 1))
                (u_out u ++ [(data, ok)]))
  end.
End emit.

(** ** Thread, start and stop *)
Section server.
Context (sendto : nat -> bool) (cid : Z).

(** The turns of the loop: the running flag and what the ring's memory gave. *)
Fixpoint udp_drain_thread (turns : list (bool * memory)) (x : btelem_ctx) (u : udp_emit_ctx) : total (btelem_ctx * udp_emit_ctx) :=
  match turns with
  | [] => mret (x, u)
  | (running, m) :: turns =>
    if negb running then mret (x, u)
    else
      r ← btelem_drain (fun e u => (u ≫= udp_emit x sendto e, 0)) x cid m (mret u);
      let '(x, u, _) := r in
      u ← u;
      udp_drain_thread turns x u
  end.
End server.

(** [memset(&uc, 0, sizeof(uc))]. *)
Definition udp_start : udp_emit_ctx := mkUdp (replicate (Z.to_nat JSON_BUF_SIZE) x00) 0 0 [].

(** The client the server drains, [None] for the -1 of a failure. *)
Definition btelem_serve_udp (x : btelem_ctx) (head : Z) (socket_ok thread_ok : bool) : total (btelem_ctx * option Z) :=
  if negb socket_ok then mret (x, None)
  else
    r ← btelem_client_open x head None 0;
    match r.2 with
    | None => mret (r.1, None)
    | Some cid =>
      if thread_ok then mret (r.1, Some (Z.of_nat cid)) else mret (btelem_client_close r.1 (Z.of_nat cid), None)
    end.

Definition btelem_udp_server_stop (running : bool) (x : btelem_ctx) (cid : Z) : btelem_ctx :=
  if running then btelem_client_close x cid else x.

(** ** The reference: members and their text *)
Inductive json_value := JInt (n : Z) | JReal (neg : bool) (v : f64) | JBool (b : bool).

Definition value_text (v : json_value) : text :=
  match v with
  | JInt n => fmt_dec n
  | JReal neg v => fmt_g 8 neg v
  | JBool b => if b then str "true" else str "false"
  end.
Definition value_f64 (v : json_value) : f64 :=
  match v with JInt n => f64_of_Z n | JReal _ v => v | JBool b => f64_of_Z (if b then 1 else 0) end.

Definition member_text (kv : text * json_value) : text := quote ++ kv.1 ++ colon ++ value_text kv.2.
Definition commas (l : list text) : text :=
  match l with [] => [] | t :: l => t ++ concat (map (fun t => str "," ++ t) l) end.
Definition json_text (ms : list (text * json_value)) : text := str "{" ++ commas (map member_text ms) ++ str "}" ++ [x0a].

Definition scalar_json (ty : Z) (s : list byte) : json_value :=
  let v := le_u s in
  match ty with
  | 4 => JInt (to_signed 8 v)
  | 5 => JInt (to_signed 16 v)
  | 6 => JInt (to_signed 32 v)
  | 7 => JInt (to_signed 64 v)
  | 8 => JReal (Z.testbit v 31) (f64_of_f32 (f32_of_bits v))
  | 9 => JReal (Z.testbit v 63) (f64_of_bits v)
  | 10 => JBool (negb (v =? 0))
  | _ => JInt v
  end.

Definition bit_member (entry : text) (f : btelem_field_def) (raw : Z) (bd : btelem_bit_def) : text * json_value :=
  (make_key entry (f_name f) (bt_name bd), JInt (Z.shiftr raw (bt_start bd) mod 2 ^ bt_width bd)).

Definition field_members (entry : text) (f : btelem_field_def) (payload : list byte) : list (text * json_value) :=
  if f_type f =? BTELEM_BITFIELD then
    let raw := if bool_decide (f_size f ∈ [1; 2; 4]) then le_u (slice payload (f_offset f) (f_size f)) else 0 in
    match f_bitfield_def f with
    | Some bf => map (bit_member entry f raw) (bd_bits bf)
    | None => [(make_key entry (f_name f) None, JInt raw)]
    end
  else
    match elem_size (f_type f) with
    | None => []
    | Some sz => map (fun ai => (elem_key entry f ai, scalar_json (f_type f) (slice payload (f_offset f + ai * sz) sz))) (seqZ 0 (elem_count f))
    end.

Definition entry_members (se : btelem_schema_entry) (d : DecodedEntry) : list (text * json_value) :=
  (str "timestamp", JReal false (seconds (de_timestamp d))) ::
  concat (map (fun f => field_members (s_name se) f (de_payload d)) (s_fields se)).

(** The datagram of an entry: its text, cut at the size of the buffer. *)
Definition schema_of (x : btelem_ctx) (id : Z) : option btelem_schema_entry :=
  if id <? x_schema_count x then default None (x_schema x !! Z.to_nat id) else None.
Definition datagram (x : btelem_ctx) (d : DecodedEntry) : option text :=
  se ← schema_of x (de_id d); Some (take 4094 (json_text (entry_members se d))).

(** ** What the buffer holds *)
Section buffer.
Context (cap : Z) (size : Z) (Hcap : 0 <= cap <= size).

(** All that was appended, as far as it fits. *)
Record jb_text (j : json_buf) (t : text) : Prop := {
  jt_cap : j_cap j = cap;
  jt_size : blen (j_buf j) = size;
  jt_len : j_len j = Z.min cap (blen t);
  jt_take : take (Z.to_nat (j_len j)) (j_buf j) = take (Z.to_nat cap) t;
}.

Lemma jb_init_ok buf : blen buf = size -> jb_text (jb_init buf cap) [].
Proof using Hcap. intros H. split; cbn; [done|done|change (blen []) with 0; lia|by rewrite take_nil]. Qed.

Lemma jb_append_ok j t s n : jb_text j t -> 0 <= n <= blen s ->
  returns (jb_append s n j) (fun j' => jb_text j' (t ++ take (Z.to_nat n) s) /\ j_first j' = j_first j).
Proof using Hcap.
  intros [Ec Es El Et] Hn. unfold jb_append. rewrite Ec, El. rewrite El in Et. pose proof (blen_nonneg t) as Ht.
  set (L := Z.min cap (blen t)) in *. set (k := if cap <? L + n then cap - L else n).
  assert (Hk : 0 <= k <= n /\ L + k = Z.min cap (blen t + n)) by (unfold k, L; destruct (cap <? _) eqn:E; lia).
  unfold subslice. replace (0 + k <=? blen s) with true by lia. cbn [mbind res_bind].
  assert (Hd : slice s 0 k = take (Z.to_nat k) s) by done.
  assert (Hl : blen (slice s 0 k) = k) by (apply length_slice; lia).
  unfold write_at. rewrite Hl, Es. replace ((0 <=? L) && (L + k <=? size)) with true by lia. cbn [mbind res_bind]. apply returns_ret.
  split; [|done]. split; cbn [j_cap j_buf j_len].
  - done.
  - rewrite !blen_app, Hl. unfold blen in *. rewrite length_take, length_drop. lia.
  - rewrite blen_app. replace (blen (take (Z.to_nat n) s)) with n; [lia|]. unfold blen in *. rewrite length_take. lia.
  - rewrite Et, Hd. rewrite app_assoc. rewrite take_app_le.
    + rewrite take_ge.
      * destruct (decide (blen t <= cap)) as [Hle|Hgt].
        -- rewrite take_ge, take_app_ge by (unfold blen in *; lia). f_equal. rewrite take_take. f_equal. unfold blen in *. lia.
        -- replace (Z.to_nat k) with 0%nat by lia. rewrite take_0, app_nil_r, take_app_le; [done|]. unfold blen in *. lia.
      * rewrite length_app, !length_take. unfold blen in *. lia.
    + rewrite length_app, !length_take. unfold blen in *. lia.
Qed.

(** An operation that adds members. *)
Record jb_holds (j : json_buf) (ms : list (text * json_value)) : Prop := {
  jh_text : jb_text j (str "{" ++ commas (map member_text ms));
  jh_first : j_first j = bool_decide (ms = []);
}.
Definition adds (op : json_buf -> total json_buf) (ms : list (text * json_value)) : Prop :=
  forall j ms0, jb_holds j ms0 -> returns (op j) (fun j' => jb_holds j' (ms0 ++ ms)).

Lemma adds_ret : adds (fun j => mret j) [].
Proof. intros j ms H. apply returns_ret. by rewrite app_nil_r. Qed.

Lemma commas_snoc l t : commas (l ++ [t]) = commas l ++ (if bool_decide (l = []) then [] else str ",") ++ t.
Proof.
  destruct l as [|a l]; cbn [app commas map concat]; [by rewrite app_nil_r|].
  rewrite map_app, concat_app. cbn [map concat]. rewrite app_nil_r, bool_decide_eq_false_2 by done. by rewrite <-!app_assoc.
Qed.

Lemma jb_append_all j t s : jb_text j t -> returns (jb_append s (blen s) j) (fun j' => jb_text j' (t ++ s) /\ j_first j' = j_first j).
Proof using Hcap.
  intros H. pose proof (blen_nonneg s). eapply returns_impl; [apply (jb_append_ok j t s (blen s) H); lia|].
  intros j' [H1 H2]. split; [|done]. rewrite take_ge in H1 by (unfold blen; lia). done.
Qed.

Lemma jb_sep_ok j ms : jb_holds j ms ->
  returns (jb_sep j) (fun j' => jb_text j' (str "{" ++ commas (map member_text ms) ++ (if bool_decide (map member_text ms = []) then [] else str ",")) /\ j_first j' = false).
Proof using Hcap.
  intros [Ht Hf]. unfold jb_sep. rewrite Hf. destruct ms as [|a ms].
  - rewrite bool_decide_eq_true_2 by done. apply returns_ret. split; [|done]. destruct Ht. by split.
  - rewrite !bool_decide_eq_false_2 by done. eapply returns_impl; [apply (jb_append_all j _ (str ",") Ht)|]. intros j' [H1 H2].
    rewrite <-!app_assoc in H1. rewrite H2, Hf. split; [exact H1|by rewrite bool_decide_eq_false_2].
Qed.

Lemma jb_field_raw_adds key val n v : 0 <= n <= blen val -> value_text v = take (Z.to_nat n) val -> adds (jb_field_raw key val n) [(key, v)].
Proof using Hcap.
  intros Hn Hv j ms Hj. unfold jb_field_raw. eapply returns_bind; [apply (jb_sep_ok j ms Hj)|]. intros j1 [H1 F1].
  eapply returns_bind; [apply (jb_append_all j1 _ quote H1)|]. intros j2 [H2 F2].
  eapply returns_bind; [apply (jb_append_all j2 _ key H2)|]. intros j3 [H3 F3].
  eapply returns_bind; [apply (jb_append_all j3 _ colon H3)|]. intros j4 [H4 F4].
  eapply returns_impl; [apply (jb_append_ok j4 _ val n H4 Hn)|]. intros j5 [H5 F5]. split.
  - rewrite map_app. cbn [map]. rewrite commas_snoc. change (member_text (key, v)) with (quote ++ key ++ colon ++ value_text v). rewrite Hv. rewrite <-!app_assoc in *. exact H5.
  - rewrite bool_decide_eq_false_2 by (by destruct ms). congruence.
Qed.

Lemma jb_field_text_adds sz key t v : value_text v = t -> 1 <= blen t < Z.of_nat sz -> adds (jb_field_text sz key t) [(key, v)].
Proof using Hcap.
  intros Hv Ht. unfold jb_field_text. replace (0 <? blen t) with true by lia. unfold printed. rewrite take_ge by (unfold blen in Ht; lia).
  apply jb_field_raw_adds; [rewrite blen_app; change (blen [x00]) with 1; lia|]. rewrite Hv. unfold blen. rewrite Nat2Z.id, take_app_length. done.
Qed.

Lemma jb_field_f64_adds key neg v : f64_range v -> adds (jb_field_f64 key neg v) [(key, JReal neg v)].
Proof using Hcap. intros H. apply jb_field_text_adds; [done|]. pose proof (fmt_g8_len neg v H). lia. Qed.

Lemma fmt_dec_i64 n : - 2 ^ 63 <= n < 2 ^ 64 -> 1 <= blen (fmt_dec n) < 24.
Proof.
  intros Hn. split; [apply fmt_dec_pos|]. unfold fmt_dec. destruct (n <? 0) eqn:E.
  - rewrite blen_cons. pose proof (digits10_le (- n) 20 ltac:(lia) ltac:(lia)). unfold digits10 in *. lia.
  - pose proof (digits10_le n 20 ltac:(lia) ltac:(lia)). unfold digits10 in *. lia.
Qed.

Lemma jb_field_int_adds key n : - 2 ^ 63 <= n < 2 ^ 64 -> adds (jb_field_text 24 key (fmt_dec n)) [(key, JInt n)].
Proof using Hcap. intros H. apply jb_field_text_adds; [done|]. pose proof (fmt_dec_i64 n H). lia. Qed.

(** A loop adds what its turns add. *)
Lemma for_loop_adds n f g i : (forall k, i <= k < i + Z.of_nat n -> adds (f k) (g k)) ->
  adds (for_loop n i f) (concat (map g (seqZ i (Z.of_nat n)))).
Proof.
  revert i. induction n as [|n IH]; intros i H; [apply adds_ret|]. intros j ms Hj. cbn [for_loop].
  eapply returns_bind; [apply (H i ltac:(lia) j ms Hj)|]. intros j1 Hj1. rewrite seqZ_cons by lia. cbn [map concat]. rewrite app_assoc.
  replace (Z.pred (Z.of_nat (S n))) with (Z.of_nat n) by lia. replace (Z.succ i) with (i + 1) by lia. apply IH; [|done]. intros k Hk. apply H. lia.
Qed.
End buffer.

(** ** Fields, in members *)

(** A field whose bytes lie in a payload of [n] bytes, its bit ranges in a word. *)
Record field_fits (n : Z) (f : btelem_field_def) : Prop := {
  ff_bits : f_type f = BTELEM_BITFIELD -> (f_size f ∈ [1; 2; 4] -> f_offset f + f_size f <= n) /\
    forall bf, f_bitfield_def f = Some bf -> Forall (fun b => bt_width b < 32 /\ bt_start b < 32) (bd_bits bf);
  ff_elems sz : f_type f <> BTELEM_BITFIELD -> elem_size (f_type f) = Some sz -> f_offset f + elem_count f * sz <= n;
}.

Lemma load_ok n off p stale : 0 <= off -> 0 <= n -> off + n <= blen p -> load_le n off (p ++ stale) = Ok (le_u (slice p off n)).
Proof.
  intros Ho Hn Hb. unfold load_le, subslice. rewrite blen_app. pose proof (blen_nonneg stale).
  replace (off + n <=? blen p + blen stale) with true by lia. cbn. by rewrite slice_prefix.
Qed.

Lemma elem_size_cases ty sz : elem_size ty = Some sz ->
  (ty ∈ [0; 4; 10; 12] /\ sz = 1) \/ (ty ∈ [1; 5] /\ sz = 2) \/ (ty ∈ [2; 6; 8] /\ sz = 4) \/ (ty ∈ [3; 7; 9] /\ sz = 8).
Proof. unfold elem_size. intros H. repeat case_match; simplify_eq; set_solver. Qed.

Lemma concat_singletons {A B} (g : A -> B) l : concat (map (fun a => [g a]) l) = map g l.
Proof. induction l as [|a l IH]; [done|]. cbn. by rewrite IH. Qed.

Section fields.
Context (cap : Z) (size : Z) (Hcap : 0 <= cap <= size).
#[local] Abbreviation adds := (adds cap size).

Lemma encode_value_adds ty sz key p stale off : elem_size ty = Some sz -> 0 <= off -> off + sz <= blen p ->
  adds (encode_value ty key (p ++ stale) off) [(key, scalar_json ty (slice p off sz))].
Proof using Hcap.
  intros Hs Ho Hb.
  assert (Hload : forall k (F : Z -> json_buf -> total json_buf) v, k = sz -> adds (F (le_u (slice p off sz))) [(key, v)] ->
    adds (fun j => z ← load_le k off (p ++ stale); F z j) [(key, v)]).
  { intros k F v -> HF j ms Hj. pose proof (elem_size_cases _ _ Hs). rewrite load_ok by lia. by apply HF. }
  assert (Hr : 0 <= le_u (slice p off sz) < 2 ^ (8 * sz)).
  { pose proof (elem_size_cases _ _ Hs). apply le_u_slice_range; lia. }
  apply elem_size_cases in Hs as [[Hty ->]|[[Hty ->]|[[Hty ->]|[Hty ->]]]]; cbn [Z.mul Pos.mul] in Hr;
    repeat (apply elem_of_cons in Hty as [->|Hty]); try (by apply elem_of_nil in Hty); cbn [encode_value scalar_json];
    (apply Hload; [done|]); try (apply (jb_field_int_adds cap size Hcap); unfold to_signed; repeat case_match; lia).
  - apply (jb_field_raw_adds cap size Hcap).
    + split; [apply blen_nonneg|lia].
    + cbn [value_text]. rewrite take_ge by (unfold blen; lia). by destruct (negb _).
  - apply (jb_field_f64_adds cap size Hcap), f64_of_f32_range.
  - apply (jb_field_f64_adds cap size Hcap), f64_of_bits_range.
Qed.

Lemma encode_bit_adds entry f raw bd : in_u 32 raw -> 0 <= bt_width bd < 32 -> 0 <= bt_start bd < 32 ->
  adds (encode_bit entry (f_name f) raw bd) [bit_member entry f raw bd].
Proof using Hcap.
  intros Hr Hw Hs j ms Hj. unfold encode_bit, bit_member. replace ((32 <=? bt_width bd) || (32 <=? bt_start bd)) with false by lia.
  assert (Hp : 1 <= 2 ^ bt_width bd <= 2 ^ 31) by (split; [apply (Z.pow_le_mono_r 2 0); lia|apply Z.pow_le_mono_r; lia]).
  rewrite Z.shiftl_1_l, wrap_small by (unfold in_u; lia). rewrite mask_mod by lia.
  pose proof (Z.mod_pos_bound (Z.shiftr raw (bt_start bd)) (2 ^ bt_width bd) ltac:(lia)). by apply (jb_field_int_adds cap size Hcap); [lia|].
Qed.

(** A loop over a list, by index. *)
Lemma for_index_adds {A} (l : list A) (F : A -> json_buf -> total json_buf) g : Forall (fun a => adds (F a) (g a)) l ->
  adds (for_loop (length l) 0 (fun i j => a ← index l i; F a j)) (concat (map g l)).
Proof using Hcap.
  intros HF. replace (concat (map g l)) with (concat (map (fun i => match l !! Z.to_nat i with Some a => g a | None => [] end) (seqZ 0 (Z.of_nat (length l))))).
  - apply for_loop_adds. intros k Hk j ms Hj. destruct (lookup_lt_is_Some_2 l (Z.to_nat k) ltac:(lia)) as [a Ha].
    unfold index. rewrite Ha. cbn [mbind res_bind]. by apply (Forall_lookup_1 _ _ _ _ HF Ha).
  - f_equal. apply list_eq. intros i. rewrite !list_lookup_fmap. destruct (l !! i) as [a|] eqn:Ea.
    + rewrite lookup_seqZ_lt by (apply lookup_lt_Some in Ea; lia). rewrite Z.add_0_l. cbn [fmap option_fmap option_map]. by rewrite Nat2Z.id, Ea.
    + rewrite lookup_seqZ_ge by (apply lookup_ge_None in Ea; lia). done.
Qed.

Lemma encode_bitfield_adds entry f p stale : field_ok f -> f_type f = BTELEM_BITFIELD -> field_fits (blen p) f ->
  adds (encode_bitfield entry f (p ++ stale)) (field_members entry f p).
Proof using Hcap.
  intros [_ ((Ho & _) & _) _ Hbd] Hty [Hb _]. destruct (Hb Hty) as [Hsz Hbits]. unfold field_members, encode_bitfield. rewrite Hty. cbn [Z.eqb Pos.eqb BTELEM_BITFIELD].
  set (raw := if bool_decide _ then _ else 0).
  assert (Hraw : in_u 32 raw).
  { unfold raw. case_bool_decide as Hin; [|unfold in_u; lia]. specialize (Hsz Hin).
    pose proof (le_u_slice_range p (f_offset f) (f_size f)) as Hr. unfold in_u in *.
    repeat (apply elem_of_cons in Hin as [E|Hin]; [rewrite E in *; specialize (Hr Ho ltac:(lia) Hsz); cbn [Z.mul Pos.mul] in Hr; lia|]).
    by apply elem_of_nil in Hin. }
  assert (Hread : (if f_size f =? 1 then load_le 1 (f_offset f) (p ++ stale) else if f_size f =? 2 then load_le 2 (f_offset f) (p ++ stale)
    else if f_size f =? 4 then load_le 4 (f_offset f) (p ++ stale) else mret 0) = Ok raw).
  { unfold raw. case_bool_decide as Hin.
    - specialize (Hsz Hin). repeat (apply elem_of_cons in Hin as [E|Hin]; [rewrite E in *; cbn [Z.eqb Pos.eqb]; by rewrite load_ok by lia|]).
      by apply elem_of_nil in Hin.
    - repeat (rewrite not_elem_of_cons in Hin; destruct Hin as [? Hin]). rewrite !(proj2 (Z.eqb_neq _ _)) by done. done. }
  intros j ms Hj. rewrite Hread. cbn [mbind res_bind]. revert j ms Hj. change (adds (fun j => match f_bitfield_def f with
    | Some bf => for_loop (Z.to_nat (bd_bit_count bf)) 0 (fun bi j => bd ← index (bd_bits bf) bi; encode_bit entry (f_name f) raw bd j) j
    | None => jb_field_u64 (make_key entry (f_name f) None) raw j end) (match f_bitfield_def f with
    | Some bf => map (bit_member entry f raw) (bd_bits bf) | None => [(make_key entry (f_name f) None, JInt raw)] end)).
  destruct (f_bitfield_def f) as [bf|]; [|apply (jb_field_int_adds cap size Hcap); unfold in_u in Hraw; lia].
  destruct (Hbd bf eq_refl) as (-> & _ & Hall). specialize (Hbits bf eq_refl). unfold blen. rewrite Nat2Z.id.
  rewrite <-concat_singletons. apply for_index_adds. eapply Forall_impl; [apply Forall_and; split; [exact Hall|exact Hbits]|]. intros b [(_ & Hs & Hw) [Hw2 Hs2]]. unfold in_u in *. apply encode_bit_adds; [done|lia|lia].
Qed.

Lemma encode_field_adds entry f p stale : field_ok f -> field_fits (blen p) f -> adds (encode_field entry f (p ++ stale)) (field_members entry f p).
Proof using Hcap.
  intros Hok Hf. unfold encode_field. destruct (f_type f =? BTELEM_BITFIELD) eqn:E.
  { apply encode_bitfield_adds; [done|by apply Z.eqb_eq|done]. }
  unfold field_members. rewrite E. apply Z.eqb_neq in E. destruct (elem_size (f_type f)) as [sz|] eqn:Es; [|apply adds_ret].
  pose proof (ff_elems _ _ Hf sz E Es) as Hfit. pose proof (elem_size_cases _ _ Es) as Hc. destruct (fo_nums _ Hok) as ([Ho _] & _).
  set (g := fun ai => (elem_key entry f ai, scalar_json (f_type f) (slice p (f_offset f + ai * sz) sz))).
  rewrite <-concat_singletons. replace (seqZ 0 (elem_count f)) with (seqZ 0 (Z.of_nat (Z.to_nat (elem_count f)))).
  - apply for_loop_adds. intros k Hk. apply encode_value_adds; [done|nia|]. assert (k * sz + sz <= elem_count f * sz) by nia. lia.
  - rewrite Z2Nat.id by (unfold elem_count; destruct (0 <? f_count f) eqn:?; lia). done.
Qed.
End fields.

(** ** Entries *)
Section entries.
Context (x : btelem_ctx) (sendto : nat -> bool) (Hx : registry_ok x).

Lemma lookup_schema_ok id : 0 <= id -> lookup_schema x id = Ok (schema_of x id).
Proof using Hx.
  intros Hid. unfold lookup_schema, schema_of. destruct (id <? x_schema_count x) eqn:E; [|done]. destruct Hx as [Hl Hc _ _].
  unfold index. destruct (lookup_lt_is_Some_2 (x_schema x) (Z.to_nat id) ltac:(lia)) as [o ->]. done.
Qed.

Lemma schema_of_ok id se : schema_of x id = Some se -> entry_ok se.
Proof using Hx.
  unfold schema_of. destruct (id <? x_schema_count x); [|done]. destruct (x_schema x !! Z.to_nat id) as [[e|]|] eqn:E; cbn; [|done..].
  intros [= ->]. by apply (rg_entry _ Hx) in E as (_ & _ & ?).
Qed.

(** Every field of the entry's descriptor lies in its payload. *)
Definition fits (d : DecodedEntry) : Prop :=
  forall se, schema_of x (de_id d) = Some se -> Forall (field_fits (blen (de_payload d))) (s_fields se).

Lemma encode_entry_ok se e d buf : entry_ok se -> Forall (field_fits (blen (de_payload d))) (s_fields se) -> records e d -> blen buf = 4096 ->
  returns (encode_entry se e buf) (fun j => jb_text 4094 4096 j (json_text (entry_members se d))).
Proof.
  intros [_ _ [Hc Hl] Hf] Hfit (_ & Et & _ & stale & Ep) Hb. unfold encode_entry. change (JSON_BUF_SIZE - 2) with 4094.
  assert (Hcap : 0 <= 4094 <= 4096) by lia.
  eapply returns_bind; [apply (jb_append_all 4094 4096 Hcap _ [] (str "{") (jb_init_ok 4094 4096 Hcap buf Hb))|]. intros j1 [H1 F1]. cbn [app] in H1.
  assert (Hj1 : jb_holds 4094 4096 j1 []) by (split; [by rewrite app_nil_r|by rewrite F1]).
  eapply returns_bind; [apply (jb_field_f64_adds 4094 4096 Hcap (str "timestamp") false (seconds (e_timestamp e)) (f64_div_range _ _) j1 [] Hj1)|].
  intros j2 Hj2. cbn [app] in Hj2. unfold clamp, BTELEM_MAX_FIELDS.
  replace (Z.to_nat (if s_field_count se <? 16 then s_field_count se else 16)) with (length (s_fields se)) by (unfold blen in *; destruct (_ <? 16) eqn:?; lia).
  eapply returns_bind; [apply (for_index_adds 4094 4096 Hcap (s_fields se) (fun f => encode_field (s_name se) f (e_payload e))
    (fun f => field_members (s_name se) f (de_payload d))); [|exact Hj2]|].
  { eapply Forall_impl; [apply Forall_and; split; [exact Hf|exact Hfit]|]. intros f [H1f H2f]. rewrite Ep. by apply encode_field_adds. }
  intros j3 [H3 _]. eapply returns_bind; [apply (jb_append_all 4094 4096 Hcap _ _ (str "}") H3)|]. intros j4 [H4 _].
  eapply returns_impl; [apply (jb_append_all 4094 4096 Hcap _ _ [x0a] H4)|]. intros j5 [H5 _]. unfold json_text, entry_members. rewrite <-Et. by rewrite <-!app_assoc in H5.
Qed.

(** The thread's own state: counters and outcomes agree with what was sent. *)
Record udp_ok (u : udp_emit_ctx) : Prop := {
  uo_buf : blen (u_buf u) = 4096;
  uo_sent : u_sent u = wrap 64 (blen (filter (fun o => o.2 = true) (u_out u)));
  uo_errors : u_errors u = wrap 64 (blen (filter (fun o => o.2 = false) (u_out u)));
  uo_outcome k o : u_out u !! k = Some o -> o.2 = sendto k;
}.
Definition datagrams (u : udp_emit_ctx) : list text := map fst (u_out u).
Definition texts_of (ds : list DecodedEntry) : list text := omap (M := list) (datagram x) ds.

Lemma wrap_succ w a : 0 <= w -> wrap w (wrap w a + 1) = wrap w (a + 1).
Proof. intros Hw. unfold wrap. by rewrite Zplus_mod_idemp_l. Qed.

Lemma udp_emit_ok e d u : logged_ok d -> records e d -> fits d -> udp_ok u ->
  returns (udp_emit x sendto e u) (fun u' => udp_ok u' /\ datagrams u' = datagrams u ++ texts_of [d]).
Proof using Hx.
  intros ([Hid _] & _) Hrec Hfit [Hb Hs He Ho]. unfold udp_emit. destruct Hrec as (Ei & Hrec). rewrite Ei, lookup_schema_ok by done. cbn [mbind res_bind].
  unfold texts_of. cbn [omap list_omap]. unfold datagram. destruct (schema_of x (de_id d)) as [se|] eqn:Es; cbn [mbind option_bind].
  2: { apply returns_ret. rewrite app_nil_r. done. }
  eapply returns_bind; [apply (encode_entry_ok se e d (u_buf u)); [by eapply schema_of_ok|by apply Hfit|by split|done]|].
  intros j [Hc Hsz Hl Ht]. unfold subslice. rewrite Hsz. replace (0 + j_len j <=? 4096) with true by lia. cbn [mbind res_bind].
  apply returns_ret. unfold datagrams. cbn [u_out]. rewrite map_app. split; [|cbn [map fst]; unfold slice; rewrite drop_0; by rewrite Ht].
  split; cbn [u_buf u_sent u_errors u_out]; [done| | |].
  - rewrite filter_app, blen_app. destruct (sendto (length (u_out u))) eqn:E.
    + rewrite filter_cons_True by done. rewrite Hs, wrap_succ by lia. f_equal.
    + rewrite filter_cons_False by done. rewrite Hs. f_equal. change (blen (filter _ [])) with 0. lia.
  - rewrite filter_app, blen_app. destruct (sendto (length (u_out u))) eqn:E.
    + rewrite filter_cons_False by done. rewrite He. f_equal. change (blen (filter _ [])) with 0. lia.
    + rewrite filter_cons_True by done. rewrite He, wrap_succ by lia. f_equal.
  - intros k o Hk. apply lookup_app_Some in Hk as [Hk|[Hge Hk]]; [by apply Ho|]. apply list_lookup_singleton_Some in Hk as [Hk <-]. cbn. f_equal. lia.
Qed.

Lemma fold_emit_ok locals ds u : Forall2 records locals ds -> Forall logged_ok ds -> Forall fits ds -> udp_ok u ->
  returns (foldl (fun u e => u ≫= udp_emit x sendto e) (Ok u) locals) (fun u' => udp_ok u' /\ datagrams u' = datagrams u ++ texts_of ds).
Proof using Hx.
  intros H. revert u. induction H as [|e d locals ds Hr _ IH]; intros u Hl Hf Hu; cbn [foldl].
  - apply (returns_ret u). by rewrite app_nil_r.
  - apply Forall_cons in Hl as [Hl1 Hl]. apply Forall_cons in Hf as [Hf1 Hf]. destruct (udp_emit_ok e d u Hl1 Hr Hf1 Hu) as (u1 & E1 & Hu1 & D1).
    cbn [mbind res_bind]. rewrite E1. eapply returns_impl; [apply (IH u1 Hl Hf Hu1)|]. intros u2 [Hu2 D2]. split; [done|].
    rewrite D2, D1, <-app_assoc. f_equal. unfold texts_of. cbn [omap list_omap]. by destruct (datagram x d).
Qed.
End entries.

(** ** The thread *)
Section udp_thread.
Context (sendto : nat -> bool) (cid : Z) (Hid : 0 <= cid < 8) (log : list DecodedEntry) (Hlog : log_ok log).

(** The server's client in the context; what does not change as it runs. *)
Record udp_client (x : btelem_ctx) (c : btelem_client) : Prop := {
  uc_slot : x_clients x !! Z.to_nat cid = Some c;
  uc_active : cl_active c = true;
  uc_open : cl_filter_active c = false;
  uc_ok : client_ok c log;
  uc_cap : 0 < r_capacity (x_ring x);
  uc_reg : registry_ok x;
  uc_fits : Forall (fits x) log;
}.

(** Between two states: the entries shown, and when nothing was missed. *)
Record udp_served (x : btelem_ctx) (c : btelem_client) (u : udp_emit_ctx) (x' : btelem_ctx) (c' : btelem_client) (u' : udp_emit_ctx)
    (es : list DecodedEntry) : Prop := {
  us_ctx : x' = with_client x cid c' /\ udp_client x' c';
  us_cursor : cl_cursor c <= cl_cursor c';
  us_user : udp_ok sendto u' /\ datagrams u' = datagrams u ++ texts_of x es;
  us_entries : es `sublist_of` slice log (cl_cursor c) (cl_cursor c' - cl_cursor c);
}.

(** Nothing is lost between position [h] and the head of [m]. *)
Definition caught (cap h : Z) (m : memory) : Prop :=
  m_head m - h <= cap /\ forall i, h <= i < m_head m -> committed m i /\ untorn m i = true.

Lemma udp_client_keep x c c' : udp_client x c -> client_ok c' log -> cl_active c' = cl_active c -> cl_filter_active c' = cl_filter_active c ->
  udp_client (with_client x cid c') c'.
Proof using Hid.
  intros [H1 H2 H3 H4 H5 [R1 R2 R3 R4] H7] Hok Ha Hf. split; [|congruence|congruence|done|done|by split|done].
  cbn. apply list_lookup_insert_eq. by eapply lookup_lt_Some.
Qed.

Lemma seen_Forall (P : DecodedEntry -> Prop) m keep n lo : 0 <= lo -> Forall P log -> Forall P (seen m log keep n lo).
Proof.
  intros Hlo. apply sublist_Forall. etrans; [by apply seen_sublist|apply slice_sublist].
Qed.

Lemma udp_turn_ok x c u m : udp_client x c -> udp_ok sendto u -> Faithful m log -> cl_cursor c <= m_head m ->
  returns (btelem_drain (fun e u => (u ≫= udp_emit x sendto e, 0)) x cid m (mret u)) (fun r => exists c' u' es,
    r.1.2 = Ok u' /\ udp_served x c u r.1.1 c' u' es /\ cl_cursor c' <= m_head m /\
    (caught (r_capacity (x_ring x)) (cl_cursor c) m -> cl_cursor c' = m_head m /\ es = slice log (cl_cursor c) (m_head m - cl_cursor c))).
Proof using Hid Hlog.
  intros Hc Hu HF Hle. pose proof Hc as [Hsl Ha Hop Hok Hcap Hreg Hfit]. rewrite (drain_client x cid c Hid Hsl Ha).
  destruct (skip_resumed m log Hlog _ Hcap c Hok Hle) as (-> & Hok1 & Hres). cbv zeta. set (lo := resume (r_capacity (x_ring x)) m c) in *.
  set (c1 := resumed m _ c) in *. change (cl_cursor c1) with lo. pose proof (co_counts _ _ Hok) as Hct.
  set (emit := fun e (u : total udp_emit_ctx) => (u ≫= udp_emit x sendto e, 0)).
  destruct (drain_loop_ok emit (fun _ _ => eq_refl) m log Hlog (Z.to_nat (m_head m - lo)) c1 (mret u) 0 Hok1 eq_refl) as (r & -> & k & locals & [[Hk Hw] Hl Hf Hst Hcm] & _).
  { change (cl_cursor c1) with lo. lia. }
  change (cl_cursor c1) with lo in *. change (accepts c1) with (accepts c) in *. set (es := seen m log (accepts c) k lo) in *.
  destruct (fold_emit_ok x sendto Hreg locals es u Hl) as (u' & Eu & Hu'); [apply seen_Forall; [lia|exact (proj2 Hlog)]|apply seen_Forall; [lia|done]|done|].
  cbn [mbind res_bind fst snd]. apply returns_ret. cbn [fst snd]. pose proof (torn_range m k lo) as Htr.
  exists r.1.1, u', es. split; [by rewrite Hf|]. rewrite Hw. cbn [cl_cursor walked]. split; [|split; [change (cl_cursor c1) with lo; lia|]].
  - split; [split; [done|]|cbn; fold lo; lia|done|].
    + apply (udp_client_keep x c); [done|by apply client_ok_walked|done|done].
    + cbn. fold lo. rewrite (slice_split log (cl_cursor c) lo) by lia. apply sublist_inserts_l.
      replace (lo + Z.of_nat k - lo) with (Z.of_nat k) by lia. apply seen_sublist. lia.
  - intros [Hroom Hall]. change (cl_cursor c1) with lo. assert (Elo : lo = cl_cursor c) by (unfold lo, resume; lia).
    assert (Ek : lo + Z.of_nat k = m_head m).
    { destruct (decide (k < Z.to_nat (m_head m - lo))%nat) as [Hlt|]; [|lia]. exfalso. apply (Hst Hlt). apply Hall. lia. }
    split; [done|]. unfold es. rewrite seen_untorn; [|intros i Hi; apply Hall; lia|lia]. rewrite <-Ek, Elo.
    replace (cl_cursor c + Z.of_nat k - cl_cursor c) with (Z.of_nat k) by lia. apply filter_all. apply Forall_forall. intros d _. unfold accepts. by rewrite Hop.
Qed.

(** Heads seen one after another; and turns of which none misses an entry. *)
Fixpoint growing (h : Z) (ms : list memory) : Prop :=
  match ms with [] => True | m :: ms => h <= m_head m /\ growing (m_head m) ms end.
Fixpoint all_caught (cap h : Z) (ms : list memory) : Prop :=
  match ms with [] => True | m :: ms => caught cap h m /\ all_caught cap (m_head m) ms end.
Definition final_head (h : Z) (ms : list memory) : Z := foldl (fun _ m => m_head m) h ms.

Lemma final_head_ge h ms : growing h ms -> h <= final_head h ms.
Proof. revert h. induction ms as [|m ms IH]; intros h; cbn; [lia|]. intros [H1 H2]. specialize (IH _ H2). unfold final_head in *. lia. Qed.

Lemma udp_thread_ok ms m0 x c u h : udp_client x c -> udp_ok sendto u -> cl_cursor c <= h -> growing h ms -> Forall (fun m => Faithful m log) ms ->
  returns (udp_drain_thread sendto cid (map (pair true) ms ++ [(false, m0)]) x u) (fun r => exists c' es,
    udp_served x c u r.1 c' r.2 es /\ cl_cursor c' <= final_head h ms /\
    (cl_cursor c = h -> all_caught (r_capacity (x_ring x)) h ms -> es = slice log h (final_head h ms - h))).
Proof using Hid Hlog.
  revert x c u h. induction ms as [|m ms IH]; intros x c u h Hc Hu Hle Hg HF; cbn [map app udp_drain_thread negb].
  - apply returns_ret. exists c, []. cbn [fst snd]. split; [|split; [done|intros _ _; unfold slice; cbn; by rewrite Z.sub_diag]].
    split; [|lia|by rewrite app_nil_r|apply sublist_nil_l]. pose proof (uc_slot _ _ Hc) as Hs. assert (with_client x cid c = x) as ->; [|done].
    unfold with_client, set_clients. rewrite list_insert_id by done. by destruct x.
  - destruct Hg as [Hh Hg]. apply Forall_cons in HF as [HF1 HF]. pose proof (co_counts _ _ (uc_ok _ _ Hc)) as Hct.
    eapply returns_bind; [apply (udp_turn_ok x c u m Hc Hu HF1); lia|].
    intros [[x1 ou] n] (c1 & u1 & es1 & E1 & S1 & Hle1 & Hex1). cbn [fst snd] in *. subst ou. cbn [mbind res_bind].
    destruct (us_ctx _ _ _ _ _ _ _ S1) as [Ex1 Hc1]. destruct (us_user _ _ _ _ _ _ _ S1) as [Hu1 D1].
    eapply returns_impl; [apply (IH x1 c1 u1 (m_head m) Hc1 Hu1 Hle1 Hg HF)|]. intros [x2 u2] (c2 & es2 & [[Ex2 Hc2] Hcur2 [Hu2 D2] Hes2] & Hend & Hex2).
    cbn [fst snd] in *. pose proof (us_cursor _ _ _ _ _ _ _ S1) as Hcur1. exists c2, (es1 ++ es2). split; [split|split; [exact Hend|]].
    + split; [|done]. rewrite Ex2, Ex1. unfold with_client, set_clients. cbn. by rewrite list_insert_insert_eq.
    + lia.
    + split; [done|]. rewrite D2, D1, <-app_assoc. f_equal. unfold texts_of. rewrite omap_app, Ex1. done.
    + rewrite (slice_split log (cl_cursor c) (cl_cursor c1)) by lia. apply sublist_app; [apply (us_entries _ _ _ _ _ _ _ S1)|done].
    + intros Eh [K1 K2]. rewrite <-Eh in K1. destruct (Hex1 K1) as [Ec1 ->]. rewrite Ex1 in Hex2. rewrite (Hex2 Ec1 K2).
      pose proof (final_head_ge _ _ Hg). change (final_head h (m :: ms)) with (final_head (m_head m) ms). rewrite Eh. symmetry. apply slice_split; lia.
Qed.
End udp_thread.

(** A scalar's JSON value is the number the viewer takes the same bytes for. *)
Lemma scalar_json_viewer ty w : elem_size ty = Some w ->
  ty <> BTELEM_BITFIELD /\ scalar_width (ty_of ty) = Some (Z.to_nat w) /\ forall s, scalar_value (ty_of ty) s = Some (value_f64 (scalar_json ty s)).
Proof.
  intros H. apply elem_size_cases in H as [[Hty ->]|[[Hty ->]|[[Hty ->]|[Hty ->]]]];
    repeat (apply elem_of_cons in Hty as [->|Hty]); try (by apply elem_of_nil in Hty); split_and!; try done.
  intros s. cbn. by destruct (le_u s =? 0).
Qed.

(** The members of a scalar field and of a bitfield, against the viewer. *)
Lemma scalar_members entry f payload w : field_ok f -> elem_size (f_type f) = Some w -> f_size f = w -> f_count f = 1 -> f_offset f + f_size f <= blen payload ->
  exists v, field_members entry f payload = [(make_key entry (f_name f) None, v)] /\ field_as_f64 (view_field f) payload = Ok (Some (value_f64 v)).
Proof.
  intros Hok Hw Hsz Hc Hb. pose proof (fo_nums _ Hok) as (Ho & _). destruct (scalar_json_viewer _ _ Hw) as (Hne & Hwd & Hv).
  exists (scalar_json (f_type f) (slice payload (f_offset f) (f_size f))). split.
  - unfold field_members. rewrite (proj2 (Z.eqb_neq _ _) Hne), Hw. unfold elem_key, elem_count. rewrite Hc, Hsz.
    change (seqZ 0 (if 0 <? 1 then 1 else 1)) with [0]. cbn [map]. by rewrite Z.mul_0_l, Z.add_0_r.
  - pose proof (elem_size_cases _ _ Hw) as Hcs.
    rewrite (field_as_f64_scalar (view_field f) payload (Z.to_nat w)); cbn [view_field fd_ty fd_size fd_count fd_offset]; [|done|lia|done|done|done]. by rewrite Hv.
Qed.

Lemma bit_members pf entry f payload bf : field_ok f -> f_offset f + f_size f <= blen payload -> f_type f = BTELEM_BITFIELD -> f_bitfield_def f = Some bf ->
  f_size f ∈ [1; 2; 4] -> Forall (fun b => bt_width b < 32 /\ bt_start b < 32) (bd_bits bf) ->
  Forall2 (fun kv b => kv.1 = make_key entry (f_name f) (bt_name b) /\
      exists n, kv.2 = JInt n /\ bit_value pf (le_u (slice payload (f_offset f) (f_size f))) (view_bit b) = Ok n)
    (field_members entry f payload) (bd_bits bf).
Proof.
  intros Hok Hb Hty Hbf Hin Hw. pose proof (fo_nums _ Hok) as (Ho & _). destruct (fo_bits _ Hok bf Hbf) as (_ & _ & Hall). unfold field_members. rewrite Hty. cbn [Z.eqb Pos.eqb BTELEM_BITFIELD].
  rewrite Hbf, bool_decide_eq_true_2 by done. set (raw := le_u _). assert (Hraw : in_u 64 raw).
  { pose proof (le_u_slice_range payload (f_offset f) (f_size f)) as Hr. unfold in_u in *.
    repeat (apply elem_of_cons in Hin as [E|Hin]; [unfold raw; rewrite E in *; specialize (Hr ltac:(lia) ltac:(lia) Hb); cbn [Z.mul Pos.mul] in Hr; lia|]).
    by apply elem_of_nil in Hin. }
  apply Forall2_fmap_l, Forall_Forall2_diag. eapply Forall_impl; [apply Forall_and; split; [exact Hall|exact Hw]|].
  intros b [(_ & Hs & Hwd) [Hw2 Hs2]]. unfold in_u in Hs, Hwd. cbn. split; [done|]. eexists. split; [done|]. apply bit_value_spec; [done|cbn; lia|cbn; lia].
Qed.

(** The client a server opens is at the head, accepts every entry, and is ready. *)
Lemma serve_udp_client x head x1 cid log : length (x_clients x) = 8%nat -> 0 < r_capacity (x_ring x) -> registry_ok x -> Forall (fits x) log -> 0 <= head ->
  btelem_serve_udp x head true true = Ok (x1, Some cid) ->
  0 <= cid < 8 /\ exists c, udp_client cid log x1 c /\ cl_cursor c = head /\ x_ring x1 = x_ring x /\ x_schema x1 = x_schema x /\ x_schema_count x1 = x_schema_count x.
Proof.
  intros Hl Hcap [R1 R2 R3 R4] Hfit Hh. unfold btelem_serve_udp, btelem_client_open. cbn [negb]. pose proof (free_slot_spec (x_clients x) 0) as Hf.
  destruct (free_slot (x_clients x) 0) as [i|]; cbn [mbind res_bind snd fst]; [|done]. destruct Hf as (c0 & _ & Hi & _). rewrite Nat.sub_0_r in Hi.
  pose proof (lookup_lt_Some _ _ _ Hi) as Hlt. intros [= <- <-]. split; [lia|]. exists (mkClient head (replicate 512 0) false 0 0 true). split; [|split_and!; reflexivity].
  split; [cbn; rewrite Nat2Z.id; by apply list_lookup_insert_eq|done|done|split; cbn; [lia|done|done]|done|by split|done].
Qed.

(** ** Properties *)

(** C38: What the UDP server sends is the log as JSON.  From its start to its stop
    the thread makes no access outside its arrays, whatever is logged; the
    datagrams are, in order, the texts of entries logged since the start (each cut
    at 4094 bytes; an entry of an unknown id has none), and of all of them when the
    server keeps up with the producers; each [sendto] is counted once, as sent or
    as an error; after the stop the server's client is free again. *)
Theorem udp_streams x head x1 cid sendto log ms m0 :
  log_ok log -> length (x_clients x) = 8%nat -> 0 < r_capacity (x_ring x) -> registry_ok x -> Forall (fits x) log -> 0 <= head ->
  btelem_serve_udp x head true true = Ok (x1, Some cid) ->
  growing head ms -> Forall (fun m => Faithful m log) ms ->
  returns (udp_drain_thread sendto cid (map (pair true) ms ++ [(false, m0)]) x1 udp_start) (fun r =>
    (exists es, es `sublist_of` slice log head (final_head head ms - head) /\ datagrams r.2 = texts_of x es /\
       (all_caught (r_capacity (x_ring x)) head ms -> es = slice log head (final_head head ms - head))) /\
    u_sent r.2 = wrap 64 (blen (filter (fun o => o.2 = true) (u_out r.2))) /\
    u_errors r.2 = wrap 64 (blen (filter (fun o => o.2 = false) (u_out r.2))) /\
    (forall k o, u_out r.2 !! k = Some o -> o.2 = sendto k) /\
    exists c, x_clients (btelem_udp_server_stop true r.1 cid) !! Z.to_nat cid = Some c /\ cl_active c = false).
Proof.
  intros Hlog Hl Hcap Hreg Hfit Hh Hs Hg HF.
  destruct (serve_udp_client x head x1 cid log Hl Hcap Hreg Hfit Hh Hs) as (Hid & c & Hc & Hcur & Er & Es & Ec).
  assert (Hu0 : udp_ok sendto udp_start) by (split; [reflexivity|reflexivity|reflexivity|done]).
  eapply returns_impl; [apply (udp_thread_ok sendto cid Hid log Hlog ms m0 x1 c udp_start head Hc Hu0 ltac:(lia) Hg HF)|].
  intros [x2 u2] (c2 & es & [[Ex2 Hc2] Hcur2 [[Hu1 Hu2 Hu3 Hu4] D2] Hes] & Hend & Hex). cbn [fst snd] in *. rewrite Hcur in *. rewrite Er in Hex.
  split_and!; [|exact Hu2|exact Hu3|exact Hu4|].
  - exists es. split_and!; [|rewrite D2; unfold texts_of, datagram, schema_of; by rewrite Es, Ec|auto]. etrans; [exact Hes|].
    rewrite (slice_split log head (cl_cursor c2) (final_head head ms)) by lia. apply sublist_inserts_r. done.
  - unfold btelem_udp_server_stop, btelem_client_close, BTELEM_MAX_CLIENTS. replace (_ || _) with false by lia. cbn.
    rewrite list_lookup_alter_eq, (uc_slot _ _ _ _ Hc2). by eexists.
Qed.


(** ** Limits of the code *)

(** The elements of an array are [entry.field.N]; btelem_serve_udp.h says
    [entry.field_N]. *)
Example array_member_keys :
  map fst (field_members (str "imu") (mkCField (str "acc") 0 2 5 3 None None) [x01; x00; x02; x00; xff; xff]) = [str "imu.acc.0"; str "imu.acc.1"; str "imu.acc.2"].
Proof. vm_compute. reflexivity. Qed.

(** An array of bytes that fills a payload does not fit the buffer: its datagram is
    cut in the middle of a member. *)
Definition samples_entry : btelem_schema_entry := mkCEntry 1 (str "sensor") None 232 1 [mkCField (str "samples") 0 1 0 232 None None].
Example long_array_cut :
  let t := json_text (entry_members samples_entry (mkDecodedEntry 1 0 (replicate 232 xff))) in
  4094 < blen t /\ drop 4080 (take 4094 t) = quote ++ str "sensor.sample".
Proof. vm_compute. split; reflexivity. Qed.

(** Eight digits: from 100 000 seconds on, a millisecond is the smallest step a
    time stamp shows. *)
Example timestamp_precision :
  value_text (JReal false (seconds 100000000000000)) = str "100000" /\ value_text (JReal false (seconds 100000000400000)) = str "100000".
Proof. vm_compute. split; reflexivity. Qed.

(** A bit range as wide as its 32-bit word shifts by 32, which is undefined; the
    viewer reads it. *)
Lemma wide_bit_undefined entry field raw name j : encode_bit entry field raw (mkCBit name 0 32) j = Panic.
Proof. reflexivity. Qed.
Lemma wide_bit_viewer p raw : in_u 32 raw -> bit_value p raw (mkBitDef (str "all") 0 32) = Ok raw.
Proof.
  intros Hr. unfold in_u in *. rewrite bit_value_spec by (cbn; unfold in_u; lia). cbn [bd_start bd_width]. rewrite Z.shiftr_0_r. by rewrite Z.mod_small.
Qed.

(** ** Witnesses *)
Definition udp_opened : btelem_ctx := match btelem_serve_udp demo_reg 0 true true with Ok (x, _) => x | _ => demo_reg end.

Lemma serve_log_fits : Forall (fits demo_reg) serve_log.
Proof.
  assert (H7 : schema_of demo_reg 7 = Some demo_imu) by reflexivity. assert (H3 : schema_of demo_reg 3 = Some demo_power) by reflexivity.
  repeat apply Forall_cons_2; [..|constructor]; intros se; cbn [de_id de_payload]; rewrite ?H7, ?H3; intros [= <-]; repeat apply Forall_cons_2; try constructor;
    try (intros H; discriminate H).
  - intros sz _ [= <-]. vm_compute. discriminate.
  - intros sz _ [= <-]. vm_compute. discriminate.
  - intros _. split; [intros _; vm_compute; discriminate|]. intros bf [= <-]. repeat constructor.
  - intros sz H. by destruct H.
Qed.

Lemma udp_streams_witness :
  exists x2 u, udp_drain_thread Nat.even 0 (map (pair true) [serve_memory; serve_memory] ++ [(false, serve_memory)]) udp_opened udp_start = Ok (x2, u) /\
    datagrams u = texts_of demo_reg serve_log.
Proof.
  assert (Hh : m_head serve_memory = 2) by (vm_compute; reflexivity).
  assert (Hc : r_capacity (x_ring demo_reg) = 4) by (vm_compute; reflexivity).
  pose proof (quiet_faithful _ _ serve_logged_ok) as HF.
  destruct (udp_streams demo_reg 0 udp_opened 0 Nat.even serve_log [serve_memory; serve_memory] serve_memory) as ([x2 u] & E & (es & _ & D & Hall) & _).
  - apply log_okb_spec. vm_compute. reflexivity.
  - reflexivity.
  - rewrite Hc. lia.
  - exact demo_reg_ok.
  - exact serve_log_fits.
  - lia.
  - vm_compute. reflexivity.
  - cbn [growing]. rewrite Hh. lia.
  - repeat constructor; exact HF || apply HF.
  - exists x2, u. split; [exact E|]. cbn [snd] in D. rewrite D. f_equal. rewrite Hall.
    + cbn [final_head foldl]. rewrite Hh. reflexivity.
    + rewrite Hc. cbn [all_caught]. unfold caught. rewrite Hh. split_and!; [lia| |lia| |done].
      * intros i Hi. split; [|apply Z.eqb_refl]. apply (quiet_committed _ serve_log); [exact serve_logged_ok| |unfold blen; cbn; lia].
        assert (r_capacity (x_ring serve_logged) = 4) as -> by (vm_compute; reflexivity). unfold blen. cbn. lia.
      * intros i Hi. lia.
Defined.

Example udp_text : texts_of demo_reg serve_log =
  [str "{" ++ quote ++ str "timestamp" ++ colon ++ str "1e-06," ++ quote ++ str "imu.x" ++ colon ++ str "1," ++ quote ++ str "imu.mode" ++ colon ++ str "1}" ++ [x0a];
   str "{" ++ quote ++ str "timestamp" ++ colon ++ str "1.001e-06," ++ quote ++ str "power.flags.armed" ++ colon ++ str "1," ++ quote ++ str "power.flags" ++ colon ++ str "2}" ++ [x0a]].
Proof. vm_compute. reflexivity. Qed.

